(** * agents-task-assigning: the coordination engine, embedded and verified

    A shallow embedding of the TypeScript sources
      - src/services/dag-service.ts      (module [Dag])
      - src/services/conflict-service.ts (module [Conflict])
      - src/db/schema.ts, src/db/queries.ts (module [Queries])
      - src/services/git-service.ts      (record [GitService], an oracle)
      - src/services/task-service.ts     (module [TaskService])
    followed by the properties the specification states about them.

    Conventions.
    - A JS [Map<string, V>] is an insertion-ordered association list with
      unique keys ([JsMap]); a JS [Set<string>] is a [gset string].
    - A table of the SQLite store is the list of its rows in insertion
      order; a query is a list comprehension over the tables.
    - A method that may throw returns a [Result]; the store is threaded
      explicitly, so the state a throwing call leaves behind is visible.
    - Sources of fresh values ([uuidv4()], [new Date()], [datetime('now')])
      and the git binary are inputs of the operations. *)

From Stdlib Require Import ZArith Lia Bool Ascii String List Sorted.
From Stdlib Require Import DecimalString DecimalPos DecimalZ.
From stdpp Require Import base tactics option list relations strings gmap.

Local Open Scope string_scope.
Local Open Scope Z_scope.
Local Open Scope list_scope.

(* ===================================================================== *)
(** * JavaScript containers *)
(* ===================================================================== *)

(** [Map<string, V>]: entries in insertion order.  [set] on a key that is
    present replaces the value in place; on a new key it appends. *)
Module JsMap.

Definition t (V : Type) : Type := list (string * V).

Definition empty {V} : t V := [].

Fixpoint get {V} (m : t V) (k : string) : option V :=
  match m with
  | [] => None
  | (k', v) :: rest => if String.eqb k' k then Some v else get rest k
  end.

Definition has {V} (m : t V) (k : string) : bool :=
  match get m k with Some _ => true | None => false end.

Fixpoint set {V} (m : t V) (k : string) (v : V) : t V :=
  match m with
  | [] => [(k, v)]
  | (k', v') :: rest =>
      if String.eqb k' k then (k', v) :: rest else (k', v') :: set rest k v
  end.

Definition keys {V} (m : t V) : list string := map fst m.

Definition entries {V} (m : t V) : list (string * V) := m.

Definition size {V} (m : t V) : nat := length m.

End JsMap.

(** [a ?? b] on an optional value. *)
Definition nullish {A} (o : option A) (d : A) : A :=
  match o with Some a => a | None => d end.

(** [arr.includes(x)] and [arr.every(p)] on arrays of strings. *)
Definition includes (l : list string) (x : string) : bool :=
  existsb (String.eqb x) l.

Definition every {A} (p : A -> bool) (l : list A) : bool := forallb p l.

(** [set.has(x)] *)
Definition set_has (s : gset string) (x : string) : bool := bool_decide (x ∈ s).

(* ===================================================================== *)
(** * JavaScript values and JSON *)
(* ===================================================================== *)

(** [`${n}`] for an integer [n]; also [n] as a JSON number. *)
Definition show_Z (n : Z) : string := NilZero.string_of_int (Z.to_int n).

(** [arr.join(sep)] *)
Fixpoint join (sep : string) (l : list string) : string :=
  match l with
  | [] => EmptyString
  | x :: rest =>
      match rest with
      | [] => x
      | _ :: _ => x +:+ sep +:+ join sep rest
      end
  end.

(** The values that reach [JSON.stringify] in this code base.  Numbers
    are the integers (sequence numbers and percentages are all the code
    stores); a string is a sequence of one-byte code units. *)
#[local] Unset Elimination Schemes.
Inductive jsval : Type :=
| JUndefined
| JNull
| JBool (b : bool)
| JNum (n : Z)
| JStr (s : string)
| JArr (items : list jsval)
| JObj (props : list (string * jsval)).
#[local] Set Elimination Schemes.

(** [v ? a : b] *)
Definition truthy (v : jsval) : bool :=
  match v with
  | JUndefined | JNull => false
  | JBool b => b
  | JNum n => negb (Z.eqb n 0)
  | JStr s => negb (String.eqb s EmptyString)
  | JArr _ | JObj _ => true
  end.

(** [JSON.stringify] and [JSON.parse] are the platform's (ECMA-262, 25.5).
    [stringify] follows SerializeJSONProperty: a property whose value is
    [undefined] is left out of an object, an [undefined] array element is
    written [null], strings are quoted by QuoteJSONString.  [parse] reads
    the JSON grammar without insignificant white space, fractions or
    exponents, which is the language [stringify] writes for these values;
    [None] stands for the [SyntaxError] it throws. *)
Module Json.

Definition dquote : ascii := "034"%char.
Definition backslash : ascii := "092"%char.

Definition hex_digit (n : N) : ascii :=
  match n with
  | 0 => "0" | 1 => "1" | 2 => "2" | 3 => "3" | 4 => "4" | 5 => "5"
  | 6 => "6" | 7 => "7" | 8 => "8" | 9 => "9" | 10 => "a" | 11 => "b"
  | 12 => "c" | 13 => "d" | 14 => "e" | _ => "f"
  end%N%char.

Definition hex_value (c : ascii) : option N :=
  let n := N_of_ascii c in
  if (48 <=? n)%N && (n <=? 57)%N then Some (n - 48)%N
  else if (97 <=? n)%N && (n <=? 102)%N then Some (n - 87)%N
  else if (65 <=? n)%N && (n <=? 70)%N then Some (n - 55)%N
  else None.

(** QuoteJSONString, one code unit at a time. *)
Definition escape_char (c : ascii) : string :=
  let n := N_of_ascii c in
  if (n =? 34)%N then String backslash (String dquote EmptyString)
  else if (n =? 92)%N then String backslash (String backslash EmptyString)
  else if (n =? 8)%N then String backslash "b"
  else if (n =? 12)%N then String backslash "f"
  else if (n =? 10)%N then String backslash "n"
  else if (n =? 13)%N then String backslash "r"
  else if (n =? 9)%N then String backslash "t"
  else if (n <? 32)%N then
    String backslash (String "u" (String "0" (String "0"
      (String (hex_digit (n / 16)) (String (hex_digit (n mod 16)) EmptyString)))))
  else String c EmptyString.

Fixpoint escape (s : string) : string :=
  match s with
  | EmptyString => EmptyString
  | String c rest => escape_char c +:+ escape rest
  end.

Definition quote (s : string) : string :=
  String dquote (escape s +:+ String dquote EmptyString).

(** The members of an object: a property whose value serialises to
    [undefined] is skipped. *)
Definition member_strings (serialize : jsval -> option string)
    : list (string * jsval) -> list string :=
  fix members (ps : list (string * jsval)) : list string :=
    match ps with
    | [] => []
    | (k, x) :: rest =>
        match serialize x with
        | Some t => (quote k +:+ ":" +:+ t) :: members rest
        | None => members rest
        end
    end.

(** SerializeJSONProperty; [None] is [undefined]. *)
Fixpoint stringify (v : jsval) : option string :=
  match v with
  | JUndefined => None
  | JNull => Some "null"
  | JBool true => Some "true"
  | JBool false => Some "false"
  | JNum n => Some (show_Z n)
  | JStr s => Some (quote s)
  | JArr items =>
      Some ("[" +:+ join ","
              (map (fun x => nullish (stringify x) "null") items) +:+ "]")
  | JObj props =>
      Some ("{" +:+ join "," (member_strings stringify props) +:+ "}")
  end.

(** The characters of a string literal after its opening quote. *)
Fixpoint parse_string_body (s : string) : option (string * string) :=
  match s with
  | EmptyString => None
  | String c rest =>
      if Ascii.eqb c dquote then Some (EmptyString, rest)
      else if Ascii.eqb c backslash then
        match rest with
        | EmptyString => None
        | String e rest' =>
            let simple (ch : ascii) :=
              match parse_string_body rest' with
              | Some (t, r) => Some (String ch t, r)
              | None => None
              end in
            if Ascii.eqb e dquote then simple dquote
            else if Ascii.eqb e backslash then simple backslash
            else if Ascii.eqb e "/" then simple "/"%char
            else if Ascii.eqb e "b" then simple "008"%char
            else if Ascii.eqb e "f" then simple "012"%char
            else if Ascii.eqb e "n" then simple "010"%char
            else if Ascii.eqb e "r" then simple "013"%char
            else if Ascii.eqb e "t" then simple "009"%char
            else if Ascii.eqb e "u" then
              match rest' with
              | String h1 (String h2 (String h3 (String h4 r))) =>
                  match hex_value h1, hex_value h2, hex_value h3, hex_value h4 with
                  | Some a, Some b, Some c', Some d =>
                      let code := (((a * 16 + b) * 16 + c') * 16 + d)%N in
                      if (code <? 256)%N then
                        match parse_string_body r with
                        | Some (t, r') => Some (String (ascii_of_N code) t, r')
                        | None => None
                        end
                      else None
                  | _, _, _, _ => None
                  end
              | _ => None
              end
            else None
        end
      else if (N_of_ascii c <? 32)%N then None
      else
        match parse_string_body rest with
        | Some (t, r) => Some (String c t, r)
        | None => None
        end
  end.

Definition is_digit (c : ascii) : bool :=
  (48 <=? N_of_ascii c)%N && (N_of_ascii c <=? 57)%N.

Fixpoint span_digits (s : string) : string * string :=
  match s with
  | EmptyString => (EmptyString, EmptyString)
  | String c rest =>
      if is_digit c then
        let '(ds, r) := span_digits rest in (String c ds, r)
      else (EmptyString, s)
  end.

Definition parse_digits (s : string) : option (Z * string) :=
  let '(ds, r) := span_digits s in
  match ds with
  | EmptyString => None
  | _ =>
      match NilEmpty.uint_of_string ds with
      | Some d => Some (Z.of_uint d, r)
      | None => None
      end
  end.

(** The rest of [s] after the literal [word]. *)
Fixpoint drop_prefix (word s : string) : option string :=
  match word with
  | EmptyString => Some s
  | String a word' =>
      match s with
      | String b rest => if Ascii.eqb a b then drop_prefix word' rest else None
      | EmptyString => None
      end
  end.

Definition expect (word : string) (s : string) (v : jsval) : option (jsval * string) :=
  match drop_prefix word s with
  | Some rest => Some (v, rest)
  | None => None
  end.

Fixpoint parse_value (fuel : nat) (s : string) : option (jsval * string) :=
  match fuel with
  | O => None
  | S fuel' =>
      match s with
      | EmptyString => None
      | String c rest =>
          if Ascii.eqb c "n" then expect "ull" rest JNull
          else if Ascii.eqb c "t" then expect "rue" rest (JBool true)
          else if Ascii.eqb c "f" then expect "alse" rest (JBool false)
          else if Ascii.eqb c dquote then
            match parse_string_body rest with
            | Some (t, r) => Some (JStr t, r)
            | None => None
            end
          else if Ascii.eqb c "[" then
            match rest with
            | String c' r =>
                if Ascii.eqb c' "]" then Some (JArr [], r)
                else match parse_elements fuel' rest with
                     | Some (vs, r') => Some (JArr vs, r')
                     | None => None
                     end
            | EmptyString => None
            end
          else if Ascii.eqb c "{" then
            match rest with
            | String c' r =>
                if Ascii.eqb c' "}" then Some (JObj [], r)
                else match parse_members fuel' rest with
                     | Some (ps, r') => Some (JObj ps, r')
                     | None => None
                     end
            | EmptyString => None
            end
          else if Ascii.eqb c "-" then
            match parse_digits rest with
            | Some (n, r) => Some (JNum (- n), r)
            | None => None
            end
          else
            match parse_digits s with
            | Some (n, r) => Some (JNum n, r)
            | None => None
            end
      end
  end
with parse_elements (fuel : nat) (s : string) : option (list jsval * string) :=
  match fuel with
  | O => None
  | S fuel' =>
      match parse_value fuel' s with
      | Some (v, String c r) =>
          if Ascii.eqb c "," then
            match parse_elements fuel' r with
            | Some (vs, r') => Some (v :: vs, r')
            | None => None
            end
          else if Ascii.eqb c "]" then Some ([v], r)
          else None
      | _ => None
      end
  end
with parse_members (fuel : nat) (s : string)
    : option (list (string * jsval) * string) :=
  match fuel with
  | O => None
  | S fuel' =>
      match s with
      | String q s1 =>
          if Ascii.eqb q dquote then
            match parse_string_body s1 with
            | Some (k, String colon s2) =>
                if Ascii.eqb colon ":" then
                  match parse_value fuel' s2 with
                  | Some (v, String c r) =>
                      if Ascii.eqb c "," then
                        match parse_members fuel' r with
                        | Some (ps, r') => Some ((k, v) :: ps, r')
                        | None => None
                        end
                      else if Ascii.eqb c "}" then Some ([(k, v)], r)
                      else None
                  | _ => None
                  end
                else None
            | _ => None
            end
          else None
      | EmptyString => None
      end
  end.

(** [JSON.parse(text)]: the whole text must be one value. *)
Definition parse (text : string) : option jsval :=
  match parse_value (S (String.length text)) text with
  | Some (v, EmptyString) => Some v
  | _ => None
  end.

End Json.

Example stringify_ex :
  Json.stringify
    (JObj [("files_changed", JArr [JStr "src/foo.ts"; JStr "src/bar.ts"]);
           ("lines_added", JNum 42);
           ("reason", JUndefined);
           ("nested", JObj [("key", JStr "value")])])
  = Some ("{" +:+ Json.quote "files_changed" +:+ ":["
          +:+ Json.quote "src/foo.ts" +:+ "," +:+ Json.quote "src/bar.ts" +:+ "],"
          +:+ Json.quote "lines_added" +:+ ":42,"
          +:+ Json.quote "nested" +:+ ":{" +:+ Json.quote "key" +:+ ":"
          +:+ Json.quote "value" +:+ "}}").
Proof. vm_compute. reflexivity. Qed.

Example parse_ex :
  option_bind _ _ Json.parse
    (Json.stringify
       (JObj [("files_changed", JArr [JStr "src/foo.ts"; JStr "src/bar.ts"]);
              ("lines_added", JNum (-42)); ("ok", JBool true); ("z", JNull);
              ("nested", JObj [("key", JStr "va\lue"); ("e", JArr []); ("o", JObj [])])]))
  = Some (JObj [("files_changed", JArr [JStr "src/foo.ts"; JStr "src/bar.ts"]);
              ("lines_added", JNum (-42)); ("ok", JBool true); ("z", JNull);
              ("nested", JObj [("key", JStr "va\lue"); ("e", JArr []); ("o", JObj [])])]).
Proof. vm_compute. reflexivity. Qed.

(* ===================================================================== *)
(** * DAG engine (src/services/dag-service.ts) *)
(* ===================================================================== *)

Module Dag.

Definition WHITE : nat := 0%nat.
Definition GRAY : nat := 1%nat.
Definition BLACK : nat := 2%nat.

Record validation := { valid : bool; cycle : option (list string) }.

(** The two maps the closure [dfs] mutates. *)
Record dfs_state := {
  color : JsMap.t nat;
  parent : JsMap.t (option string) (* [None] is JS [null] *)
}.

(** "Initialize all nodes": the colour map after the first loop. *)
Definition init_deps (color : JsMap.t nat) (deps : list string) : JsMap.t nat :=
  fold_left
    (fun color dep =>
       if negb (JsMap.has color dep) then JsMap.set color dep WHITE else color)
    deps color.

Definition init_colors (dependencies : JsMap.t (list string)) : JsMap.t nat :=
  fold_left
    (fun color '(node, deps) => init_deps (JsMap.set color node WHITE) deps)
    (JsMap.entries dependencies) JsMap.empty.

(** The [while] loop that walks the parent links.  [cycle] grows by
    [push]; the loop has no bound of its own, hence the fuel.  When
    [parent.get(current)] is [undefined] both tests of the loop condition
    hold and [current] becomes [undefined] for good: no fuel suffices. *)
Fixpoint walk_parents (fuel : nat) (parent : JsMap.t (option string))
    (neighbor current : string) (cycle : list string) : option (list string) :=
  match fuel with
  | O => None
  | S fuel' =>
      match JsMap.get parent current with
      | Some None => Some cycle
      | Some (Some p) =>
          if String.eqb p neighbor then Some cycle
          else walk_parents fuel' parent neighbor p (cycle ++ [p])
      | None => None
      end
  end.

(** The body of [dfs(node)] from its [for] loop on: [rec] is the
    recursive call [dfs(neighbor)].  [None] is "out of fuel";
    [Some (r, st)] is the value returned ([r = None] for JS [null]) and
    the two maps after the call.  [bound] is the fuel of the parent walk. *)
Definition dfs_loop
    (rec : string -> dfs_state -> option (option (list string) * dfs_state))
    (bound : nat) (node : string)
    : list string -> dfs_state -> option (option (list string) * dfs_state) :=
  fix loop (neighbors : list string) (st : dfs_state) :=
    match neighbors with
    | [] =>
        Some (None, {| color := JsMap.set (color st) node BLACK;
                       parent := parent st |})
    | neighbor :: rest =>
        let neighborColor := nullish (JsMap.get (color st) neighbor) WHITE in
        if Nat.eqb neighborColor GRAY then
          match walk_parents bound (parent st) neighbor node [neighbor; node] with
          | Some cycle => Some (Some (rev cycle), st)
          | None => None
          end
        else if Nat.eqb neighborColor WHITE then
          let st' := {| color := color st;
                        parent := JsMap.set (parent st) neighbor (Some node) |} in
          match rec neighbor st' with
          | None => None
          | Some (Some result, st'') => Some (Some result, st'')
          | Some (None, st'') => loop rest st''
          end
        else loop rest st
    end.

(** [dfs(node)] *)
Fixpoint dfs (bound fuel : nat) (dependencies : JsMap.t (list string))
    (node : string) (st : dfs_state) : option (option (list string) * dfs_state) :=
  match fuel with
  | O => None
  | S fuel' =>
      let st1 := {| color := JsMap.set (color st) node GRAY; parent := parent st |} in
      let neighbors := nullish (JsMap.get dependencies node) [] in
      dfs_loop (dfs bound fuel' dependencies) bound node neighbors st1
  end.

(** The last loop, over [color.keys()].  No key is added while it runs
    (lemma [dfs_keys] below), so the live iterator sees the keys the map
    had when the loop started. *)
Fixpoint visit_all (bound : nat) (dependencies : JsMap.t (list string))
    (nodes : list string) (st : dfs_state) : option validation :=
  match nodes with
  | [] => Some {| valid := true; cycle := None |}
  | node :: rest =>
      if Nat.eqb (nullish (JsMap.get (color st) node) WHITE) WHITE then
        let st' := {| color := color st;
                      parent := JsMap.set (parent st) node None |} in
        match dfs bound bound dependencies node st' with
        | None => None
        | Some (Some cycle, _) => Some {| valid := false; cycle := Some cycle |}
        | Some (None, st'') => visit_all bound dependencies rest st''
        end
      else visit_all bound dependencies rest st
  end.

(** [validateNoCycles(dependencies)].  The recursion depth of [dfs] and the
    length of a parent walk are at most the number of nodes; the fuel is
    one more than that, and [validateNoCycles_total] shows it is never
    exhausted. *)
Definition validateNoCycles (dependencies : JsMap.t (list string))
    : option validation :=
  let color := init_colors dependencies in
  visit_all (S (JsMap.size color)) dependencies (JsMap.keys color)
    {| color := color; parent := JsMap.empty |}.

(** The two maps of [topologicalSort]. *)
Record sort_maps := {
  inDegree : JsMap.t Z;
  adjacency : JsMap.t (list string)
}.

(** "Collect all nodes": the two [if (!m.has(x)) m.set(x, ...)] on one
    node ... *)
Definition collect_node (st : sort_maps) (node : string) : sort_maps :=
  {| inDegree :=
       if negb (JsMap.has (inDegree st) node)
       then JsMap.set (inDegree st) node 0 else inDegree st;
     adjacency :=
       if negb (JsMap.has (adjacency st) node)
       then JsMap.set (adjacency st) node [] else adjacency st |}.

(** ... and the loop over the entries. *)
Definition collect_nodes (dependencies : JsMap.t (list string)) : sort_maps :=
  fold_left
    (fun st '(node, deps) => fold_left collect_node deps (collect_node st node))
    (JsMap.entries dependencies)
    {| inDegree := JsMap.empty; adjacency := JsMap.empty |}.

(** [adj = adjacency.get(dep) ?? []; adj.push(node); adjacency.set(dep, adj)] *)
Definition add_edge (node : string) (adjacency : JsMap.t (list string))
    (dep : string) : JsMap.t (list string) :=
  JsMap.set adjacency dep (nullish (JsMap.get adjacency dep) [] ++ [node]).

(** "Build adjacency ... and compute in-degrees" *)
Definition build_adjacency (dependencies : JsMap.t (list string))
    (st : sort_maps) : sort_maps :=
  fold_left
    (fun st '(node, deps) =>
       {| inDegree :=
            JsMap.set (inDegree st) node
              (nullish (JsMap.get (inDegree st) node) 0 + Z.of_nat (length deps));
          adjacency := fold_left (add_edge node) deps (adjacency st) |})
    (JsMap.entries dependencies) st.

(** The nodes of in-degree 0, in the order of the map. *)
Definition initial_queue (inDegree : JsMap.t Z) : list string :=
  map fst (List.filter (fun entry => Z.eqb (snd entry) 0) (JsMap.entries inDegree)).

(** One turn of the [for] loop over the neighbours of a dequeued node. *)
Definition release (st : JsMap.t Z * list string) (neighbor : string)
    : JsMap.t Z * list string :=
  let newDegree := nullish (JsMap.get (fst st) neighbor) 1 - 1 in
  (JsMap.set (fst st) neighbor newDegree,
   if Z.eqb newDegree 0 then snd st ++ [neighbor] else snd st).

(** The [while (queue.length > 0)] loop; [None] is "out of fuel". *)
Fixpoint drain (fuel : nat) (adjacency : JsMap.t (list string))
    (inDegree : JsMap.t Z) (queue result : list string) : option (list string) :=
  match fuel with
  | O => None
  | S fuel' =>
      match queue with
      | [] => Some result
      | node :: queue' =>
          let neighbors := nullish (JsMap.get adjacency node) [] in
          let st := fold_left release neighbors (inDegree, queue') in
          drain fuel' adjacency (fst st) (snd st) (result ++ [node])
      end
  end.

(** [topologicalSort(dependencies)].  A node is dequeued at most once, so
    the loop takes at most as many turns as there are nodes
    ([topologicalSort_total] below); [None] is "out of fuel", [Some None]
    the [Error] thrown for a cycle. *)
Definition topologicalSort (dependencies : JsMap.t (list string))
    : option (option (list string)) :=
  let st := build_adjacency dependencies (collect_nodes dependencies) in
  match drain (S (JsMap.size (inDegree st))) (adjacency st) (inDegree st)
          (initial_queue (inDegree st)) [] with
  | None => None
  | Some result =>
      if negb (Nat.eqb (length result) (JsMap.size (inDegree st)))
      then Some None
      else Some (Some result)
  end.

(** [canStart(taskId, dependencies, completedTasks)] *)
Definition canStart (taskId : string) (dependencies : JsMap.t (list string))
    (completedTasks : gset string) : bool :=
  let deps := nullish (JsMap.get dependencies taskId) [] in
  every (fun dep => set_has completedTasks dep) deps.

(** [getUnlockedTasks(completedTaskId, allDependencies, completedTasks)].
    The [for ... of] loop with its two [continue]s; [push] order is
    iteration order. *)
Definition getUnlockedTasks (completedTaskId : string)
    (allDependencies : JsMap.t (list string)) (completedTasks : gset string)
    : list string :=
  let newCompleted := completedTasks ∪ {[completedTaskId]} in
  (fix loop (entries : list (string * list string)) : list string :=
     match entries with
     | [] => []
     | (taskId, deps) :: rest =>
         if set_has newCompleted taskId then loop rest
         else if negb (includes deps completedTaskId) then loop rest
         else if every (fun dep => set_has newCompleted dep) deps
              then taskId :: loop rest
              else loop rest
     end) (JsMap.entries allDependencies).

End Dag.

Example validate_diamond :
  Dag.validateNoCycles [("A", ["B"; "C"]); ("B", ["D"]); ("C", ["D"])]
  = Some {| Dag.valid := true; Dag.cycle := None |}.
Proof. vm_compute. reflexivity. Qed.

Example validate_self :
  Dag.validateNoCycles [("A", ["A"])]
  = Some {| Dag.valid := false; Dag.cycle := Some ["A"; "A"] |}.
Proof. vm_compute. reflexivity. Qed.

Example validate_big :
  Dag.validateNoCycles [("A", ["B"]); ("B", ["C"]); ("C", ["D"]); ("D", ["B"]); ("E", ["A"])]
  = Some {| Dag.valid := false; Dag.cycle := Some ["C"; "D"; "B"] |}.
Proof. vm_compute. reflexivity. Qed.

Example sort_diamond :
  Dag.topologicalSort [("D", ["B"; "C"]); ("B", ["A"]); ("C", ["A"])]
  = Some (Some ["A"; "B"; "C"; "D"]).
Proof. vm_compute. reflexivity. Qed.

Example sort_cycle :
  Dag.topologicalSort [("A", ["B"]); ("B", ["C"]); ("C", ["A"]); ("D", [])]
  = Some None.
Proof. vm_compute. reflexivity. Qed.

Example unlocked_ex :
  Dag.getUnlockedTasks "A" [("B", ["A"]); ("C", ["A"])] ∅ = ["B"; "C"].
Proof. vm_compute. reflexivity. Qed.

(* ===================================================================== *)
(** * Data model (src/types/index.ts, src/db/schema.ts) *)
(* ===================================================================== *)

Inductive TaskStatus : Type :=
| pending | assigned | in_progress | in_review | completed | failed | blocked.

Inductive TaskPriority : Type := high | medium | low.

Inductive OwnershipType : Type := exclusive | shared.

Inductive ProgressEvent : Type :=
| Claimed | Started | ProgressUpdate | Rebased
| Completed | Failed | Merged | ConflictDetected.

Inductive MergeStrategy : Type := strategy_merge | strategy_squash.

#[global] Instance TaskStatus_eq_dec : EqDecision TaskStatus.
Proof. solve_decision. Defined.

#[global] Instance OwnershipType_eq_dec : EqDecision OwnershipType.
Proof. solve_decision. Defined.

(** [`${task.status}`] *)
Definition show_status (s : TaskStatus) : string :=
  match s with
  | pending => "pending" | assigned => "assigned" | in_progress => "in_progress"
  | in_review => "in_review" | completed => "completed" | failed => "failed"
  | blocked => "blocked"
  end.

Definition show_strategy (s : MergeStrategy) : string :=
  match s with strategy_merge => "merge" | strategy_squash => "squash" end.

(** A nullable TEXT column / a [string | null] field is an [option string]. *)
Module Task.
Record t : Type := mk {
  id : string;
  group_id : string;
  sequence : Z;
  title : string;
  description : string;
  status : TaskStatus;
  priority : TaskPriority;
  assigned_to : option string;
  branch_name : option string;
  worktree_path : option string;
  progress : Z;
  progress_note : option string;
  created_at : string;
  started_at : option string;
  completed_at : option string;
  merged_at : option string
}.
End Task.

(** The sparse field set of [updateTask]: a field is [None] when the key is
    missing or [undefined], [Some v] when it is to be written. *)
Module TaskUpdates.
Record t : Type := mk {
  status : option TaskStatus;
  assigned_to : option (option string);
  branch_name : option (option string);
  worktree_path : option (option string);
  progress : option Z;
  progress_note : option (option string);
  started_at : option (option string);
  completed_at : option (option string);
  merged_at : option (option string)
}.
Definition empty : t := mk None None None None None None None None None.
End TaskUpdates.

Module TaskGroup.
Record t : Type := mk {
  id : string;
  title : string;
  description : string;
  created_at : string;
  status : string
}.
End TaskGroup.

Module TaskDependency.
Record t : Type := mk { task_id : string; depends_on : string }.
End TaskDependency.

Module TaskFileOwnership.
Record t : Type := mk {
  task_id : string;
  file_pattern : string;
  ownership_type : OwnershipType
}.
End TaskFileOwnership.

(** A progress log as the service sees it ([metadata] is a JS value, [JNull]
    for [null]) ... *)
Module ProgressLog.
Record t : Type := mk {
  id : string;
  task_id : string;
  timestamp : string;
  event : ProgressEvent;
  message : string;
  metadata : jsval
}.
End ProgressLog.

(** ... as it is handed to [addProgressLog] ([Omit<ProgressLog, "timestamp">]) ... *)
Module NewProgressLog.
Record t : Type := mk {
  id : string;
  task_id : string;
  event : ProgressEvent;
  message : string;
  metadata : jsval
}.
End NewProgressLog.

(** ... and as the row of [progress_logs], whose [metadata] column is TEXT. *)
Module ProgressLogRow.
Record t : Type := mk {
  id : string;
  task_id : string;
  timestamp : string;
  event : ProgressEvent;
  message : string;
  metadata : option string
}.
End ProgressLogRow.

(** The five tables, rows in insertion order. *)
Record DB : Type := mkDB {
  task_groups : list TaskGroup.t;
  tasks : list Task.t;
  task_dependencies : list TaskDependency.t;
  task_file_ownership : list TaskFileOwnership.t;
  progress_logs : list ProgressLogRow.t
}.

(** What a call that may throw produces. *)
Inductive Result (A : Type) : Type :=
| Ok (value : A)
| Throw (message : string).
Arguments Ok {A} value.
Arguments Throw {A} message.

(** [s ? a : b] for a [string | null]: [null] and the empty string are falsy. *)
Definition truthy_string (o : option string) : bool :=
  match o with
  | Some s => negb (String.eqb s EmptyString)
  | None => false
  end.

(** [ORDER BY key ASC]: a stable insertion sort. *)
Fixpoint insert_by {A} (le : A -> A -> bool) (x : A) (l : list A) : list A :=
  match l with
  | [] => [x]
  | y :: rest => if le x y then x :: l else y :: insert_by le x rest
  end.

Definition sort_by {A} (le : A -> A -> bool) (l : list A) : list A :=
  fold_right (insert_by le) [] l.

(* ===================================================================== *)
(** * Ownership engine (src/services/conflict-service.ts) *)
(* ===================================================================== *)

Module Conflict.

Definition star : ascii := "*"%char.
Definition slash : ascii := "/"%char.

(** [p.replace(/\*\*\/?/g, '')]: every ["**"], with the ["/"] after it
    when there is one, is dropped, scanning from the left. *)
Fixpoint drop_double_stars (p : string) : string :=
  match p with
  | String a ((String b rest) as tail) =>
      if Ascii.eqb a star && Ascii.eqb b star then
        match rest with
        | String c rest' =>
            if Ascii.eqb c slash then drop_double_stars rest'
            else drop_double_stars rest
        | EmptyString => EmptyString
        end
      else String a (drop_double_stars tail)
  | _ => p
  end.

(** [p.replace(/\*/g, '')] *)
Fixpoint drop_stars (p : string) : string :=
  match p with
  | EmptyString => EmptyString
  | String a rest =>
      if Ascii.eqb a star then drop_stars rest else String a (drop_stars rest)
  end.

(** [p.replace(/\/+$/, '')] *)
Fixpoint drop_trailing_slashes (p : string) : string :=
  match p with
  | EmptyString => EmptyString
  | String a rest =>
      match drop_trailing_slashes rest with
      | EmptyString => if Ascii.eqb a slash then EmptyString else String a EmptyString
      | kept => String a kept
      end
  end.

Definition normalize (p : string) : string :=
  drop_trailing_slashes (drop_stars (drop_double_stars p)).

(** [a.startsWith(b)] *)
Definition startsWith (a b : string) : bool := String.prefix b a.

Definition patternsOverlap (pattern1 pattern2 : string) : bool :=
  let base1 := normalize pattern1 in
  let base2 := normalize pattern2 in
  if (Nat.eqb (String.length base1) 0 || Nat.eqb (String.length base2) 0)%bool
  then true
  else (startsWith base1 base2 || startsWith base2 base1)%bool.

(** [s] without the suffix [suffix], when it ends with it. *)
Definition strip_suffix (suffix s : string) : option string :=
  let n := (String.length s - String.length suffix)%nat in
  if (String.length suffix <=? String.length s)%nat
     && String.eqb (String.substring n (String.length suffix) s) suffix
  then Some (String.substring 0 n s)
  else None.

(** [pattern.replace(/\*\*\/?$/, '').replace(/\*$/, '')] *)
Definition strip_glob_suffix (pattern : string) : string :=
  let step1 :=
    match strip_suffix "**/" pattern with
    | Some s => s
    | None => nullish (strip_suffix "**" pattern) pattern
    end in
  nullish (strip_suffix "*" step1) step1.

Record FoundConflict : Type := {
  conflict_task : Task.t;
  conflicting_pattern : string;
  conflict_ownership_type : OwnershipType
}.

(** [findConflicts(taskPatterns, otherTasks)]: the three nested loops;
    [push] order is iteration order. *)
Definition findConflicts (taskPatterns : list TaskFileOwnership.t)
    (otherTasks : list (Task.t * list TaskFileOwnership.t)) : list FoundConflict :=
  flat_map
    (fun myOwnership =>
       flat_map
         (fun other : Task.t * list TaskFileOwnership.t =>
            flat_map
              (fun otherOwnership =>
                 if (bool_decide (TaskFileOwnership.ownership_type myOwnership = exclusive)
                     || bool_decide
                          (TaskFileOwnership.ownership_type otherOwnership = exclusive))
                    && patternsOverlap (TaskFileOwnership.file_pattern myOwnership)
                         (TaskFileOwnership.file_pattern otherOwnership)
                 then [{| conflict_task := fst other;
                          conflicting_pattern :=
                            TaskFileOwnership.file_pattern otherOwnership;
                          conflict_ownership_type :=
                            TaskFileOwnership.ownership_type otherOwnership |}]
                 else [])
              (snd other))
         otherTasks)
    taskPatterns.

Definition fileMatchesPatterns (filePath : string) (patterns : list string) : bool :=
  existsb
    (fun pattern =>
       let base := strip_glob_suffix pattern in
       (Nat.eqb (String.length base) 0
        || startsWith filePath base
        || String.eqb filePath pattern)%bool)
    patterns.

Definition checkFileConflicts (changedFiles : list string)
    (otherTasks : list (Task.t * list TaskFileOwnership.t)) : list string :=
  flat_map
    (fun file =>
       flat_map
         (fun other : Task.t * list TaskFileOwnership.t =>
            let exclusivePatterns :=
              map TaskFileOwnership.file_pattern
                (List.filter
                   (fun p => bool_decide (TaskFileOwnership.ownership_type p = exclusive))
                   (snd other)) in
            if fileMatchesPatterns file exclusivePatterns then
              ["File " +:+ String Json.dquote file +:+ String Json.dquote
                 " conflicts with task #" +:+ show_Z (Task.sequence (fst other))
                 +:+ " " +:+ String Json.dquote (Task.title (fst other))
                 +:+ String Json.dquote " which has exclusive ownership"]
            else [])
         otherTasks)
    changedFiles.

End Conflict.

Example normalize_ex1 : Conflict.normalize "src/db/**" = "src/db".
Proof. reflexivity. Qed.
Example normalize_ex2 : Conflict.normalize "src/**/x/*.ts" = "src/x/.ts".
Proof. reflexivity. Qed.
Example strip_ex1 : Conflict.strip_glob_suffix "src/db/**" = "src/db/".
Proof. reflexivity. Qed.
Example strip_ex2 : Conflict.strip_glob_suffix "a***" = "a".
Proof. reflexivity. Qed.
Example overlap_ex : Conflict.patternsOverlap "src/db/**" "src/db/schema.ts" = true.
Proof. reflexivity. Qed.

(* ===================================================================== *)
(** * Store (src/db/queries.ts over src/db/schema.ts) *)
(* ===================================================================== *)

Module Queries.

(** [SELECT ... FROM tasks WHERE id = ?] *)
Definition getTask (db : DB) (id : string) : option Task.t :=
  List.find (fun t => String.eqb (Task.id t) id) (tasks db).

Definition by_sequence (a b : Task.t) : bool :=
  Z.leb (Task.sequence a) (Task.sequence b).

(** [listTasks(opts)].  The two conditions are added under the JS tests
    [opts?.group_id] (absent and empty are falsy) and
    [opts?.status && opts.status.length > 0]. *)
Definition listTasks (db : DB) (group_id : option string)
    (status : option (list TaskStatus)) : list Task.t :=
  let group_cond (t : Task.t) :=
    if truthy_string group_id
    then String.eqb (Task.group_id t) (nullish group_id EmptyString)
    else true in
  let status_cond (t : Task.t) :=
    match status with
    | Some (s :: ss) => existsb (fun x => bool_decide (Task.status t = x)) (s :: ss)
    | _ => true
    end in
  sort_by by_sequence
    (List.filter (fun t => group_cond t && status_cond t) (tasks db)).

(** [UPDATE tasks SET k = @k, ... WHERE id = @id] on one row. *)
Definition apply_updates (u : TaskUpdates.t) (t : Task.t) : Task.t :=
  {| Task.id := Task.id t;
     Task.group_id := Task.group_id t;
     Task.sequence := Task.sequence t;
     Task.title := Task.title t;
     Task.description := Task.description t;
     Task.status := nullish (TaskUpdates.status u) (Task.status t);
     Task.priority := Task.priority t;
     Task.assigned_to := nullish (TaskUpdates.assigned_to u) (Task.assigned_to t);
     Task.branch_name := nullish (TaskUpdates.branch_name u) (Task.branch_name t);
     Task.worktree_path := nullish (TaskUpdates.worktree_path u) (Task.worktree_path t);
     Task.progress := nullish (TaskUpdates.progress u) (Task.progress t);
     Task.progress_note := nullish (TaskUpdates.progress_note u) (Task.progress_note t);
     Task.created_at := Task.created_at t;
     Task.started_at := nullish (TaskUpdates.started_at u) (Task.started_at t);
     Task.completed_at := nullish (TaskUpdates.completed_at u) (Task.completed_at t);
     Task.merged_at := nullish (TaskUpdates.merged_at u) (Task.merged_at t) |}.

(** [keys.length === 0] *)
Definition no_keys (u : TaskUpdates.t) : bool :=
  match u with
  | TaskUpdates.mk None None None None None None None None None => true
  | _ => false
  end.

Definition set_tasks (db : DB) (ts : list Task.t) : DB :=
  {| task_groups := task_groups db;
     tasks := ts;
     task_dependencies := task_dependencies db;
     task_file_ownership := task_file_ownership db;
     progress_logs := progress_logs db |}.

(** [updateTask(id, updates)]: the store after the call and the row read
    back ([getTask(id)!], which is [undefined] when there is no such row). *)
Definition updateTask (db : DB) (id : string) (updates : TaskUpdates.t)
    : DB * option Task.t :=
  if no_keys updates then (db, getTask db id)
  else
    let db' :=
      set_tasks db
        (map (fun t => if String.eqb (Task.id t) id then apply_updates updates t else t)
           (tasks db)) in
    (db', getTask db' id).

(** [getDependencies(taskId)]: the join of [task_dependencies] with
    [tasks] on [depends_on], ordered by sequence. *)
Definition getDependencies (db : DB) (taskId : string) : list Task.t :=
  sort_by by_sequence
    (flat_map
       (fun d =>
          if String.eqb (TaskDependency.task_id d) taskId
          then List.filter
                 (fun t => String.eqb (Task.id t) (TaskDependency.depends_on d))
                 (tasks db)
          else [])
       (task_dependencies db)).

Definition getFileOwnership (db : DB) (taskId : string) : list TaskFileOwnership.t :=
  List.filter (fun fo => String.eqb (TaskFileOwnership.task_id fo) taskId)
    (task_file_ownership db).

Record OwnershipConflict : Type := {
  task : Task.t;
  pattern : string;
  ownership_type : OwnershipType
}.

(** [getFileOwnershipConflicts(taskId)]: [my_fo JOIN other_fo ON] equal
    patterns [JOIN tasks t ON t.id = other_fo.task_id], where [my_fo] is a
    row of the task, [other_fo] a row of another task, and [t] is
    [in_progress]. *)
Definition getFileOwnershipConflicts (db : DB) (taskId : string)
    : list OwnershipConflict :=
  flat_map
    (fun my_fo =>
       flat_map
         (fun other_fo =>
            flat_map
              (fun t =>
                 if String.eqb (TaskFileOwnership.file_pattern my_fo)
                      (TaskFileOwnership.file_pattern other_fo)
                    && String.eqb (Task.id t) (TaskFileOwnership.task_id other_fo)
                    && String.eqb (TaskFileOwnership.task_id my_fo) taskId
                    && negb (String.eqb (TaskFileOwnership.task_id other_fo) taskId)
                    && bool_decide (Task.status t = in_progress)
                 then [{| task := t;
                          pattern := TaskFileOwnership.file_pattern other_fo;
                          ownership_type := TaskFileOwnership.ownership_type other_fo |}]
                 else [])
              (tasks db))
         (task_file_ownership db))
    (task_file_ownership db).

(** [row.metadata ? JSON.parse(row.metadata) : null], which throws on text
    that is not JSON. *)
Definition read_metadata (column : option string) : Result jsval :=
  if truthy_string column then
    match Json.parse (nullish column EmptyString) with
    | Some v => Ok v
    | None => Throw "SyntaxError: Unexpected token in JSON"
    end
  else Ok JNull.

Definition read_row (row : ProgressLogRow.t) : Result ProgressLog.t :=
  match read_metadata (ProgressLogRow.metadata row) with
  | Ok v =>
      Ok {| ProgressLog.id := ProgressLogRow.id row;
            ProgressLog.task_id := ProgressLogRow.task_id row;
            ProgressLog.timestamp := ProgressLogRow.timestamp row;
            ProgressLog.event := ProgressLogRow.event row;
            ProgressLog.message := ProgressLogRow.message row;
            ProgressLog.metadata := v |}
  | Throw e => Throw e
  end.

(** [rows.map(f)] where [f] may throw: the first throw wins. *)
Fixpoint map_result {A B} (f : A -> Result B) (l : list A) : Result (list B) :=
  match l with
  | [] => Ok []
  | x :: rest =>
      match f x with
      | Throw e => Throw e
      | Ok y =>
          match map_result f rest with
          | Throw e => Throw e
          | Ok ys => Ok (y :: ys)
          end
      end
  end.

Definition getProgressLog (db : DB) (id : string) : option (Result ProgressLog.t) :=
  match List.find (fun r => String.eqb (ProgressLogRow.id r) id) (progress_logs db) with
  | Some row => Some (read_row row)
  | None => None
  end.

Definition by_timestamp (a b : ProgressLogRow.t) : bool :=
  String.leb (ProgressLogRow.timestamp a) (ProgressLogRow.timestamp b).

(** [getProgressLogs(taskId)] *)
Definition getProgressLogs (db : DB) (taskId : string) : Result (list ProgressLog.t) :=
  map_result read_row
    (sort_by by_timestamp
       (List.filter (fun r => String.eqb (ProgressLogRow.task_id r) taskId)
          (progress_logs db))).

(** [addProgressLog(log)].  [now] is the value of [datetime('now')], the
    default of the [timestamp] column.  The insert fails on a duplicate
    [id] (primary key) and on a [task_id] that is not a task (foreign key,
    [foreign_keys = ON]).  The value returned is [getProgressLog(log.id)!]. *)
Definition addProgressLog (db : DB) (log : NewProgressLog.t) (now : string)
    : Result ProgressLog.t * DB :=
  if existsb (fun r => String.eqb (ProgressLogRow.id r) (NewProgressLog.id log))
       (progress_logs db)
  then (Throw "SqliteError: UNIQUE constraint failed: progress_logs.id", db)
  else if negb (existsb (fun t => String.eqb (Task.id t) (NewProgressLog.task_id log))
                  (tasks db))
  then (Throw "SqliteError: FOREIGN KEY constraint failed", db)
  else
    let row :=
      {| ProgressLogRow.id := NewProgressLog.id log;
         ProgressLogRow.task_id := NewProgressLog.task_id log;
         ProgressLogRow.timestamp := now;
         ProgressLogRow.event := NewProgressLog.event log;
         ProgressLogRow.message := NewProgressLog.message log;
         ProgressLogRow.metadata :=
           if truthy (NewProgressLog.metadata log)
           then Json.stringify (NewProgressLog.metadata log)
           else None |} in
    let db' :=
      {| task_groups := task_groups db;
         tasks := tasks db;
         task_dependencies := task_dependencies db;
         task_file_ownership := task_file_ownership db;
         progress_logs := progress_logs db ++ [row] |} in
    (read_row row, db').

(** [getGroup(id)] *)
Definition getGroup (db : DB) (id : string) : option TaskGroup.t :=
  List.find (fun g => String.eqb (TaskGroup.id g) id) (task_groups db).

(** [Omit<TaskGroup, "created_at">] *)
Record NewTaskGroup : Type := {
  new_group_id : string;
  new_group_title : string;
  new_group_description : string;
  new_group_status : string
}.

(** [createGroup(group)].  [created_at] takes the column default
    [datetime('now')], here [now]; the insert fails on a duplicate [id].
    The value returned is [getGroup(group.id)!], the row just written. *)
Definition createGroup (db : DB) (group : NewTaskGroup) (now : string)
    : Result TaskGroup.t * DB :=
  if existsb (fun g => String.eqb (TaskGroup.id g) (new_group_id group)) (task_groups db)
  then (Throw "SqliteError: UNIQUE constraint failed: task_groups.id", db)
  else
    let row :=
      {| TaskGroup.id := new_group_id group;
         TaskGroup.title := new_group_title group;
         TaskGroup.description := new_group_description group;
         TaskGroup.created_at := now;
         TaskGroup.status := new_group_status group |} in
    (Ok row,
     {| task_groups := task_groups db ++ [row];
        tasks := tasks db;
        task_dependencies := task_dependencies db;
        task_file_ownership := task_file_ownership db;
        progress_logs := progress_logs db |}).

(** [Omit<Task, "created_at" | "started_at" | "completed_at" | "merged_at">] *)
Record NewTask : Type := {
  new_id : string;
  new_group : string;
  new_sequence : Z;
  new_title : string;
  new_description : string;
  new_status : TaskStatus;
  new_priority : TaskPriority;
  new_assigned_to : option string;
  new_branch_name : option string;
  new_worktree_path : option string;
  new_progress : Z;
  new_progress_note : option string
}.

(** [createTask(task)].  The insert fails on a duplicate [id] (primary
    key) and on a [group_id] that is not a group (foreign key); the three
    timestamps it does not name are NULL and [created_at] is
    [datetime('now')].  The value returned is [getTask(task.id)!], the row
    just written. *)
Definition createTask (db : DB) (task : NewTask) (now : string) : Result Task.t * DB :=
  if existsb (fun t => String.eqb (Task.id t) (new_id task)) (tasks db)
  then (Throw "SqliteError: UNIQUE constraint failed: tasks.id", db)
  else if negb (existsb (fun g => String.eqb (TaskGroup.id g) (new_group task))
                  (task_groups db))
  then (Throw "SqliteError: FOREIGN KEY constraint failed", db)
  else
    let row :=
      {| Task.id := new_id task;
         Task.group_id := new_group task;
         Task.sequence := new_sequence task;
         Task.title := new_title task;
         Task.description := new_description task;
         Task.status := new_status task;
         Task.priority := new_priority task;
         Task.assigned_to := new_assigned_to task;
         Task.branch_name := new_branch_name task;
         Task.worktree_path := new_worktree_path task;
         Task.progress := new_progress task;
         Task.progress_note := new_progress_note task;
         Task.created_at := now;
         Task.started_at := None;
         Task.completed_at := None;
         Task.merged_at := None |} in
    (Ok row, set_tasks db (tasks db ++ [row])).

(** [getTaskBySequenceAndGroup(groupId, sequence)] *)
Definition getTaskBySequenceAndGroup (db : DB) (groupId : string) (sequence : Z)
    : option Task.t :=
  List.find
    (fun t => String.eqb (Task.group_id t) groupId && Z.eqb (Task.sequence t) sequence)
    (tasks db).

(** [addDependency(taskId, dependsOn)]: [INSERT OR IGNORE].  A pair that
    is already there is skipped; the foreign keys are not subject to [OR
    IGNORE], so a pair that names a missing task makes the insert fail. *)
Definition addDependency (db : DB) (taskId dependsOn : string) : Result unit * DB :=
  if existsb
       (fun d => String.eqb (TaskDependency.task_id d) taskId
                 && String.eqb (TaskDependency.depends_on d) dependsOn)
       (task_dependencies db)
  then (Ok tt, db)
  else if negb (existsb (fun t => String.eqb (Task.id t) taskId) (tasks db))
          || negb (existsb (fun t => String.eqb (Task.id t) dependsOn) (tasks db))
  then (Throw "SqliteError: FOREIGN KEY constraint failed", db)
  else
    (Ok tt,
     {| task_groups := task_groups db;
        tasks := tasks db;
        task_dependencies :=
          task_dependencies db ++ [TaskDependency.mk taskId dependsOn];
        task_file_ownership := task_file_ownership db;
        progress_logs := progress_logs db |}).

(** [getDependents(taskId)]: the join of [task_dependencies] with [tasks]
    on [task_id], ordered by sequence. *)
Definition getDependents (db : DB) (taskId : string) : list Task.t :=
  sort_by by_sequence
    (flat_map
       (fun d =>
          if String.eqb (TaskDependency.depends_on d) taskId
          then List.filter
                 (fun t => String.eqb (Task.id t) (TaskDependency.task_id d))
                 (tasks db)
          else [])
       (task_dependencies db)).

(** [addFileOwnership(ownership)]: [INSERT OR REPLACE].  A row with the
    same [(task_id, file_pattern)] is deleted before the new one is
    written; a [task_id] that is not a task makes the insert fail. *)
Definition addFileOwnership (db : DB) (ownership : TaskFileOwnership.t)
    : Result unit * DB :=
  if negb (existsb (fun t => String.eqb (Task.id t) (TaskFileOwnership.task_id ownership))
             (tasks db))
  then (Throw "SqliteError: FOREIGN KEY constraint failed", db)
  else
    (Ok tt,
     {| task_groups := task_groups db;
        tasks := tasks db;
        task_dependencies := task_dependencies db;
        task_file_ownership :=
          List.filter
            (fun fo =>
               negb (String.eqb (TaskFileOwnership.task_id fo)
                       (TaskFileOwnership.task_id ownership)
                     && String.eqb (TaskFileOwnership.file_pattern fo)
                          (TaskFileOwnership.file_pattern ownership)))
            (task_file_ownership db)
          ++ [ownership];
        progress_logs := progress_logs db |}).

End Queries.

Arguments Queries.getTask : simpl never.
Arguments Queries.listTasks : simpl never.
Arguments Queries.updateTask : simpl never.
Arguments Queries.getDependencies : simpl never.
Arguments Queries.getFileOwnership : simpl never.
Arguments Queries.getFileOwnershipConflicts : simpl never.
Arguments Queries.getProgressLogs : simpl never.
Arguments Queries.addProgressLog : simpl never.

(* ===================================================================== *)
(** * Git driver (src/services/git-service.ts) *)
(* ===================================================================== *)

(** The git binary is outside the program: every method that runs it is a
    field saying what that run answers.  [worktreeExists] and
    [hasNewCommitsSince] catch their own errors and never throw. *)
Record MergeResult : Type := { merge_success : bool; merge_conflicts : list string }.

Record GitService : Type := {
  repoRoot : string;
  createWorktree : string -> string -> Result unit;
  removeWorktree : string -> Result unit;
  deleteBranch : string -> Result unit;
  getCurrentBranch : Result string;
  getLatestCommit : string -> Result string;
  worktreeExists : string -> bool;
  mergeBranch : string -> MergeStrategy -> Result MergeResult;
  hasNewCommitsSince : string -> bool
}.

(** [isOnMainBranch()] *)
Definition isOnMainBranch (git : GitService) : Result bool :=
  match getCurrentBranch git with
  | Ok branch => Ok (String.eqb branch "main" || String.eqb branch "master")
  | Throw e => Throw e
  end.

(* ===================================================================== *)
(** * Task service (src/services/task-service.ts) *)
(* ===================================================================== *)

(** A service method runs against the store and either returns or throws;
    the store it leaves behind is part of the outcome either way (the
    methods open no transaction). *)
Definition M (A : Type) : Type := DB -> Result A * DB.

Definition ret {A} (a : A) : M A := fun db => (Ok a, db).

Definition throw {A} (message : string) : M A := fun db => (Throw message, db).

Definition bind {A B} (m : M A) (k : A -> M B) : M B :=
  fun db =>
    match m db with
    | (Ok a, db') => k a db'
    | (Throw e, db') => (Throw e, db')
    end.

(** A query that only reads. *)
Definition query {A} (q : DB -> A) : M A := fun db => (Ok (q db), db).

(** A call into the git driver, or any other call that may throw. *)
Definition call {A} (r : Result A) : M A := fun db => (r, db).

(** [try { r } catch { fallback }] *)
Definition try_catch {A} (r : Result A) (fallback : A) : A :=
  match r with Ok a => a | Throw _ => fallback end.

Notation "x <- m ;; k" := (bind m (fun x => k))
  (at level 100, m at next level, right associativity).
Notation "m ;;; k" := (bind m (fun _ => k))
  (at level 100, right associativity).

Definition updateTask (id : string) (updates : TaskUpdates.t) : M (option Task.t) :=
  fun db => let '(db', row) := Queries.updateTask db id updates in (Ok row, db').

Definition addProgressLog (log : NewProgressLog.t) (now : string) : M ProgressLog.t :=
  fun db => Queries.addProgressLog db log now.

(** The values a method draws from outside: [uuidv4()] for a generated
    agent id and for the id of the log entry, [new Date().toISOString()],
    and SQLite's [datetime('now')]. *)
Record Env : Type := {
  uuid_agent : string;
  uuid_log : string;
  date_now : string;
  sql_now : string
}.

Module TaskService.

Record ClaimTaskInput : Type := {
  claim_task_id : string;
  claim_agent_id : option string
}.

Record ClaimTaskOutput : Type := {
  claim_success : bool;
  claim_task : option Task.t; (* [None] is the [null] of "Task not found" *)
  claim_error : option string
}.

Record DependencySummary : Type := {
  dep_sequence : Z;
  dep_title : string;
  dep_status : TaskStatus
}.

Record ListedTask : Type := {
  listed_task : Task.t; (* id, sequence, title, status, progress, ... *)
  listed_dependencies : list DependencySummary;
  can_start : bool
}.

Record Summary : Type := {
  total : nat;
  n_pending : nat;
  n_in_progress : nat;
  n_in_review : nat;
  n_completed : nat;
  n_blocked : nat
}.

Record ListTasksOutput : Type := {
  list_tasks : list ListedTask;
  list_summary : Summary
}.

Record CompletedDependency : Type := {
  cd_title : string;
  cd_branch_name : string
}.

Record StartTaskOutput : Type := {
  start_success : bool;
  start_worktree_path : string;
  start_branch_name : string;
  start_task : option Task.t;
  context_description : string;
  context_file_patterns : list string;
  context_dependencies_completed : list CompletedDependency
}.

Record UpdateProgressInput : Type := {
  up_task_id : string;
  up_progress : Z;
  up_note : string;
  up_files_changed : option (list string)
}.

Record UpdateProgressOutput : Type := {
  up_success : bool;
  conflict_warnings : list string;
  rebase_recommended : bool
}.

Record CompleteTaskInput : Type := {
  complete_task_id : string;
  complete_summary : string;
  complete_files_changed : list string
}.

Record CompleteTaskOutput : Type := {
  complete_success : bool;
  complete_task : option Task.t;
  complete_unlocked_tasks : list (Z * string) (* sequence, title *)
}.

Record MergeTaskInput : Type := {
  merge_task_id : string;
  merge_strategy : option MergeStrategy
}.

Record MergeConflict : Type := {
  mc_file : string;
  mc_description : string;
  mc_auto_resolvable : bool;
  mc_suggestion : string
}.

Record MergeTaskOutput : Type := {
  merge_ok : bool;
  merge_result : string;
  merge_conflict_list : option (list MergeConflict);
  merge_unlocked_tasks : list (Z * string * bool) (* sequence, title, can_start *)
}.

Record CleanupTaskInput : Type := {
  cleanup_task_id : string;
  cleanup_reason : option string
}.

Record CleanupTaskOutput : Type := {
  cleanup_success : bool;
  worktree_removed : bool;
  branch_removed : bool
}.

Definition summarize (d : Task.t) : DependencySummary :=
  {| dep_sequence := Task.sequence d;
     dep_title := Task.title d;
     dep_status := Task.status d |}.

(** The loop that fills [dependencyMap] (and, in [listTasks],
    [completedTasks]) from a list of tasks. *)
Definition build_dependency_map (db : DB) (ts : list Task.t) : JsMap.t (list string) :=
  fold_left
    (fun m t => JsMap.set m (Task.id t) (map Task.id (Queries.getDependencies db (Task.id t))))
    ts JsMap.empty.

(** [new Set(tasks.filter(p).map(t => t.id))] *)
Definition ids_where (p : Task.t -> bool) (ts : list Task.t) : gset string :=
  list_to_set (map Task.id (List.filter p ts)).

(** [allGroupTasks.find(t => t.id === id)] *)
Definition find_task (ts : list Task.t) (id : string) : option Task.t :=
  List.find (fun t => String.eqb (Task.id t) id) ts.

(** "Update unlocked tasks from 'blocked' to 'pending'" *)
Fixpoint unblock (allGroupTasks : list Task.t) (unlockedIds : list string) : M unit :=
  match unlockedIds with
  | [] => ret tt
  | id :: rest =>
      match find_task allGroupTasks id with
      | Some t =>
          if bool_decide (Task.status t = blocked) then
            updateTask id
              (TaskUpdates.mk (Some pending) None None None None None None None None) ;;;
            unblock allGroupTasks rest
          else unblock allGroupTasks rest
      | None => unblock allGroupTasks rest
      end
  end.

(** [ids.map(id => all.find(...)).filter(t => t !== undefined)] *)
Definition found_tasks (allGroupTasks : list Task.t) (ids : list string) : list Task.t :=
  flat_map
    (fun id => match find_task allGroupTasks id with Some t => [t] | None => [] end)
    ids.

(** ** [createTasks] *)

Record FilePatternInput : Type := {
  fp_pattern : string;
  fp_ownership_type : OwnershipType
}.

(** One entry of [input.tasks].  The numbers of [depends_on] are taken to
    be integers; an absent optional field is [None]. *)
Record TaskInput : Type := {
  ti_title : string;
  ti_description : string;
  ti_priority : option TaskPriority;
  ti_depends_on : option (list Z);
  ti_file_patterns : option (list FilePatternInput)
}.

Record CreateTasksInput : Type := {
  group_title : string;
  group_description : string;
  input_tasks : list TaskInput
}.

Record CreatedTask : Type := {
  created_id : string;
  created_sequence : Z;
  created_title : string;
  created_status : TaskStatus;
  created_can_start : bool
}.

Record CreateTasksOutput : Type := {
  created_group_id : string;
  created_tasks : list CreatedTask;
  created_warnings : list string
}.

(** What [createTasks] draws from outside: [uuidv4()] for the group, then
    one per task in order, and SQLite's [datetime('now')]. *)
Record CreateEnv : Type := {
  uuid_group : string;
  uuid_task : nat -> string;
  created_now : string
}.

(** [sequenceToIdMap], a [Map<number, string>]. *)
Definition SequenceMap : Type := list (Z * string).

Fixpoint sequence_get (m : SequenceMap) (k : Z) : option string :=
  match m with
  | [] => None
  | (k', v) :: rest => if Z.eqb k' k then Some v else sequence_get rest k
  end.

Fixpoint sequence_set (m : SequenceMap) (k : Z) (v : string) : SequenceMap :=
  match m with
  | [] => [(k, v)]
  | (k', v') :: rest =>
      if Z.eqb k' k then (k', v) :: rest else (k', v') :: sequence_set rest k v
  end.

(** Step 2, "Create all tasks with sequence numbers (1-based)": the loop
    from index [i] on. *)
Fixpoint create_rows (env : CreateEnv) (groupId : string) (i : nat)
    (inputs : list TaskInput) (sequenceToIdMap : SequenceMap)
    (createdTasks : list Task.t) : M (SequenceMap * list Task.t) :=
  match inputs with
  | [] => ret (sequenceToIdMap, createdTasks)
  | taskInput :: rest =>
      let sequence := Z.of_nat i + 1 in
      let taskId := uuid_task env i in
      let sequenceToIdMap' := sequence_set sequenceToIdMap sequence taskId in
      task <- (fun db =>
                 Queries.createTask db
                   {| Queries.new_id := taskId;
                      Queries.new_group := groupId;
                      Queries.new_sequence := sequence;
                      Queries.new_title := ti_title taskInput;
                      Queries.new_description := ti_description taskInput;
                      Queries.new_status := pending;
                      Queries.new_priority := nullish (ti_priority taskInput) medium;
                      Queries.new_assigned_to := None;
                      Queries.new_branch_name := None;
                      Queries.new_worktree_path := None;
                      Queries.new_progress := 0;
                      Queries.new_progress_note := None |}
                   (created_now env)) ;;
      create_rows env groupId (S i) rest sequenceToIdMap' (createdTasks ++ [task])
  end.

(** Step 3, the inner loop over [taskInput.depends_on]. *)
Fixpoint link_dependencies (sequenceToIdMap : SequenceMap) (taskId : string)
    (sequence : Z) (title : string) (depends_on : list Z)
    (deps warnings : list string) : M (list string * list string) :=
  match depends_on with
  | [] => ret (deps, warnings)
  | depSequence :: rest =>
      let depId := sequence_get sequenceToIdMap depSequence in
      if truthy_string depId then
        (fun db => Queries.addDependency db taskId (nullish depId EmptyString)) ;;;
        link_dependencies sequenceToIdMap taskId sequence title rest
          (deps ++ [nullish depId EmptyString]) warnings
      else
        link_dependencies sequenceToIdMap taskId sequence title rest deps
          (warnings
           ++ ["Task #" +:+ show_Z sequence +:+ " " +:+ String Json.dquote title
               +:+ String Json.dquote " references invalid dependency sequence #"
               +:+ show_Z depSequence])
  end.

(** Step 3, "Add dependencies (resolve sequence numbers to task IDs)".
    [sequenceToIdMap.get(sequence)!] is never [undefined]: step 2 has set
    the key. *)
Fixpoint add_dependencies (sequenceToIdMap : SequenceMap) (i : nat)
    (inputs : list TaskInput) (dependencyMap : JsMap.t (list string))
    (warnings : list string) : M (JsMap.t (list string) * list string) :=
  match inputs with
  | [] => ret (dependencyMap, warnings)
  | taskInput :: rest =>
      let sequence := Z.of_nat i + 1 in
      let taskId := nullish (sequence_get sequenceToIdMap sequence) EmptyString in
      linked <- match ti_depends_on taskInput with
                | Some (d :: ds) =>
                    link_dependencies sequenceToIdMap taskId sequence
                      (ti_title taskInput) (d :: ds) [] warnings
                | _ => ret ([], warnings)
                end ;;
      add_dependencies sequenceToIdMap (S i) rest
        (JsMap.set dependencyMap taskId (fst linked)) (snd linked)
  end.

(** Step 4, "Add file ownership". *)
Fixpoint add_patterns (taskId : string) (patterns : list FilePatternInput) : M unit :=
  match patterns with
  | [] => ret tt
  | fp :: rest =>
      (fun db =>
         Queries.addFileOwnership db
           (TaskFileOwnership.mk taskId (fp_pattern fp) (fp_ownership_type fp))) ;;;
      add_patterns taskId rest
  end.

Fixpoint add_ownerships (sequenceToIdMap : SequenceMap) (i : nat)
    (inputs : list TaskInput) : M unit :=
  match inputs with
  | [] => ret tt
  | taskInput :: rest =>
      let sequence := Z.of_nat i + 1 in
      let taskId := nullish (sequence_get sequenceToIdMap sequence) EmptyString in
      match ti_file_patterns taskInput with
      | Some patterns => add_patterns taskId patterns
      | None => ret tt
      end ;;;
      add_ownerships sequenceToIdMap (S i) rest
  end.

(** Step 6, "Check for file ownership overlaps and generate warnings":
    the two inner loops for one pair of tasks ... *)
Definition pair_overlaps (seqI : Z) (titleI : string) (patternsI : list FilePatternInput)
    (seqJ : Z) (titleJ : string) (patternsJ : list FilePatternInput) : list string :=
  flat_map
    (fun fpI =>
       flat_map
         (fun fpJ =>
            if (bool_decide (fp_ownership_type fpI = exclusive)
                || bool_decide (fp_ownership_type fpJ = exclusive))
               && Conflict.patternsOverlap (fp_pattern fpI) (fp_pattern fpJ)
            then ["File pattern overlap: task #" +:+ show_Z seqI +:+ " "
                  +:+ String Json.dquote titleI +:+ String Json.dquote " ("
                  +:+ fp_pattern fpI +:+ ") and task #" +:+ show_Z seqJ +:+ " "
                  +:+ String Json.dquote titleJ +:+ String Json.dquote " ("
                  +:+ fp_pattern fpJ +:+ ")"]
            else [])
         patternsJ)
    patternsI.

(** ... the loop over [j > i] ... *)
Fixpoint overlaps_with (seqI : Z) (titleI : string) (patternsI : list FilePatternInput)
    (j : nat) (others : list TaskInput) : list string :=
  match others with
  | [] => []
  | taskInputJ :: rest =>
      match ti_file_patterns taskInputJ with
      | Some patternsJ =>
          pair_overlaps seqI titleI patternsI (Z.of_nat j + 1) (ti_title taskInputJ)
            patternsJ
      | None => []
      end
      ++ overlaps_with seqI titleI patternsI (S j) rest
  end.

(** ... and the loop over [i]. *)
Fixpoint overlap_warnings (i : nat) (inputs : list TaskInput) : list string :=
  match inputs with
  | [] => []
  | taskInputI :: rest =>
      match ti_file_patterns taskInputI with
      | Some patternsI =>
          overlaps_with (Z.of_nat i + 1) (ti_title taskInputI) patternsI (S i) rest
      | None => []
      end
      ++ overlap_warnings (S i) rest
  end.

(** Step 7, "Set initial status". *)
Fixpoint set_initial_status (sequenceToIdMap : SequenceMap)
    (dependencyMap : JsMap.t (list string)) (i : nat) (createdTasks : list Task.t)
    (outputTasks : list CreatedTask) : M (list CreatedTask) :=
  match createdTasks with
  | [] => ret outputTasks
  | created :: rest =>
      let sequence := Z.of_nat i + 1 in
      let taskId := nullish (sequence_get sequenceToIdMap sequence) EmptyString in
      let deps := nullish (JsMap.get dependencyMap taskId) [] in
      let hasDeps := (0 <? length deps)%nat in
      (if hasDeps then
         updateTask taskId
           (TaskUpdates.mk (Some blocked) None None None None None None None None) ;;;
         ret tt
       else ret tt) ;;;
      let canStart := Dag.canStart taskId dependencyMap ∅ in
      set_initial_status sequenceToIdMap dependencyMap (S i) rest
        (outputTasks
         ++ [{| created_id := taskId;
                created_sequence := sequence;
                created_title := Task.title created;
                created_status := if hasDeps then blocked else pending;
                created_can_start := canStart |}])
  end.

(** [createTasks(input)].  [validateNoCycles] always returns
    ([validateNoCycles_sound]); the [None] of its model is given the
    answer of a valid graph. *)
Definition createTasks (input : CreateTasksInput) (env : CreateEnv)
    : M CreateTasksOutput :=
  let groupId := uuid_group env in
  (fun db =>
     Queries.createGroup db
       {| Queries.new_group_id := groupId;
          Queries.new_group_title := group_title input;
          Queries.new_group_description := group_description input;
          Queries.new_group_status := "active" |}
       (created_now env)) ;;;
  rows <- create_rows env groupId 0 (input_tasks input) [] [] ;;
  let sequenceToIdMap := fst rows in
  let createdTasks := snd rows in
  linked <- add_dependencies sequenceToIdMap 0 (input_tasks input) JsMap.empty [] ;;
  let dependencyMap := fst linked in
  add_ownerships sequenceToIdMap 0 (input_tasks input) ;;;
  let validation :=
    nullish (Dag.validateNoCycles dependencyMap)
      {| Dag.valid := true; Dag.cycle := None |} in
  let warnings5 :=
    if negb (Dag.valid validation)
    then snd linked
         ++ ["Dependency cycle detected: "
             +:+ match Dag.cycle validation with
                 | Some cycle => join " -> " cycle
                 | None => "undefined"
                 end]
    else snd linked in
  let warnings := warnings5 ++ overlap_warnings 0 (input_tasks input) in
  outputTasks <- set_initial_status sequenceToIdMap dependencyMap 0 createdTasks [] ;;
  ret {| created_group_id := groupId;
         created_tasks := outputTasks;
         created_warnings := warnings |}.

Section WithDrivers.

Variable git : GitService.
(** [slugify(title, { lower: true, strict: true })] of the slugify package. *)
Variable slugify : string -> string.
(** [resolve(a, b, c)] of node:path. *)
Variable resolve : string -> string -> string -> string.

(** [listTasks(input)] *)
Definition listTasks (group_id : option string) (status : option (list TaskStatus))
    : M ListTasksOutput :=
  tasks <- query (fun db => Queries.listTasks db group_id status) ;;
  dependencyMap <- query (fun db => build_dependency_map db tasks) ;;
  let completedTasks := ids_where (fun t => bool_decide (Task.status t = completed)) tasks in
  outputTasks <- query (fun db =>
    map (fun task =>
           let deps := Queries.getDependencies db (Task.id task) in
           let canStart :=
             bool_decide (Task.status task = pending)
             && Dag.canStart (Task.id task) dependencyMap completedTasks in
           {| listed_task := task;
              listed_dependencies := map summarize deps;
              can_start := canStart |})
        tasks) ;;
  let count (s : TaskStatus) :=
    length (List.filter (fun t => bool_decide (Task.status t = s)) tasks) in
  ret {| list_tasks := outputTasks;
         list_summary :=
           {| total := length tasks;
              n_pending := count pending;
              n_in_progress := count in_progress;
              n_in_review := count in_review;
              n_completed := count completed;
              n_blocked := count blocked |} |}.

(** [claimTask(input)] *)
Definition claimTask (input : ClaimTaskInput) (env : Env) : M ClaimTaskOutput :=
  found <- query (fun db => Queries.getTask db (claim_task_id input)) ;;
  match found with
  | None =>
      ret {| claim_success := false;
             claim_task := None;
             claim_error := Some ("Task not found: " +:+ claim_task_id input) |}
  | Some task =>
      if negb (bool_decide (Task.status task = pending)) then
        ret {| claim_success := false;
               claim_task := Some task;
               claim_error :=
                 Some ("Task is not pending (current status: "
                       +:+ show_status (Task.status task) +:+ ")") |}
      else
        deps <- query (fun db => Queries.getDependencies db (Task.id task)) ;;
        let unmetDeps :=
          List.filter (fun d => negb (bool_decide (Task.status d = completed))) deps in
        if (0 <? length unmetDeps)%nat then
          ret {| claim_success := false;
                 claim_task := Some task;
                 claim_error :=
                   Some ("Unmet dependencies: "
                         +:+ join ", "
                               (map (fun d =>
                                       "#" +:+ show_Z (Task.sequence d) +:+ " "
                                       +:+ String Json.dquote (Task.title d)
                                       +:+ String Json.dquote " ("
                                       +:+ show_status (Task.status d) +:+ ")")
                                  unmetDeps)) |}
        else
          conflicts <- query (fun db =>
                         Queries.getFileOwnershipConflicts db (Task.id task)) ;;
          if (0 <? length conflicts)%nat then
            ret {| claim_success := false;
                   claim_task := Some task;
                   claim_error :=
                     Some ("File ownership conflicts with in-progress tasks: "
                           +:+ join ", "
                                 (map (fun c =>
                                         "#" +:+ show_Z (Task.sequence (Queries.task c))
                                         +:+ " "
                                         +:+ String Json.dquote
                                               (Task.title (Queries.task c))
                                         +:+ String Json.dquote " on pattern "
                                         +:+ String Json.dquote (Queries.pattern c)
                                         +:+ String Json.dquote EmptyString)
                                    conflicts)) |}
          else
            let agentId :=
              nullish (claim_agent_id input)
                ("agent-" +:+ String.substring 0 8 (uuid_agent env)) in
            updatedTask <- updateTask (Task.id task)
              (TaskUpdates.mk (Some assigned) (Some (Some agentId))
                 None None None None None None None) ;;
            addProgressLog
              {| NewProgressLog.id := uuid_log env;
                 NewProgressLog.task_id := Task.id task;
                 NewProgressLog.event := Claimed;
                 NewProgressLog.message := "Task claimed by " +:+ agentId;
                 NewProgressLog.metadata := JObj [("agent_id", JStr agentId)] |}
              (sql_now env) ;;;
            ret {| claim_success := true;
                   claim_task := updatedTask;
                   claim_error := None |}
  end.

(** [startTask(input)] *)
Definition startTask (task_id : string) (env : Env) : M StartTaskOutput :=
  found <- query (fun db => Queries.getTask db task_id) ;;
  match found with
  | None => throw ("Task not found: " +:+ task_id)
  | Some task =>
      if negb (bool_decide (Task.status task = assigned)) then
        throw ("Task must be 'assigned' to start (current status: "
               +:+ show_status (Task.status task) +:+ ")")
      else
        let slugifiedTitle := String.substring 0 30 (slugify (Task.title task)) in
        let branchName :=
          "task/task-" +:+ show_Z (Task.sequence task) +:+ "-" +:+ slugifiedTitle in
        let worktreePath :=
          resolve (repoRoot git) ".worktrees"
            ("task-" +:+ show_Z (Task.sequence task) +:+ "-" +:+ slugifiedTitle) in
        call (createWorktree git worktreePath branchName) ;;;
        updatedTask <- updateTask (Task.id task)
          (TaskUpdates.mk (Some in_progress) None (Some (Some branchName))
             (Some (Some worktreePath)) None None (Some (Some (date_now env)))
             None None) ;;
        addProgressLog
          {| NewProgressLog.id := uuid_log env;
             NewProgressLog.task_id := Task.id task;
             NewProgressLog.event := Started;
             NewProgressLog.message := "Task started with branch " +:+ branchName;
             NewProgressLog.metadata :=
               JObj [("branch_name", JStr branchName);
                     ("worktree_path", JStr worktreePath)] |}
          (sql_now env) ;;;
        deps <- query (fun db => Queries.getDependencies db (Task.id task)) ;;
        fileOwnership <- query (fun db => Queries.getFileOwnership db (Task.id task)) ;;
        ret {| start_success := true;
               start_worktree_path := worktreePath;
               start_branch_name := branchName;
               start_task := updatedTask;
               context_description := Task.description task;
               context_file_patterns := map TaskFileOwnership.file_pattern fileOwnership;
               context_dependencies_completed :=
                 map (fun d =>
                        {| cd_title := Task.title d;
                           cd_branch_name := nullish (Task.branch_name d) EmptyString |})
                   (List.filter (fun d => bool_decide (Task.status d = completed)) deps) |}
  end.

(** [updateProgress(input)] *)
Definition updateProgress (input : UpdateProgressInput) (env : Env)
    : M UpdateProgressOutput :=
  found <- query (fun db => Queries.getTask db (up_task_id input)) ;;
  match found with
  | None => throw ("Task not found: " +:+ up_task_id input)
  | Some task =>
      updateTask (Task.id task)
        (TaskUpdates.mk None None None None (Some (up_progress input))
           (Some (Some (up_note input))) None None None) ;;;
      conflictWarnings <- query (fun db =>
        match up_files_changed input with
        | Some (f :: fs) =>
            let allTasks :=
              Queries.listTasks db (Some (Task.group_id task)) (Some [in_progress]) in
            let otherTasks :=
              map (fun t => (t, Queries.getFileOwnership db (Task.id t)))
                (List.filter (fun t => negb (String.eqb (Task.id t) (Task.id task)))
                   allTasks) in
            Conflict.checkFileConflicts (f :: fs) otherTasks
        | _ => []
        end) ;;
      let rebaseRecommended :=
        if truthy_string (Task.branch_name task) then
          try_catch
            (match getLatestCommit git "HEAD" with
             | Ok mainCommit => Ok (hasNewCommitsSince git mainCommit)
             | Throw e => Throw e
             end)
            false
        else false in
      addProgressLog
        {| NewProgressLog.id := uuid_log env;
           NewProgressLog.task_id := Task.id task;
           NewProgressLog.event := ProgressUpdate;
           NewProgressLog.message := up_note input;
           NewProgressLog.metadata :=
             JObj [("progress", JNum (up_progress input));
                   ("files_changed",
                    JArr (map JStr (nullish (up_files_changed input) [])));
                   ("conflict_warnings", JArr (map JStr conflictWarnings))] |}
        (sql_now env) ;;;
      ret {| up_success := true;
             conflict_warnings := conflictWarnings;
             rebase_recommended := rebaseRecommended |}
  end.

(** [completeTask(input)] *)
Definition completeTask (input : CompleteTaskInput) (env : Env)
    : M CompleteTaskOutput :=
  found <- query (fun db => Queries.getTask db (complete_task_id input)) ;;
  match found with
  | None => throw ("Task not found: " +:+ complete_task_id input)
  | Some task =>
      if negb (bool_decide (Task.status task = in_progress)) then
        throw ("Task must be 'in_progress' to complete (current status: "
               +:+ show_status (Task.status task) +:+ ")")
      else
        updatedTask <- updateTask (Task.id task)
          (TaskUpdates.mk (Some in_review) None None None (Some 100)
             (Some (Some (complete_summary input))) None
             (Some (Some (date_now env))) None) ;;
        allGroupTasks <- query (fun db =>
          Queries.listTasks db (Some (Task.group_id task)) None) ;;
        let completedTasks :=
          ids_where (fun t => bool_decide (Task.status t = completed)
                              || bool_decide (Task.status t = in_review))
            allGroupTasks ∪ {[Task.id task]} in
        dependencyMap <- query (fun db => build_dependency_map db allGroupTasks) ;;
        let unlockedIds :=
          Dag.getUnlockedTasks (Task.id task) dependencyMap completedTasks in
        let unlockedTasks :=
          map (fun t => (Task.sequence t, Task.title t))
            (found_tasks allGroupTasks unlockedIds) in
        unblock allGroupTasks unlockedIds ;;;
        addProgressLog
          {| NewProgressLog.id := uuid_log env;
             NewProgressLog.task_id := Task.id task;
             NewProgressLog.event := Completed;
             NewProgressLog.message := complete_summary input;
             NewProgressLog.metadata :=
               JObj [("files_changed", JArr (map JStr (complete_files_changed input)));
                     ("unlocked_tasks",
                      JArr (map (fun u : Z * string =>
                                   JObj [("sequence", JNum (fst u));
                                         ("title", JStr (snd u))])
                              unlockedTasks))] |}
          (sql_now env) ;;;
        ret {| complete_success := true;
               complete_task := updatedTask;
               complete_unlocked_tasks := unlockedTasks |}
  end.

(** [mergeTask(input)].  On a clean merge the worktree and the branch are
    removed inside [try { } catch { }] blocks whose outcome is dropped;
    they leave no trace in the store or in the value returned. *)
Definition mergeTask (input : MergeTaskInput) (env : Env) : M MergeTaskOutput :=
  onMain <- call (isOnMainBranch git) ;;
  (if negb onMain then
     branch <- call (getCurrentBranch git) ;;
     throw ("Must be on main/master branch to merge. Current branch: " +:+ branch)
   else ret tt) ;;;
  found <- query (fun db => Queries.getTask db (merge_task_id input)) ;;
  match found with
  | None => throw ("Task not found: " +:+ merge_task_id input)
  | Some task =>
      if negb (bool_decide (Task.status task = in_review)) then
        throw ("Task must be 'in_review' to merge (current status: "
               +:+ show_status (Task.status task) +:+ ")")
      else if negb (truthy_string (Task.branch_name task)) then
        throw "Task has no branch to merge"
      else
        let branch_name := nullish (Task.branch_name task) EmptyString in
        let strategy := nullish (merge_strategy input) strategy_squash in
        mergeResult <- call (mergeBranch git branch_name strategy) ;;
        if merge_success mergeResult then
          updateTask (Task.id task)
            (TaskUpdates.mk (Some completed) None None None None None None None
               (Some (Some (date_now env)))) ;;;
          allGroupTasks <- query (fun db =>
            Queries.listTasks db (Some (Task.group_id task)) None) ;;
          let completedTasks :=
            ids_where (fun t => bool_decide (Task.status t = completed)) allGroupTasks in
          dependencyMap <- query (fun db => build_dependency_map db allGroupTasks) ;;
          let unlockedIds :=
            Dag.getUnlockedTasks (Task.id task) dependencyMap completedTasks in
          let unlockedTasks :=
            map (fun t =>
                   (Task.sequence t, Task.title t,
                    Dag.canStart (Task.id t) dependencyMap completedTasks))
              (found_tasks allGroupTasks unlockedIds) in
          unblock allGroupTasks unlockedIds ;;;
          addProgressLog
            {| NewProgressLog.id := uuid_log env;
               NewProgressLog.task_id := Task.id task;
               NewProgressLog.event := Merged;
               NewProgressLog.message :=
                 "Task merged via " +:+ show_strategy strategy +:+ " strategy";
               NewProgressLog.metadata :=
                 JObj [("strategy", JStr (show_strategy strategy));
                       ("unlocked_tasks",
                        JArr (map (fun u : Z * string * bool =>
                                     JObj [("sequence", JNum (fst (fst u)));
                                           ("title", JStr (snd (fst u)));
                                           ("can_start", JBool (snd u))])
                                unlockedTasks))] |}
            (sql_now env) ;;;
          ret {| merge_ok := true;
                 merge_result := "clean";
                 merge_conflict_list := None;
                 merge_unlocked_tasks := unlockedTasks |}
        else
          let conflicts :=
            map (fun file =>
                   {| mc_file := file;
                      mc_description := "Merge conflict in " +:+ file;
                      mc_auto_resolvable := false;
                      mc_suggestion :=
                        "Manually resolve conflicts in " +:+ file
                        +:+ " and commit the result" |})
              (merge_conflicts mergeResult) in
          addProgressLog
            {| NewProgressLog.id := uuid_log env;
               NewProgressLog.task_id := Task.id task;
               NewProgressLog.event := ConflictDetected;
               NewProgressLog.message :=
                 "Merge conflicts detected in "
                 +:+ show_Z (Z.of_nat (length (merge_conflicts mergeResult)))
                 +:+ " file(s)";
               NewProgressLog.metadata :=
                 JObj [("conflicted_files",
                        JArr (map JStr (merge_conflicts mergeResult)));
                       ("strategy", JStr (show_strategy strategy))] |}
            (sql_now env) ;;;
          ret {| merge_ok := false;
                 merge_result := "conflict";
                 merge_conflict_list := Some conflicts;
                 merge_unlocked_tasks := [] |}
  end.

(** [cleanupTask(input)] *)
Definition cleanupTask (input : CleanupTaskInput) (env : Env) : M CleanupTaskOutput :=
  found <- query (fun db => Queries.getTask db (cleanup_task_id input)) ;;
  match found with
  | None => throw ("Task not found: " +:+ cleanup_task_id input)
  | Some task =>
      let worktreeRemoved :=
        if truthy_string (Task.worktree_path task) then
          let path := nullish (Task.worktree_path task) EmptyString in
          if worktreeExists git path
          then try_catch
                 (match removeWorktree git path with
                  | Ok _ => Ok true
                  | Throw e => Throw e
                  end) false
          else false
        else false in
      let branchRemoved :=
        if truthy_string (Task.branch_name task) then
          try_catch
            (match deleteBranch git (nullish (Task.branch_name task) EmptyString) with
             | Ok _ => Ok true
             | Throw e => Throw e
             end) false
        else false in
      updateTask (Task.id task)
        (TaskUpdates.mk (Some failed) None None None None None None None None) ;;;
      addProgressLog
        {| NewProgressLog.id := uuid_log env;
           NewProgressLog.task_id := Task.id task;
           NewProgressLog.event := Failed;
           NewProgressLog.message :=
             nullish (cleanup_reason input) "Task cleaned up and marked as failed";
           NewProgressLog.metadata :=
             JObj [("reason",
                    match cleanup_reason input with
                    | Some r => JStr r
                    | None => JUndefined
                    end);
                   ("worktree_removed", JBool worktreeRemoved);
                   ("branch_removed", JBool branchRemoved)] |}
        (sql_now env) ;;;
      ret {| cleanup_success := true;
             worktree_removed := worktreeRemoved;
             branch_removed := branchRemoved |}
  end.

End WithDrivers.

End TaskService.

(** The operations that write task rows, as requests to the service, and
    the store one request leaves behind (whether the method returns or
    throws). *)
Inductive Operation : Type :=
| ClaimTask (input : TaskService.ClaimTaskInput)
| StartTask (task_id : string)
| UpdateProgress (input : TaskService.UpdateProgressInput)
| CompleteTask (input : TaskService.CompleteTaskInput)
| MergeTask (input : TaskService.MergeTaskInput)
| CleanupTask (input : TaskService.CleanupTaskInput).

Definition run (git : GitService) (slugify : string -> string)
    (resolve : string -> string -> string -> string)
    (op : Operation) (env : Env) (db : DB) : DB :=
  match op with
  | ClaimTask input => snd (TaskService.claimTask input env db)
  | StartTask task_id => snd (TaskService.startTask git slugify resolve task_id env db)
  | UpdateProgress input => snd (TaskService.updateProgress git input env db)
  | CompleteTask input => snd (TaskService.completeTask input env db)
  | MergeTask input => snd (TaskService.mergeTask git input env db)
  | CleanupTask input => snd (TaskService.cleanupTask git input env db)
  end.

(** [status] of the row with id [id], if there is one. *)
Definition status_of (db : DB) (id : string) : option TaskStatus :=
  option_map Task.status (Queries.getTask db id).

(* ===================================================================== *)
(** * Concrete stores and drivers *)
(* ===================================================================== *)

(** Small stores, in the shape [createTasks] gives them, and stand-ins for
    the git binary and the two library functions, used to run the service
    on concrete inputs. *)
Module Scenario.

Definition env : Env :=
  {| uuid_agent := "3f2b8c1e-7a4d-4e0b-9c55-0d6f1a2b3c4d";
     uuid_log := "9b1deb4d-3b7d-4bad-9bdd-2b0d7b3dcb6d";
     date_now := "2026-02-08T10:00:00.000Z";
     sql_now := "2026-02-08 10:00:00" |}.

(** The same, with another id for the log row. *)
Definition env_with (log_id : string) : Env :=
  {| uuid_agent := uuid_agent env;
     uuid_log := log_id;
     date_now := date_now env;
     sql_now := sql_now env |}.

Definition group : TaskGroup.t :=
  {| TaskGroup.id := "g1"; TaskGroup.title := "Blog";
     TaskGroup.description := "Build a blog";
     TaskGroup.created_at := "2026-02-08 09:00:00"; TaskGroup.status := "active" |}.

Definition task (id : string) (sequence : Z) (title : string)
    (status : TaskStatus) (progress : Z) : Task.t :=
  {| Task.id := id; Task.group_id := "g1"; Task.sequence := sequence;
     Task.title := title; Task.description := title;
     Task.status := status; Task.priority := medium;
     Task.assigned_to := None; Task.branch_name := None;
     Task.worktree_path := None; Task.progress := progress;
     Task.progress_note := None; Task.created_at := "2026-02-08 09:00:00";
     Task.started_at := None; Task.completed_at := None; Task.merged_at := None |}.

Definition store (ts : list Task.t) (deps : list TaskDependency.t)
    (owned : list TaskFileOwnership.t) : DB :=
  {| task_groups := [group]; tasks := ts; task_dependencies := deps;
     task_file_ownership := owned; progress_logs := [] |}.

(** A git that does what it is asked, on branch [main] (the mock of the
    test suite). *)
Definition git_quiet : GitService :=
  {| repoRoot := "/tmp/test-repo";
     createWorktree := fun _ _ => Ok tt;
     removeWorktree := fun _ => Ok tt;
     deleteBranch := fun _ => Ok tt;
     getCurrentBranch := Ok "main";
     getLatestCommit := fun _ => Ok "abc123";
     worktreeExists := fun _ => false;
     mergeBranch := fun _ _ => Ok {| merge_success := true; merge_conflicts := [] |};
     hasNewCommitsSince := fun _ => false |}.

(** A git whose [worktree add] fails. *)
Definition git_no_worktree : GitService :=
  {| repoRoot := "/tmp/test-repo";
     createWorktree := fun path branch =>
       Throw ("Failed to create worktree at " +:+ path +:+ " with branch " +:+ branch);
     removeWorktree := fun _ => Ok tt;
     deleteBranch := fun _ => Ok tt;
     getCurrentBranch := Ok "main";
     getLatestCommit := fun _ => Ok "abc123";
     worktreeExists := fun _ => false;
     mergeBranch := fun _ _ => Ok {| merge_success := true; merge_conflicts := [] |};
     hasNewCommitsSince := fun _ => false |}.

Definition slugify (title : string) : string := title.

Definition resolve (a b c : string) : string := a +:+ "/" +:+ b +:+ "/" +:+ c.

(** One pending task, nothing else. *)
Definition single : DB := store [task "t1" 1 "schema" pending 0] [] [].

(** Task 1 is in progress, task 2 is pending; both declare [src/db/**]
    as [shared]. *)
Definition shared_pattern : DB :=
  store [task "t1" 1 "schema" in_progress 40; task "t2" 2 "seed" pending 0] []
    [TaskFileOwnership.mk "t1" "src/db/**" shared;
     TaskFileOwnership.mk "t2" "src/db/**" shared].

(** Task 1 is completed, task 2 is pending and depends on it. *)
Definition chain : DB :=
  store [task "t1" 1 "schema" completed 100; task "t2" 2 "api" pending 0]
    [TaskDependency.mk "t2" "t1"] [].

(** One assigned task. *)
Definition claimed : DB := store [task "t1" 1 "schema" assigned 0] [] [].

(** Task 1 is in progress; task 2 waits for it; task 3 waits for tasks 1
    and 4; task 4 is pending. *)
Definition fan : DB :=
  store [task "t1" 1 "schema" in_progress 80; task "t2" 2 "api" blocked 0;
         task "t3" 3 "ui" blocked 0; task "t4" 4 "auth" pending 0]
    [TaskDependency.mk "t2" "t1"; TaskDependency.mk "t3" "t1";
     TaskDependency.mk "t3" "t4"] [].

(** One merged task. *)
Definition merged : DB := store [task "t1" 1 "schema" completed 100] [] [].

(** One task waiting for review. *)
Definition reviewing : DB := store [task "t1" 1 "schema" in_review 100] [] [].

(** A git whose checkout is on another branch. *)
Definition git_on (branch : string) : GitService :=
  {| repoRoot := "/tmp/test-repo";
     createWorktree := fun _ _ => Ok tt;
     removeWorktree := fun _ => Ok tt;
     deleteBranch := fun _ => Ok tt;
     getCurrentBranch := Ok branch;
     getLatestCommit := fun _ => Ok "abc123";
     worktreeExists := fun _ => false;
     mergeBranch := fun _ _ => Ok {| merge_success := true; merge_conflicts := [] |};
     hasNewCommitsSince := fun _ => false |}.

(** A git whose merge stops on conflicts in [files]. *)
Definition git_conflicts (files : list string) : GitService :=
  {| repoRoot := "/tmp/test-repo";
     createWorktree := fun _ _ => Ok tt;
     removeWorktree := fun _ => Ok tt;
     deleteBranch := fun _ => Ok tt;
     getCurrentBranch := Ok "main";
     getLatestCommit := fun _ => Ok "abc123";
     worktreeExists := fun _ => false;
     mergeBranch := fun _ _ => Ok {| merge_success := false; merge_conflicts := files |};
     hasNewCommitsSince := fun _ => false |}.

(** A git none of whose commands works. *)
Definition git_broken : GitService :=
  {| repoRoot := "/tmp/test-repo";
     createWorktree := fun _ _ => Throw "Failed to create worktree";
     removeWorktree := fun _ => Throw "Failed to remove worktree";
     deleteBranch := fun _ => Throw "Failed to delete branch";
     getCurrentBranch := Throw "Failed to get current branch";
     getLatestCommit := fun _ => Throw "Failed to get latest commit";
     worktreeExists := fun _ => false;
     mergeBranch := fun _ _ => Throw "Failed to merge branch";
     hasNewCommitsSince := fun _ => false |}.

(** A task that has been started: it has its branch and its worktree. *)
Definition started (id : string) (sequence : Z) (title : string)
    (status : TaskStatus) (progress : Z) : Task.t :=
  {| Task.id := id; Task.group_id := "g1"; Task.sequence := sequence;
     Task.title := title; Task.description := title;
     Task.status := status; Task.priority := medium;
     Task.assigned_to := Some "agent-1";
     Task.branch_name := Some ("task/task-" +:+ show_Z sequence +:+ "-" +:+ title);
     Task.worktree_path :=
       Some ("/tmp/test-repo/.worktrees/task-" +:+ show_Z sequence +:+ "-" +:+ title);
     Task.progress := progress;
     Task.progress_note := None; Task.created_at := "2026-02-08 09:00:00";
     Task.started_at := Some "2026-02-08T09:30:00.000Z";
     Task.completed_at := None; Task.merged_at := None |}.

(** Task 1 waits for review on its branch; task 2 waits for task 1; task 3
    waits for tasks 1 and 4; task 4 is in progress and owns [src/auth/**]. *)
Definition review_fan : DB :=
  store [started "t1" 1 "schema" in_review 100; task "t2" 2 "api" blocked 0;
         task "t3" 3 "ui" blocked 0; started "t4" 4 "auth" in_progress 30]
    [TaskDependency.mk "t2" "t1"; TaskDependency.mk "t3" "t1";
     TaskDependency.mk "t3" "t4"]
    [TaskFileOwnership.mk "t4" "src/auth/**" exclusive].

(** Two tasks that wait for each other. *)
Definition knot : DB :=
  store [task "t1" 1 "schema" blocked 0; task "t2" 2 "api" blocked 0]
    [TaskDependency.mk "t1" "t2"; TaskDependency.mk "t2" "t1"] [].

(** A plan of three tasks for [create_tasks]: the second lists the first
    and a number that names no task, the third lists itself. *)
Definition plan : TaskService.CreateTasksInput :=
  {| TaskService.group_title := "Comments";
     TaskService.group_description := "Add comments to the blog";
     TaskService.input_tasks :=
       [ {| TaskService.ti_title := "schema";
            TaskService.ti_description := "Tables for comments";
            TaskService.ti_priority := None;
            TaskService.ti_depends_on := None;
            TaskService.ti_file_patterns :=
              Some [ {| TaskService.fp_pattern := "src/db/**";
                        TaskService.fp_ownership_type := exclusive |} ] |};
         {| TaskService.ti_title := "api";
            TaskService.ti_description := "Endpoints for comments";
            TaskService.ti_priority := Some high;
            TaskService.ti_depends_on := Some [1; 7];
            TaskService.ti_file_patterns :=
              Some [ {| TaskService.fp_pattern := "src/db/queries/**";
                        TaskService.fp_ownership_type := shared |} ] |};
         {| TaskService.ti_title := "ui";
            TaskService.ti_description := "Comment form";
            TaskService.ti_priority := None;
            TaskService.ti_depends_on := Some [3];
            TaskService.ti_file_patterns := None |} ] |}.

(** The ids [createTasks] draws for it: [n1], [n2], ... for the tasks. *)
Definition plan_env : TaskService.CreateEnv :=
  {| TaskService.uuid_group := "g2";
     TaskService.uuid_task := fun i => "n" +:+ show_Z (Z.of_nat i + 1);
     TaskService.created_now := "2026-02-08 11:00:00" |}.

End Scenario.

(* ===================================================================== *)
(** * Facts about the containers *)
(* ===================================================================== *)

Section JsMapFacts.
Context {V : Type}.
Implicit Types (m : JsMap.t V) (k : string) (v : V).

Lemma get_set m k v k' :
  JsMap.get (JsMap.set m k v) k' = if String.eqb k k' then Some v else JsMap.get m k'.
Proof.
  induction m as [|[k0 v0] m IH]; simpl.
  - reflexivity.
  - destruct (String.eqb k0 k) eqn:E0; simpl.
    + apply String.eqb_eq in E0; subst k0.
      destruct (String.eqb k k'); reflexivity.
    + destruct (String.eqb k0 k') eqn:E1.
      * apply String.eqb_eq in E1; subst k0.
        rewrite String.eqb_sym, E0. reflexivity.
      * apply IH.
Qed.

Lemma get_set_eq m k v : JsMap.get (JsMap.set m k v) k = Some v.
Proof. rewrite get_set, String.eqb_refl. reflexivity. Qed.

Lemma get_set_ne m k v k' : k <> k' -> JsMap.get (JsMap.set m k v) k' = JsMap.get m k'.
Proof. intros H. rewrite get_set. apply String.eqb_neq in H. rewrite H. reflexivity. Qed.

Lemma get_Some_keys m k v : JsMap.get m k = Some v -> In k (JsMap.keys m).
Proof.
  induction m as [|[k0 v0] m IH]; simpl; [discriminate|].
  destruct (String.eqb k0 k) eqn:E.
  - apply String.eqb_eq in E. auto.
  - auto.
Qed.

Lemma get_None_keys m k : JsMap.get m k = None -> ~ In k (JsMap.keys m).
Proof.
  induction m as [|[k0 v0] m IH]; simpl; [tauto|].
  destruct (String.eqb k0 k) eqn:E; [discriminate|].
  apply String.eqb_neq in E. intros H [?|?]; [congruence|]. apply IH; assumption.
Qed.

Lemma keys_get m k : In k (JsMap.keys m) -> exists v, JsMap.get m k = Some v.
Proof.
  intros H. destruct (JsMap.get m k) eqn:E; [eauto|].
  apply get_None_keys in E. contradiction.
Qed.

Lemma keys_set_present m k v :
  In k (JsMap.keys m) -> JsMap.keys (JsMap.set m k v) = JsMap.keys m.
Proof.
  induction m as [|[k0 v0] m IH]; simpl; [tauto|].
  destruct (String.eqb k0 k) eqn:E; simpl.
  - reflexivity.
  - apply String.eqb_neq in E. intros [?|?]; [congruence|].
    f_equal. apply IH; assumption.
Qed.

Lemma keys_set_absent m k v :
  ~ In k (JsMap.keys m) -> JsMap.set m k v = m ++ [(k, v)].
Proof.
  induction m as [|[k0 v0] m IH]; simpl; [reflexivity|].
  intros H. destruct (String.eqb k0 k) eqn:E.
  - apply String.eqb_eq in E. tauto.
  - f_equal. apply IH. tauto.
Qed.

Lemma keys_set_incl m k v k' :
  In k' (JsMap.keys (JsMap.set m k v)) <-> k' = k \/ In k' (JsMap.keys m).
Proof.
  induction m as [|[k0 v0] m IH]; simpl.
  - intuition.
  - destruct (String.eqb k0 k) eqn:E; simpl.
    + apply String.eqb_eq in E; subst. intuition.
    + rewrite IH. intuition.
Qed.

Lemma NoDup_keys_set m k v :
  List.NoDup (JsMap.keys m) -> List.NoDup (JsMap.keys (JsMap.set m k v)).
Proof.
  induction m as [|[k0 v0] m IH]; simpl; intros H.
  - constructor; [simpl; tauto|constructor].
  - inversion H as [|? ? Hn Hd]; subst.
    destruct (String.eqb k0 k) eqn:E; simpl.
    + constructor; assumption.
    + apply String.eqb_neq in E. constructor; [|auto].
      change (~ In k0 (JsMap.keys (JsMap.set m k v))).
      rewrite keys_set_incl. intros [?|?]; [congruence|contradiction].
Qed.

End JsMapFacts.

Lemma includes_In l x : includes l x = true <-> In x l.
Proof.
  unfold includes. rewrite existsb_exists. split.
  - intros (y & Hy & E). apply String.eqb_eq in E. subst. assumption.
  - intros H. exists x. split; [assumption|apply String.eqb_refl].
Qed.

Lemma set_has_true s x : set_has s x = true <-> x ∈ s.
Proof. unfold set_has. apply bool_decide_eq_true. Qed.

Lemma every_forall {A} (p : A -> bool) l : every p l = true <-> (forall x, In x l -> p x = true).
Proof. unfold every. apply forallb_forall. Qed.

(* ===================================================================== *)
(** * The DAG engine: cycle detection *)
(* ===================================================================== *)

Section CycleDetection.
Import Dag.
Variable dependencies : JsMap.t (list string).

(** [u] lists [v] as a prerequisite. *)
Definition edge (u v : string) : Prop :=
  In v (nullish (JsMap.get dependencies u) []).

Definition cyclic : Prop := exists u, tc edge u u.

Definition col (c : JsMap.t nat) (u : string) : nat :=
  nullish (JsMap.get c u) WHITE.

Lemma col_set c k v u : col (JsMap.set c k v) u = if String.eqb k u then v else col c u.
Proof. unfold col. rewrite get_set. destruct (String.eqb k u); reflexivity. Qed.

Lemma col_set_eq c k v : col (JsMap.set c k v) k = v.
Proof. rewrite col_set, String.eqb_refl. reflexivity. Qed.

Lemma col_set_ne c k v u : k <> u -> col (JsMap.set c k v) u = col c u.
Proof. intros H. rewrite col_set. apply String.eqb_neq in H. rewrite H. reflexivity. Qed.

Lemma col_nonwhite_keys c u : col c u <> WHITE -> In u (JsMap.keys c).
Proof.
  unfold col. destruct (JsMap.get c u) eqn:E; simpl.
  - intros _. eapply get_Some_keys; eassumption.
  - congruence.
Qed.

(** The parent links along the DFS stack (top first): each node points
    to the one below it, the bottom one to [null]. *)
Fixpoint chain (p : JsMap.t (option string)) (stk : list string) : Prop :=
  match stk with
  | [] => True
  | a :: rest =>
      match rest with
      | [] => JsMap.get p a = Some None
      | b :: _ => JsMap.get p a = Some (Some b) /\ chain p rest
      end
  end.

Lemma chain_ext p p' stk :
  (forall u, In u stk -> JsMap.get p' u = JsMap.get p u) -> chain p stk -> chain p' stk.
Proof.
  induction stk as [|a rest IH]; simpl; [tauto|].
  intros Hag. destruct rest as [|b rest'].
  - rewrite Hag by auto. tauto.
  - intros [H1 H2]. split.
    + rewrite Hag by auto. assumption.
    + apply IH; [|assumption]. intros u Hu. apply Hag. auto.
Qed.

Lemma chain_tail p a stk : chain p (a :: stk) -> chain p stk.
Proof. simpl. destruct stk; [simpl; tauto|tauto]. Qed.

(** The parent walk ends within the height of the stack and only ever
    extends the path it was given. *)
Lemma walk_parents_terminates p neighbor stk :
  forall current cyc fuel,
    chain p (current :: stk) -> (length stk < fuel)%nat ->
    exists ext, walk_parents fuel p neighbor current cyc = Some (cyc ++ ext).
Proof.
  induction stk as [|b rest IH]; intros current cyc fuel Hch Hfuel.
  - destruct fuel as [|fuel]; [simpl in Hfuel; lia|].
    simpl in *. rewrite Hch. exists []. rewrite app_nil_r. reflexivity.
  - destruct fuel as [|fuel]; [simpl in Hfuel; lia|].
    destruct Hch as [Hget Hch]. cbn [walk_parents]. rewrite Hget.
    destruct (String.eqb b neighbor).
    + exists []. rewrite app_nil_r. reflexivity.
    + destruct (IH b (cyc ++ [b]) fuel Hch) as [ext Hext]; [simpl in Hfuel; lia|].
      exists ([b] ++ ext). rewrite Hext, app_assoc. reflexivity.
Qed.

(** What the colours mean.  Black nodes are finished: their
    prerequisites are finished and no cycle runs through them. *)
Record inv (c : JsMap.t nat) : Prop := {
  inv_range : forall u, (col c u <= 2)%nat;
  inv_closed : forall u v, col c u = BLACK -> edge u v -> col c v = BLACK;
  inv_acyclic : forall u, col c u = BLACK -> ~ tc edge u u
}.

Lemma black_reach c u v :
  inv c -> col c u = BLACK -> tc edge u v -> col c v = BLACK.
Proof.
  intros Hinv Hu Htc. induction Htc as [x y Hxy|x y z Hxy _ IH].
  - eapply inv_closed; eassumption.
  - apply IH. eapply inv_closed; eassumption.
Qed.

(** Every prerequisite that is mentioned has a colour entry. *)
Definition covers (c : JsMap.t nat) : Prop :=
  forall u v, edge u v -> In v (JsMap.keys c).

(** The contract of one call [dfs(node)] made with the stack [stk] below
    it. *)
Definition dfs_post (node : string) (stk : list string)
    (c : JsMap.t nat) (p : JsMap.t (option string))
    (out : option (list string) * dfs_state) : Prop :=
  match fst out with
  | Some cyc => cyc <> [] /\ cyclic
  | None =>
      let st' := snd out in
      JsMap.keys (color st') = JsMap.keys c
      /\ (forall u, col (color st') u = GRAY <-> In u stk)
      /\ col (color st') node = BLACK
      /\ (forall u, col c u <> WHITE -> col (color st') u = col c u)
      /\ (forall u, col c u <> WHITE -> JsMap.get (parent st') u = JsMap.get p u)
      /\ inv (color st')
  end.

Definition dfs_pre (node : string) (stk : list string)
    (c : JsMap.t nat) (p : JsMap.t (option string)) : Prop :=
  col c node = WHITE
  /\ In node (JsMap.keys c)
  /\ (forall u, col c u = GRAY <-> In u stk)
  /\ List.NoDup stk
  /\ chain p (node :: stk)
  /\ (forall g, In g stk -> tc edge g node)
  /\ inv c /\ covers c /\ List.NoDup (JsMap.keys c).

Definition dfs_contract (n : nat)
    (rec : string -> dfs_state -> option (option (list string) * dfs_state))
    (stk : list string) : Prop :=
  forall node c p,
    dfs_pre node stk c p -> length (JsMap.keys c) = n ->
    exists out, rec node {| color := c; parent := p |} = Some out
                /\ dfs_post node stk c p out.

Lemma stack_bound (c : JsMap.t nat) stk :
  List.NoDup stk ->
  (forall u, In u stk -> In u (JsMap.keys c)) ->
  (length stk <= length (JsMap.keys c))%nat.
Proof. intros H1 H3. apply NoDup_incl_length; assumption. Qed.

Definition loop_post (node : string) (stk : list string)
    (c : JsMap.t nat) (p : JsMap.t (option string))
    (out : option (list string) * dfs_state) : Prop :=
  match fst out with
  | Some cyc => cyc <> [] /\ cyclic
  | None =>
      let st' := snd out in
      JsMap.keys (color st') = JsMap.keys c
      /\ (forall u, col (color st') u = GRAY <-> In u stk)
      /\ col (color st') node = BLACK
      /\ (forall u, u <> node -> col c u <> WHITE -> col (color st') u = col c u)
      /\ (forall u, col c u <> WHITE -> JsMap.get (parent st') u = JsMap.get p u)
      /\ inv (color st')
  end.

Lemma dfs_loop_nil rec bound node c p :
  dfs_loop rec bound node [] {| color := c; parent := p |}
  = Some (None, {| color := JsMap.set c node BLACK; parent := p |}).
Proof. reflexivity. Qed.

Lemma dfs_loop_cons rec bound node v rest c p :
  dfs_loop rec bound node (v :: rest) {| color := c; parent := p |}
  = if Nat.eqb (col c v) GRAY then
      match walk_parents bound p v node [v; node] with
      | Some cyc => Some (Some (rev cyc), {| color := c; parent := p |})
      | None => None
      end
    else if Nat.eqb (col c v) WHITE then
      match rec v {| color := c; parent := JsMap.set p v (Some node) |} with
      | None => None
      | Some (Some result, st'') => Some (Some result, st'')
      | Some (None, st'') => dfs_loop rec bound node rest st''
      end
    else dfs_loop rec bound node rest {| color := c; parent := p |}.
Proof. reflexivity. Qed.

Lemma finish_node c node stk :
  (forall u, col c u = GRAY <-> In u (node :: stk)) ->
  List.NoDup (node :: stk) ->
  inv c ->
  (forall v, edge node v -> col c v = BLACK) ->
  (forall u, col (JsMap.set c node BLACK) u = GRAY <-> In u stk)
  /\ inv (JsMap.set c node BLACK).
Proof.
  intros Hgray Hnd Hinv Hdone.
  assert (Hnode : col c node = GRAY) by (apply Hgray; left; reflexivity).
  inversion Hnd as [|? ? Hnotin Hnd']; subst.
  assert (Hblack_ne : forall v, col c v = BLACK -> node <> v).
  { intros v Hv ->. rewrite Hnode in Hv. discriminate. }
  split.
  - intros u. rewrite col_set. destruct (String.eqb_spec node u) as [->|Hne].
    + split; [discriminate|]. intros; contradiction.
    + rewrite Hgray. simpl. tauto.
  - split.
    + intros u. rewrite col_set. destruct (String.eqb node u).
      * unfold BLACK. lia.
      * apply (inv_range _ Hinv).
    + intros u v Hu Huv. rewrite col_set in Hu.
      assert (Hv : col c v = BLACK).
      { destruct (String.eqb_spec node u) as [->|Hne].
        - apply Hdone. assumption.
        - eapply inv_closed; eassumption. }
      rewrite col_set_ne by (apply Hblack_ne; assumption). assumption.
    + intros u Hu Hcyc. rewrite col_set in Hu.
      destruct (String.eqb_spec node u) as [E|Hne].
      * subst u. assert (Hb : col c node = BLACK).
        { inversion Hcyc as [x y Hxy|x y z Hxy Hyz]; subst.
          - apply Hdone. assumption.
          - eapply black_reach; [eassumption| |eassumption]. apply Hdone. assumption. }
        rewrite Hnode in Hb. discriminate.
      * eapply inv_acyclic; eassumption.
Qed.

Lemma gray_cycle c node stk v :
  (forall u, col c u = GRAY <-> In u (node :: stk)) ->
  (forall g, In g stk -> tc edge g node) ->
  edge node v -> col c v = GRAY -> cyclic.
Proof.
  intros Hgray Hpath Hedge Hv. apply Hgray in Hv. destruct Hv as [<-|Hv].
  - exists node. apply tc_once. assumption.
  - exists v. eapply tc_r; [apply Hpath; assumption|assumption].
Qed.

Lemma dfs_loop_spec n bound rec node stk :
  dfs_contract n rec (node :: stk) ->
  (n < bound)%nat ->
  List.NoDup (node :: stk) ->
  (forall g, In g stk -> tc edge g node) ->
  forall rest c p,
    (forall u, col c u = GRAY <-> In u (node :: stk)) ->
    chain p (node :: stk) ->
    inv c -> covers c -> List.NoDup (JsMap.keys c) ->
    length (JsMap.keys c) = n ->
    (forall v, In v rest -> edge node v) ->
    (forall v, edge node v -> In v rest \/ col c v = BLACK) ->
    exists out, dfs_loop rec bound node rest {| color := c; parent := p |} = Some out
                /\ loop_post node stk c p out.
Proof.
  intros Hrec Hn Hnd Hpath rest.
  induction rest as [|v rest IH]; intros c p Hgray Hch Hinv Hcov Hkeys Hbound Hrest Hdone.
  - rewrite dfs_loop_nil. eexists; split; [reflexivity|].
    assert (Hnode : col c node = GRAY) by (apply Hgray; left; reflexivity).
    assert (Hin : In node (JsMap.keys c)).
    { apply col_nonwhite_keys. rewrite Hnode. discriminate. }
    destruct (finish_node c node stk Hgray Hnd Hinv) as [Hgray' Hinv'].
    { intros v Hv. destruct (Hdone v Hv) as [[]|H]. exact H. }
    unfold loop_post; cbn [fst snd color parent].
    split; [apply keys_set_present; assumption|]. split; [exact Hgray'|].
    split; [apply col_set_eq|].
    split; [intros u Hne _; apply col_set_ne; congruence|].
    split; [reflexivity|assumption].
  - rewrite dfs_loop_cons.
    assert (Hedge : edge node v) by (apply Hrest; left; reflexivity).
    destruct (Nat.eqb_spec (col c v) GRAY) as [Hg|Hng].
    { (* a node on the stack: the cycle is reported *)
      assert (Hlen : (length stk < bound)%nat).
      { assert (length (node :: stk) <= length (JsMap.keys c))%nat.
        { apply stack_bound; [assumption|]. intros u Hu. apply col_nonwhite_keys.
          apply Hgray in Hu. rewrite Hu. discriminate. }
        simpl in *. lia. }
      destruct (walk_parents_terminates p v stk node [v; node] bound Hch Hlen)
        as [ext Hext].
      rewrite Hext. eexists; split; [reflexivity|].
      unfold loop_post; cbn [fst snd]. split.
      - intros Hnil. apply (f_equal (@length string)) in Hnil.
        rewrite length_rev, length_app in Hnil. simpl in Hnil. lia.
      - eapply gray_cycle; eassumption. }
    destruct (Nat.eqb_spec (col c v) WHITE) as [Hw|Hnw].
    { (* an unvisited node: recursive call *)
      assert (Hvnot : ~ In v (node :: stk)).
      { intros Hv. apply Hgray in Hv. congruence. }
      destruct (Hrec v c (JsMap.set p v (Some node))) as [[res st''] [Hcall Hpost]].
      { unfold dfs_pre.
        split; [assumption|]. split; [eapply Hcov; eassumption|].
        split; [exact Hgray|]. split; [assumption|].
        split.
        { change (chain (JsMap.set p v (Some node)) (v :: node :: stk)).
          cbn [chain]. split; [apply get_set_eq|].
          change (chain (JsMap.set p v (Some node)) (node :: stk)).
          apply chain_ext with (p := p); [|assumption].
          intros u Hu. apply get_set_ne. intros ->. contradiction. }
        split.
        { intros g [<-|Hg]; [apply tc_once; assumption|].
          eapply tc_r; [apply Hpath; assumption|assumption]. }
        split; [assumption|]. split; assumption. }
      { assumption. }
      rewrite Hcall. unfold dfs_post in Hpost. simpl in Hpost.
      destruct res as [cyc|].
      { eexists; split; [reflexivity|]. exact Hpost. }
      destruct st'' as [c' p'']. simpl in Hpost.
      destruct Hpost as (Hk & Hgray' & Hvb & Hcol & Hpar & Hinv').
      destruct (IH c' p'') as [out [Hloop Hout]].
      + assumption.
      + apply chain_ext with (p := p); [|assumption].
        intros u Hu. rewrite Hpar.
        * apply get_set_ne. intros ->. contradiction.
        * apply Hgray in Hu. rewrite Hu. discriminate.
      + assumption.
      + unfold covers. rewrite Hk. assumption.
      + rewrite Hk. assumption.
      + rewrite Hk. assumption.
      + intros w Hwin. apply Hrest. right. assumption.
      + intros w Hw'. destruct (Hdone w Hw') as [[<-|Hin]|Hb].
        * right. assumption.
        * left. assumption.
        * right. rewrite Hcol; [assumption|]. rewrite Hb. discriminate.
      + exists out. split; [assumption|].
        unfold loop_post in *. destruct (fst out); [assumption|].
        simpl in Hout.
        destruct Hout as (Hk2 & Hgray2 & Hnb & Hcol2 & Hpar2 & Hinv2).
        cbn [fst snd] in *.
        split; [congruence|]. split; [exact Hgray2|]. split; [assumption|].
        split.
        { intros u Hne Hu. rewrite Hcol2; [apply Hcol; assumption|assumption|].
          rewrite Hcol; assumption. }
        split; [|assumption].
        intros u Hu. rewrite Hpar2.
        * rewrite Hpar by assumption. apply get_set_ne.
          intros ->. contradiction.
        * rewrite Hcol; assumption. }
    (* a finished node *)
    assert (Hb : col c v = BLACK).
    { pose proof (inv_range _ Hinv v). unfold GRAY, WHITE, BLACK in *. lia. }
    apply IH; try assumption.
    + intros w Hwin. apply Hrest. right. assumption.
    + intros w Hw'. destruct (Hdone w Hw') as [[<-|Hin]|Hb'].
      * right. assumption.
      * left. assumption.
      * right. assumption.
Qed.

(** [dfs] returns, with its contract, whenever the fuel covers the part
    of the graph that is not on the stack. *)
Lemma dfs_spec bound :
  forall fuel stk node c p,
    dfs_pre node stk c p ->
    (length (JsMap.keys c) < bound)%nat ->
    (length (JsMap.keys c) < fuel + length stk)%nat ->
    exists out, dfs bound fuel dependencies node {| color := c; parent := p |} = Some out
                /\ dfs_post node stk c p out.
Proof.
  induction fuel as [|fuel IH]; intros stk node c p Hpre Hbound Hfuel;
    destruct Hpre as (Hw & Hin & Hgray & Hnd & Hch & Hpath & Hinv & Hcov & Hkeys).
  - exfalso.
    assert (length (node :: stk) <= length (JsMap.keys c))%nat.
    { apply stack_bound.
      - constructor; [|assumption]. intros Hn. apply Hgray in Hn.
        rewrite Hw in Hn. discriminate.
      - intros u [<-|Hu]; [assumption|]. apply col_nonwhite_keys.
        apply Hgray in Hu. rewrite Hu. discriminate. }
    simpl in *. lia.
  - cbn [dfs].
    set (c1 := JsMap.set c node GRAY).
    assert (Hne : forall u, col c u <> WHITE -> node <> u).
    { intros u Hu ->. contradiction. }
    assert (Hk1 : JsMap.keys c1 = JsMap.keys c) by (apply keys_set_present; assumption).
    destruct (dfs_loop_spec (length (JsMap.keys c)) bound
                (dfs bound fuel dependencies) node stk) with
      (rest := nullish (JsMap.get dependencies node) []) (c := c1) (p := p)
      as [out [Hrun Hout]].
    + intros node' c' p' Hpre' Hlen'. apply IH; [assumption|lia|].
      rewrite Hlen'. simpl. lia.
    + assumption.
    + constructor; [|assumption]. intros Hn. apply Hgray in Hn.
        rewrite Hw in Hn. discriminate.
    + assumption.
    + intros u. unfold c1. rewrite col_set.
      destruct (String.eqb_spec node u) as [->|Hneq].
      * split; [left; reflexivity|reflexivity].
      * rewrite Hgray. simpl. tauto.
    + assumption.
    + split.
      * intros u. unfold c1. rewrite col_set. destruct (String.eqb node u).
        -- unfold GRAY. lia.
        -- apply (inv_range _ Hinv).
      * intros u v Hu Huv. unfold c1 in *. rewrite col_set in Hu.
        destruct (String.eqb_spec node u) as [->|Hneq]; [discriminate|].
        assert (Hv : col c v = BLACK) by (eapply inv_closed; eassumption).
        rewrite col_set_ne; [assumption|]. apply Hne. rewrite Hv. discriminate.
      * intros u Hu. unfold c1 in Hu. rewrite col_set in Hu.
        destruct (String.eqb_spec node u) as [->|Hneq]; [discriminate|].
        eapply inv_acyclic; eassumption.
    + unfold covers. rewrite Hk1. assumption.
    + rewrite Hk1. assumption.
    + rewrite Hk1. reflexivity.
    + intros v Hv. exact Hv.
    + intros v Hv. left. exact Hv.
    + exists out. split; [exact Hrun|].
      unfold loop_post in Hout. unfold dfs_post.
      destruct (fst out); [assumption|]. cbn [fst snd] in *.
      destruct Hout as (Hk & Hgray' & Hb & Hcol & Hpar & Hinv').
      split; [congruence|]. split; [assumption|]. split; [assumption|].
      split.
      * intros u Hu. rewrite Hcol.
        -- unfold c1. apply col_set_ne. apply Hne. assumption.
        -- intros ->. contradiction.
        -- unfold c1. rewrite col_set_ne by (apply Hne; assumption). assumption.
      * split; [|assumption]. intros u Hu. apply Hpar.
        unfold c1. rewrite col_set_ne by (apply Hne; assumption). assumption.
Qed.

(** The outer loop: every node it has passed is finished. *)
Lemma visit_all_spec bound :
  forall nodes c p,
    (forall u, col c u <> GRAY) ->
    inv c -> covers c -> List.NoDup (JsMap.keys c) ->
    (forall u, In u nodes -> In u (JsMap.keys c)) ->
    (length (JsMap.keys c) < bound)%nat ->
    exists r, visit_all bound dependencies nodes {| color := c; parent := p |} = Some r
      /\ if valid r
         then cycle r = None
              /\ exists c', inv c'
                   /\ (forall u, In u nodes -> col c' u = BLACK)
                   /\ (forall u, col c u = BLACK -> col c' u = BLACK)
         else cyclic /\ exists cyc, cycle r = Some cyc /\ cyc <> [].
Proof.
  induction nodes as [|node rest IH]; intros c p Hnogray Hinv Hcov Hkeys Hnodes Hbound.
  - eexists; split; [reflexivity|]. simpl. split; [reflexivity|].
    exists c. split; [assumption|]. split; [intros u []|auto].
  - cbn [visit_all color parent]. fold (col c node).
    destruct (Nat.eqb_spec (col c node) WHITE) as [Hw|Hnw].
    + destruct (dfs_spec bound bound [] node c (JsMap.set p node None))
        as [[res [c'' p'']] [Hrun Hpost]].
      { unfold dfs_pre. split; [assumption|]. split; [apply Hnodes; left; reflexivity|].
        split; [intros u; split; [intros Hu; elim (Hnogray u Hu)|intros []]|].
        split; [constructor|]. split; [apply get_set_eq|].
        split; [intros g []|]. split; [assumption|]. split; assumption. }
      { assumption. }
      { simpl. lia. }
      rewrite Hrun. unfold dfs_post in Hpost. cbn [fst snd color parent] in Hpost.
      destruct res as [cyc|].
      { eexists; split; [reflexivity|]. simpl. destruct Hpost as [Hne Hcyc].
        split; [assumption|]. exists cyc. split; [reflexivity|assumption]. }
      destruct Hpost as (Hk & Hgray' & Hb & Hcol & Hpar & Hinv').
      destruct (IH c'' p'') as [r [Hr Hres]].
      * intros u Hu. apply Hgray' in Hu. destruct Hu.
      * assumption.
      * unfold covers. rewrite Hk. assumption.
      * rewrite Hk. assumption.
      * intros u Hu. rewrite Hk. apply Hnodes. right. assumption.
      * rewrite Hk. assumption.
      * exists r. split; [assumption|]. destruct (valid r); [|assumption].
        destruct Hres as [Hnone (c' & Hinvc' & Hall & Hmono)].
        split; [assumption|]. exists c'. split; [assumption|]. split.
        -- intros u [<-|Hu]; [apply Hmono; assumption|apply Hall; assumption].
        -- intros u Hu. apply Hmono. rewrite Hcol; [assumption|].
           rewrite Hu. discriminate.
    + assert (Hb : col c node = BLACK).
      { pose proof (inv_range _ Hinv node). pose proof (Hnogray node).
        unfold GRAY, WHITE, BLACK in *. lia. }
      destruct (IH c p) as [r [Hr Hres]]; try assumption.
      { intros u Hu. apply Hnodes. right. assumption. }
      exists r. split; [assumption|]. destruct (valid r); [|assumption].
      destruct Hres as [Hnone (c' & Hinvc' & Hall & Hmono)].
      split; [assumption|]. exists c'. split; [assumption|]. split; [|assumption].
      intros u [<-|Hu]; [apply Hmono; assumption|apply Hall; assumption].
Qed.

(** The colour map after initialisation. *)
Definition all_white (c : JsMap.t nat) : Prop := forall u, col c u = WHITE.

Lemma init_deps_spec ds :
  forall c,
    (forall u, In u (JsMap.keys c) \/ In u ds -> In u (JsMap.keys (init_deps c ds)))
    /\ (List.NoDup (JsMap.keys c) -> List.NoDup (JsMap.keys (init_deps c ds)))
    /\ (all_white c -> all_white (init_deps c ds)).
Proof.
  unfold init_deps.
  induction ds as [|d ds IH]; intros c; simpl.
  - repeat split; auto. intros u [?|[]]; assumption.
  - set (c1 := if negb (JsMap.has c d) then JsMap.set c d WHITE else c).
    destruct (IH c1) as (Hin & Hnd & Hwh).
    assert (Hc1 : forall u, In u (JsMap.keys c) \/ u = d -> In u (JsMap.keys c1)).
    { intros u Hu. unfold c1, JsMap.has.
      destruct (JsMap.get c d) eqn:E; simpl.
      - destruct Hu as [? | ->]; [assumption|]. eapply get_Some_keys; eassumption.
      - apply keys_set_incl. tauto. }
    split; [|split].
    + intros u [Hu|[<-|Hu]]; apply Hin; auto.
    + intros H. apply Hnd. unfold c1. destruct (negb (JsMap.has c d)); [|assumption].
      apply NoDup_keys_set. assumption.
    + intros H. apply Hwh. unfold c1. destruct (negb (JsMap.has c d)); [|assumption].
      intros u. rewrite col_set. destruct (String.eqb d u); [reflexivity|apply H].
Qed.

Lemma init_fold_spec (es : list (string * list string)) :
  forall c,
    let c' := fold_left
                (fun color '(node, deps) => init_deps (JsMap.set color node WHITE) deps)
                es c in
    (forall u, In u (JsMap.keys c) -> In u (JsMap.keys c'))
    /\ (forall k ds, In (k, ds) es ->
          In k (JsMap.keys c') /\ forall v, In v ds -> In v (JsMap.keys c'))
    /\ (List.NoDup (JsMap.keys c) -> List.NoDup (JsMap.keys c'))
    /\ (all_white c -> all_white c').
Proof.
  induction es as [|[k ds] es IH]; intros c; cbv zeta; simpl.
  - split; [auto|]. split; [intros ? ? []|]. split; auto.
  - set (c1 := init_deps (JsMap.set c k WHITE) ds).
    destruct (IH c1) as (Hmono & Hent & Hnd & Hwh).
    destruct (init_deps_spec ds (JsMap.set c k WHITE)) as (Hin1 & Hnd1 & Hwh1).
    fold c1 in Hin1, Hnd1, Hwh1.
    split; [|split; [|split]].
    + intros u Hu. apply Hmono, Hin1. left. apply keys_set_incl. tauto.
    + intros k' ds' [E|Hin].
      * inversion E; subst k' ds'. split.
        -- apply Hmono, Hin1. left. apply keys_set_incl. tauto.
        -- intros v Hv. apply Hmono, Hin1. tauto.
      * apply Hent. assumption.
    + intros H. apply Hnd, Hnd1, NoDup_keys_set. assumption.
    + intros H. apply Hwh, Hwh1. intros u. rewrite col_set.
      destruct (String.eqb k u); [reflexivity|apply H].
Qed.

Lemma get_Some_In {V} (m : JsMap.t V) k v : JsMap.get m k = Some v -> In (k, v) m.
Proof.
  induction m as [|[k0 v0] m IH]; simpl; [discriminate|].
  destruct (String.eqb_spec k0 k) as [->|Hne].
  - intros [= ->]. left. reflexivity.
  - intros H. right. apply IH. assumption.
Qed.

Lemma edge_entry u v :
  edge u v -> exists ds, In (u, ds) dependencies /\ In v ds.
Proof.
  unfold edge. destruct (JsMap.get dependencies u) as [ds|] eqn:E; simpl; [|tauto].
  intros Hv. exists ds. split; [apply get_Some_In; assumption|assumption].
Qed.

Lemma validateNoCycles_sound :
  exists r, validateNoCycles dependencies = Some r
    /\ if valid r
       then cycle r = None /\ ~ cyclic
       else cyclic /\ exists cyc, cycle r = Some cyc /\ cyc <> [].
Proof.
  unfold validateNoCycles, init_colors, JsMap.entries, JsMap.size.
  destruct (init_fold_spec dependencies JsMap.empty) as (_ & Hent & Hnd & Hwh).
  cbv zeta in *.
  set (c0 := fold_left _ dependencies JsMap.empty) in *.
  assert (Hwhite : all_white c0) by (apply Hwh; intros u; reflexivity).
  assert (Hcov : covers c0).
  { intros u v Huv. destruct (edge_entry u v Huv) as (ds & Hin & Hv).
    exact (proj2 (Hent u ds Hin) v Hv). }
  destruct (visit_all_spec (S (length c0)) (JsMap.keys c0) c0 JsMap.empty)
    as [r [Hr Hres]].
  - intros u. rewrite Hwhite. discriminate.
  - split.
    + intros u. rewrite Hwhite. unfold WHITE. lia.
    + intros u v Hu. rewrite Hwhite in Hu. discriminate.
    + intros u Hu. rewrite Hwhite in Hu. discriminate.
  - assumption.
  - apply Hnd. constructor.
  - auto.
  - unfold JsMap.keys. rewrite length_map. lia.
  - exists r. split; [assumption|]. destruct (valid r); [|assumption].
    destruct Hres as [Hnone (c' & Hinv & Hall & _)]. split; [assumption|].
    intros [u Hcyc].
    assert (Hu : In u (JsMap.keys c0)).
    { assert (exists v, edge u v) as [v Huv].
      { inversion Hcyc; subst; eauto. }
      destruct (edge_entry u v Huv) as (ds & Hin & _).
      exact (proj1 (Hent u ds Hin)). }
    apply (inv_acyclic _ Hinv u); [apply Hall; assumption|assumption].
Qed.

End CycleDetection.

(** C5.  For every dependency map, [validateNoCycles] returns (the fuel it
    is run with is never exhausted); the answer is [valid = true], with no
    cycle field, exactly when no task reaches itself along prerequisite
    edges, and [valid = false] with a non-empty cycle path exactly when some
    task does.  For the self-loop A -> A the reported path is [A; A]. *)
Theorem validateNoCycles_decides_cycles (dependencies : JsMap.t (list string)) :
  (exists r, Dag.validateNoCycles dependencies = Some r
     /\ (Dag.valid r = true <-> ~ cyclic dependencies)
     /\ (Dag.valid r = true -> Dag.cycle r = None)
     /\ (Dag.valid r = false <-> cyclic dependencies)
     /\ (Dag.valid r = false -> exists cyc, Dag.cycle r = Some cyc /\ cyc <> []))
  /\ (forall A, exists cyc,
        Dag.validateNoCycles [(A, [A])]
        = Some {| Dag.valid := false; Dag.cycle := Some cyc |} /\ In A cyc).
Proof.
  split.
  - destruct (validateNoCycles_sound dependencies) as [r [Hr Hres]].
    exists r. split; [assumption|].
    destruct (Dag.valid r).
    + destruct Hres as [Hnone Hacyc].
      split; [tauto|]. split; [tauto|]. split; [|discriminate].
      split; [discriminate|]. intros Hc. contradiction.
    + destruct Hres as [Hcyc Hex].
      split; [|split; [discriminate|split; [tauto|tauto]]].
      split; [discriminate|]. intros Hn. contradiction.
  - intros A. exists [A; A]. split; [|left; reflexivity].
    unfold Dag.validateNoCycles, Dag.init_colors, Dag.init_deps, JsMap.has. simpl.
    rewrite !String.eqb_refl. simpl. rewrite !String.eqb_refl. simpl.
    rewrite !String.eqb_refl. reflexivity.
Qed.

(* ===================================================================== *)
(** * The DAG engine: unblocking *)
(* ===================================================================== *)

Lemma getUnlockedTasks_In c (m : JsMap.t (list string)) (S : gset string) taskId :
  In taskId (Dag.getUnlockedTasks c m S)
  <-> exists deps, In (taskId, deps) m /\ In c deps
        /\ (taskId ∉ (S ∪ {[c]})) /\ (forall dep, In dep deps -> dep ∈ (S ∪ {[c]})).
Proof.
  unfold Dag.getUnlockedTasks, JsMap.entries.
  induction m as [|[k ds] m IH].
  - simpl. split; [intros []|intros (? & [] & _)].
  - destruct (set_has (S ∪ {[c]}) k) eqn:Hk;
      [|destruct (includes ds c) eqn:Hinc;
        [destruct (every (fun dep => set_has (S ∪ {[c]}) dep) ds) eqn:Hev|]];
      simpl; rewrite ?Hk, ?Hinc, ?Hev; simpl; rewrite IH.
    + apply set_has_true in Hk. split.
      * intros (deps & Hin & Hrest). exists deps. tauto.
      * intros (deps & [[= <- <-]|Hin] & Hc & Hn & Hall); [contradiction|].
        exists deps. tauto.
    + apply includes_In in Hinc.
      assert (Hn : k ∉ (S ∪ {[c]})).
      { intros Hin. apply set_has_true in Hin. congruence. }
      assert (Hall : forall dep, In dep ds -> dep ∈ (S ∪ {[c]})).
      { intros dep Hdep. apply set_has_true.
        exact (proj1 (every_forall _ _) Hev dep Hdep). }
      split.
      * intros [<-|(deps & Hin & Hrest)]; [exists ds; tauto|exists deps; tauto].
      * intros (deps & [[= <- <-]|Hin] & Hrest); [left; reflexivity|].
        right. exists deps. tauto.
    + split.
      * intros (deps & Hin & Hrest). exists deps. tauto.
      * intros (deps & [[= <- <-]|Hin] & Hc & Hn & Hall); [|exists deps; tauto].
        exfalso. assert (every (fun dep => set_has (S ∪ {[c]}) dep) ds = true);
          [|congruence].
        apply every_forall. intros dep Hdep. apply set_has_true. auto.
    + split.
      * intros (deps & Hin & Hrest). exists deps. tauto.
      * intros (deps & [[= <- <-]|Hin] & Hc & Hn & Hall); [|exists deps; tauto].
        apply includes_In in Hc. congruence.
Qed.

(** C6.  [getUnlockedTasks] returns exactly the keys of the dependency map
    whose entry lists the completed task, that are not in the completed set
    augmented with the completed task, and whose listed prerequisites are
    all in the augmented set.  In the diamond (B and C depend on A, D
    depends on B and C), completing B does not unlock D as long as C is not
    in the completed set. *)
Theorem getUnlockedTasks_exact (completedTaskId : string)
    (allDependencies : JsMap.t (list string)) (completedTasks : gset string) :
  (forall taskId,
     In taskId (Dag.getUnlockedTasks completedTaskId allDependencies completedTasks)
     <-> exists deps,
           In (taskId, deps) (JsMap.entries allDependencies)
           /\ In completedTaskId deps
           /\ (taskId ∉ (completedTasks ∪ {[completedTaskId]}))
           /\ (forall dep, In dep deps -> dep ∈ (completedTasks ∪ {[completedTaskId]})))
  /\ ("C" ∉ completedTasks ->
      ~ In "D" (Dag.getUnlockedTasks "B"
                  [("B", ["A"]); ("C", ["A"]); ("D", ["B"; "C"])] completedTasks)).
Proof.
  split.
  - intros taskId. apply getUnlockedTasks_In.
  - intros HC HD. apply getUnlockedTasks_In in HD.
    destruct HD as (deps & Hin & _ & _ & Hall). simpl in Hin.
    destruct Hin as [[=]|[[=]|[[= <-]|[]]]].
    specialize (Hall "C" ltac:(simpl; tauto)).
    apply elem_of_union in Hall. destruct Hall as [?|Hs]; [contradiction|].
    apply elem_of_singleton in Hs. discriminate.
Qed.

(* ===================================================================== *)
(** * Facts about the store *)
(* ===================================================================== *)

Lemma find_some_id (ts : list Task.t) id t :
  List.find (fun t => String.eqb (Task.id t) id) ts = Some t ->
  Task.id t = id /\ In t ts.
Proof.
  intros H. apply find_some in H. destruct H as [Hin Heq].
  apply String.eqb_eq in Heq. tauto.
Qed.

Lemma getTask_Some db id t :
  Queries.getTask db id = Some t -> Task.id t = id /\ In t (tasks db).
Proof. apply find_some_id. Qed.

Lemma getTask_None db id :
  Queries.getTask db id = None -> forall t, In t (tasks db) -> Task.id t <> id.
Proof.
  intros H t Hin Heq. unfold Queries.getTask in H.
  eapply find_none in H; [|eassumption]. simpl in H.
  apply String.eqb_neq in H. contradiction.
Qed.

Lemma apply_updates_id u t : Task.id (Queries.apply_updates u t) = Task.id t.
Proof. reflexivity. Qed.

(** Reading a row back after an update of the rows with that id. *)
Lemma find_update (ts : list Task.t) id (f : Task.t -> Task.t) id' :
  (forall t, Task.id (f t) = Task.id t) ->
  List.find (fun t => String.eqb (Task.id t) id')
    (map (fun t => if String.eqb (Task.id t) id then f t else t) ts)
  = option_map (fun t => if String.eqb (Task.id t) id then f t else t)
      (List.find (fun t => String.eqb (Task.id t) id') ts).
Proof.
  intros Hf. induction ts as [|t ts IH]; simpl; [reflexivity|].
  assert (E : Task.id (if String.eqb (Task.id t) id then f t else t) = Task.id t).
  { destruct (String.eqb (Task.id t) id); [apply Hf|reflexivity]. }
  rewrite E. destruct (String.eqb (Task.id t) id'); [reflexivity|apply IH].
Qed.

Lemma updateTask_getTask db id u id' :
  Queries.getTask (fst (Queries.updateTask db id u)) id'
  = option_map (fun t => if String.eqb (Task.id t) id then Queries.apply_updates u t else t)
      (Queries.getTask db id').
Proof.
  unfold Queries.updateTask. destruct (Queries.no_keys u) eqn:E; simpl.
  - destruct u as [[] [] [] [] [] [] [] [] []]; try discriminate.
    destruct (Queries.getTask db id') as [t|]; simpl; [|reflexivity].
    destruct (String.eqb (Task.id t) id); [|reflexivity].
    destruct t; reflexivity.
  - unfold Queries.getTask. simpl. apply find_update. intros t. reflexivity.
Qed.

Lemma updateTask_result db id u :
  snd (Queries.updateTask db id u) = Queries.getTask (fst (Queries.updateTask db id u)) id.
Proof. unfold Queries.updateTask. destruct (Queries.no_keys u); reflexivity. Qed.

Lemma updateTask_other_tables db id u :
  let db' := fst (Queries.updateTask db id u) in
  task_groups db' = task_groups db
  /\ task_dependencies db' = task_dependencies db
  /\ task_file_ownership db' = task_file_ownership db
  /\ progress_logs db' = progress_logs db.
Proof.
  unfold Queries.updateTask. destruct (Queries.no_keys u); simpl; auto.
Qed.

Lemma existsb_id_In {A} (key : A -> string) (l : list A) k :
  existsb (fun x => String.eqb (key x) k) l = true <-> In k (map key l).
Proof.
  rewrite existsb_exists, in_map_iff. split.
  - intros (x & Hin & E). apply String.eqb_eq in E. eauto.
  - intros (x & E & Hin). exists x. split; [assumption|]. apply String.eqb_eq. assumption.
Qed.

(** An insert that meets both constraints appends one row and changes no
    other table. *)
Lemma addProgressLog_ok db log now :
  ~ In (NewProgressLog.id log) (map ProgressLogRow.id (progress_logs db)) ->
  In (NewProgressLog.task_id log) (map Task.id (tasks db)) ->
  exists row,
    Queries.addProgressLog db log now
    = (Queries.read_row row,
       {| task_groups := task_groups db;
          tasks := tasks db;
          task_dependencies := task_dependencies db;
          task_file_ownership := task_file_ownership db;
          progress_logs := progress_logs db ++ [row] |})
    /\ ProgressLogRow.id row = NewProgressLog.id log
    /\ ProgressLogRow.task_id row = NewProgressLog.task_id log
    /\ ProgressLogRow.metadata row
       = if truthy (NewProgressLog.metadata log)
         then Json.stringify (NewProgressLog.metadata log) else None.
Proof.
  intros Hfresh Hfk. unfold Queries.addProgressLog.
  destruct (existsb _ (progress_logs db)) eqn:E1.
  { apply existsb_id_In in E1. contradiction. }
  destruct (existsb _ (tasks db)) eqn:E2; simpl.
  - eexists. split; [reflexivity|]. simpl. auto.
  - exfalso. apply (existsb_id_In Task.id) in Hfk. congruence.
Qed.

(** Whatever an insert does, the [tasks] table is not touched. *)
Lemma addProgressLog_tasks db log now :
  tasks (snd (Queries.addProgressLog db log now)) = tasks db.
Proof.
  unfold Queries.addProgressLog.
  destruct (existsb _ (progress_logs db)); [reflexivity|].
  destruct (negb _); reflexivity.
Qed.

(* ===================================================================== *)
(** * JSON: what is written is read back *)
(* ===================================================================== *)

Section JsvalInduction.
Variable P : jsval -> Prop.
Hypothesis Hundefined : P JUndefined.
Hypothesis Hnull : P JNull.
Hypothesis Hbool : forall b, P (JBool b).
Hypothesis Hnum : forall n, P (JNum n).
Hypothesis Hstr : forall s, P (JStr s).
Hypothesis Harr : forall items, Forall P items -> P (JArr items).
Hypothesis Hobj : forall props, Forall (fun kv => P (snd kv)) props -> P (JObj props).

Fixpoint jsval_ind (v : jsval) : P v :=
  match v with
  | JUndefined => Hundefined
  | JNull => Hnull
  | JBool b => Hbool b
  | JNum n => Hnum n
  | JStr s => Hstr s
  | JArr items =>
      Harr items
        ((fix all (l : list jsval) : Forall P l :=
            match l with
            | [] => List.Forall_nil P
            | x :: rest => @List.Forall_cons _ P x rest (jsval_ind x) (all rest)
            end) items)
  | JObj props =>
      Hobj props
        ((fix all (l : list (string * jsval)) : Forall (fun kv => P (snd kv)) l :=
            match l with
            | [] => List.Forall_nil _
            | kv :: rest => @List.Forall_cons _ _ kv rest (jsval_ind (snd kv)) (all rest)
            end) props)
  end.
End JsvalInduction.

(** The values JSON can represent: no [undefined] anywhere. *)
Fixpoint json_data (v : jsval) : bool :=
  match v with
  | JUndefined => false
  | JNull | JBool _ | JNum _ | JStr _ => true
  | JArr items => forallb json_data items
  | JObj props => forallb (fun kv => json_data (snd kv)) props
  end.

Module JsonFacts.
Import Json.

Lemma append_cons x (a b : string) : String x a +:+ b = String x (a +:+ b).
Proof. reflexivity. Qed.

Lemma append_nil (b : string) : EmptyString +:+ b = b.
Proof. reflexivity. Qed.

Ltac norm_append := rewrite ?append_cons, ?append_nil.

Lemma append_assoc (a b c : string) : (a +:+ b) +:+ c = a +:+ (b +:+ c).
Proof.
  induction a as [|x a IH]; norm_append; [reflexivity|]. rewrite IH. reflexivity.
Qed.

Lemma length_append (a b : string) :
  String.length (a +:+ b) = (String.length a + String.length b)%nat.
Proof.
  induction a as [|x a IH]; norm_append; simpl; [reflexivity|]. rewrite IH. reflexivity.
Qed.

(** ** String literals *)

Lemma parse_escape_char c r :
  parse_string_body (escape_char c +:+ r)
  = match parse_string_body r with
    | Some (t, r') => Some (String c t, r')
    | None => None
    end.
Proof.
  destruct c as [[] [] [] [] [] [] [] []]; reflexivity.
Qed.

Lemma parse_escape s rest :
  parse_string_body (escape s +:+ String dquote rest) = Some (s, rest).
Proof.
  induction s as [|c s IH]; cbn [escape].
  - reflexivity.
  - rewrite append_assoc, parse_escape_char, IH. reflexivity.
Qed.

Lemma parse_quote s rest :
  exists body, quote s +:+ rest = String dquote body
               /\ parse_string_body body = Some (s, rest).
Proof.
  exists (escape s +:+ String dquote rest). split.
  - unfold quote. norm_append. rewrite append_assoc. reflexivity.
  - apply parse_escape.
Qed.

(** ** Numbers *)

Definition no_digit_head (s : string) : Prop :=
  match s with
  | EmptyString => True
  | String c _ => is_digit c = false
  end.

Lemma span_no_digit s : no_digit_head s -> span_digits s = (EmptyString, s).
Proof. destruct s as [|c s]; simpl; [reflexivity|]. intros ->. reflexivity. Qed.

Lemma span_uint d rest :
  no_digit_head rest ->
  span_digits (NilEmpty.string_of_uint d +:+ rest) = (NilEmpty.string_of_uint d, rest).
Proof.
  intros Hrest.
  induction d; cbn [NilEmpty.string_of_uint]; norm_append;
    cbn [span_digits]; rewrite ?IHd; try reflexivity.
  apply span_no_digit. assumption.
Qed.

Lemma parse_digits_uint d rest :
  d <> Decimal.Nil -> no_digit_head rest ->
  parse_digits (NilEmpty.string_of_uint d +:+ rest) = Some (Z.of_uint d, rest).
Proof.
  intros Hd Hrest. unfold parse_digits. rewrite span_uint by assumption.
  rewrite NilEmpty.usu. destruct d; try reflexivity. congruence.
Qed.

Lemma to_uint_nonnil p : Pos.to_uint p <> Decimal.Nil.
Proof.
  intros H. pose proof (DecimalPos.Unsigned.of_to p) as E.
  rewrite H in E. discriminate.
Qed.

Lemma of_to_uint p : Z.of_uint (Pos.to_uint p) = Z.pos p.
Proof. unfold Z.of_uint. rewrite DecimalPos.Unsigned.of_to. reflexivity. Qed.

Lemma digit_head d :
  d <> Decimal.Nil ->
  exists c s, NilEmpty.string_of_uint d = String c s /\ is_digit c = true.
Proof. destruct d; simpl; try congruence; intros _; eauto. Qed.

(** The first character of a number is none of the other openers. *)
Lemma digit_not_opener c :
  is_digit c = true ->
  Ascii.eqb c "n" = false /\ Ascii.eqb c "t" = false /\ Ascii.eqb c "f" = false
  /\ Ascii.eqb c dquote = false /\ Ascii.eqb c "[" = false /\ Ascii.eqb c "{" = false
  /\ Ascii.eqb c "-" = false /\ Ascii.eqb c "]" = false.
Proof.
  destruct c as [[] [] [] [] [] [] [] []]; simpl; intros H; try discriminate H;
    repeat split; reflexivity.
Qed.

Lemma string_of_pos p :
  NilZero.string_of_uint (Pos.to_uint p) = NilEmpty.string_of_uint (Pos.to_uint p).
Proof.
  unfold NilZero.string_of_uint. pose proof (to_uint_nonnil p).
  destruct (Pos.to_uint p); try reflexivity. congruence.
Qed.

Lemma parse_value_digits fuel c s :
  is_digit c = true ->
  parse_value (S fuel) (String c s)
  = match parse_digits (String c s) with
    | Some (n, r) => Some (JNum n, r)
    | None => None
    end.
Proof.
  intros Hc. cbn [parse_value].
  destruct (digit_not_opener c Hc) as (-> & -> & -> & -> & -> & -> & -> & _).
  reflexivity.
Qed.

Lemma parse_number fuel n rest :
  no_digit_head rest ->
  parse_value (S fuel) (show_Z n +:+ rest) = Some (JNum n, rest).
Proof.
  intros Hrest. unfold show_Z. destruct n as [|p|p]; cbn [Z.to_int NilZero.string_of_int].
  - change (NilZero.string_of_uint Decimal.zero) with "0". norm_append.
    rewrite parse_value_digits by reflexivity.
    unfold parse_digits. cbn [span_digits]. change (is_digit "0") with true. cbv iota.
    rewrite span_no_digit by assumption. reflexivity.
  - rewrite string_of_pos.
    pose proof (to_uint_nonnil p) as Hnn.
    destruct (digit_head _ Hnn) as (c & s & Hs & Hc).
    pose proof (parse_digits_uint _ rest Hnn Hrest) as Hp.
    rewrite Hs in *. rewrite append_cons in *.
    rewrite parse_value_digits by assumption.
    rewrite Hp, of_to_uint. reflexivity.
  - rewrite string_of_pos. norm_append. cbn [parse_value].
    change (Ascii.eqb "-" "n") with false. change (Ascii.eqb "-" "t") with false.
    change (Ascii.eqb "-" "f") with false. change (Ascii.eqb "-" dquote) with false.
    change (Ascii.eqb "-" "[") with false. change (Ascii.eqb "-" "{") with false.
    change (Ascii.eqb "-" "-") with true. cbv iota.
    rewrite (parse_digits_uint _ rest (to_uint_nonnil p) Hrest), of_to_uint. reflexivity.
Qed.

(** ** Values *)

(** How much fuel reading a value back takes. *)
Fixpoint weight (v : jsval) : nat :=
  match v with
  | JArr items => S (fold_right (fun x acc => S (weight x + acc)) O items)
  | JObj props => S (fold_right (fun kv acc => S (weight (snd kv) + acc)) O props)
  | _ => 1
  end.

Definition items_weight (items : list jsval) : nat :=
  fold_right (fun x acc => S (weight x + acc)) O items.

Definition props_weight (props : list (string * jsval)) : nat :=
  fold_right (fun kv acc => S (weight (snd kv) + acc)) O props.

(** The text of a value opens with a character that closes no array. *)
Definition head_ok (s : string) : Prop :=
  exists c s', s = String c s' /\ Ascii.eqb c "]" = false.

(** What reading back the text of [v] gives, for the induction. *)
Definition reads_back (v : jsval) : Prop :=
  json_data v = true ->
  exists s,
    stringify v = Some s
    /\ head_ok s
    /\ (weight v <= String.length s)%nat
    /\ forall fuel rest,
         (weight v <= fuel)%nat -> no_digit_head rest ->
         parse_value fuel (s +:+ rest) = Some (v, rest).

Lemma fuel_S (n fuel : nat) : (S n <= fuel)%nat -> exists fuel', fuel = S fuel' /\ (n <= fuel')%nat.
Proof. destruct fuel as [|f]; [lia|]. intros H. exists f. split; [reflexivity|lia]. Qed.

Lemma reads_back_atoms :
  reads_back JNull /\ (forall b, reads_back (JBool b))
  /\ (forall n, reads_back (JNum n)) /\ (forall s, reads_back (JStr s)).
Proof.
  split; [|split; [|split]].
  - intros _. exists "null". split; [reflexivity|]. split; [exists "n"%char, "ull"; auto|].
    split; [simpl; lia|]. intros fuel rest Hf _.
    destruct (fuel_S _ _ Hf) as (f & -> & _). reflexivity.
  - intros [] _.
    + exists "true". split; [reflexivity|]. split; [exists "t"%char, "rue"; auto|].
      split; [simpl; lia|]. intros fuel rest Hf _.
      destruct (fuel_S _ _ Hf) as (f & -> & _). reflexivity.
    + exists "false". split; [reflexivity|]. split; [exists "f"%char, "alse"; auto|].
      split; [simpl; lia|]. intros fuel rest Hf _.
      destruct (fuel_S _ _ Hf) as (f & -> & _). reflexivity.
  - intros n _. exists (show_Z n). split; [reflexivity|].
    assert (Hhead : exists c s', show_Z n = String c s'
                    /\ (is_digit c = true \/ c = "-"%char)).
    { unfold show_Z. destruct n as [|p|p]; cbn [Z.to_int NilZero.string_of_int].
      - exists "0"%char, EmptyString. auto.
      - rewrite string_of_pos.
        destruct (digit_head _ (to_uint_nonnil p)) as (c & s' & Hs & Hc). eauto.
      - eexists _, _. split; [reflexivity|]. auto. }
    destruct Hhead as (c & s' & Hs & Hc).
    split; [|split].
    + exists c, s'. split; [assumption|].
      destruct Hc as [Hc| ->]; [apply (digit_not_opener c Hc)|reflexivity].
    + rewrite Hs. simpl. lia.
    + intros fuel rest Hf Hrest. destruct (fuel_S _ _ Hf) as (f & -> & _).
      apply parse_number. assumption.
  - intros s _. exists (quote s). split; [reflexivity|].
    split; [exists dquote, (escape s +:+ String dquote EmptyString); auto|].
    split; [unfold quote; simpl; lia|].
    intros fuel rest Hf _. destruct (fuel_S _ _ Hf) as (f & -> & _).
    destruct (parse_quote s rest) as (body & -> & Hbody).
    cbn [parse_value]. change (Ascii.eqb dquote "n") with false.
    change (Ascii.eqb dquote "t") with false. change (Ascii.eqb dquote "f") with false.
    change (Ascii.eqb dquote dquote) with true. cbv iota. rewrite Hbody. reflexivity.
Qed.

Lemma join_one sep x : join sep [x] = x.
Proof. reflexivity. Qed.

Lemma join_more sep x y r : join sep (x :: y :: r) = x +:+ sep +:+ join sep (y :: r).
Proof. reflexivity. Qed.

Lemma reads_back_elements items :
  Forall reads_back items -> forallb json_data items = true -> items <> [] ->
  let body := join "," (map (fun x => nullish (stringify x) "null") items) in
  head_ok body
  /\ (items_weight items <= S (String.length body))%nat
  /\ forall fuel rest,
       (items_weight items <= fuel)%nat ->
       parse_elements fuel (body +:+ String "]" rest) = Some (items, rest).
Proof.
  induction items as [|x items IH]; [congruence|].
  intros HF Hjd _. inversion HF as [|? ? Hx HF']; subst.
  cbn [forallb] in Hjd. apply andb_true_iff in Hjd. destruct Hjd as [Hjx Hjd].
  destruct (Hx Hjx) as (s & Hs & (c & s' & -> & Hc) & Hlen & Hparse).
  destruct items as [|y r].
  - cbn [map]. rewrite Hs, join_one. cbn [nullish]. split; [|split].
    + exists c, s'. auto.
    + unfold items_weight. simpl in *. lia.
    + intros fuel rest Hf. unfold items_weight in Hf. cbn [fold_right] in Hf.
      destruct (fuel_S _ _ Hf) as (f & -> & Hf').
      cbn [parse_elements]. rewrite Hparse; [|lia|reflexivity]. reflexivity.
  - destruct (IH HF' Hjd ltac:(discriminate)) as ((c2 & s2 & Hb2 & Hc2) & Hlen2 & Hparse2).
    cbn [map] in *. rewrite Hs. cbn [nullish]. rewrite join_more.
    set (body' := join "," _) in *.
    split; [|split].
    + exists c, (s' +:+ "," +:+ body'). auto.
    + unfold items_weight in *. cbn [fold_right] in *.
      rewrite !length_append. simpl in *. lia.
    + intros fuel rest Hf. unfold items_weight in Hf, Hparse2. cbn [fold_right] in Hf.
      destruct (fuel_S _ _ Hf) as (f & -> & Hf').
      cbn [parse_elements]. rewrite !append_assoc. rewrite (append_cons "," EmptyString).
      rewrite append_nil.
      rewrite Hparse; [|lia|reflexivity].
      change (Ascii.eqb "," ",") with true. cbv iota.
      rewrite Hparse2; [reflexivity|]. cbn [fold_right]. lia.
Qed.

Lemma reads_back_members props :
  Forall (fun kv => reads_back (snd kv)) props ->
  forallb (fun kv => json_data (snd kv)) props = true -> props <> [] ->
  let body := join "," (member_strings stringify props) in
  (exists m ms, member_strings stringify props = m :: ms)
  /\ (exists s', body = String dquote s')
  /\ (props_weight props <= S (String.length body))%nat
  /\ forall fuel rest,
       (props_weight props <= fuel)%nat ->
       parse_members fuel (body +:+ String "}" rest) = Some (props, rest).
Proof.
  induction props as [|[k x] props IH]; [congruence|].
  intros HF Hjd _. inversion HF as [|? ? Hx HF']; subst.
  cbn [forallb snd] in Hjd. apply andb_true_iff in Hjd. destruct Hjd as [Hjx Hjd].
  destruct (Hx Hjx) as (s & Hs & _ & Hlen & Hparse). cbn [snd] in *.
  cbn [member_strings]. rewrite Hs. fold (member_strings stringify props).
  assert (Hmember : forall tail fuel,
             (weight x <= fuel)%nat -> no_digit_head tail ->
             exists bodyk,
               (quote k +:+ ":" +:+ s) +:+ tail = String dquote bodyk
               /\ parse_string_body bodyk = Some (k, String ":" (s +:+ tail))
               /\ parse_value fuel (s +:+ tail) = Some (x, tail)).
  { intros tail fuel Hf Htail.
    destruct (parse_quote k (String ":" (s +:+ tail))) as (bodyk & Hq & Hb).
    exists bodyk. split; [|split; [assumption|apply Hparse; assumption]].
    rewrite <- Hq. rewrite !append_assoc. reflexivity. }
  destruct props as [|y r].
  - cbn [member_strings]. rewrite join_one. split; [eauto|]. split; [|split].
    + unfold quote. rewrite !append_cons. eauto.
    + unfold props_weight. cbn [fold_right snd]. rewrite !length_append.
      unfold quote. simpl. lia.
    + intros fuel rest Hf. unfold props_weight in Hf. cbn [fold_right snd] in Hf.
      destruct (fuel_S _ _ Hf) as (f & -> & Hf').
      destruct (Hmember (String "}" rest) f) as (bodyk & -> & Hb & Hv);
        [lia|reflexivity|].
      cbn [parse_members]. change (Ascii.eqb dquote dquote) with true. cbv iota.
      rewrite Hb. change (Ascii.eqb ":" ":") with true. cbv iota.
      rewrite Hv. reflexivity.
  - destruct (IH HF' Hjd ltac:(discriminate))
      as ((m & ms & Hms) & (s2 & Hb2) & Hlen2 & Hparse2).
    rewrite Hms in *. rewrite join_more.
    set (body' := join "," (m :: ms)) in *.
    split; [eauto|]. split; [|split].
    + unfold quote. rewrite !append_cons. eauto.
    + unfold props_weight in *. cbn [fold_right snd] in *. rewrite !length_append.
      unfold quote. simpl in *. lia.
    + intros fuel rest Hf. unfold props_weight in Hf, Hparse2. cbn [fold_right snd] in Hf.
      destruct (fuel_S _ _ Hf) as (f & -> & Hf').
      rewrite append_assoc.
      change (("," +:+ body') +:+ String "}" rest)
        with (String "," (body' +:+ String "}" rest)).
      destruct (Hmember (String "," (body' +:+ String "}" rest)) f)
        as (bodyk & -> & Hb & Hv); [lia|reflexivity|].
      cbn [parse_members]. change (Ascii.eqb dquote dquote) with true. cbv iota.
      rewrite Hb. change (Ascii.eqb ":" ":") with true. cbv iota.
      rewrite Hv. change (Ascii.eqb "," ",") with true. cbv iota.
      rewrite Hparse2; [reflexivity|]. cbn [fold_right snd]. lia.
Qed.

Lemma reads_back_all v : reads_back v.
Proof.
  induction v using jsval_ind.
  - intros Hjd. discriminate Hjd.
  - apply reads_back_atoms.
  - apply reads_back_atoms.
  - apply reads_back_atoms.
  - apply reads_back_atoms.
  - (* arrays *)
    intros Hjd. cbn [json_data] in Hjd. cbn [stringify]. eexists. split; [reflexivity|].
    split; [exists "["%char; eexists; split; reflexivity|].
    destruct items as [|x items].
    + split; [vm_compute; lia|]. intros fuel rest Hf _.
      destruct (fuel_S _ _ Hf) as (f & -> & _). reflexivity.
    + destruct (reads_back_elements (x :: items)) as ((c & s' & Hb & Hc) & Hlen & Hparse);
        [assumption|assumption|discriminate|].
      set (body := join "," _) in *.
      split.
      * cbn [weight]. fold (items_weight (x :: items)).
        rewrite !append_cons, append_nil. cbn [String.length].
        rewrite length_append. cbn [String.length]. lia.
      * intros fuel rest Hf _. cbn [weight] in Hf. fold (items_weight (x :: items)) in Hf.
        destruct (fuel_S _ _ Hf) as (f & -> & Hf').
        rewrite !append_cons, append_nil, append_assoc.
        change ("]" +:+ rest) with (String "]" rest).
        pose proof (Hparse f rest Hf') as Hp. rewrite Hb in *. rewrite append_cons in *.
        cbn [parse_value]. change (Ascii.eqb "[" "n") with false.
        change (Ascii.eqb "[" "t") with false. change (Ascii.eqb "[" "f") with false.
        change (Ascii.eqb "[" dquote) with false. change (Ascii.eqb "[" "[") with true.
        cbv iota. rewrite Hc, Hp. reflexivity.
  - (* objects *)
    intros Hjd. cbn [json_data] in Hjd. cbn [stringify]. eexists. split; [reflexivity|].
    split; [exists "{"%char; eexists; split; reflexivity|].
    destruct props as [|kv props].
    + split; [vm_compute; lia|]. intros fuel rest Hf _.
      destruct (fuel_S _ _ Hf) as (f & -> & _). reflexivity.
    + destruct (reads_back_members (kv :: props)) as (_ & (s' & Hb) & Hlen & Hparse);
        [assumption|assumption|discriminate|].
      set (body := join "," _) in *.
      split.
      * cbn [weight]. fold (props_weight (kv :: props)).
        rewrite !append_cons, append_nil. cbn [String.length].
        rewrite length_append. cbn [String.length]. lia.
      * intros fuel rest Hf _. cbn [weight] in Hf. fold (props_weight (kv :: props)) in Hf.
        destruct (fuel_S _ _ Hf) as (f & -> & Hf').
        rewrite !append_cons, append_nil, append_assoc.
        change ("}" +:+ rest) with (String "}" rest).
        pose proof (Hparse f rest Hf') as Hp. rewrite Hb in *. rewrite append_cons in *.
        cbn [parse_value]. change (Ascii.eqb "{" "n") with false.
        change (Ascii.eqb "{" "t") with false. change (Ascii.eqb "{" "f") with false.
        change (Ascii.eqb "{" dquote) with false. change (Ascii.eqb "{" "[") with false.
        change (Ascii.eqb "{" "{") with true. cbv iota.
        change (Ascii.eqb dquote "}") with false. cbv iota.
        rewrite Hp. reflexivity.
Qed.

Lemma append_empty (s : string) : s +:+ EmptyString = s.
Proof. induction s as [|c s IH]; norm_append; [reflexivity|]. rewrite IH. reflexivity. Qed.

(** [JSON.parse(JSON.stringify(v))] is [v] for every value without
    [undefined] in it. *)
Theorem parse_stringify v :
  json_data v = true ->
  exists text, stringify v = Some text /\ parse text = Some v.
Proof.
  intros Hjd. destruct (reads_back_all v Hjd) as (s & Hs & _ & Hlen & Hparse).
  exists s. split; [assumption|]. unfold parse.
  rewrite <- (append_empty s) at 2.
  rewrite Hparse; [reflexivity|lia|exact I].
Qed.

(** The text of an object or an array is never the empty string. *)
Lemma stringify_nonempty v text :
  stringify v = Some text -> text <> EmptyString.
Proof.
  destruct v as [| |[]|n|s|items|props]; cbn [stringify]; intros [= <-];
    try discriminate.
  unfold show_Z. destruct n as [|p|p]; cbn [Z.to_int NilZero.string_of_int];
    try discriminate.
  rewrite string_of_pos.
  destruct (digit_head _ (to_uint_nonnil p)) as (c & s' & -> & _). discriminate.
Qed.

End JsonFacts.

(** Reading back the row of a log entry whose metadata is JSON data. *)
Lemma read_metadata_stringify v :
  truthy v = true -> json_data v = true ->
  Queries.read_metadata (if truthy v then Json.stringify v else None) = Ok v.
Proof.
  intros Ht Hj. rewrite Ht.
  destruct (JsonFacts.parse_stringify v Hj) as (text & Hs & Hp). rewrite Hs.
  unfold Queries.read_metadata, truthy_string. cbn [nullish].
  pose proof (JsonFacts.stringify_nonempty v text Hs) as Hne.
  apply String.eqb_neq in Hne. rewrite Hne. cbn [negb]. rewrite Hp. reflexivity.
Qed.

Definition append_log (db : DB) (row : ProgressLogRow.t) : DB :=
  {| task_groups := task_groups db;
     tasks := tasks db;
     task_dependencies := task_dependencies db;
     task_file_ownership := task_file_ownership db;
     progress_logs := progress_logs db ++ [row] |}.

Definition log_row (log : NewProgressLog.t) (now : string) : ProgressLogRow.t :=
  {| ProgressLogRow.id := NewProgressLog.id log;
     ProgressLogRow.task_id := NewProgressLog.task_id log;
     ProgressLogRow.timestamp := now;
     ProgressLogRow.event := NewProgressLog.event log;
     ProgressLogRow.message := NewProgressLog.message log;
     ProgressLogRow.metadata :=
       if truthy (NewProgressLog.metadata log)
       then Json.stringify (NewProgressLog.metadata log)
       else None |}.

Definition log_entry (log : NewProgressLog.t) (now : string) : ProgressLog.t :=
  {| ProgressLog.id := NewProgressLog.id log;
     ProgressLog.task_id := NewProgressLog.task_id log;
     ProgressLog.timestamp := now;
     ProgressLog.event := NewProgressLog.event log;
     ProgressLog.message := NewProgressLog.message log;
     ProgressLog.metadata := NewProgressLog.metadata log |}.

(** An insert of JSON metadata that meets both constraints returns the
    entry as it was given. *)
Lemma addProgressLog_json db log now :
  ~ In (NewProgressLog.id log) (map ProgressLogRow.id (progress_logs db)) ->
  In (NewProgressLog.task_id log) (map Task.id (tasks db)) ->
  truthy (NewProgressLog.metadata log) = true ->
  json_data (NewProgressLog.metadata log) = true ->
  Queries.addProgressLog db log now
  = (Ok (log_entry log now), append_log db (log_row log now)).
Proof.
  intros Hfresh Hfk Ht Hj. unfold Queries.addProgressLog.
  destruct (existsb _ (progress_logs db)) eqn:E1.
  { apply existsb_id_In in E1. contradiction. }
  destruct (existsb _ (tasks db)) eqn:E2.
  2:{ exfalso. apply (existsb_id_In Task.id) in Hfk. congruence. }
  cbn [negb]. unfold Queries.read_row. cbn [ProgressLogRow.metadata].
  rewrite read_metadata_stringify by assumption. reflexivity.
Qed.

(* ===================================================================== *)
(** * claim_task *)
(* ===================================================================== *)

(** Another task that is [in_progress] holds a pattern of [id], as the
    very same string. *)
Definition pattern_held (db : DB) (id : string) : Prop :=
  exists my other t,
    In my (task_file_ownership db) /\ In other (task_file_ownership db)
    /\ In t (tasks db)
    /\ TaskFileOwnership.task_id my = id
    /\ TaskFileOwnership.task_id other <> id
    /\ TaskFileOwnership.file_pattern my = TaskFileOwnership.file_pattern other
    /\ Task.id t = TaskFileOwnership.task_id other
    /\ Task.status t = in_progress.

(** The four preconditions of [claim_task]. *)
Definition claimable (db : DB) (id : string) : Prop :=
  exists task,
    Queries.getTask db id = Some task
    /\ Task.status task = pending
    /\ (forall d, In d (Queries.getDependencies db id) -> Task.status d = completed)
    /\ ~ pattern_held db id.

Lemma conflicts_nonempty db id :
  Queries.getFileOwnershipConflicts db id <> [] <-> pattern_held db id.
Proof.
  unfold Queries.getFileOwnershipConflicts, pattern_held. split.
  - intros Hne.
    destruct (flat_map _ (task_file_ownership db)) as [|c cs] eqn:E; [congruence|].
    assert (Hin : In c (c :: cs)) by (left; reflexivity).
    rewrite <- E in Hin. clear E Hne.
    apply in_flat_map in Hin. destruct Hin as (my & Hmy & Hin).
    apply in_flat_map in Hin. destruct Hin as (other & Hother & Hin).
    apply in_flat_map in Hin. destruct Hin as (t & Ht & Hin).
    destruct (_ && _) eqn:Hc in Hin; [|destruct Hin].
    repeat (apply andb_true_iff in Hc; destruct Hc as [Hc ?]).
    exists my, other, t.
    repeat match goal with
           | H : String.eqb _ _ = true |- _ => apply String.eqb_eq in H
           | H : negb _ = true |- _ => apply negb_true_iff in H
           | H : String.eqb _ _ = false |- _ => apply String.eqb_neq in H
           | H : bool_decide _ = true |- _ => apply bool_decide_eq_true in H
           end.
    tauto.
  - intros (my & other & t & Hmy & Hother & Ht & E1 & E2 & E3 & E4 & E5) Hnil.
    assert (Hin : In {| Queries.task := t;
                        Queries.pattern := TaskFileOwnership.file_pattern other;
                        Queries.ownership_type := TaskFileOwnership.ownership_type other |}
                    (Queries.getFileOwnershipConflicts db id)).
    { unfold Queries.getFileOwnershipConflicts.
      apply in_flat_map. exists my. split; [assumption|].
      apply in_flat_map. exists other. split; [assumption|].
      apply in_flat_map. exists t. split; [assumption|].
      rewrite E3, E4, E1, !String.eqb_refl.
      apply String.eqb_neq in E2. rewrite E2.
      rewrite (bool_decide_eq_true_2 _ E5). simpl. left. reflexivity. }
    unfold Queries.getFileOwnershipConflicts in Hin. rewrite Hnil in Hin. destruct Hin.
Qed.

Lemma length_pos_nonempty {A} (l : list A) : (0 <? length l)%nat = true <-> l <> [].
Proof.
  destruct l; simpl.
  - split; [discriminate|congruence].
  - split; [discriminate|reflexivity].
Qed.

Lemma unmet_empty (deps : list Task.t) :
  List.filter (fun d => negb (bool_decide (Task.status d = completed))) deps = []
  <-> forall d, In d deps -> Task.status d = completed.
Proof.
  induction deps as [|d deps IH]; simpl.
  - split; [intros _ ? []|reflexivity].
  - destruct (bool_decide (Task.status d = completed)) eqn:E; simpl.
    + apply bool_decide_eq_true in E. rewrite IH. split.
      * intros H x [<-|Hx]; auto.
      * intros H x Hx. apply H. auto.
    + apply bool_decide_eq_false in E. split; [discriminate|].
      intros H. exfalso. apply E, H. auto.
Qed.


(** Running one step of a service method. *)
Lemma bind_query {A B} (q : DB -> A) (k : A -> M B) db :
  bind (query q) k db = k (q db) db.
Proof. reflexivity. Qed.

Lemma bind_ret {A B} (a : A) (k : A -> M B) db : bind (ret a) k db = k a db.
Proof. reflexivity. Qed.

Lemma bind_throw {A B} e (k : A -> M B) db : bind (throw e) k db = (Throw e, db).
Proof. reflexivity. Qed.

Lemma bind_call {A B} (r : Result A) (k : A -> M B) db :
  bind (call r) k db = match r with Ok a => k a db | Throw e => (Throw e, db) end.
Proof. unfold bind, call. destruct r; reflexivity. Qed.

Lemma bind_updateTask {B} id u (k : option Task.t -> M B) db :
  bind (updateTask id u) k db
  = k (snd (Queries.updateTask db id u)) (fst (Queries.updateTask db id u)).
Proof. unfold bind, updateTask. destruct (Queries.updateTask db id u). reflexivity. Qed.

Lemma bind_addProgressLog {B} log now (k : ProgressLog.t -> M B) db :
  bind (addProgressLog log now) k db
  = match Queries.addProgressLog db log now with
    | (Ok entry, db') => k entry db'
    | (Throw e, db') => (Throw e, db')
    end.
Proof. reflexivity. Qed.

(** The two ways [claimTask] ends: it declines and leaves the store alone,
    or (the log id being fresh) it makes the transition. *)
Lemma claimTask_outcome (db : DB) (input : TaskService.ClaimTaskInput) (env : Env) :
  let id := TaskService.claim_task_id input in
  let agentId := nullish (TaskService.claim_agent_id input)
                   ("agent-" +:+ String.substring 0 8 (uuid_agent env)) in
  (~ claimable db id
   /\ exists out message,
        TaskService.claimTask input env db = (Ok out, db)
        /\ TaskService.claim_success out = false
        /\ TaskService.claim_error out = Some message)
  \/ (claimable db id
      /\ (~ In (uuid_log env) (map ProgressLogRow.id (progress_logs db)) ->
          exists task out db',
            TaskService.claimTask input env db = (Ok out, db')
            /\ TaskService.claim_success out = true
            /\ Queries.getTask db id = Some task
            /\ Queries.getTask db' id
               = Some (Queries.apply_updates
                         (TaskUpdates.mk (Some assigned) (Some (Some agentId))
                            None None None None None None None) task)
            /\ TaskService.claim_task out = Queries.getTask db' id)).
Proof.
  destruct input as [id agent]. unfold TaskService.claimTask.
  cbn [TaskService.claim_task_id TaskService.claim_agent_id]. cbv zeta.
  rewrite bind_query.
  destruct (Queries.getTask db id) as [task|] eqn:Hget.
  2:{ left. split; [intros (t & Ht & _); congruence|].
      eexists _, _. split; [reflexivity|]. split; reflexivity. }
  destruct (getTask_Some _ _ _ Hget) as [Hid Hin]. rewrite Hid.
  destruct (bool_decide (Task.status task = pending)) eqn:Hst; cbn [negb].
  2:{ apply bool_decide_eq_false in Hst.
      left. split; [intros (t & Ht & Hp & _); congruence|].
      eexists _, _. split; [reflexivity|]. split; reflexivity. }
  apply bool_decide_eq_true in Hst. rewrite bind_query.
  destruct (0 <? length (List.filter _ (Queries.getDependencies db id)))%nat eqn:Hun.
  { apply length_pos_nonempty in Hun.
    left. split.
    - intros (t & _ & _ & Hdeps & _). apply unmet_empty in Hdeps. contradiction.
    - eexists _, _. split; [reflexivity|]. split; reflexivity. }
  assert (Hdeps : forall d, In d (Queries.getDependencies db id) -> Task.status d = completed).
  { apply unmet_empty. destruct (List.filter _ _); [reflexivity|discriminate]. }
  rewrite bind_query.
  destruct (0 <? length (Queries.getFileOwnershipConflicts db id))%nat eqn:Hcf.
  { apply length_pos_nonempty, conflicts_nonempty in Hcf.
    left. split; [intros (t & _ & _ & _ & Hno); contradiction|].
    eexists _, _. split; [reflexivity|]. split; reflexivity. }
  assert (Hno : ~ pattern_held db id).
  { intros Hh. apply conflicts_nonempty in Hh.
    destruct (Queries.getFileOwnershipConflicts db id); [congruence|discriminate]. }
  (* the transition *)
  right. split; [exists task; auto|]. intros Hfresh.
  set (agentId := nullish agent ("agent-" +:+ String.substring 0 8 (uuid_agent env))).
  set (u := TaskUpdates.mk (Some assigned) (Some (Some agentId))
              None None None None None None None).
  rewrite bind_updateTask.
  pose proof (updateTask_getTask db id u id) as Hread.
  pose proof (updateTask_result db id u) as Hres.
  pose proof (updateTask_other_tables db id u) as (_ & _ & _ & Hlogs).
  set (db1 := fst (Queries.updateTask db id u)) in *.
  rewrite Hget in Hread. cbn [option_map] in Hread.
  rewrite Hid, String.eqb_refl in Hread.
  rewrite bind_addProgressLog, addProgressLog_json; cycle 1.
  { cbn [NewProgressLog.id]. rewrite Hlogs. assumption. }
  { cbn [NewProgressLog.task_id]. destruct (getTask_Some _ _ _ Hread) as [_ Hin1].
    apply in_map_iff. exists (Queries.apply_updates u task). split; [apply Hid|assumption]. }
  { reflexivity. }
  { reflexivity. }
  cbv iota beta. unfold ret. eexists task, _, _. split; [reflexivity|].
  cbn [TaskService.claim_success TaskService.claim_task TaskService.claim_error].
  assert (Hread' : forall l, Queries.getTask (append_log db1 l) id
                             = Some (Queries.apply_updates u task)).
  { intros l. exact Hread. }
  split; [reflexivity|]. split; [reflexivity|]. split; [apply Hread'|].
  rewrite Hres, Hread'. exact Hread.
Qed.


(** C9.  The conflict test of [claimTask] does not look at the ownership
    type: a [pending] task whose prerequisites are all [completed] is
    declined as soon as another [in_progress] task holds one of its patterns
    as the same string, also when both declare the pattern [shared]. *)
Theorem claimTask_ignores_ownership_type (db : DB)
    (input : TaskService.ClaimTaskInput) (env : Env)
    (task t : Task.t) (my other : TaskFileOwnership.t) :
  Queries.getTask db (TaskService.claim_task_id input) = Some task ->
  Task.status task = pending ->
  (forall d, In d (Queries.getDependencies db (TaskService.claim_task_id input)) ->
             Task.status d = completed) ->
  In my (task_file_ownership db) -> In other (task_file_ownership db) ->
  In t (tasks db) ->
  TaskFileOwnership.task_id my = TaskService.claim_task_id input ->
  TaskFileOwnership.task_id other <> TaskService.claim_task_id input ->
  TaskFileOwnership.file_pattern my = TaskFileOwnership.file_pattern other ->
  Task.id t = TaskFileOwnership.task_id other ->
  Task.status t = in_progress ->
  TaskFileOwnership.ownership_type my = shared ->
  TaskFileOwnership.ownership_type other = shared ->
  exists out message,
    TaskService.claimTask input env db = (Ok out, db)
    /\ TaskService.claim_success out = false
    /\ TaskService.claim_error out = Some message.
Proof.
  intros Hget Hst Hdeps Hmy Hother Ht E1 E2 E3 E4 E5 _ _.
  destruct (claimTask_outcome db input env)
    as [(Hno & out & message & Hrun & Hs & He)|(Hyes & _)].
  - exists out, message. auto.
  - exfalso. destruct Hyes as (task' & _ & _ & _ & Hfree). apply Hfree.
    exists my, other, t. tauto.
Qed.


Lemma claimTask_ignores_ownership_type_witness :
  exists out message,
    TaskService.claimTask
      {| TaskService.claim_task_id := "t2"; TaskService.claim_agent_id := None |}
      Scenario.env Scenario.shared_pattern = (Ok out, Scenario.shared_pattern)
    /\ TaskService.claim_success out = false
    /\ TaskService.claim_error out = Some message.
Proof.
  apply (claimTask_ignores_ownership_type Scenario.shared_pattern
           {| TaskService.claim_task_id := "t2"; TaskService.claim_agent_id := None |}
           Scenario.env
           (Scenario.task "t2" 2 "seed" pending 0)
           (Scenario.task "t1" 1 "schema" in_progress 40)
           (TaskFileOwnership.mk "t2" "src/db/**" shared)
           (TaskFileOwnership.mk "t1" "src/db/**" shared)).
  - reflexivity.
  - reflexivity.
  - intros d [].
  - simpl. tauto.
  - simpl. tauto.
  - simpl. tauto.
  - reflexivity.
  - discriminate.
  - reflexivity.
  - reflexivity.
  - reflexivity.
  - reflexivity.
  - reflexivity.
Defined.

(* ===================================================================== *)
(** * start_task *)
(* ===================================================================== *)

(** C7.  When [startTask] is called on an [assigned] task and the git
    driver throws while creating the worktree, the error is the outcome and
    the store is exactly the one the call started from: the task row (its
    status, branch name, worktree path and start time included) and the
    progress log are unchanged. *)
Theorem startTask_git_failure (git : GitService) (slugify : string -> string)
    (resolve : string -> string -> string -> string)
    (db : DB) (task_id : string) (env : Env) (task : Task.t) (e : string) :
  Queries.getTask db task_id = Some task ->
  Task.status task = assigned ->
  (let slug := String.substring 0 30 (slugify (Task.title task)) in
   createWorktree git
     (resolve (repoRoot git) ".worktrees"
        ("task-" +:+ show_Z (Task.sequence task) +:+ "-" +:+ slug))
     ("task/task-" +:+ show_Z (Task.sequence task) +:+ "-" +:+ slug) = Throw e) ->
  exists db',
    TaskService.startTask git slugify resolve task_id env db = (Throw e, db')
    /\ db' = db
    /\ Queries.getTask db' task_id = Some task
    /\ progress_logs db' = progress_logs db.
Proof.
  intros Hget Hst Hgit. exists db. split; [|auto].
  unfold TaskService.startTask. rewrite bind_query, Hget.
  rewrite (bool_decide_eq_true_2 _ Hst). cbn [negb].
  rewrite bind_call. cbv zeta in Hgit. rewrite Hgit. reflexivity.
Qed.

Lemma startTask_git_failure_witness :
  exists e db',
    TaskService.startTask Scenario.git_no_worktree Scenario.slugify Scenario.resolve
      "t1" Scenario.env Scenario.claimed = (Throw e, db')
    /\ db' = Scenario.claimed
    /\ Queries.getTask db' "t1" = Some (Scenario.task "t1" 1 "schema" assigned 0)
    /\ progress_logs db' = progress_logs Scenario.claimed.
Proof.
  eexists.
  apply (startTask_git_failure Scenario.git_no_worktree Scenario.slugify
           Scenario.resolve Scenario.claimed "t1" Scenario.env
           (Scenario.task "t1" 1 "schema" assigned 0)).
  - reflexivity.
  - reflexivity.
  - reflexivity.
Defined.

(* ===================================================================== *)
(** * list_tasks *)
(* ===================================================================== *)

(** C10.  [listTasks] builds the completed set from the rows its own query
    returned.  In the store [Scenario.chain] task 2 is [pending] and its one
    prerequisite is [completed]: listed with the status filter [pending] it
    is reported with [can_start = false], listed without a filter with
    [can_start = true].  And whatever the store and the filter, a listed
    task that is not [pending] has [can_start = false]. *)
Theorem listTasks_can_start_uses_filtered_rows :
  (exists (db : DB) (t : Task.t) (filtered full : TaskService.ListTasksOutput),
      In t (tasks db)
      /\ Task.status t = pending
      /\ (forall d, In d (Queries.getDependencies db (Task.id t)) ->
                    Task.status d = completed)
      /\ TaskService.listTasks None (Some [pending]) db = (Ok filtered, db)
      /\ TaskService.listTasks None None db = (Ok full, db)
      /\ (exists lt, In lt (TaskService.list_tasks filtered)
                     /\ TaskService.listed_task lt = t
                     /\ TaskService.can_start lt = false)
      /\ (exists lt, In lt (TaskService.list_tasks full)
                     /\ TaskService.listed_task lt = t
                     /\ TaskService.can_start lt = true))
  /\ (forall (db : DB) (group_id : option string) (status : option (list TaskStatus))
             (out : TaskService.ListTasksOutput) (db' : DB) (lt : TaskService.ListedTask),
        TaskService.listTasks group_id status db = (Ok out, db') ->
        In lt (TaskService.list_tasks out) ->
        Task.status (TaskService.listed_task lt) <> pending ->
        TaskService.can_start lt = false).
Proof.
  split.
  - exists Scenario.chain, (Scenario.task "t2" 2 "api" pending 0).
    eexists _, _. split; [simpl; tauto|]. split; [reflexivity|].
    split.
    { intros d Hd. vm_compute in Hd. destruct Hd as [<-|[]]. reflexivity. }
    split; [vm_compute; reflexivity|]. split; [vm_compute; reflexivity|].
    split.
    + eexists. split; [left; reflexivity|]. split; reflexivity.
    + eexists. split; [right; left; reflexivity|]. split; reflexivity.
  - intros db group_id status out db' lt Hrun Hin Hst.
    unfold TaskService.listTasks in Hrun.
    rewrite !bind_query in Hrun. unfold ret in Hrun.
    injection Hrun as <- _. cbn [TaskService.list_tasks] in Hin.
    apply in_map_iff in Hin. destruct Hin as (task & <- & _).
    cbn [TaskService.can_start TaskService.listed_task] in *.
    rewrite (bool_decide_eq_false_2 _ Hst). reflexivity.
Qed.

(* ===================================================================== *)
(** * Facts about queries under an update *)
(* ===================================================================== *)

Lemma insert_by_perm {A} (le : A -> A -> bool) x l :
  Permutation (insert_by le x l) (x :: l).
Proof.
  induction l as [|y l IH]; simpl; [reflexivity|].
  destruct (le x y); [reflexivity|].
  rewrite IH. apply perm_swap.
Qed.

Lemma sort_by_perm {A} (le : A -> A -> bool) l : Permutation (sort_by le l) l.
Proof.
  induction l as [|x l IH]; simpl; [reflexivity|].
  rewrite insert_by_perm. constructor. exact IH.
Qed.

Lemma sort_by_In {A} (le : A -> A -> bool) l x : In x (sort_by le l) <-> In x l.
Proof.
  split; apply Permutation_in; [|symmetry]; apply sort_by_perm.
Qed.

Lemma insert_by_map {A} (le : A -> A -> bool) (f : A -> A) x l :
  (forall a b, le (f a) (f b) = le a b) ->
  insert_by le (f x) (map f l) = map f (insert_by le x l).
Proof.
  intros Hle. induction l as [|y l IH]; simpl; [reflexivity|].
  rewrite Hle. destruct (le x y); simpl; [reflexivity|]. rewrite IH. reflexivity.
Qed.

Lemma sort_by_map {A} (le : A -> A -> bool) (f : A -> A) l :
  (forall a b, le (f a) (f b) = le a b) ->
  sort_by le (map f l) = map f (sort_by le l).
Proof.
  intros Hle. induction l as [|x l IH]; simpl; [reflexivity|].
  rewrite IH. apply insert_by_map. assumption.
Qed.

(** The rows with id [id] rewritten by [f]. *)
Definition touch (id : string) (f : Task.t -> Task.t) (t : Task.t) : Task.t :=
  if String.eqb (Task.id t) id then f t else t.

(** [f] leaves the columns alone that the queries select and order by. *)
Definition keeps_keys (f : Task.t -> Task.t) : Prop :=
  forall t, Task.id (f t) = Task.id t
            /\ Task.group_id (f t) = Task.group_id t
            /\ Task.sequence (f t) = Task.sequence t.

Lemma apply_updates_keeps u : keeps_keys (Queries.apply_updates u).
Proof. intros t. auto. Qed.

Lemma touch_keeps id f : keeps_keys f -> keeps_keys (touch id f).
Proof.
  intros Hf t. unfold touch. destruct (String.eqb (Task.id t) id); [apply Hf|auto].
Qed.

Lemma filter_map_comm {A} (p : A -> bool) (f : A -> A) l :
  (forall a, p (f a) = p a) ->
  List.filter p (map f l) = map f (List.filter p l).
Proof.
  intros Hp. induction l as [|a l IH]; simpl; [reflexivity|].
  rewrite Hp. destruct (p a); simpl; rewrite IH; reflexivity.
Qed.

Lemma flat_map_map_comm {A B} (g : A -> list B) (f : B -> B) l :
  flat_map (fun a => map f (g a)) l = map f (flat_map g l).
Proof.
  induction l as [|a l IH]; simpl; [reflexivity|].
  rewrite IH, map_app. reflexivity.
Qed.

Lemma updateTask_tasks db id u :
  tasks (fst (Queries.updateTask db id u)) = map (touch id (Queries.apply_updates u)) (tasks db).
Proof.
  unfold Queries.updateTask. destruct (Queries.no_keys u) eqn:E; [|reflexivity].
  cbn [fst]. destruct u as [[] [] [] [] [] [] [] [] []]; try discriminate.
  symmetry. rewrite <- (map_id (tasks db)) at 2. apply map_ext.
  intros t. unfold touch. destruct (String.eqb (Task.id t) id); [|reflexivity].
  destruct t; reflexivity.
Qed.

Section QueriesUnderTouch.
Variables (db db' : DB) (f : Task.t -> Task.t).
Hypothesis Hf : keeps_keys f.
Hypothesis Htasks : tasks db' = map f (tasks db).
Hypothesis Hdeps : task_dependencies db' = task_dependencies db.

Lemma by_sequence_keeps a b : Queries.by_sequence (f a) (f b) = Queries.by_sequence a b.
Proof.
  unfold Queries.by_sequence.
  destruct (Hf a) as (_ & _ & ->). destruct (Hf b) as (_ & _ & ->). reflexivity.
Qed.

Lemma getDependencies_touch x :
  Queries.getDependencies db' x = map f (Queries.getDependencies db x).
Proof.
  unfold Queries.getDependencies. rewrite Htasks, Hdeps.
  rewrite <- sort_by_map by apply by_sequence_keeps. f_equal.
  rewrite <- flat_map_map_comm. apply flat_map_ext. intros d.
  destruct (String.eqb (TaskDependency.task_id d) x); [|reflexivity].
  apply filter_map_comm. intros t. destruct (Hf t) as (-> & _). reflexivity.
Qed.

Lemma listTasks_touch g :
  Queries.listTasks db' g None = map f (Queries.listTasks db g None).
Proof.
  unfold Queries.listTasks. rewrite Htasks.
  rewrite <- sort_by_map by apply by_sequence_keeps. f_equal.
  apply filter_map_comm. intros t. destruct (Hf t) as (_ & -> & _). reflexivity.
Qed.

End QueriesUnderTouch.

Lemma find_unique (ts : list Task.t) t :
  List.NoDup (map Task.id ts) -> In t ts ->
  List.find (fun x => String.eqb (Task.id x) (Task.id t)) ts = Some t.
Proof.
  induction ts as [|a ts IH]; simpl; [tauto|].
  intros Hnd [->|Hin].
  - rewrite String.eqb_refl. reflexivity.
  - inversion Hnd as [|? ? Hnotin Hnd']; subst.
    destruct (String.eqb_spec (Task.id a) (Task.id t)) as [E|_].
    + exfalso. apply Hnotin. rewrite E. apply in_map. assumption.
    + apply IH; assumption.
Qed.

Lemma listTasks_In db g t :
  In t (Queries.listTasks db (Some g) None)
  <-> In t (tasks db)
      /\ (g <> EmptyString -> Task.group_id t = g).
Proof.
  unfold Queries.listTasks. rewrite sort_by_In, filter_In.
  unfold truthy_string. cbn [nullish].
  destruct (String.eqb_spec g EmptyString) as [->|Hne]; cbn [negb].
  - rewrite andb_true_r. split; [tauto|]. intros [Hin _]. auto.
  - rewrite andb_true_r. rewrite String.eqb_eq. tauto.
Qed.

Lemma listTasks_NoDup db g :
  List.NoDup (map Task.id (tasks db)) ->
  List.NoDup (map Task.id (Queries.listTasks db g None)).
Proof.
  intros Hnd. unfold Queries.listTasks.
  eapply Permutation_NoDup.
  { apply Permutation_map. symmetry. apply sort_by_perm. }
  induction (tasks db) as [|a ts IH]; simpl; [constructor|].
  inversion Hnd as [|? ? Hnotin Hnd']; subst.
  destruct (_ && _); [|auto]. simpl. constructor; [|auto].
  intros Hin. apply Hnotin. apply in_map_iff in Hin. destruct Hin as (t & E & Hin).
  apply filter_In in Hin. rewrite <- E. apply in_map. tauto.
Qed.

(** The dependency map built from rows with distinct ids has one entry
    per row, in order. *)
Lemma build_dependency_map_entries db ts :
  List.NoDup (map Task.id ts) ->
  JsMap.entries (TaskService.build_dependency_map db ts)
  = map (fun t => (Task.id t, map Task.id (Queries.getDependencies db (Task.id t)))) ts.
Proof.
  unfold TaskService.build_dependency_map, JsMap.entries.
  assert (Hgen : forall (m : JsMap.t (list string)),
             List.NoDup (JsMap.keys m ++ map Task.id ts) ->
             fold_left
               (fun m t => JsMap.set m (Task.id t)
                             (map Task.id (Queries.getDependencies db (Task.id t))))
               ts m
             = m ++ map (fun t => (Task.id t,
                                   map Task.id (Queries.getDependencies db (Task.id t)))) ts).
  { induction ts as [|t ts IH]; intros m Hnd; simpl.
    - rewrite app_nil_r. reflexivity.
    - simpl in Hnd.
      assert (Hnotin : ~ In (Task.id t) (JsMap.keys m)).
      { apply NoDup_remove_2 in Hnd. intros Hin. apply Hnd. apply in_or_app. auto. }
      rewrite keys_set_absent by assumption.
      rewrite IH.
      + rewrite <- app_assoc. reflexivity.
      + unfold JsMap.keys. rewrite map_app. simpl. rewrite <- app_assoc. simpl.
        apply NoDup_remove_1 in Hnd as Hnd1.
        apply NoDup_remove_2 in Hnd as Hnd2.
        fold (JsMap.keys m). clear IH.
        apply (Permutation_NoDup (l := Task.id t :: JsMap.keys m ++ map Task.id ts)).
        * apply Permutation_middle.
        * constructor; assumption. }
  intros Hnd. rewrite (Hgen JsMap.empty); [reflexivity|]. exact Hnd.
Qed.

(* ===================================================================== *)
(** * complete_task *)
(* ===================================================================== *)

Definition to_pending : TaskUpdates.t :=
  TaskUpdates.mk (Some pending) None None None None None None None None.

(** The row [allGroupTasks.find] returns for [x] is [blocked]. *)
Definition snapshot_blocked (allGroupTasks : list Task.t) (x : string) : bool :=
  match TaskService.find_task allGroupTasks x with
  | Some t => bool_decide (Task.status t = blocked)
  | None => false
  end.

Lemma existsb_eqb_In x ids : existsb (String.eqb x) ids = true <-> In x ids.
Proof.
  rewrite existsb_exists. split.
  - intros (y & Hy & E). apply String.eqb_eq in E. subst. assumption.
  - intros H. exists x. split; [assumption|apply String.eqb_refl].
Qed.

Lemma apply_to_pending_twice r :
  Queries.apply_updates to_pending (Queries.apply_updates to_pending r)
  = Queries.apply_updates to_pending r.
Proof. reflexivity. Qed.

(** The unblocking loop returns, sets to [pending] the rows whose id is in
    the list and whose snapshot is [blocked], and touches nothing else. *)
Lemma unblock_spec allGroupTasks ids :
  forall db,
    fst (TaskService.unblock allGroupTasks ids db) = Ok tt
    /\ (forall x,
          Queries.getTask (snd (TaskService.unblock allGroupTasks ids db)) x
          = option_map
              (fun r => if existsb (String.eqb x) ids && snapshot_blocked allGroupTasks x
                        then Queries.apply_updates to_pending r else r)
              (Queries.getTask db x))
    /\ map Task.id (tasks (snd (TaskService.unblock allGroupTasks ids db)))
       = map Task.id (tasks db)
    /\ progress_logs (snd (TaskService.unblock allGroupTasks ids db)) = progress_logs db.
Proof.
  induction ids as [|i rest IH]; intros db.
  - cbn [TaskService.unblock]. unfold ret. cbn [fst snd]. split; [reflexivity|].
    split; [|auto]. intros x. cbn [existsb andb].
    destruct (Queries.getTask db x); reflexivity.
  - assert (Hskip : snapshot_blocked allGroupTasks i = false ->
              TaskService.unblock allGroupTasks (i :: rest) db
              = TaskService.unblock allGroupTasks rest db).
    { unfold snapshot_blocked. cbn [TaskService.unblock].
      destruct (TaskService.find_task allGroupTasks i); [|reflexivity].
      intros ->. reflexivity. }
    destruct (snapshot_blocked allGroupTasks i) eqn:Hb.
    + assert (Hstep : TaskService.unblock allGroupTasks (i :: rest) db
                      = TaskService.unblock allGroupTasks rest
                          (fst (Queries.updateTask db i to_pending))).
      { unfold snapshot_blocked in Hb. cbn [TaskService.unblock].
        destruct (TaskService.find_task allGroupTasks i); [|discriminate].
        rewrite Hb. rewrite bind_updateTask. reflexivity. }
      rewrite Hstep. set (db2 := fst (Queries.updateTask db i to_pending)).
      destruct (IH db2) as (Hok & Hget & Hids & Hlogs).
      split; [assumption|]. split; [|split].
      * intros x. rewrite Hget. unfold db2. rewrite updateTask_getTask.
        destruct (Queries.getTask db x) as [r|] eqn:Hr; [|reflexivity].
        cbn [option_map existsb]. f_equal.
        destruct (getTask_Some _ _ _ Hr) as [Hid _]. rewrite Hid.
        destruct (String.eqb_spec x i) as [->|Hne].
        -- rewrite Hb. cbn [orb andb].
           destruct (existsb (String.eqb i) rest); reflexivity.
        -- cbn [orb]. reflexivity.
      * rewrite Hids. unfold db2. rewrite updateTask_tasks, map_map.
        apply map_ext. intros t. unfold touch.
        destruct (String.eqb (Task.id t) i); reflexivity.
      * rewrite Hlogs. unfold db2.
        apply (updateTask_other_tables db i to_pending).
    + rewrite (Hskip eq_refl). destruct (IH db) as (Hok & Hget & Hids & Hlogs).
      split; [assumption|]. split; [|auto].
      intros x. rewrite Hget.
      destruct (Queries.getTask db x) as [r|]; [|reflexivity].
      cbn [option_map existsb]. f_equal.
      destruct (String.eqb_spec x i) as [->|Hne]; [|reflexivity].
      rewrite Hb. cbn [orb andb]. rewrite andb_false_r. reflexivity.
Qed.

Lemma json_data_map {A} (f : A -> jsval) l :
  (forall x, json_data (f x) = true) -> forallb json_data (map f l) = true.
Proof.
  intros Hf. apply forallb_forall. intros v Hv.
  apply in_map_iff in Hv. destruct Hv as (x & <- & _). apply Hf.
Qed.

(** The completed set of [complete_task], in the words of the
    specification: the just-completed task, and every task of its group
    that is [completed] or [in_review]. *)
Definition counts_as_completed (db : DB) (task : Task.t) (p : string) : Prop :=
  p = Task.id task
  \/ exists t, In t (tasks db) /\ Task.id t = p
               /\ Task.group_id t = Task.group_id task
               /\ (Task.status t = completed \/ Task.status t = in_review).

(** The ids of the prerequisites of [u]. *)
Definition prerequisites (db : DB) (u : Task.t) : list string :=
  map Task.id (Queries.getDependencies db (Task.id u)).

(** [u] is unlocked by the completion of [task]: it is a task of the
    group that lists [task] as a prerequisite, is not itself in the
    completed set, and has all its prerequisites in it. *)
Definition unlocked_by_completion (db : DB) (task u : Task.t) : Prop :=
  Task.group_id u = Task.group_id task
  /\ In (Task.id task) (prerequisites db u)
  /\ ~ counts_as_completed db task (Task.id u)
  /\ (forall p, In p (prerequisites db u) -> counts_as_completed db task p).

Section CompleteTask.
Variables (db : DB) (task : Task.t) (u : TaskUpdates.t).
Hypothesis Hpk : List.NoDup (map Task.id (tasks db)).
Hypothesis Hin : In task (tasks db).
Hypothesis Hgroup : Task.group_id task <> EmptyString.

Let id := Task.id task.
Let g := Task.group_id task.
Let db1 := fst (Queries.updateTask db id u).
Let allGroupTasks := Queries.listTasks db1 (Some g) None.
Let f := touch id (Queries.apply_updates u).

Lemma f_other t : Task.id t <> id -> f t = t.
Proof. unfold f, touch. intros H. apply String.eqb_neq in H. rewrite H. reflexivity. Qed.

Lemma f_keeps : keeps_keys f.
Proof. apply touch_keeps, apply_updates_keeps. Qed.

Lemma same_id_same_row t t' :
  In t (tasks db) -> In t' (tasks db) -> Task.id t = Task.id t' -> t = t'.
Proof.
  intros H1 H2 E. pose proof (find_unique _ _ Hpk H1) as F1.
  pose proof (find_unique _ _ Hpk H2) as F2. rewrite E in F1. congruence.
Qed.

Lemma all_In t :
  In t allGroupTasks
  <-> exists t0, In t0 (tasks db) /\ t = f t0 /\ Task.group_id t0 = g.
Proof.
  unfold allGroupTasks. rewrite listTasks_In. unfold db1.
  rewrite updateTask_tasks, in_map_iff. fold f. split.
  - intros ((t0 & <- & H0) & Hg). exists t0. split; [assumption|]. split; [reflexivity|].
    destruct (f_keeps t0) as (_ & <- & _). apply Hg. exact Hgroup.
  - intros (t0 & H0 & -> & Hg). split; [eauto|]. intros _.
    destruct (f_keeps t0) as (_ & -> & _). assumption.
Qed.

Lemma all_NoDup : List.NoDup (map Task.id allGroupTasks).
Proof.
  apply listTasks_NoDup. unfold db1. rewrite updateTask_tasks, map_map.
  erewrite map_ext; [exact Hpk|]. intros t. apply (f_keeps t).
Qed.

Lemma prerequisites_db1 x :
  map Task.id (Queries.getDependencies db1 x) = map Task.id (Queries.getDependencies db x).
Proof.
  rewrite (getDependencies_touch db db1 f f_keeps).
  - rewrite map_map. apply map_ext. intros t. apply (f_keeps t).
  - unfold db1. apply updateTask_tasks.
  - unfold db1. apply (updateTask_other_tables db id u).
Qed.

Definition completedTasks : gset string :=
  TaskService.ids_where
    (fun t => bool_decide (Task.status t = completed)
              || bool_decide (Task.status t = in_review))
    allGroupTasks ∪ {[id]}.

Lemma completedTasks_spec p : p ∈ completedTasks <-> counts_as_completed db task p.
Proof.
  unfold completedTasks, TaskService.ids_where, counts_as_completed. fold id g.
  rewrite elem_of_union, elem_of_singleton, elem_of_list_to_set, list_elem_of_In.
  rewrite in_map_iff. split.
  - intros [(t & <- & Ht)| ->]; [|auto].
    apply filter_In in Ht. destruct Ht as [Ht Hst].
    apply all_In in Ht. destruct Ht as (t0 & H0 & -> & Hg).
    destruct (String.eqb_spec (Task.id t0) id) as [E|Hne].
    + left. rewrite <- E. apply (f_keeps t0).
    + right. rewrite (f_other _ Hne) in *. exists t0.
      apply orb_true_iff in Hst. rewrite !bool_decide_eq_true in Hst. tauto.
  - intros [->|(t & Ht & <- & Hg & Hst)]; [auto|].
    destruct (String.eqb_spec (Task.id t) id) as [E|Hne]; [auto|].
    left. exists t. split; [reflexivity|]. apply filter_In. split.
    + apply all_In. exists t. rewrite (f_other _ Hne). auto.
    + apply orb_true_iff. rewrite !bool_decide_eq_true. assumption.
Qed.

Definition unlockedIds : list string :=
  Dag.getUnlockedTasks id (TaskService.build_dependency_map db1 allGroupTasks)
    completedTasks.

Lemma unlockedIds_spec x :
  In x unlockedIds
  <-> exists r, In r (tasks db) /\ Task.id r = x /\ x <> id
                /\ unlocked_by_completion db task r.
Proof.
  unfold unlockedIds. rewrite getUnlockedTasks_In.
  change (TaskService.build_dependency_map db1 allGroupTasks)
    with (JsMap.entries (TaskService.build_dependency_map db1 allGroupTasks)).
  rewrite build_dependency_map_entries by apply all_NoDup.
  assert (Hset : completedTasks ∪ {[id]} = completedTasks).
  { unfold completedTasks. apply set_eq. intros y.
    rewrite !elem_of_union, !elem_of_singleton. tauto. }
  rewrite Hset. split.
  - intros (deps & Hentry & Hc & Hnot & Hall).
    apply in_map_iff in Hentry. destruct Hentry as (t & [= <- <-] & Ht).
    apply all_In in Ht. destruct Ht as (t0 & H0 & -> & Hg).
    destruct (f_keeps t0) as (Eid & _). rewrite Eid in *.
    rewrite prerequisites_db1 in *.
    assert (Hne : Task.id t0 <> id).
    { intros E. apply Hnot. unfold completedTasks. rewrite E.
      apply elem_of_union_r, elem_of_singleton. reflexivity. }
    exists t0. split; [assumption|]. split; [reflexivity|]. split; [assumption|].
    split; [assumption|]. split; [assumption|]. split.
    + intros Hcc. apply Hnot. apply completedTasks_spec. assumption.
    + intros p Hp. apply completedTasks_spec. apply Hall. assumption.
  - intros (r & Hr & <- & Hne & Hg & Hc & Hnot & Hall).
    exists (prerequisites db r). split; [|split; [assumption|split]].
    + apply in_map_iff. exists r. split.
      * rewrite prerequisites_db1. reflexivity.
      * apply all_In. exists r. rewrite (f_other _ Hne). auto.
    + intros Hcc. apply Hnot. apply completedTasks_spec. assumption.
    + intros p Hp. apply completedTasks_spec. apply Hall. assumption.
Qed.

Lemma snapshot_of r :
  In r (tasks db) -> Task.id r <> id -> Task.group_id r = g ->
  snapshot_blocked allGroupTasks (Task.id r) = bool_decide (Task.status r = blocked).
Proof.
  intros Hr Hne Hg. unfold snapshot_blocked, TaskService.find_task.
  rewrite (find_unique allGroupTasks r all_NoDup); [reflexivity|].
  apply all_In. exists r. rewrite (f_other _ Hne). auto.
Qed.

(** The store after the first write and the unblocking loop. *)
Lemma tasks_after_unblock :
  let db2 := snd (TaskService.unblock allGroupTasks unlockedIds db1) in
  Queries.getTask db2 id = Some (Queries.apply_updates u task)
  /\ forall r, In r (tasks db) -> Task.id r <> id ->
       (Task.status r = blocked /\ unlocked_by_completion db task r ->
        Queries.getTask db2 (Task.id r) = Some (Queries.apply_updates to_pending r))
       /\ (~ (Task.status r = blocked /\ unlocked_by_completion db task r) ->
           Queries.getTask db2 (Task.id r) = Some r).
Proof.
  cbv zeta. destruct (unblock_spec allGroupTasks unlockedIds db1) as (_ & Hget & _).
  assert (Hrow : forall r, In r (tasks db) ->
             Queries.getTask db1 (Task.id r) = Some (f r)).
  { intros r Hr. unfold db1. rewrite updateTask_getTask.
    unfold Queries.getTask. rewrite (find_unique _ _ Hpk Hr). reflexivity. }
  split.
  - rewrite Hget.
    replace (Queries.getTask db1 id) with (Some (f task))
      by (symmetry; apply (Hrow task Hin)).
    cbn [option_map].
    assert (Hno : existsb (String.eqb id) unlockedIds = false).
    { destruct (existsb (String.eqb id) unlockedIds) eqn:E; [|reflexivity].
      apply existsb_eqb_In, unlockedIds_spec in E.
      destruct E as (r & _ & _ & Hne & _). congruence. }
    rewrite Hno. cbn [andb]. unfold f, touch. fold id.
    rewrite String.eqb_refl. reflexivity.
  - intros r Hr Hne. rewrite Hget, (Hrow r Hr), (f_other _ Hne). cbn [option_map].
    split.
    + intros [Hb Hun].
      assert (E1 : existsb (String.eqb (Task.id r)) unlockedIds = true).
      { apply existsb_eqb_In, unlockedIds_spec. exists r. auto. }
      rewrite E1, (snapshot_of r Hr Hne (proj1 Hun)), (bool_decide_eq_true_2 _ Hb).
      reflexivity.
    + intros Hnot.
      destruct (existsb (String.eqb (Task.id r)) unlockedIds) eqn:E1; [|reflexivity].
      apply existsb_eqb_In, unlockedIds_spec in E1.
      destruct E1 as (r' & Hr' & Eid & _ & Hun).
      assert (r' = r) by (apply same_id_same_row; assumption). subst r'.
      rewrite (snapshot_of r Hr Hne (proj1 Hun)).
      destruct (bool_decide (Task.status r = blocked)) eqn:Hb; [|reflexivity].
      apply bool_decide_eq_true in Hb. tauto.
Qed.

End CompleteTask.

(** C4.  On an [in_progress] task (in a store whose task ids are distinct,
    as the primary key makes them, whose group id is not the empty string,
    and with a fresh id for the log row) [completeTask] returns; the task
    row becomes the old one with [status = in_review], [progress = 100],
    [completed_at] set to the current time and the summary as note; every
    other task that is [blocked] and unlocked by the completion (for the
    completed set made of the task itself and the [completed] / [in_review]
    tasks of the group) becomes [pending], and every other task, blocked or
    not, keeps its row. *)
Theorem completeTask_spec (db : DB) (input : TaskService.CompleteTaskInput)
    (env : Env) (task : Task.t) :
  List.NoDup (map Task.id (tasks db)) ->
  Queries.getTask db (TaskService.complete_task_id input) = Some task ->
  Task.status task = in_progress ->
  Task.group_id task <> EmptyString ->
  ~ In (uuid_log env) (map ProgressLogRow.id (progress_logs db)) ->
  exists out db' row,
    TaskService.completeTask input env db = (Ok out, db')
    /\ TaskService.complete_success out = true
    /\ Queries.getTask db' (TaskService.complete_task_id input) = Some row
    /\ row = Queries.apply_updates
               (TaskUpdates.mk (Some in_review) None None None (Some 100)
                  (Some (Some (TaskService.complete_summary input))) None
                  (Some (Some (date_now env))) None) task
    /\ Task.status row = in_review
    /\ Task.progress row = 100
    /\ Task.completed_at row = Some (date_now env)
    /\ (forall r, In r (tasks db) -> Task.id r <> TaskService.complete_task_id input ->
         (Task.status r = blocked /\ unlocked_by_completion db task r ->
          Queries.getTask db' (Task.id r) = Some (Queries.apply_updates to_pending r)
          /\ Task.status (Queries.apply_updates to_pending r) = pending)
         /\ (~ (Task.status r = blocked /\ unlocked_by_completion db task r) ->
             Queries.getTask db' (Task.id r) = Some r)).
Proof.
  intros Hpk Hget Hst Hgroup Hfresh.
  destruct (getTask_Some _ _ _ Hget) as [Hid Hin].
  set (u := TaskUpdates.mk (Some in_review) None None None (Some 100)
              (Some (Some (TaskService.complete_summary input))) None
              (Some (Some (date_now env))) None).
  pose proof (tasks_after_unblock db task u Hpk Hin Hgroup) as Hafter.
  cbv zeta in Hafter. unfold unlockedIds, completedTasks in Hafter.
  unfold TaskService.completeTask. rewrite bind_query, Hget.
  rewrite (bool_decide_eq_true_2 _ Hst). cbn [negb].
  rewrite bind_updateTask. fold u.
  set (db1 := fst (Queries.updateTask db (Task.id task) u)) in *.
  rewrite !bind_query.
  set (allGroupTasks := Queries.listTasks db1 (Some (Task.group_id task)) None) in *.
  set (ids := Dag.getUnlockedTasks _ _ _) in *.
  destruct (unblock_spec allGroupTasks ids db1) as (Hok & _ & Hids & Hlogs).
  unfold bind at 1.
  destruct (TaskService.unblock allGroupTasks ids db1) as [r0 db2] eqn:Hunblock.
  cbn [fst snd] in *. subst r0. cbv iota beta.
  rewrite bind_addProgressLog, addProgressLog_json; cycle 1.
  { cbn [NewProgressLog.id]. rewrite Hlogs. unfold db1.
    destruct (updateTask_other_tables db (Task.id task) u) as (_ & _ & _ & ->).
    assumption. }
  { cbn [NewProgressLog.task_id]. rewrite Hids. unfold db1.
    rewrite updateTask_tasks, map_map.
    erewrite map_ext; [apply in_map; exact Hin|].
    intros t. unfold touch. destruct (String.eqb (Task.id t) (Task.id task)); reflexivity. }
  { reflexivity. }
  { cbn [NewProgressLog.metadata json_data forallb snd]. rewrite !andb_true_r.
    apply andb_true_iff. split; apply json_data_map; reflexivity. }
  cbv iota beta. unfold ret.
  destruct Hafter as [Hmain Hothers]. rewrite Hid in *.
  exists {| TaskService.complete_success := true;
            TaskService.complete_task := snd (Queries.updateTask db (Task.id task) u);
            TaskService.complete_unlocked_tasks :=
              map (fun t => (Task.sequence t, Task.title t))
                (TaskService.found_tasks allGroupTasks ids) |}.
  eexists. exists (Queries.apply_updates u task).
  rewrite Hid. split; [reflexivity|]. split; [reflexivity|].
  split; [exact Hmain|]. split; [reflexivity|]. split; [reflexivity|].
  split; [reflexivity|]. split; [reflexivity|].
  intros r Hr Hne. destruct (Hothers r Hr Hne) as [Hyes Hno]. split.
  - intros Hcond. split; [exact (Hyes Hcond)|reflexivity].
  - exact Hno.
Qed.

Lemma completeTask_spec_witness :
  exists out db',
    TaskService.completeTask
      {| TaskService.complete_task_id := "t1";
         TaskService.complete_summary := "schema done";
         TaskService.complete_files_changed := ["src/db/schema.ts"] |}
      Scenario.env Scenario.fan = (Ok out, db')
    /\ option_map Task.status (Queries.getTask db' "t1") = Some in_review
    /\ option_map Task.progress (Queries.getTask db' "t1") = Some 100
    /\ option_map Task.status (Queries.getTask db' "t2") = Some pending
    /\ option_map Task.status (Queries.getTask db' "t3") = Some blocked
    /\ option_map Task.status (Queries.getTask db' "t4") = Some pending.
Proof.
  pose (input := {| TaskService.complete_task_id := "t1";
                    TaskService.complete_summary := "schema done";
                    TaskService.complete_files_changed := ["src/db/schema.ts"] |}).
  pose (t1 := Scenario.task "t1" 1 "schema" in_progress 80).
  pose (t2 := Scenario.task "t2" 2 "api" blocked 0).
  pose (t3 := Scenario.task "t3" 3 "ui" blocked 0).
  pose (t4 := Scenario.task "t4" 4 "auth" pending 0).
  assert (Hpk : List.NoDup (map Task.id (tasks Scenario.fan))).
  { simpl. repeat constructor; simpl; intuition discriminate. }
  assert (Hfresh : ~ In (uuid_log Scenario.env)
                     (map ProgressLogRow.id (progress_logs Scenario.fan))).
  { simpl. tauto. }
  assert (Hgroup : Task.group_id t1 <> EmptyString) by discriminate.
  destruct (completeTask_spec Scenario.fan input Scenario.env t1
              Hpk eq_refl eq_refl Hgroup Hfresh)
    as (out & db' & row & Hrun & _ & Hrow & _ & Hst & Hprog & _ & Hothers).
  exists out, db'. split; [exact Hrun|].
  change (TaskService.complete_task_id input) with "t1" in *.
  rewrite Hrow. cbn [option_map]. rewrite Hst, Hprog.
  split; [reflexivity|]. split; [reflexivity|].
  assert (Hcounts : forall p, counts_as_completed Scenario.fan t1 p -> p = "t1").
  { intros p [->|(t & Ht & _ & _ & Hs)]; [reflexivity|]. exfalso.
    simpl in Ht. destruct Ht as [<-|[<-|[<-|[<-|[]]]]];
      destruct Hs as [Hs|Hs]; discriminate Hs. }
  split; [|split].
  - destruct (Hothers t2) as [Hyes _]; [simpl; tauto|discriminate|].
    destruct Hyes as [Hget _].
    + split; [reflexivity|]. split; [reflexivity|]. split; [left; reflexivity|].
      split.
      * intros Hc. apply Hcounts in Hc. discriminate Hc.
      * intros p [<-|[]]. left. reflexivity.
    + change (Task.id t2) with "t2" in Hget. rewrite Hget. reflexivity.
  - destruct (Hothers t3) as [_ Hno]; [simpl; tauto|discriminate|].
    change (Task.id t3) with "t3" in Hno. rewrite Hno; [reflexivity|].
    intros [_ (_ & _ & _ & Hall)].
    specialize (Hall "t4"). apply Hcounts in Hall; [discriminate Hall|].
    vm_compute. tauto.
  - destruct (Hothers t4) as [_ Hno]; [simpl; tauto|discriminate|].
    change (Task.id t4) with "t4" in Hno. rewrite Hno; [reflexivity|].
    intros [Hb _]. discriminate Hb.
Defined.

(* ===================================================================== *)
(** * The task state machine *)
(* ===================================================================== *)

(** What one request may write into the row [r]: the update [u], under the
    guard the method tests first. *)
Definition allowed (op : Operation) (r : Task.t) (u : TaskUpdates.t) : Prop :=
  match op with
  | ClaimTask input =>
      Task.id r = TaskService.claim_task_id input /\ Task.status r = pending
      /\ TaskUpdates.status u = Some assigned /\ TaskUpdates.progress u = None
  | StartTask task_id =>
      Task.id r = task_id /\ Task.status r = assigned
      /\ TaskUpdates.status u = Some in_progress /\ TaskUpdates.progress u = None
  | UpdateProgress input =>
      Task.id r = TaskService.up_task_id input
      /\ TaskUpdates.status u = None
      /\ TaskUpdates.progress u = Some (TaskService.up_progress input)
  | CompleteTask input =>
      (Task.id r = TaskService.complete_task_id input /\ Task.status r = in_progress
       /\ TaskUpdates.status u = Some in_review /\ TaskUpdates.progress u = Some 100)
      \/ (Task.status r = blocked /\ u = to_pending)
  | MergeTask input =>
      (Task.id r = TaskService.merge_task_id input /\ Task.status r = in_review
       /\ TaskUpdates.status u = Some completed /\ TaskUpdates.progress u = None)
      \/ (Task.status r = blocked /\ u = to_pending)
  | CleanupTask input =>
      Task.id r = TaskService.cleanup_task_id input
      /\ TaskUpdates.status u = Some failed /\ TaskUpdates.progress u = None
  end.

Definition transition (op : Operation) (r r' : Task.t) : Prop :=
  r' = r \/ exists u, r' = Queries.apply_updates u r /\ allowed op r u.

Lemma row_after_update db id u x r :
  Queries.getTask db x = Some r ->
  Queries.getTask (fst (Queries.updateTask db id u)) x
  = Some (if String.eqb x id then Queries.apply_updates u r else r).
Proof.
  intros Hr. rewrite updateTask_getTask, Hr. cbn [option_map].
  destruct (getTask_Some _ _ _ Hr) as [-> _]. reflexivity.
Qed.

Lemma row_after_log db log now x :
  Queries.getTask (snd (Queries.addProgressLog db log now)) x = Queries.getTask db x.
Proof. unfold Queries.getTask. rewrite addProgressLog_tasks. reflexivity. Qed.

Lemma snd_log_ret {A} log now (v : A) db :
  snd (bind (addProgressLog log now) (fun _ => ret v) db)
  = snd (Queries.addProgressLog db log now).
Proof.
  unfold bind, addProgressLog, ret.
  destruct (Queries.addProgressLog db log now) as [[entry|e] db']; reflexivity.
Qed.

Lemma ids_after_update db id u :
  map Task.id (tasks (fst (Queries.updateTask db id u))) = map Task.id (tasks db).
Proof.
  rewrite updateTask_tasks, map_map. apply map_ext. intros t. unfold touch.
  destruct (String.eqb (Task.id t) id); reflexivity.
Qed.

Lemma find_task_listTasks db g x t :
  TaskService.find_task (Queries.listTasks db g None) x = Some t ->
  In t (tasks db) /\ Task.id t = x.
Proof.
  intros H. apply find_some_id in H. destruct H as [Hid Hin]. split; [|assumption].
  unfold Queries.listTasks in Hin. apply sort_by_In, filter_In in Hin. tauto.
Qed.

(** The unblocking loop, row by row: a row is left alone, or it was
    [blocked] and is now [pending]. *)
Lemma row_after_unblock db g ids x r :
  List.NoDup (map Task.id (tasks db)) ->
  Queries.getTask db x = Some r ->
  let db' := snd (TaskService.unblock (Queries.listTasks db g None) ids db) in
  Queries.getTask db' x = Some r
  \/ (Task.status r = blocked
      /\ Queries.getTask db' x = Some (Queries.apply_updates to_pending r)).
Proof.
  intros Hpk Hr. cbv zeta.
  destruct (unblock_spec (Queries.listTasks db g None) ids db) as (_ & Hget & _).
  rewrite Hget, Hr. cbn [option_map].
  destruct (existsb (String.eqb x) ids && snapshot_blocked _ x) eqn:Hc; [|auto].
  right. split; [|reflexivity].
  apply andb_true_iff in Hc. destruct Hc as [_ Hb]. unfold snapshot_blocked in Hb.
  destruct (TaskService.find_task _ x) as [t|] eqn:Hfind; [|discriminate].
  apply bool_decide_eq_true in Hb.
  destruct (find_task_listTasks _ _ _ _ Hfind) as [Ht Hid].
  destruct (getTask_Some _ _ _ Hr) as [Hid' Hin].
  rewrite (same_id_same_row db Hpk r t); [assumption|assumption|assumption|congruence].
Qed.

Lemma transition_refl op r : transition op r r.
Proof. left. reflexivity. Qed.

Lemma bind_unblock {B} allGroupTasks ids (k : unit -> M B) db :
  bind (TaskService.unblock allGroupTasks ids) k db
  = k tt (snd (TaskService.unblock allGroupTasks ids db)).
Proof.
  unfold bind. destruct (unblock_spec allGroupTasks ids db) as (Hok & _).
  destruct (TaskService.unblock allGroupTasks ids db) as [r d]. cbn [fst snd] in *.
  subst r. reflexivity.
Qed.

Lemma snd_log_then {A} log now (k : ProgressLog.t -> M A) db :
  (forall entry db', snd (k entry db') = db') ->
  snd (bind (addProgressLog log now) k db) = snd (Queries.addProgressLog db log now).
Proof.
  intros Hk. unfold bind, addProgressLog.
  destruct (Queries.addProgressLog db log now) as [[entry|e] db']; [apply Hk|reflexivity].
Qed.

Ltac stays Hr :=
  unfold ret, throw; cbn [snd]; eexists; split; [exact Hr|apply transition_refl].

Section Transitions.
Variables (git : GitService) (slugify : string -> string)
          (resolve : string -> string -> string -> string).
Variables (env : Env) (db : DB) (x : string) (r : Task.t).
Hypothesis Hr : Queries.getTask db x = Some r.

Lemma same_row id task : Queries.getTask db id = Some task -> x = id -> r = task.
Proof. intros Hget ->. congruence. Qed.

Lemma claimTask_transition input :
  exists r', Queries.getTask (snd (TaskService.claimTask input env db)) x = Some r'
             /\ transition (ClaimTask input) r r'.
Proof.
  unfold TaskService.claimTask. rewrite bind_query.
  destruct (Queries.getTask db (TaskService.claim_task_id input)) as [task|] eqn:Hget;
    [|stays Hr].
  destruct (getTask_Some _ _ _ Hget) as [Hid _].
  destruct (bool_decide (Task.status task = pending)) eqn:Hst; cbn [negb]; [|stays Hr].
  apply bool_decide_eq_true in Hst. rewrite bind_query.
  destruct (0 <? length _)%nat; [stays Hr|]. rewrite bind_query.
  destruct (0 <? length _)%nat; [stays Hr|].
  rewrite bind_updateTask, snd_log_ret, row_after_log, (row_after_update _ _ _ _ _ Hr).
  eexists. split; [reflexivity|].
  destruct (String.eqb_spec x (Task.id task)) as [E|_]; [|apply transition_refl].
  rewrite Hid in E. rewrite (same_row _ _ Hget E).
  right. eexists. split; [reflexivity|]. cbn. auto.
Qed.

Lemma startTask_transition task_id :
  exists r',
    Queries.getTask (snd (TaskService.startTask git slugify resolve task_id env db)) x
    = Some r'
    /\ transition (StartTask task_id) r r'.
Proof.
  unfold TaskService.startTask. rewrite bind_query.
  destruct (Queries.getTask db task_id) as [task|] eqn:Hget; [|stays Hr].
  destruct (getTask_Some _ _ _ Hget) as [Hid _].
  destruct (bool_decide (Task.status task = assigned)) eqn:Hst; cbn [negb]; [|stays Hr].
  apply bool_decide_eq_true in Hst. rewrite bind_call.
  destruct (createWorktree git _ _); [|stays Hr].
  rewrite bind_updateTask, snd_log_then by reflexivity.
  rewrite row_after_log, (row_after_update _ _ _ _ _ Hr).
  eexists. split; [reflexivity|].
  destruct (String.eqb_spec x (Task.id task)) as [E|_]; [|apply transition_refl].
  rewrite Hid in E. rewrite (same_row _ _ Hget E).
  right. eexists. split; [reflexivity|]. cbn. auto.
Qed.

Lemma updateProgress_transition input :
  exists r',
    Queries.getTask (snd (TaskService.updateProgress git input env db)) x = Some r'
    /\ transition (UpdateProgress input) r r'.
Proof.
  unfold TaskService.updateProgress. rewrite bind_query.
  destruct (Queries.getTask db (TaskService.up_task_id input)) as [task|] eqn:Hget;
    [|stays Hr].
  destruct (getTask_Some _ _ _ Hget) as [Hid _].
  rewrite bind_updateTask, bind_query, snd_log_ret.
  rewrite row_after_log, (row_after_update _ _ _ _ _ Hr).
  eexists. split; [reflexivity|].
  destruct (String.eqb_spec x (Task.id task)) as [E|_]; [|apply transition_refl].
  rewrite Hid in E. rewrite (same_row _ _ Hget E).
  right. eexists. split; [reflexivity|]. cbn. auto.
Qed.

Lemma cleanupTask_transition input :
  exists r',
    Queries.getTask (snd (TaskService.cleanupTask git input env db)) x = Some r'
    /\ transition (CleanupTask input) r r'.
Proof.
  unfold TaskService.cleanupTask. rewrite bind_query.
  destruct (Queries.getTask db (TaskService.cleanup_task_id input)) as [task|] eqn:Hget;
    [|stays Hr].
  destruct (getTask_Some _ _ _ Hget) as [Hid _].
  rewrite bind_updateTask, snd_log_ret.
  rewrite row_after_log, (row_after_update _ _ _ _ _ Hr).
  eexists. split; [reflexivity|].
  destruct (String.eqb_spec x (Task.id task)) as [E|_]; [|apply transition_refl].
  rewrite Hid in E. rewrite (same_row _ _ Hget E).
  right. eexists. split; [reflexivity|]. cbn. auto.
Qed.

Hypothesis Hpk : List.NoDup (map Task.id (tasks db)).

(** The first write of [completeTask] / [mergeTask] followed by the
    unblocking loop over the rows of the group. *)
Lemma write_then_unblock id task u g ids :
  Queries.getTask db id = Some task ->
  (exists s, TaskUpdates.status u = Some s /\ s <> blocked) ->
  let db1 := fst (Queries.updateTask db id u) in
  let db2 := snd (TaskService.unblock (Queries.listTasks db1 g None) ids db1) in
  (x = id /\ Queries.getTask db2 x = Some (Queries.apply_updates u task))
  \/ (x <> id /\ Queries.getTask db2 x = Some r)
  \/ (Task.status r = blocked
      /\ Queries.getTask db2 x = Some (Queries.apply_updates to_pending r)).
Proof.
  intros Hget (s & Hs & Hnb). cbv zeta.
  set (db1 := fst (Queries.updateTask db id u)).
  pose proof (row_after_update db id u x r Hr) as Hr1. fold db1 in Hr1.
  assert (Hpk1 : List.NoDup (map Task.id (tasks db1))).
  { unfold db1. rewrite ids_after_update. assumption. }
  pose proof (row_after_unblock db1 g ids x _ Hpk1 Hr1) as Hun. cbv zeta in Hun.
  destruct (String.eqb_spec x id) as [E|Hne].
  - left. split; [assumption|]. rewrite (same_row _ _ Hget E) in *.
    destruct Hun as [Hsame|[Hb _]]; [assumption|].
    exfalso. cbn [Queries.apply_updates Task.status] in Hb. rewrite Hs in Hb.
    cbn [nullish] in Hb. contradiction.
  - destruct Hun as [Hsame|[Hb Hrow]]; [right; left; auto|right; right; auto].
Qed.

Lemma completeTask_transition input :
  exists r',
    Queries.getTask (snd (TaskService.completeTask input env db)) x = Some r'
    /\ transition (CompleteTask input) r r'.
Proof.
  unfold TaskService.completeTask. rewrite bind_query.
  destruct (Queries.getTask db (TaskService.complete_task_id input)) as [task|] eqn:Hget;
    [|stays Hr].
  destruct (getTask_Some _ _ _ Hget) as [Hid _].
  destruct (bool_decide (Task.status task = in_progress)) eqn:Hst; cbn [negb];
    [|stays Hr].
  apply bool_decide_eq_true in Hst.
  rewrite bind_updateTask, !bind_query, bind_unblock, snd_log_ret, row_after_log.
  rewrite Hid in *.
  match goal with
  | |- context [TaskService.unblock (Queries.listTasks _ ?g None) ?ids
                  (fst (Queries.updateTask db ?id ?u))] =>
      destruct (write_then_unblock id task u g ids Hget) as [[E Hrow]|[[E Hrow]|[Hb Hrow]]]
  end.
  - eexists. split; [reflexivity|discriminate].
  - eexists. split; [exact Hrow|]. rewrite (same_row _ _ Hget E).
    right. eexists. split; [reflexivity|]. left. cbn. auto.
  - eexists. split; [exact Hrow|]. apply transition_refl.
  - eexists. split; [exact Hrow|]. right. eexists. split; [reflexivity|].
    right. auto.
Qed.

Lemma mergeTask_transition input :
  exists r',
    Queries.getTask (snd (TaskService.mergeTask git input env db)) x = Some r'
    /\ transition (MergeTask input) r r'.
Proof.
  unfold TaskService.mergeTask. rewrite bind_call.
  destruct (isOnMainBranch git) as [onMain|e]; [|stays Hr].
  destruct onMain; cbn [negb].
  2:{ unfold bind at 1 2. unfold call, throw.
      destruct (getCurrentBranch git); stays Hr. }
  rewrite bind_ret, bind_query.
  destruct (Queries.getTask db (TaskService.merge_task_id input)) as [task|] eqn:Hget;
    [|stays Hr].
  destruct (getTask_Some _ _ _ Hget) as [Hid _].
  destruct (bool_decide (Task.status task = in_review)) eqn:Hst; cbn [negb];
    [|stays Hr].
  apply bool_decide_eq_true in Hst.
  destruct (truthy_string (Task.branch_name task)); cbn [negb]; [|stays Hr].
  rewrite bind_call. destruct (mergeBranch git _ _) as [mergeResult|e]; [|stays Hr].
  destruct (merge_success mergeResult).
  - rewrite bind_updateTask, !bind_query, bind_unblock, snd_log_ret, row_after_log.
    rewrite Hid in *.
    match goal with
    | |- context [TaskService.unblock (Queries.listTasks _ ?g None) ?ids
                    (fst (Queries.updateTask db ?id ?u))] =>
        destruct (write_then_unblock id task u g ids Hget)
          as [[E Hrow]|[[E Hrow]|[Hb Hrow]]]
    end.
    + eexists. split; [reflexivity|discriminate].
    + eexists. split; [exact Hrow|]. rewrite (same_row _ _ Hget E).
      right. eexists. split; [reflexivity|]. left. cbn. auto.
    + eexists. split; [exact Hrow|]. apply transition_refl.
    + eexists. split; [exact Hrow|]. right. eexists. split; [reflexivity|].
      right. auto.
  - rewrite snd_log_ret, row_after_log. eexists. split; [exact Hr|apply transition_refl].
Qed.

(** Every row a request finds is still there afterwards, and what changed
    in it is a transition that request is allowed. *)
Lemma service_transition op :
  exists r', Queries.getTask (run git slugify resolve op env db) x = Some r'
             /\ transition op r r'.
Proof.
  destruct op; cbn [run].
  - apply claimTask_transition.
  - apply startTask_transition.
  - apply updateProgress_transition.
  - apply completeTask_transition.
  - apply mergeTask_transition.
  - apply cleanupTask_transition.
Qed.

End Transitions.

(* ===================================================================== *)
(** * Terminal statuses *)
(* ===================================================================== *)

Lemma cleanupTask_sets_failed git input env db r :
  Queries.getTask db (TaskService.cleanup_task_id input) = Some r ->
  status_of (snd (TaskService.cleanupTask git input env db))
    (TaskService.cleanup_task_id input) = Some failed.
Proof.
  intros Hr. unfold status_of, TaskService.cleanupTask. rewrite bind_query, Hr.
  destruct (getTask_Some _ _ _ Hr) as [Hid _].
  rewrite bind_updateTask, snd_log_ret, row_after_log, Hid.
  rewrite (row_after_update _ _ _ _ _ Hr), String.eqb_refl. reflexivity.
Qed.

(** The claim "[completed] is terminal" fails: [cleanupTask] has no guard
    on the status and moves a merged task to [failed]. *)
Lemma cleanup_moves_completed_to_failed :
  status_of Scenario.merged "t1" = Some completed
  /\ status_of
       (run Scenario.git_quiet Scenario.slugify Scenario.resolve
          (CleanupTask {| TaskService.cleanup_task_id := "t1";
                          TaskService.cleanup_reason := Some "abandoned" |})
          Scenario.env Scenario.merged) "t1"
     = Some failed.
Proof. split; vm_compute; reflexivity. Qed.

(** C3, as the code has it.  In a store whose task ids are distinct:
    a [failed] task stays [failed] under every operation; a [completed]
    task stays [completed] under every operation except [cleanupTask] on
    that very task, which moves it to [failed]. *)
Theorem terminal_statuses (git : GitService) (slugify : string -> string)
    (resolve : string -> string -> string -> string)
    (op : Operation) (env : Env) (db : DB) (id : string) :
  List.NoDup (map Task.id (tasks db)) ->
  let db' := run git slugify resolve op env db in
  (status_of db id = Some failed -> status_of db' id = Some failed)
  /\ (status_of db id = Some completed ->
      match op with
      | CleanupTask input =>
          if String.eqb (TaskService.cleanup_task_id input) id
          then status_of db' id = Some failed
          else status_of db' id = Some completed
      | _ => status_of db' id = Some completed
      end).
Proof.
  intros Hpk. cbv zeta. unfold status_of.
  destruct (Queries.getTask db id) as [r|] eqn:Hr; [|split; discriminate].
  destruct (service_transition git slugify resolve env db id r Hr Hpk op)
    as (r' & Hr' & Htr).
  cbn [option_map]. split.
  - intros [= Hst]. rewrite Hr'. cbn [option_map]. f_equal.
    destruct Htr as [->|(u & -> & Hal)]; [assumption|].
    cbn [Queries.apply_updates Task.status].
    destruct op; cbn [allowed] in Hal;
      repeat match goal with
             | H : _ /\ _ |- _ => destruct H
             | H : _ \/ _ |- _ => destruct H
             end; subst; try congruence;
      match goal with H : TaskUpdates.status _ = _ |- _ => rewrite H end;
      cbn [nullish]; congruence.
  - intros [= Hst].
    assert (Hkeep : (forall u, allowed op r u -> TaskUpdates.status u = None) ->
                    option_map Task.status (Queries.getTask
                      (run git slugify resolve op env db) id) = Some completed).
    { intros Hnone. rewrite Hr'. cbn [option_map]. f_equal.
      destruct Htr as [->|(u & -> & Hal)]; [assumption|].
      cbn [Queries.apply_updates Task.status]. rewrite (Hnone u Hal). assumption. }
    destruct op; cbn [allowed] in *;
      try (apply Hkeep; intros u Hal;
           repeat match goal with
                  | H : _ /\ _ |- _ => destruct H
                  | H : _ \/ _ |- _ => destruct H
                  end; subst; congruence).
    destruct (String.eqb_spec (TaskService.cleanup_task_id input) id) as [E|Hne].
    + subst id. cbn [run]. eapply cleanupTask_sets_failed. eassumption.
    + apply Hkeep. intros u (Hid & _). exfalso. apply Hne. rewrite <- Hid.
      apply (getTask_Some _ _ _ Hr).
Qed.

Lemma terminal_statuses_witness :
  List.NoDup (map Task.id (tasks Scenario.merged))
  /\ status_of
       (run Scenario.git_quiet Scenario.slugify Scenario.resolve
          (UpdateProgress {| TaskService.up_task_id := "t1";
                             TaskService.up_progress := 100;
                             TaskService.up_note := "done";
                             TaskService.up_files_changed := None |})
          Scenario.env Scenario.merged) "t1"
     = Some completed.
Proof.
  assert (Hpk : List.NoDup (map Task.id (tasks Scenario.merged))).
  { simpl. repeat constructor. simpl. tauto. }
  split; [exact Hpk|].
  apply (terminal_statuses Scenario.git_quiet Scenario.slugify Scenario.resolve
           (UpdateProgress {| TaskService.up_task_id := "t1";
                              TaskService.up_progress := 100;
                              TaskService.up_note := "done";
                              TaskService.up_files_changed := None |})
           Scenario.env Scenario.merged "t1" Hpk).
  reflexivity.
Defined.

(* ===================================================================== *)
(** * Progress logs *)
(* ===================================================================== *)

(** A structured metadata value as [append_progress] is typed to take
    it: absent, [null], or an object made of JSON data. *)
Definition structured_metadata (m : jsval) : bool :=
  match m with
  | JUndefined | JNull => true
  | JObj _ => json_data m
  | _ => false
  end.

(** What is expected back: the value itself, [null] for an absent one. *)
Definition stored_metadata (m : jsval) : jsval :=
  match m with
  | JUndefined => JNull
  | _ => m
  end.

Lemma read_metadata_structured m :
  structured_metadata m = true ->
  Queries.read_metadata (if truthy m then Json.stringify m else None)
  = Ok (stored_metadata m).
Proof.
  destruct m; try discriminate; intros H; try reflexivity.
  apply read_metadata_stringify; [reflexivity|exact H].
Qed.

Lemma map_result_all {A B} (f : A -> Result B) (l : list A) :
  (forall x, In x l -> exists y, f x = Ok y) ->
  exists ys, Queries.map_result f l = Ok ys
             /\ forall x y, In x l -> f x = Ok y -> In y ys.
Proof.
  induction l as [|a l IH]; intros Hall.
  - exists []. split; [reflexivity|]. intros ? ? [].
  - destruct (Hall a (or_introl eq_refl)) as [b Hb].
    destruct IH as (ys & Hys & Hin); [intros x Hx; apply Hall; right; assumption|].
    exists (b :: ys). cbn [Queries.map_result]. rewrite Hb, Hys. split; [reflexivity|].
    intros x y [<-|Hx] Hy.
    + left. congruence.
    + right. eapply Hin; eassumption.
Qed.

Lemma map_result_Ok {A B} (f : A -> Result B) (l : list A) ys :
  Queries.map_result f l = Ok ys -> forall x, In x l -> exists y, f x = Ok y.
Proof.
  revert ys. induction l as [|a l IH]; intros ys H x Hx; [destruct Hx|].
  cbn [Queries.map_result] in H.
  destruct (f a) as [b|] eqn:Hb; [|discriminate].
  destruct (Queries.map_result f l) as [ys'|] eqn:Hys; [|discriminate].
  destruct Hx as [<-|Hx]; [eauto|]. eapply IH; [reflexivity|assumption].
Qed.

(** C8.  Appending a progress log whose metadata is absent, [null] or an
    object of JSON data (under a fresh id, for a task that exists, to a
    log that could be listed before) and then listing the logs of that
    task gives a list that contains the entry, with the metadata equal to
    the value appended ([null] for an absent one). *)
Theorem progress_metadata_roundtrip (db : DB) (log : NewProgressLog.t) (now : string)
    (before : list ProgressLog.t) :
  ~ In (NewProgressLog.id log) (map ProgressLogRow.id (progress_logs db)) ->
  In (NewProgressLog.task_id log) (map Task.id (tasks db)) ->
  structured_metadata (NewProgressLog.metadata log) = true ->
  Queries.getProgressLogs db (NewProgressLog.task_id log) = Ok before ->
  exists entry db' entries,
    Queries.addProgressLog db log now = (Ok entry, db')
    /\ Queries.getProgressLogs db' (NewProgressLog.task_id log) = Ok entries
    /\ In entry entries
    /\ ProgressLog.id entry = NewProgressLog.id log
    /\ ProgressLog.metadata entry = stored_metadata (NewProgressLog.metadata log).
Proof.
  intros Hfresh Hfk Hmeta Hbefore.
  destruct (addProgressLog_ok db log now Hfresh Hfk) as (row & Hadd & Hrid & Htid & Hrm).
  assert (Hread : exists entry,
             Queries.read_row row = Ok entry
             /\ ProgressLog.id entry = NewProgressLog.id log
             /\ ProgressLog.metadata entry = stored_metadata (NewProgressLog.metadata log)).
  { unfold Queries.read_row. rewrite Hrm, (read_metadata_structured _ Hmeta).
    eexists. split; [reflexivity|]. split; [exact Hrid|reflexivity]. }
  destruct Hread as (entry & Hentry & Heid & Hemeta).
  rewrite Hadd, Hentry.
  set (tid := NewProgressLog.task_id log) in *.
  set (db' := {| task_groups := task_groups db; tasks := tasks db;
                 task_dependencies := task_dependencies db;
                 task_file_ownership := task_file_ownership db;
                 progress_logs := progress_logs db ++ [row] |}).
  set (rows' := sort_by Queries.by_timestamp
                  (List.filter (fun r => String.eqb (ProgressLogRow.task_id r) tid)
                     (progress_logs db'))).
  destruct (map_result_all Queries.read_row rows') as (entries & Hentries & Hin).
  { intros r Hrow. unfold rows' in Hrow. apply sort_by_In, filter_In in Hrow.
    destruct Hrow as [Hrow Htask]. cbn [progress_logs db'] in Hrow.
    apply in_app_or in Hrow. destruct Hrow as [Hold|[<-|[]]]; [|eauto].
    unfold Queries.getProgressLogs in Hbefore.
    eapply map_result_Ok; [exact Hbefore|].
    apply sort_by_In, filter_In. auto. }
  exists entry, db', entries. split; [reflexivity|]. split; [exact Hentries|].
  split; [|auto].
  apply (Hin row); [|assumption].
  unfold rows'. apply sort_by_In, filter_In. split.
  - cbn [progress_logs db']. apply in_or_app. right. left. reflexivity.
  - rewrite Htid. apply String.eqb_refl.
Qed.

Lemma progress_metadata_roundtrip_witness :
  exists entry entries db',
    Queries.addProgressLog Scenario.single
      {| NewProgressLog.id := "log-1"; NewProgressLog.task_id := "t1";
         NewProgressLog.event := ProgressUpdate;
         NewProgressLog.message := "Updated files";
         NewProgressLog.metadata :=
           JObj [("files_changed", JArr [JStr "src/foo.ts"; JStr "src/bar.ts"]);
                 ("lines_added", JNum 42);
                 ("nested", JObj [("key", JStr "value")])] |}
      "2026-02-08 10:00:00" = (Ok entry, db')
    /\ Queries.getProgressLogs db' "t1" = Ok entries
    /\ In entry entries
    /\ ProgressLog.metadata entry
       = JObj [("files_changed", JArr [JStr "src/foo.ts"; JStr "src/bar.ts"]);
               ("lines_added", JNum 42);
               ("nested", JObj [("key", JStr "value")])].
Proof.
  destruct (progress_metadata_roundtrip Scenario.single
              {| NewProgressLog.id := "log-1"; NewProgressLog.task_id := "t1";
                 NewProgressLog.event := ProgressUpdate;
                 NewProgressLog.message := "Updated files";
                 NewProgressLog.metadata :=
                   JObj [("files_changed", JArr [JStr "src/foo.ts"; JStr "src/bar.ts"]);
                         ("lines_added", JNum 42);
                         ("nested", JObj [("key", JStr "value")])] |}
              "2026-02-08 10:00:00" [])
    as (entry & db' & entries & Hadd & Hlist & Hin & _ & Hmeta).
  - simpl. tauto.
  - simpl. tauto.
  - reflexivity.
  - reflexivity.
  - exists entry, entries, db'. split; [exact Hadd|]. split; [exact Hlist|].
    split; [exact Hin|exact Hmeta].
Defined.

(* ===================================================================== *)
(** * Progress of reviewed tasks *)
(* ===================================================================== *)

Definition progress_of (db : DB) (id : string) : option Z :=
  option_map Task.progress (Queries.getTask db id).

(** The invariant of the data model, on one row. *)
Definition review_progress_ok (r : Task.t) : Prop :=
  Task.status r = in_review \/ Task.status r = completed -> Task.progress r = 100.

(** Every operation but [updateProgress] keeps the invariant on every
    row: a task enters [in_review] with [progress = 100] and [mergeTask]
    does not write [progress]. *)
Lemma transition_keeps_review_progress op r r' :
  transition op r r' ->
  (forall input, op <> UpdateProgress input) ->
  review_progress_ok r -> review_progress_ok r'.
Proof.
  intros [->|(u & -> & Hal)] Hop Hok; [assumption|].
  unfold review_progress_ok in *. cbn [Queries.apply_updates Task.status Task.progress].
  destruct op; cbn [allowed] in Hal;
    repeat match goal with
           | H : _ /\ _ |- _ => destruct H
           | H : _ \/ _ |- _ => destruct H
           end; subst;
    try (exfalso; eapply Hop; reflexivity);
    repeat match goal with
           | H : TaskUpdates.status _ = _ |- _ => rewrite H
           | H : TaskUpdates.progress _ = _ |- _ => rewrite H
           end; cbn [nullish TaskUpdates.status TaskUpdates.progress to_pending];
    intros [Hs|Hs]; try discriminate Hs; try reflexivity; auto.
Qed.

(** [updateProgress] tests no status: on any task that exists it writes
    the progress it is given and leaves the status as it is. *)
Lemma updateProgress_writes_any_status git input env db task :
  Queries.getTask db (TaskService.up_task_id input) = Some task ->
  let db' := snd (TaskService.updateProgress git input env db) in
  status_of db' (TaskService.up_task_id input) = Some (Task.status task)
  /\ progress_of db' (TaskService.up_task_id input) = Some (TaskService.up_progress input).
Proof.
  intros Hget. cbv zeta. unfold status_of, progress_of, TaskService.updateProgress.
  rewrite bind_query, Hget. destruct (getTask_Some _ _ _ Hget) as [Hid _].
  rewrite bind_updateTask, bind_query, snd_log_ret, row_after_log, Hid.
  rewrite (row_after_update _ _ _ _ _ Hget), String.eqb_refl. split; reflexivity.
Qed.

(** C2 fails on the code.  From a store with one pending task, the
    requests claim, start, complete lead to [in_review] with
    [progress = 100]; a following [update_progress] with 50 is accepted
    and leaves the task [in_review] with [progress = 50]. *)
Theorem update_progress_breaks_review_invariant :
  let step := run Scenario.git_quiet Scenario.slugify Scenario.resolve in
  let db1 := step (ClaimTask {| TaskService.claim_task_id := "t1";
                                TaskService.claim_agent_id := Some "agent-1" |})
               (Scenario.env_with "log-1") Scenario.single in
  let db2 := step (StartTask "t1") (Scenario.env_with "log-2") db1 in
  let db3 := step (CompleteTask {| TaskService.complete_task_id := "t1";
                                   TaskService.complete_summary := "done";
                                   TaskService.complete_files_changed := [] |})
               (Scenario.env_with "log-3") db2 in
  let input := {| TaskService.up_task_id := "t1";
                  TaskService.up_progress := 50;
                  TaskService.up_note := "reopened";
                  TaskService.up_files_changed := None |} in
  status_of db3 "t1" = Some in_review
  /\ progress_of db3 "t1" = Some 100
  /\ (exists out db4,
        TaskService.updateProgress Scenario.git_quiet input
          (Scenario.env_with "log-4") db3 = (Ok out, db4)
        /\ TaskService.up_success out = true
        /\ status_of db4 "t1" = Some in_review
        /\ progress_of db4 "t1" = Some 50).
Proof.
  cbv zeta. split; [vm_compute; reflexivity|]. split; [vm_compute; reflexivity|].
  eexists _, _. split; [vm_compute; reflexivity|].
  split; [reflexivity|]. split; vm_compute; reflexivity.
Qed.

(* ===================================================================== *)
(** * The ownership engine *)
(* ===================================================================== *)

Module ConflictFacts.
Import Conflict JsonFacts.

Lemma prefix_refl (s : string) : String.prefix s s = true.
Proof.
  induction s as [|a s IH]; [reflexivity|].
  cbn [String.prefix]. destruct (ascii_dec a a); [assumption|contradiction].
Qed.

Lemma prefix_append (a b : string) : String.prefix a (a +:+ b) = true.
Proof.
  induction a as [|x a IH]; norm_append; [destruct b; reflexivity|].
  cbn [String.prefix]. destruct (ascii_dec x x); [assumption|contradiction].
Qed.

Lemma prefix_split (a f : string) :
  String.prefix a f = true <-> exists rest, f = a +:+ rest.
Proof.
  split.
  - revert f. induction a as [|x a IH]; intros f H.
    + exists f. reflexivity.
    + destruct f as [|y f]; [discriminate|]. cbn [String.prefix] in H.
      destruct (ascii_dec x y) as [->|]; [|discriminate].
      destruct (IH f H) as [rest ->]. exists rest. norm_append. reflexivity.
  - intros [rest ->]. apply prefix_append.
Qed.

Lemma prefix_trans_append (p d k : string) :
  String.prefix p d = true -> String.prefix p (d +:+ k) = true.
Proof.
  intros H. apply prefix_split in H. destruct H as [rest ->].
  rewrite append_assoc. apply prefix_append.
Qed.

(** Strings without a star. *)
Fixpoint no_star (s : string) : bool :=
  match s with
  | EmptyString => true
  | String a rest => negb (Ascii.eqb a star) && no_star rest
  end.

Lemma no_star_append (a b : string) :
  no_star (a +:+ b) = no_star a && no_star b.
Proof.
  induction a as [|x a IH]; norm_append; [reflexivity|].
  cbn [no_star]. rewrite IH, andb_assoc. reflexivity.
Qed.

Lemma drop_double_stars_other (a : ascii) (s : string) :
  Ascii.eqb a star = false ->
  drop_double_stars (String a s) = String a (drop_double_stars s).
Proof.
  intros Ha. destruct s as [|b rest]; [reflexivity|].
  change (drop_double_stars (String a (String b rest)))
    with (if Ascii.eqb a star && Ascii.eqb b star
          then match rest with
               | String c rest' =>
                   if Ascii.eqb c slash then drop_double_stars rest'
                   else drop_double_stars rest
               | EmptyString => EmptyString
               end
          else String a (drop_double_stars (String b rest))).
  rewrite Ha. reflexivity.
Qed.

Lemma drop_double_stars_no_star (s : string) :
  no_star s = true -> drop_double_stars s = s.
Proof.
  induction s as [|a s IH]; [reflexivity|].
  cbn [no_star]. intros H. apply andb_true_iff in H. destruct H as [Ha Hs].
  apply negb_true_iff in Ha. rewrite (drop_double_stars_other _ _ Ha).
  f_equal. apply IH. assumption.
Qed.

Lemma drop_stars_no_star (s : string) : no_star s = true -> drop_stars s = s.
Proof.
  induction s as [|a s IH]; [reflexivity|].
  cbn [no_star drop_stars]. intros H. apply andb_true_iff in H. destruct H as [Ha Hs].
  apply negb_true_iff in Ha. rewrite Ha. f_equal. auto.
Qed.

Lemma no_star_drop_stars (s : string) : no_star (drop_stars s) = true.
Proof.
  induction s as [|a s IH]; [reflexivity|].
  cbn [drop_stars]. destruct (Ascii.eqb a star) eqn:E; [assumption|].
  cbn [no_star]. rewrite E. assumption.
Qed.

Lemma drop_trailing_slashes_cons (a : ascii) (s : string) :
  drop_trailing_slashes (String a s)
  = match drop_trailing_slashes s with
    | EmptyString => if Ascii.eqb a slash then EmptyString else String a EmptyString
    | kept => String a kept
    end.
Proof. reflexivity. Qed.

Lemma no_star_drop_trailing (s : string) :
  no_star s = true -> no_star (drop_trailing_slashes s) = true.
Proof.
  induction s as [|a s IH]; [reflexivity|].
  cbn [no_star]. intros H. apply andb_true_iff in H. destruct H as [Ha Hs].
  rewrite drop_trailing_slashes_cons. specialize (IH Hs).
  destruct (drop_trailing_slashes s) as [|b k].
  - destruct (Ascii.eqb a slash); [reflexivity|]. cbn [no_star]. rewrite Ha. reflexivity.
  - cbn [no_star] in *. rewrite Ha, IH. reflexivity.
Qed.

Lemma drop_trailing_idem (s : string) :
  drop_trailing_slashes (drop_trailing_slashes s) = drop_trailing_slashes s.
Proof.
  induction s as [|a s IH]; [reflexivity|].
  rewrite drop_trailing_slashes_cons.
  destruct (drop_trailing_slashes s) as [|b k] eqn:E.
  - destruct (Ascii.eqb a slash) eqn:Ea; [reflexivity|].
    rewrite drop_trailing_slashes_cons. cbn [drop_trailing_slashes]. rewrite Ea.
    reflexivity.
  - rewrite drop_trailing_slashes_cons, IH. reflexivity.
Qed.

Lemma drop_trailing_append (a b : string) :
  drop_trailing_slashes (a +:+ b)
  = match drop_trailing_slashes b with
    | EmptyString => drop_trailing_slashes a
    | kept => a +:+ kept
    end.
Proof.
  induction a as [|x a IH]; norm_append.
  - destruct (drop_trailing_slashes b); reflexivity.
  - rewrite !drop_trailing_slashes_cons, IH.
    destruct (drop_trailing_slashes b) as [|c k]; [reflexivity|].
    norm_append. destruct a; norm_append; reflexivity.
Qed.

Lemma drop_trailing_prefix (s : string) :
  String.prefix (drop_trailing_slashes s) s = true.
Proof.
  induction s as [|a s IH]; [reflexivity|].
  rewrite drop_trailing_slashes_cons.
  destruct (drop_trailing_slashes s) as [|b k].
  - destruct (Ascii.eqb a slash); [reflexivity|].
    cbn [String.prefix]. destruct (ascii_dec a a); [assumption|contradiction].
  - cbn [String.prefix] in *. destruct (ascii_dec a a); [assumption|contradiction].
Qed.

Lemma normalize_idem (p : string) : normalize (normalize p) = normalize p.
Proof.
  unfold normalize.
  assert (H : no_star (drop_trailing_slashes (drop_stars (drop_double_stars p))) = true).
  { apply no_star_drop_trailing, no_star_drop_stars. }
  rewrite (drop_double_stars_no_star _ H), (drop_stars_no_star _ H).
  apply drop_trailing_idem.
Qed.

Lemma drop_double_stars_dir (d : string) :
  no_star d = true -> drop_double_stars (d +:+ "/**") = d +:+ "/".
Proof.
  induction d as [|a d IH]; [reflexivity|].
  cbn [no_star]. intros H. apply andb_true_iff in H. destruct H as [Ha Hd].
  norm_append. apply negb_true_iff in Ha.
  rewrite (drop_double_stars_other _ _ Ha), (IH Hd). reflexivity.
Qed.

Lemma normalize_no_star (s : string) :
  no_star s = true -> normalize s = drop_trailing_slashes s.
Proof.
  intros H. unfold normalize.
  rewrite (drop_double_stars_no_star _ H), (drop_stars_no_star _ H). reflexivity.
Qed.

Lemma normalize_dir (d : string) :
  no_star d = true -> normalize (d +:+ "/**") = drop_trailing_slashes d.
Proof.
  intros H. unfold normalize. rewrite (drop_double_stars_dir _ H).
  rewrite drop_stars_no_star by (rewrite no_star_append, H; reflexivity).
  rewrite drop_trailing_append. reflexivity.
Qed.

(** Suffixes. *)
Lemma substring_append_left (a b : string) :
  String.substring 0 (String.length a) (a +:+ b) = a.
Proof.
  induction a as [|x a IH]; norm_append.
  - destruct b; reflexivity.
  - cbn [String.length String.substring]. rewrite IH. reflexivity.
Qed.

Lemma substring_all (b : string) : String.substring 0 (String.length b) b = b.
Proof.
  induction b as [|x b IH]; [reflexivity|].
  cbn [String.length String.substring]. rewrite IH. reflexivity.
Qed.

Lemma substring_append_right (a b : string) :
  String.substring (String.length a) (String.length b) (a +:+ b) = b.
Proof.
  induction a as [|x a IH]; norm_append.
  - apply substring_all.
  - cbn [String.length String.substring]. assumption.
Qed.

Lemma strip_suffix_append (suffix d x : string) :
  String.length x = String.length suffix ->
  strip_suffix suffix (d +:+ x) = if String.eqb x suffix then Some d else None.
Proof.
  intros Hlen. unfold strip_suffix. rewrite length_append, <- Hlen.
  replace (String.length d + String.length x - String.length x)%nat
    with (String.length d) by lia.
  rewrite substring_append_right, substring_append_left.
  replace (String.length x <=? String.length d + String.length x)%nat with true
    by (symmetry; apply Nat.leb_le; lia).
  reflexivity.
Qed.

Lemma strip_glob_suffix_dir (d : string) :
  strip_glob_suffix (d +:+ "/**") = d +:+ "/".
Proof.
  unfold strip_glob_suffix.
  rewrite (strip_suffix_append "**/" d "/**") by reflexivity.
  change (String.eqb "/**" "**/") with false. cbv iota.
  replace (d +:+ "/**") with ((d +:+ "/") +:+ "**")
    by (rewrite append_assoc; reflexivity).
  rewrite (strip_suffix_append "**" (d +:+ "/") "**") by reflexivity.
  change (String.eqb "**" "**") with true. cbv iota. cbn [nullish].
  rewrite (strip_suffix_append "*" d "/") by reflexivity.
  reflexivity.
Qed.

Lemma flat_map_nil {A B} (f : A -> list B) (l : list A) :
  flat_map f l = [] <-> forall x, In x l -> f x = [].
Proof.
  induction l as [|a l IH]; simpl.
  - split; [intros _ x []|reflexivity].
  - split.
    + intros H. apply app_eq_nil in H. destruct H as [Ha Hl].
      intros x [<-|Hx]; [assumption|]. apply IH; assumption.
    + intros H. rewrite (H a) by auto. simpl. apply IH. intros x Hx. apply H. auto.
Qed.

End ConflictFacts.

(** X1.  [patternsOverlap] does not depend on the order of its two
    arguments, and every pattern overlaps itself. *)
Theorem patternsOverlap_symmetric_reflexive :
  (forall pattern1 pattern2,
     Conflict.patternsOverlap pattern1 pattern2
     = Conflict.patternsOverlap pattern2 pattern1)
  /\ (forall pattern, Conflict.patternsOverlap pattern pattern = true).
Proof.
  split.
  - intros p q. unfold Conflict.patternsOverlap. cbv zeta.
    rewrite (orb_comm (Nat.eqb (String.length (Conflict.normalize p)) 0)).
    rewrite (orb_comm (Conflict.startsWith (Conflict.normalize p) (Conflict.normalize q))).
    reflexivity.
  - intros p. unfold Conflict.patternsOverlap, Conflict.startsWith. cbv zeta.
    rewrite ConflictFacts.prefix_refl.
    destruct (_ || _)%bool; reflexivity.
Qed.

(** X2.  [patternsOverlap] sees a pattern only through its normalised
    base: the base contains no star, normalising it again changes nothing,
    and replacing either pattern by its base does not change the answer. *)
Theorem patternsOverlap_normalize (pattern1 pattern2 : string) :
  ConflictFacts.no_star (Conflict.normalize pattern1) = true
  /\ Conflict.normalize (Conflict.normalize pattern1) = Conflict.normalize pattern1
  /\ Conflict.patternsOverlap (Conflict.normalize pattern1) pattern2
     = Conflict.patternsOverlap pattern1 pattern2
  /\ Conflict.patternsOverlap pattern1 (Conflict.normalize pattern2)
     = Conflict.patternsOverlap pattern1 pattern2.
Proof.
  split; [apply ConflictFacts.no_star_drop_trailing, ConflictFacts.no_star_drop_stars|].
  split; [apply ConflictFacts.normalize_idem|].
  unfold Conflict.patternsOverlap. cbv zeta.
  rewrite !ConflictFacts.normalize_idem. split; reflexivity.
Qed.

(** X3.  A directory pattern [dir/**] overlaps every pattern that lies
    below [dir/], when neither contains a star. *)
Theorem patternsOverlap_directory (dir rest : string) :
  ConflictFacts.no_star dir = true ->
  ConflictFacts.no_star rest = true ->
  Conflict.patternsOverlap (dir +:+ "/**") (dir +:+ "/" +:+ rest) = true.
Proof.
  intros Hd Hr. unfold Conflict.patternsOverlap. cbv zeta.
  rewrite (ConflictFacts.normalize_dir _ Hd).
  rewrite ConflictFacts.normalize_no_star
    by (rewrite !ConflictFacts.no_star_append, Hd, Hr; reflexivity).
  destruct (_ || _)%bool; [reflexivity|].
  apply orb_true_iff. right. unfold Conflict.startsWith.
  rewrite ConflictFacts.drop_trailing_append.
  destruct (Conflict.drop_trailing_slashes ("/" +:+ rest)).
  - apply ConflictFacts.prefix_refl.
  - apply ConflictFacts.prefix_trans_append, ConflictFacts.drop_trailing_prefix.
Qed.

Lemma patternsOverlap_directory_witness :
  Conflict.patternsOverlap ("src/db" +:+ "/**") ("src/db" +:+ "/" +:+ "schema.ts") = true.
Proof. apply patternsOverlap_directory; reflexivity. Defined.

(** X4.  [findConflicts] reports exactly the triples (own pattern, other
    task, pattern of that task) whose patterns overlap and of which at
    least one is [exclusive]; in particular it reports nothing when every
    pattern on both sides is [shared]. *)
Theorem findConflicts_spec (taskPatterns : list TaskFileOwnership.t)
    (otherTasks : list (Task.t * list TaskFileOwnership.t)) :
  (forall c,
     In c (Conflict.findConflicts taskPatterns otherTasks)
     <-> exists mine other theirs,
           In mine taskPatterns /\ In other otherTasks /\ In theirs (snd other)
           /\ (TaskFileOwnership.ownership_type mine = exclusive
               \/ TaskFileOwnership.ownership_type theirs = exclusive)
           /\ Conflict.patternsOverlap (TaskFileOwnership.file_pattern mine)
                (TaskFileOwnership.file_pattern theirs) = true
           /\ c = {| Conflict.conflict_task := fst other;
                     Conflict.conflicting_pattern := TaskFileOwnership.file_pattern theirs;
                     Conflict.conflict_ownership_type :=
                       TaskFileOwnership.ownership_type theirs |})
  /\ ((forall mine, In mine taskPatterns ->
                    TaskFileOwnership.ownership_type mine = shared) ->
      (forall other theirs, In other otherTasks -> In theirs (snd other) ->
                            TaskFileOwnership.ownership_type theirs = shared) ->
      Conflict.findConflicts taskPatterns otherTasks = []).
Proof.
  assert (Hspec : forall c,
     In c (Conflict.findConflicts taskPatterns otherTasks)
     <-> exists mine other theirs,
           In mine taskPatterns /\ In other otherTasks /\ In theirs (snd other)
           /\ (TaskFileOwnership.ownership_type mine = exclusive
               \/ TaskFileOwnership.ownership_type theirs = exclusive)
           /\ Conflict.patternsOverlap (TaskFileOwnership.file_pattern mine)
                (TaskFileOwnership.file_pattern theirs) = true
           /\ c = {| Conflict.conflict_task := fst other;
                     Conflict.conflicting_pattern := TaskFileOwnership.file_pattern theirs;
                     Conflict.conflict_ownership_type :=
                       TaskFileOwnership.ownership_type theirs |}).
  { intros c. unfold Conflict.findConflicts. rewrite in_flat_map. split.
    - intros (mine & Hmine & H). apply in_flat_map in H.
      destruct H as (other & Hother & H). apply in_flat_map in H.
      destruct H as (theirs & Htheirs & H).
      destruct (_ && _)%bool eqn:E; [|destruct H].
      destruct H as [<-|[]]. apply andb_true_iff in E. destruct E as [E1 E2].
      exists mine, other, theirs. repeat (split; [assumption|]).
      split; [|split; [assumption|reflexivity]].
      apply orb_true_iff in E1.
      destruct E1 as [E1|E1]; apply bool_decide_eq_true in E1; auto.
    - intros (mine & other & theirs & Hmine & Hother & Htheirs & Hex & Hov & ->).
      exists mine. split; [assumption|]. apply in_flat_map.
      exists other. split; [assumption|]. apply in_flat_map.
      exists theirs. split; [assumption|]. rewrite Hov, andb_true_r.
      replace (_ || _)%bool with true; [left; reflexivity|].
      symmetry. apply orb_true_iff.
      destruct Hex as [H|H]; [left|right]; apply bool_decide_eq_true; assumption. }
  split; [exact Hspec|].
  intros Hmine Htheirs.
  destruct (Conflict.findConflicts taskPatterns otherTasks) as [|c l] eqn:E; [reflexivity|].
  exfalso. destruct (proj1 (Hspec c) (or_introl eq_refl))
    as (mine & other & theirs & H1 & H2 & H3 & [H|H] & _).
  - rewrite (Hmine _ H1) in H. discriminate.
  - rewrite (Htheirs _ _ H2 H3) in H. discriminate.
Qed.

(** X5.  Against directory patterns [dir/**], [fileMatchesPatterns]
    accepts exactly the paths that start with [dir/] for one of the
    directories; against no pattern at all it accepts nothing. *)
Theorem fileMatchesPatterns_directories (filePath : string) (dirs : list string) :
  Conflict.fileMatchesPatterns filePath (map (fun dir => dir +:+ "/**") dirs) = true
  <-> exists dir rest, In dir dirs /\ filePath = dir +:+ "/" +:+ rest.
Proof.
  unfold Conflict.fileMatchesPatterns. rewrite existsb_exists. split.
  - intros (pattern & Hin & H). apply in_map_iff in Hin.
    destruct Hin as (dir & <- & Hdir). rewrite ConflictFacts.strip_glob_suffix_dir in H.
    exists dir. cbv zeta in H.
    assert (Hp : String.prefix (dir +:+ "/") filePath = true).
    { apply orb_true_iff in H. destruct H as [H|H].
      - apply orb_true_iff in H. destruct H as [H|H]; [|exact H].
        rewrite JsonFacts.length_append in H. apply Nat.eqb_eq in H.
        cbn [String.length] in H. lia.
      - apply String.eqb_eq in H. subst filePath.
        replace (dir +:+ "/**") with ((dir +:+ "/") +:+ "**")
          by (rewrite JsonFacts.append_assoc; reflexivity).
        apply ConflictFacts.prefix_append. }
    apply ConflictFacts.prefix_split in Hp. destruct Hp as [rest ->].
    exists rest. split; [assumption|]. apply JsonFacts.append_assoc.
  - intros (dir & rest & Hdir & ->). exists (dir +:+ "/**").
    split; [apply in_map_iff; exists dir; auto|].
    rewrite ConflictFacts.strip_glob_suffix_dir. cbv zeta.
    apply orb_true_iff. left. apply orb_true_iff. right.
    unfold Conflict.startsWith. rewrite <- JsonFacts.append_assoc.
    apply ConflictFacts.prefix_append.
Qed.

(** X6.  [checkFileConflicts] returns no warning exactly when no changed
    file matches an [exclusive] pattern of another task; [shared] patterns
    never produce a warning. *)
Theorem checkFileConflicts_empty (changedFiles : list string)
    (otherTasks : list (Task.t * list TaskFileOwnership.t)) :
  (Conflict.checkFileConflicts changedFiles otherTasks = []
   <-> forall file other,
         In file changedFiles -> In other otherTasks ->
         Conflict.fileMatchesPatterns file
           (map TaskFileOwnership.file_pattern
              (List.filter
                 (fun p => bool_decide (TaskFileOwnership.ownership_type p = exclusive))
                 (snd other))) = false)
  /\ ((forall other theirs, In other otherTasks -> In theirs (snd other) ->
                            TaskFileOwnership.ownership_type theirs = shared) ->
      Conflict.checkFileConflicts changedFiles otherTasks = []).
Proof.
  assert (Hiff : Conflict.checkFileConflicts changedFiles otherTasks = []
   <-> forall file other,
         In file changedFiles -> In other otherTasks ->
         Conflict.fileMatchesPatterns file
           (map TaskFileOwnership.file_pattern
              (List.filter
                 (fun p => bool_decide (TaskFileOwnership.ownership_type p = exclusive))
                 (snd other))) = false).
  { unfold Conflict.checkFileConflicts. rewrite ConflictFacts.flat_map_nil. split.
    - intros H file other Hf Ho. specialize (H file Hf).
      rewrite ConflictFacts.flat_map_nil in H. specialize (H other Ho). cbv zeta in H.
      destruct (Conflict.fileMatchesPatterns _ _); [discriminate H|reflexivity].
    - intros H file Hf. apply ConflictFacts.flat_map_nil. intros other Ho.
      cbv zeta. rewrite (H file other Hf Ho). reflexivity. }
  split; [exact Hiff|].
  intros Hshared. apply Hiff. intros file other _ Ho.
  replace (List.filter _ (snd other)) with (@nil TaskFileOwnership.t); [reflexivity|].
  symmetry. specialize (Hshared other).
  induction (snd other) as [|p l IH]; [reflexivity|].
  cbn [List.filter]. rewrite (Hshared p Ho) by (left; reflexivity).
  rewrite bool_decide_eq_false_2 by discriminate. apply IH.
  intros theirs Ho' Hin. apply Hshared; [assumption|right; assumption].
Qed.

(* ===================================================================== *)
(** * The store: inserts and lookups *)
(* ===================================================================== *)

Lemma existsb_find {A} (p : A -> bool) (l : list A) :
  existsb p l = match List.find p l with Some _ => true | None => false end.
Proof.
  induction l as [|a l IH]; [reflexivity|]. simpl. destruct (p a); [reflexivity|exact IH].
Qed.

Lemma find_snoc {A} (p : A -> bool) (l : list A) (x : A) :
  List.find p (l ++ [x])
  = match List.find p l with
    | Some y => Some y
    | None => if p x then Some x else None
    end.
Proof.
  induction l as [|a l IH]; [reflexivity|]. simpl. destruct (p a); [reflexivity|exact IH].
Qed.

Lemma flat_map_snoc {A B} (f : A -> list B) (l : list A) (x : A) :
  flat_map f (l ++ [x]) = flat_map f l ++ f x.
Proof. rewrite flat_map_app. simpl. rewrite app_nil_r. reflexivity. Qed.

(** X7.  [createTask] refuses a duplicate id and a group that does not
    exist, leaving the store as it was; otherwise the row it returns is
    the one [getTask] reads back, with the fields given, [created_at] set
    to the current time and the other three timestamps NULL, and no other
    task and no other table is touched. *)
Theorem createTask_spec (db : DB) (task : Queries.NewTask) (now : string) :
  let out := Queries.createTask db task now in
  (Queries.getTask db (Queries.new_id task) <> None ->
   exists e, out = (Throw e, db))
  /\ (Queries.getGroup db (Queries.new_group task) = None ->
      exists e, out = (Throw e, db))
  /\ (Queries.getTask db (Queries.new_id task) = None ->
      Queries.getGroup db (Queries.new_group task) <> None ->
      exists row,
        fst out = Ok row
        /\ Queries.getTask (snd out) (Queries.new_id task) = Some row
        /\ row = {| Task.id := Queries.new_id task;
                    Task.group_id := Queries.new_group task;
                    Task.sequence := Queries.new_sequence task;
                    Task.title := Queries.new_title task;
                    Task.description := Queries.new_description task;
                    Task.status := Queries.new_status task;
                    Task.priority := Queries.new_priority task;
                    Task.assigned_to := Queries.new_assigned_to task;
                    Task.branch_name := Queries.new_branch_name task;
                    Task.worktree_path := Queries.new_worktree_path task;
                    Task.progress := Queries.new_progress task;
                    Task.progress_note := Queries.new_progress_note task;
                    Task.created_at := now;
                    Task.started_at := None;
                    Task.completed_at := None;
                    Task.merged_at := None |}
        /\ tasks (snd out) = tasks db ++ [row]
        /\ (forall id, id <> Queries.new_id task ->
                       Queries.getTask (snd out) id = Queries.getTask db id)
        /\ task_groups (snd out) = task_groups db
        /\ task_dependencies (snd out) = task_dependencies db
        /\ task_file_ownership (snd out) = task_file_ownership db
        /\ progress_logs (snd out) = progress_logs db).
Proof.
  cbv zeta. unfold Queries.createTask, Queries.getTask, Queries.getGroup.
  rewrite !existsb_find.
  destruct (List.find _ (tasks db)) as [t|] eqn:Et.
  - split; [intros _; eexists; reflexivity|].
    split; [intros _; eexists; reflexivity|]. intros [=].
  - split; [intros H; contradiction|].
    destruct (List.find _ (task_groups db)) as [g|] eqn:Eg; cbn [negb].
    + split; [intros [=]|]. intros _ _. eexists. split; [reflexivity|].
      cbn [snd Queries.set_tasks tasks task_groups task_dependencies
           task_file_ownership progress_logs].
      split.
      { rewrite find_snoc, Et. cbn [Task.id]. rewrite String.eqb_refl. reflexivity. }
      split; [reflexivity|]. split; [reflexivity|].
      split; [|repeat split].
      intros id Hne. rewrite find_snoc. cbn [Task.id].
      destruct (List.find (fun t => String.eqb (Task.id t) id) (tasks db));
        [reflexivity|].
      apply not_eq_sym in Hne. apply String.eqb_neq in Hne. rewrite Hne.
      reflexivity.
    + split; [intros _; eexists; reflexivity|]. intros _ H. contradiction.
Qed.

(** The rows of [task_dependencies] that say [a] waits for [b]. *)
Definition depends (db : DB) (a b : string) : Prop :=
  In (TaskDependency.mk a b) (task_dependencies db).

Lemma getDependencies_In db a t :
  In t (Queries.getDependencies db a)
  <-> In t (tasks db) /\ depends db a (Task.id t).
Proof.
  unfold Queries.getDependencies, depends. rewrite sort_by_In, in_flat_map. split.
  - intros (d & Hd & H). destruct (String.eqb_spec (TaskDependency.task_id d) a); [|destruct H].
    apply filter_In in H. destruct H as [Ht E]. apply String.eqb_eq in E.
    split; [assumption|]. destruct d as [x y]. simpl in *. subst. assumption.
  - intros [Ht Hd]. eexists. split; [exact Hd|]. cbn [TaskDependency.task_id].
    rewrite String.eqb_refl. apply filter_In. split; [assumption|].
    apply String.eqb_refl.
Qed.

Lemma getDependents_In db b t :
  In t (Queries.getDependents db b)
  <-> In t (tasks db) /\ depends db (Task.id t) b.
Proof.
  unfold Queries.getDependents, depends. rewrite sort_by_In, in_flat_map. split.
  - intros (d & Hd & H). destruct (String.eqb_spec (TaskDependency.depends_on d) b); [|destruct H].
    apply filter_In in H. destruct H as [Ht E]. apply String.eqb_eq in E.
    split; [assumption|]. destruct d as [x y]. simpl in *. subst. assumption.
  - intros [Ht Hd]. eexists. split; [exact Hd|]. cbn [TaskDependency.depends_on].
    rewrite String.eqb_refl. apply filter_In. split; [assumption|].
    apply String.eqb_refl.
Qed.

Lemma existsb_dependency db a b :
  existsb (fun d => String.eqb (TaskDependency.task_id d) a
                    && String.eqb (TaskDependency.depends_on d) b)
    (task_dependencies db) = true
  <-> depends db a b.
Proof.
  unfold depends. rewrite existsb_exists. split.
  - intros ([x y] & Hd & H). apply andb_true_iff in H. destruct H as [H1 H2].
    apply String.eqb_eq in H1, H2. simpl in *. subst. assumption.
  - intros H. eexists. split; [exact H|]. simpl. rewrite !String.eqb_refl. reflexivity.
Qed.

(** X8.  [addDependency] between two tasks that exist succeeds; afterwards
    the prerequisites of the task are the old ones and the task named, the
    prerequisites of every other task are as before, and adding the same
    pair again changes nothing. *)
Theorem addDependency_spec (db : DB) (taskId dependsOn : string) :
  In taskId (map Task.id (tasks db)) ->
  In dependsOn (map Task.id (tasks db)) ->
  let db' := snd (Queries.addDependency db taskId dependsOn) in
  fst (Queries.addDependency db taskId dependsOn) = Ok tt
  /\ (forall t, In t (Queries.getDependencies db' taskId)
                <-> In t (Queries.getDependencies db taskId)
                    \/ (In t (tasks db) /\ Task.id t = dependsOn))
  /\ (forall other, other <> taskId ->
                    Queries.getDependencies db' other = Queries.getDependencies db other)
  /\ tasks db' = tasks db
  /\ Queries.addDependency db' taskId dependsOn = (Ok tt, db').
Proof.
  intros Ha Hb. cbv zeta.
  assert (Hdep : forall d, depends (snd (Queries.addDependency db taskId dependsOn))
                             (TaskDependency.task_id d) (TaskDependency.depends_on d)
                           <-> depends db (TaskDependency.task_id d) (TaskDependency.depends_on d)
                               \/ d = TaskDependency.mk taskId dependsOn).
  { intros [x y]. unfold Queries.addDependency, depends.
    destruct (existsb _ (task_dependencies db)) eqn:E.
    - apply existsb_dependency in E. cbn [snd]. split; [auto|].
      intros [H|[= -> ->]]; assumption.
    - apply existsb_id_In in Ha, Hb. rewrite Ha, Hb. cbn [negb orb snd task_dependencies].
      rewrite in_app_iff. simpl. split.
      + intros [H|[H|[]]]; [left; assumption|right; congruence].
      + intros [H|H]; [left; assumption|right; left; congruence]. }
  assert (Htasks : tasks (snd (Queries.addDependency db taskId dependsOn)) = tasks db).
  { unfold Queries.addDependency. destruct (existsb _ (task_dependencies db)); [reflexivity|].
    destruct (_ || _)%bool; reflexivity. }
  split.
  { unfold Queries.addDependency. destruct (existsb _ (task_dependencies db)); [reflexivity|].
    apply existsb_id_In in Ha, Hb. rewrite Ha, Hb. reflexivity. }
  split.
  { intros t. rewrite !getDependencies_In, Htasks.
    specialize (Hdep (TaskDependency.mk taskId (Task.id t))). cbn in Hdep.
    rewrite Hdep. split.
    - intros [Ht [H|[= H]]]; [left; auto|right; auto].
    - intros [[Ht H]|[Ht H]]; (split; [assumption|]); [left; assumption|].
      right. rewrite H. reflexivity. }
  split.
  { intros other Hne. unfold Queries.addDependency.
    destruct (existsb _ (task_dependencies db)); [reflexivity|].
    destruct (_ || _)%bool; [reflexivity|]. cbn [snd].
    unfold Queries.getDependencies. cbn [task_dependencies tasks].
    rewrite flat_map_snoc. cbn [TaskDependency.task_id].
    apply not_eq_sym in Hne. apply String.eqb_neq in Hne. rewrite Hne, app_nil_r.
    reflexivity. }
  split; [exact Htasks|].
  assert (Hnow : depends (snd (Queries.addDependency db taskId dependsOn)) taskId dependsOn).
  { apply (Hdep (TaskDependency.mk taskId dependsOn)). right. reflexivity. }
  apply existsb_dependency in Hnow.
  unfold Queries.addDependency at 1. rewrite Hnow. reflexivity.
Qed.

Lemma addDependency_spec_witness :
  let db' := snd (Queries.addDependency Scenario.fan "t4" "t2") in
  fst (Queries.addDependency Scenario.fan "t4" "t2") = Ok tt
  /\ (forall t, In t (Queries.getDependencies db' "t4")
                <-> In t (Queries.getDependencies Scenario.fan "t4")
                    \/ (In t (tasks Scenario.fan) /\ Task.id t = "t2"))
  /\ (forall other, other <> "t4" ->
                    Queries.getDependencies db' other
                    = Queries.getDependencies Scenario.fan other)
  /\ tasks db' = tasks Scenario.fan
  /\ Queries.addDependency db' "t4" "t2" = (Ok tt, db').
Proof.
  apply (addDependency_spec Scenario.fan "t4" "t2"); simpl; tauto.
Defined.

(** X9.  [getDependents] is the converse of [getDependencies]: a task [t]
    is among the dependents of a task [a] exactly when [a] is among the
    prerequisites of [t]. *)
Theorem getDependents_converse (db : DB) (a t : Task.t) :
  In a (tasks db) /\ In t (Queries.getDependents db (Task.id a))
  <-> In t (tasks db) /\ In a (Queries.getDependencies db (Task.id t)).
Proof.
  rewrite getDependents_In, getDependencies_In. tauto.
Qed.

Definition ownership_key (fo : TaskFileOwnership.t) : string * string :=
  (TaskFileOwnership.task_id fo, TaskFileOwnership.file_pattern fo).

Lemma same_key_eqb (fo fo' : TaskFileOwnership.t) :
  String.eqb (TaskFileOwnership.task_id fo) (TaskFileOwnership.task_id fo')
  && String.eqb (TaskFileOwnership.file_pattern fo) (TaskFileOwnership.file_pattern fo')
  = true
  <-> ownership_key fo = ownership_key fo'.
Proof.
  unfold ownership_key. rewrite andb_true_iff, !String.eqb_eq. split.
  - intros [-> ->]. reflexivity.
  - intros [= -> ->]. auto.
Qed.

Lemma NoDup_map_filter {A B} (f : A -> B) (p : A -> bool) (l : list A) :
  List.NoDup (map f l) -> List.NoDup (map f (List.filter p l)).
Proof.
  induction l as [|a l IH]; simpl; [auto|].
  intros H. inversion H as [|? ? Hn Hd]; subst. destruct (p a); [|auto].
  simpl. constructor; [|auto]. intros Hin. apply Hn.
  apply in_map_iff in Hin. destruct Hin as (x & Hx & Hin). apply filter_In in Hin.
  apply in_map_iff. exists x. tauto.
Qed.

(** X10.  [addFileOwnership] for a task that exists succeeds and the last
    write wins: the new row is listed for its task, it is the only row
    with its (task, pattern) pair, rows with another pair are kept as they
    were, and the pairs stay distinct if they were. *)
Theorem addFileOwnership_spec (db : DB) (ownership : TaskFileOwnership.t) :
  In (TaskFileOwnership.task_id ownership) (map Task.id (tasks db)) ->
  let db' := snd (Queries.addFileOwnership db ownership) in
  fst (Queries.addFileOwnership db ownership) = Ok tt
  /\ In ownership (Queries.getFileOwnership db' (TaskFileOwnership.task_id ownership))
  /\ (forall fo, In fo (task_file_ownership db') ->
                 ownership_key fo = ownership_key ownership -> fo = ownership)
  /\ (forall fo, ownership_key fo <> ownership_key ownership ->
                 (In fo (task_file_ownership db') <-> In fo (task_file_ownership db)))
  /\ (List.NoDup (map ownership_key (task_file_ownership db)) ->
      List.NoDup (map ownership_key (task_file_ownership db')))
  /\ tasks db' = tasks db.
Proof.
  intros Ht. cbv zeta. unfold Queries.addFileOwnership.
  apply existsb_id_In in Ht. rewrite Ht. cbn [negb fst snd task_file_ownership tasks].
  split; [reflexivity|]. split.
  { unfold Queries.getFileOwnership. cbn [task_file_ownership].
    apply filter_In. split; [|apply String.eqb_refl].
    apply in_app_iff. right. left. reflexivity. }
  split.
  { intros fo Hin Hkey. apply in_app_iff in Hin. destruct Hin as [Hin|[<-|[]]]; [|reflexivity].
    apply filter_In in Hin. destruct Hin as [_ Hn]. apply negb_true_iff in Hn.
    apply same_key_eqb in Hkey. rewrite Hkey in Hn. discriminate. }
  split.
  { intros fo Hkey. rewrite in_app_iff, filter_In. simpl. split.
    - intros [[H _]|[<-|[]]]; [assumption|]. contradiction.
    - intros H. left. split; [assumption|]. apply negb_true_iff.
      destruct (_ && _)%bool eqn:E; [|reflexivity].
      apply same_key_eqb in E. contradiction. }
  split; [|reflexivity].
  intros Hnd. rewrite map_app. apply List.NoDup_app.
  - apply NoDup_map_filter. assumption.
  - simpl. constructor; [intros []|constructor].
  - intros k Hk Hk'. simpl in Hk'. destruct Hk' as [<-|[]].
    apply in_map_iff in Hk. destruct Hk as (fo & Hkey & Hin).
    apply filter_In in Hin. destruct Hin as [_ Hn]. apply negb_true_iff in Hn.
    apply same_key_eqb in Hkey. rewrite Hkey in Hn. discriminate.
Qed.

Lemma addFileOwnership_spec_witness :
  let ownership := TaskFileOwnership.mk "t2" "src/db/**" exclusive in
  let db' := snd (Queries.addFileOwnership Scenario.shared_pattern ownership) in
  fst (Queries.addFileOwnership Scenario.shared_pattern ownership) = Ok tt
  /\ In ownership (Queries.getFileOwnership db' "t2")
  /\ (forall fo, In fo (task_file_ownership db') ->
                 ownership_key fo = ownership_key ownership -> fo = ownership)
  /\ (forall fo, ownership_key fo <> ownership_key ownership ->
                 (In fo (task_file_ownership db')
                  <-> In fo (task_file_ownership Scenario.shared_pattern)))
  /\ (List.NoDup (map ownership_key (task_file_ownership Scenario.shared_pattern)) ->
      List.NoDup (map ownership_key (task_file_ownership db')))
  /\ tasks db' = tasks Scenario.shared_pattern.
Proof.
  apply (addFileOwnership_spec Scenario.shared_pattern
           (TaskFileOwnership.mk "t2" "src/db/**" exclusive)).
  simpl. tauto.
Defined.

Lemma insert_by_sorted {A} (R : A -> A -> Prop) (le : A -> A -> bool) :
  (forall a b, le a b = true -> R a b) ->
  (forall a b, le a b = false -> R b a) ->
  (forall a b c, R a b -> R b c -> R a c) ->
  forall x l, StronglySorted R l -> StronglySorted R (insert_by le x l).
Proof.
  intros Hle Hgt Htrans x l. induction l as [|y l IH]; intros Hs.
  - simpl. constructor; [constructor|constructor].
  - inversion Hs as [|? ? Hl Hy]; subst. simpl. destruct (le x y) eqn:E.
    + constructor; [assumption|]. constructor; [apply Hle; assumption|].
      apply List.Forall_forall. intros z Hz. apply (Htrans _ y); [apply Hle; assumption|].
      exact (proj1 (List.Forall_forall _ _) Hy z Hz).
    + constructor; [apply IH; assumption|].
      apply List.Forall_forall. intros z Hz.
      apply (Permutation_in _ (insert_by_perm le x l)) in Hz.
      destruct Hz as [<-|Hz]; [apply Hgt; assumption|].
      exact (proj1 (List.Forall_forall _ _) Hy z Hz).
Qed.

Lemma sort_by_sorted {A} (R : A -> A -> Prop) (le : A -> A -> bool) :
  (forall a b, le a b = true -> R a b) ->
  (forall a b, le a b = false -> R b a) ->
  (forall a b c, R a b -> R b c -> R a c) ->
  forall l, StronglySorted R (sort_by le l).
Proof.
  intros Hle Hgt Htrans l. induction l as [|x l IH]; [constructor|].
  simpl. apply insert_by_sorted; assumption.
Qed.

(** X11.  The store's [listTasks] returns exactly the rows that pass the
    filters, in ascending order of [sequence]; an empty group id and an
    empty status array are no filter at all. *)
Theorem listTasks_sorted_filtered (db : DB) (group_id : option string)
    (status : option (list TaskStatus)) :
  (forall t,
     In t (Queries.listTasks db group_id status)
     <-> In t (tasks db)
         /\ (forall g, group_id = Some g -> g <> EmptyString -> Task.group_id t = g)
         /\ (forall s ss, status = Some (s :: ss) -> In (Task.status t) (s :: ss)))
  /\ StronglySorted (fun a b => Task.sequence a <= Task.sequence b)
       (Queries.listTasks db group_id status)
  /\ Queries.listTasks db (Some EmptyString) status = Queries.listTasks db None status
  /\ Queries.listTasks db group_id (Some []) = Queries.listTasks db group_id None.
Proof.
  split; [|split; [|split; reflexivity]].
  - intros t. unfold Queries.listTasks. cbv zeta. rewrite sort_by_In, filter_In.
    rewrite andb_true_iff.
    assert (Hg : (if truthy_string group_id
                  then String.eqb (Task.group_id t) (nullish group_id EmptyString)
                  else true) = true
                 <-> forall g, group_id = Some g -> g <> EmptyString -> Task.group_id t = g).
    { destruct group_id as [g|]; cbn [truthy_string nullish].
      - destruct (String.eqb_spec g EmptyString) as [->|Hne]; cbn [negb].
        + split; [intros _ g [= <-] H; contradiction|reflexivity].
        + rewrite String.eqb_eq. split; [intros H g' [= <-] _; exact H|].
          intros H. apply (H g); [reflexivity|assumption].
      - split; [intros _ g [=]|reflexivity]. }
    assert (Hs : match status with
                 | Some (s :: ss) =>
                     existsb (fun x => bool_decide (Task.status t = x)) (s :: ss)
                 | _ => true
                 end = true
                 <-> forall s ss, status = Some (s :: ss) -> In (Task.status t) (s :: ss)).
    { destruct status as [[|s ss]|].
      - split; [intros _ s ss [=]|reflexivity].
      - rewrite existsb_exists. split.
        + intros (x & Hx & E) s' ss' [= <- <-]. apply bool_decide_eq_true in E.
          rewrite E. assumption.
        + intros H. exists (Task.status t). split; [apply (H s ss); reflexivity|].
          apply bool_decide_eq_true. reflexivity.
      - split; [intros _ s ss [=]|reflexivity]. }
    rewrite Hg, Hs. tauto.
  - unfold Queries.listTasks. cbv zeta. apply sort_by_sorted.
    + intros a b H. apply Z.leb_le. exact H.
    + intros a b H. unfold Queries.by_sequence in H. apply Z.leb_gt in H. lia.
    + intros a b c. lia.
Qed.

Lemma map_touch_absent (ts : list Task.t) id (f : Task.t -> Task.t) :
  (forall t, In t ts -> Task.id t <> id) -> map (touch id f) ts = ts.
Proof.
  intros H. induction ts as [|t ts IH]; [reflexivity|].
  simpl. rewrite IH by (intros x Hx; apply H; right; assumption).
  unfold touch. specialize (H t (or_introl eq_refl)). apply String.eqb_neq in H.
  rewrite H. reflexivity.
Qed.

Lemma set_tasks_same db : Queries.set_tasks db (tasks db) = db.
Proof. destruct db; reflexivity. Qed.

(** X12.  [updateTask] writes one row: the value it returns is the row as
    [getTask] reads it afterwards; every other row, the order of the rows
    and the other four tables are untouched; the columns it cannot name
    ([id], [group_id], [sequence], [title], [description], [priority],
    [created_at]) keep their values; and with an id that is not a task, or
    with no field to write, the store is left as it was. *)
Theorem updateTask_frame (db : DB) (id : string) (updates : TaskUpdates.t) :
  let db' := fst (Queries.updateTask db id updates) in
  snd (Queries.updateTask db id updates) = Queries.getTask db' id
  /\ (forall other, other <> id -> Queries.getTask db' other = Queries.getTask db other)
  /\ (forall t, Queries.getTask db id = Some t ->
        exists t', Queries.getTask db' id = Some t'
          /\ Task.id t' = Task.id t /\ Task.group_id t' = Task.group_id t
          /\ Task.sequence t' = Task.sequence t /\ Task.title t' = Task.title t
          /\ Task.description t' = Task.description t
          /\ Task.priority t' = Task.priority t
          /\ Task.created_at t' = Task.created_at t)
  /\ map Task.id (tasks db') = map Task.id (tasks db)
  /\ (Queries.getTask db id = None -> db' = db)
  /\ (Queries.no_keys updates = true -> db' = db)
  /\ task_groups db' = task_groups db
  /\ task_dependencies db' = task_dependencies db
  /\ task_file_ownership db' = task_file_ownership db
  /\ progress_logs db' = progress_logs db.
Proof.
  cbv zeta. split; [apply updateTask_result|]. split.
  { intros other Hne. rewrite updateTask_getTask.
    destruct (Queries.getTask db other) as [t|] eqn:E; [|reflexivity].
    apply getTask_Some in E. destruct E as [E _]. cbn [option_map].
    rewrite E. apply String.eqb_neq in Hne. rewrite Hne. reflexivity. }
  split.
  { intros t Ht. rewrite (row_after_update _ _ _ _ _ Ht), String.eqb_refl.
    eexists. split; [reflexivity|]. repeat split. }
  split; [apply ids_after_update|]. split.
  { intros Hnone. unfold Queries.updateTask. destruct (Queries.no_keys updates); [reflexivity|].
    cbn [fst]. fold (touch id (Queries.apply_updates updates)).
    rewrite map_touch_absent; [apply set_tasks_same|].
    apply getTask_None. assumption. }
  split.
  { intros Hk. unfold Queries.updateTask. rewrite Hk. reflexivity. }
  apply updateTask_other_tables.
Qed.

(* ===================================================================== *)
(** * What the service never writes *)
(* ===================================================================== *)

(** The columns of a task no request can change. *)
Definition fixed_columns (t : Task.t)
    : string * string * Z * string * string * TaskPriority * string :=
  (Task.id t, Task.group_id t, Task.sequence t, Task.title t,
   Task.description t, Task.priority t, Task.created_at t).

(** [db'] is [db] with task rows rewritten in their mutable columns and
    at most [k] progress logs appended. *)
Record keeps_store (k : nat) (db db' : DB) : Prop := {
  keeps_rows : map fixed_columns (tasks db') = map fixed_columns (tasks db);
  keeps_groups : task_groups db' = task_groups db;
  keeps_dependencies : task_dependencies db' = task_dependencies db;
  keeps_ownership : task_file_ownership db' = task_file_ownership db;
  keeps_logs : exists l, progress_logs db' = progress_logs db ++ l /\ (length l <= k)%nat
}.

Lemma keeps_refl k db : keeps_store k db db.
Proof.
  split; try reflexivity. exists []. rewrite app_nil_r. split; [reflexivity|simpl; lia].
Qed.

Lemma keeps_trans a b db db1 db2 :
  keeps_store a db db1 -> keeps_store b db1 db2 -> keeps_store (a + b) db db2.
Proof.
  intros [H1 H2 H3 H4 (l1 & E1 & L1)] [G1 G2 G3 G4 (l2 & E2 & L2)]. split.
  - rewrite G1. assumption.
  - rewrite G2. assumption.
  - rewrite G3. assumption.
  - rewrite G4. assumption.
  - exists (l1 ++ l2). rewrite E2, E1, app_assoc, length_app. split; [reflexivity|lia].
Qed.

Lemma keeps_weaken a b db db' : (a <= b)%nat -> keeps_store a db db' -> keeps_store b db db'.
Proof.
  intros Hab [H1 H2 H3 H4 (l & E & L)]. split; try assumption.
  exists l. split; [assumption|lia].
Qed.

Definition quiet {A} (m : M A) : Prop := forall db, keeps_store 0 db (snd (m db)).
Definition logs_once {A} (m : M A) : Prop := forall db, keeps_store 1 db (snd (m db)).

Lemma quiet_ret {A} (a : A) : quiet (ret a).
Proof. intros db. apply keeps_refl. Qed.

Lemma quiet_throw {A} e : quiet (@throw A e).
Proof. intros db. apply keeps_refl. Qed.

Lemma quiet_query {A} (q : DB -> A) : quiet (query q).
Proof. intros db. apply keeps_refl. Qed.

Lemma quiet_call {A} (r : Result A) : quiet (call r).
Proof. intros db. apply keeps_refl. Qed.

Lemma quiet_updateTask id u : quiet (updateTask id u).
Proof.
  intros db. unfold updateTask.
  destruct (Queries.updateTask db id u) as [db' row] eqn:E. cbn [snd].
  replace db' with (fst (Queries.updateTask db id u)) by (rewrite E; reflexivity).
  destruct (updateTask_other_tables db id u) as (H1 & H2 & H3 & H4).
  split; try assumption.
  - rewrite updateTask_tasks, map_map. apply map_ext. intros t. unfold touch.
    destruct (String.eqb (Task.id t) id); reflexivity.
  - exists []. rewrite app_nil_r. split; [assumption|simpl; lia].
Qed.

Lemma bind_keeps {A B} a b (m : M A) (f : A -> M B) db :
  keeps_store a db (snd (m db)) ->
  (forall x db1, keeps_store b db1 (snd (f x db1))) ->
  keeps_store (a + b) db (snd (bind m f db)).
Proof.
  intros Hm Hf. unfold bind. destruct (m db) as [[x|e] db1]; cbn [snd] in *.
  - eapply keeps_trans; [exact Hm|apply Hf].
  - eapply keeps_weaken; [|exact Hm]. lia.
Qed.

Lemma quiet_bind {A B} (m : M A) (f : A -> M B) :
  quiet m -> (forall x, quiet (f x)) -> quiet (bind m f).
Proof. intros Hm Hf db. apply (bind_keeps 0 0); [apply Hm|intros x db1; apply Hf]. Qed.

Lemma once_bind_quiet {A B} (m : M A) (f : A -> M B) :
  quiet m -> (forall x, logs_once (f x)) -> logs_once (bind m f).
Proof. intros Hm Hf db. apply (bind_keeps 0 1); [apply Hm|intros x db1; apply Hf]. Qed.

Lemma once_bind_log {A B} (m : M A) (f : A -> M B) :
  logs_once m -> (forall x, quiet (f x)) -> logs_once (bind m f).
Proof. intros Hm Hf db. apply (bind_keeps 1 0); [apply Hm|intros x db1; apply Hf]. Qed.

Lemma once_quiet {A} (m : M A) : quiet m -> logs_once m.
Proof. intros H db. eapply keeps_weaken; [|apply H]. lia. Qed.

Lemma once_addProgressLog log now : logs_once (addProgressLog log now).
Proof.
  intros db. unfold addProgressLog, Queries.addProgressLog.
  destruct (existsb _ (progress_logs db)); [apply keeps_refl|].
  destruct (negb _); [apply keeps_refl|]. cbn [snd].
  split; try reflexivity. eexists. split; [reflexivity|simpl; lia].
Qed.

Lemma quiet_unblock allGroupTasks ids : quiet (TaskService.unblock allGroupTasks ids).
Proof.
  induction ids as [|i rest IH]; cbn [TaskService.unblock]; [apply quiet_ret|].
  destruct (TaskService.find_task allGroupTasks i); [|exact IH].
  destruct (bool_decide _); [|exact IH].
  apply quiet_bind; [apply quiet_updateTask|intros _; exact IH].
Qed.

Ltac quiet_tac :=
  repeat first
    [ apply quiet_ret | apply quiet_throw | apply quiet_query | apply quiet_call
    | apply quiet_updateTask | apply quiet_unblock
    | apply quiet_bind; [|intros ?]
    | match goal with
      | |- quiet (if ?b then _ else _) => destruct b
      | |- quiet (match ?x with _ => _ end) => destruct x
      end ].

Ltac once_tac :=
  repeat first
    [ apply once_addProgressLog
    | match goal with
      | |- logs_once (bind (addProgressLog _ _) _) =>
          apply once_bind_log; [apply once_addProgressLog|intros ?; quiet_tac]
      | |- logs_once (bind _ _) => apply once_bind_quiet; [solve [quiet_tac]|intros ?]
      | |- logs_once (if ?b then _ else _) => destruct b
      | |- logs_once (match ?x with _ => _ end) => destruct x
      | |- logs_once (ret _) => apply once_quiet, quiet_ret
      | |- logs_once (throw _) => apply once_quiet, quiet_throw
      end ].

(** X13.  Whatever the request, the git driver and the store, one run of
    a service operation neither adds nor removes a task, leaves the
    columns [id], [group_id], [sequence], [title], [description],
    [priority] and [created_at] of every task as they were, does not touch
    the groups, the dependencies or the file ownerships, keeps every
    progress log already written and appends at most one. *)
Theorem service_keeps_store (git : GitService) (slugify : string -> string)
    (resolve : string -> string -> string -> string)
    (op : Operation) (env : Env) (db : DB) :
  let db' := run git slugify resolve op env db in
  map fixed_columns (tasks db') = map fixed_columns (tasks db)
  /\ task_groups db' = task_groups db
  /\ task_dependencies db' = task_dependencies db
  /\ task_file_ownership db' = task_file_ownership db
  /\ exists l, progress_logs db' = progress_logs db ++ l /\ (length l <= 1)%nat.
Proof.
  cbv zeta.
  enough (H : keeps_store 1 db (run git slugify resolve op env db)).
  { destruct H as [H1 H2 H3 H4 H5]. auto. }
  revert db. destruct op as [input|task_id|input|input|input|input]; cbn [run].
  - change (logs_once (TaskService.claimTask input env)).
    unfold TaskService.claimTask. once_tac.
  - change (logs_once (TaskService.startTask git slugify resolve task_id env)).
    unfold TaskService.startTask. once_tac.
  - change (logs_once (TaskService.updateProgress git input env)).
    unfold TaskService.updateProgress. once_tac.
  - change (logs_once (TaskService.completeTask input env)).
    unfold TaskService.completeTask. once_tac.
  - change (logs_once (TaskService.mergeTask git input env)).
    unfold TaskService.mergeTask. once_tac.
  - change (logs_once (TaskService.cleanupTask git input env)).
    unfold TaskService.cleanupTask. once_tac.
Qed.

(* ===================================================================== *)
(** * The service, operation by operation *)
(* ===================================================================== *)

(** The number of listed rows with a given status. *)
Definition count_status (s : TaskStatus) (ts : list Task.t) : nat :=
  length (List.filter (fun t => bool_decide (Task.status t = s)) ts).

Lemma count_status_total (ts : list Task.t) :
  length ts
  = (count_status pending ts + count_status in_progress ts + count_status in_review ts
     + count_status completed ts + count_status blocked ts
     + count_status assigned ts + count_status failed ts)%nat.
Proof.
  unfold count_status. induction ts as [|t ts IH]; [reflexivity|].
  cbn [List.filter]. destruct (Task.status t);
    repeat match goal with
           | |- context [bool_decide (?a = ?b)] =>
               first [ rewrite (bool_decide_eq_true_2 (a = b)) by reflexivity
                     | rewrite (bool_decide_eq_false_2 (a = b)) by discriminate ]
           end;
    cbn [length]; lia.
Qed.

(** X14.  The service's [listTasks] never throws and never writes; it
    lists the rows of the store query in the same order, each with the
    summaries of its prerequisites; and the five counters of its summary
    leave out the [assigned] and the [failed] tasks, so that they add up to
    [total] only when there is none. *)
Theorem listTasks_summary (group_id : option string)
    (status : option (list TaskStatus)) (db : DB) :
  exists out,
    TaskService.listTasks group_id status db = (Ok out, db)
    /\ map TaskService.listed_task (TaskService.list_tasks out)
       = Queries.listTasks db group_id status
    /\ (forall lt, In lt (TaskService.list_tasks out) ->
          TaskService.listed_dependencies lt
          = map TaskService.summarize
              (Queries.getDependencies db (Task.id (TaskService.listed_task lt))))
    /\ TaskService.total (TaskService.list_summary out)
       = length (TaskService.list_tasks out)
    /\ TaskService.total (TaskService.list_summary out)
       = (TaskService.n_pending (TaskService.list_summary out)
          + TaskService.n_in_progress (TaskService.list_summary out)
          + TaskService.n_in_review (TaskService.list_summary out)
          + TaskService.n_completed (TaskService.list_summary out)
          + TaskService.n_blocked (TaskService.list_summary out)
          + count_status assigned (Queries.listTasks db group_id status)
          + count_status failed (Queries.listTasks db group_id status))%nat.
Proof.
  unfold TaskService.listTasks. rewrite !bind_query. unfold ret.
  eexists. split; [reflexivity|].
  cbn [TaskService.list_tasks TaskService.list_summary TaskService.total
       TaskService.n_pending TaskService.n_in_progress TaskService.n_in_review
       TaskService.n_completed TaskService.n_blocked].
  split.
  { rewrite map_map. cbn [TaskService.listed_task]. apply map_id. }
  split.
  { intros lt Hlt. apply in_map_iff in Hlt. destruct Hlt as (t & <- & _). reflexivity. }
  split; [rewrite length_map; reflexivity|].
  apply count_status_total.
Qed.

(** The ways [mergeTask] turns a request down before it writes. *)
Definition merge_rejected (git : GitService) (db : DB)
    (input : TaskService.MergeTaskInput) : Prop :=
  (exists e, getCurrentBranch git = Throw e)
  \/ (exists branch, getCurrentBranch git = Ok branch
                     /\ branch <> "main" /\ branch <> "master")
  \/ Queries.getTask db (TaskService.merge_task_id input) = None
  \/ (exists task,
        Queries.getTask db (TaskService.merge_task_id input) = Some task
        /\ (Task.status task <> in_review
            \/ Task.branch_name task = None
            \/ Task.branch_name task = Some EmptyString
            \/ exists e,
                 mergeBranch git (nullish (Task.branch_name task) EmptyString)
                   (nullish (TaskService.merge_strategy input) strategy_squash)
                 = Throw e)).

(** X15.  [mergeTask] throws, and leaves the whole store as it was, when
    the current branch cannot be read or is neither main nor master, when
    the task does not exist, is not [in_review] or has no branch, and when
    the merge itself fails for another reason than conflicts. *)
Theorem mergeTask_rejected (git : GitService) (input : TaskService.MergeTaskInput)
    (env : Env) (db : DB) :
  merge_rejected git db input ->
  exists e, TaskService.mergeTask git input env db = (Throw e, db).
Proof.
  unfold TaskService.mergeTask, isOnMainBranch. rewrite bind_call.
  intros [[e He]|H].
  { rewrite He. eexists. reflexivity. }
  destruct (getCurrentBranch git) as [branch|e] eqn:Hb; [|eexists; reflexivity].
  destruct (String.eqb_spec branch "main") as [Em|Em];
    destruct (String.eqb_spec branch "master") as [Es|Es]; cbn [orb negb].
  4:{ unfold bind at 1 2. unfold call, throw.
      eexists. reflexivity. }
  all: rewrite bind_ret, bind_query;
    destruct H as [(b & [= <-] & Hm & Hs)|H]; [contradiction|];
    destruct H as [Hnone|(task & Hget & H)];
      [rewrite Hnone; eexists; reflexivity|];
    rewrite Hget;
    destruct (bool_decide (Task.status task = in_review)) eqn:Hst; cbn [negb];
      [|eexists; reflexivity];
    apply bool_decide_eq_true in Hst;
    destruct H as [H|[H|[H|(e & H)]]];
      [contradiction
      |rewrite H; eexists; reflexivity
      |rewrite H; eexists; reflexivity
      |];
    destruct (truthy_string (Task.branch_name task)); cbn [negb];
      [|eexists; reflexivity];
    rewrite bind_call, H; eexists; reflexivity.
Qed.

Lemma mergeTask_rejected_witness :
  exists e,
    TaskService.mergeTask (Scenario.git_on "feature/login")
      {| TaskService.merge_task_id := "t1"; TaskService.merge_strategy := None |}
      Scenario.env Scenario.review_fan
    = (Throw e, Scenario.review_fan).
Proof.
  apply mergeTask_rejected. right. left. exists "feature/login".
  split; [reflexivity|]. split; discriminate.
Defined.

(** A log written after one row update. *)
Lemma log_after_update db id u log now :
  ~ In (NewProgressLog.id log) (map ProgressLogRow.id (progress_logs db)) ->
  In (NewProgressLog.task_id log) (map Task.id (tasks db)) ->
  truthy (NewProgressLog.metadata log) = true ->
  json_data (NewProgressLog.metadata log) = true ->
  Queries.addProgressLog (fst (Queries.updateTask db id u)) log now
  = (Ok (log_entry log now),
     append_log (fst (Queries.updateTask db id u)) (log_row log now)).
Proof.
  intros Hfresh Htask Ht Hj. apply addProgressLog_json; try assumption.
  - destruct (updateTask_other_tables db id u) as (_ & _ & _ & ->). assumption.
  - rewrite ids_after_update. assumption.
Qed.

Lemma getTask_append_log db row x :
  Queries.getTask (append_log db row) x = Queries.getTask db x.
Proof. reflexivity. Qed.

Lemma getTask_In_ids db x t :
  Queries.getTask db x = Some t -> In (Task.id t) (map Task.id (tasks db)).
Proof. intros H. apply getTask_Some in H. apply in_map. tauto. Qed.

(** X16.  When the merge stops on conflicts, [mergeTask] returns
    [success = false] with one conflict entry per file and no unlocked
    task; every task row is as before (the task stays [in_review]) and one
    [conflict_detected] log is written for the task. *)
Theorem mergeTask_conflict (git : GitService) (input : TaskService.MergeTaskInput)
    (env : Env) (db : DB) (task : Task.t) (files : list string) :
  isOnMainBranch git = Ok true ->
  Queries.getTask db (TaskService.merge_task_id input) = Some task ->
  Task.status task = in_review ->
  truthy_string (Task.branch_name task) = true ->
  mergeBranch git (nullish (Task.branch_name task) EmptyString)
    (nullish (TaskService.merge_strategy input) strategy_squash)
  = Ok {| merge_success := false; merge_conflicts := files |} ->
  ~ In (uuid_log env) (map ProgressLogRow.id (progress_logs db)) ->
  exists out db' row,
    TaskService.mergeTask git input env db = (Ok out, db')
    /\ TaskService.merge_ok out = false
    /\ TaskService.merge_result out = "conflict"
    /\ TaskService.merge_unlocked_tasks out = []
    /\ option_map (map TaskService.mc_file) (TaskService.merge_conflict_list out)
       = Some files
    /\ tasks db' = tasks db
    /\ progress_logs db' = progress_logs db ++ [row]
    /\ ProgressLogRow.task_id row = Task.id task
    /\ ProgressLogRow.event row = ConflictDetected.
Proof.
  intros Hmain Hget Hst Hbranch Hmerge Hfresh.
  unfold TaskService.mergeTask. rewrite bind_call, Hmain. cbn [negb].
  rewrite bind_ret, bind_query, Hget, (bool_decide_eq_true_2 _ Hst), Hbranch.
  cbn [negb]. rewrite bind_call, Hmerge. cbn [merge_success merge_conflicts].
  rewrite bind_addProgressLog, addProgressLog_json; cycle 1.
  { assumption. }
  { cbn [NewProgressLog.task_id]. eapply getTask_In_ids. eassumption. }
  { reflexivity. }
  { cbn [NewProgressLog.metadata json_data forallb snd]. rewrite !andb_true_r.
    apply json_data_map. reflexivity. }
  cbv iota beta. unfold ret. eexists. eexists. eexists.
  split; [reflexivity|]. split; [reflexivity|]. split; [reflexivity|].
  split; [reflexivity|]. split.
  { cbn [TaskService.merge_conflict_list option_map]. rewrite map_map.
    cbn [TaskService.mc_file]. rewrite map_id. reflexivity. }
  split; [reflexivity|]. split; [reflexivity|]. split; reflexivity.
Qed.

Lemma mergeTask_conflict_witness :
  exists out db' row,
    TaskService.mergeTask (Scenario.git_conflicts ["src/db/schema.ts"])
      {| TaskService.merge_task_id := "t1"; TaskService.merge_strategy := None |}
      Scenario.env Scenario.review_fan = (Ok out, db')
    /\ TaskService.merge_ok out = false
    /\ TaskService.merge_result out = "conflict"
    /\ TaskService.merge_unlocked_tasks out = []
    /\ option_map (map TaskService.mc_file) (TaskService.merge_conflict_list out)
       = Some ["src/db/schema.ts"]
    /\ tasks db' = tasks Scenario.review_fan
    /\ progress_logs db' = progress_logs Scenario.review_fan ++ [row]
    /\ ProgressLogRow.task_id row = "t1"
    /\ ProgressLogRow.event row = ConflictDetected.
Proof.
  apply (mergeTask_conflict (Scenario.git_conflicts ["src/db/schema.ts"])
           {| TaskService.merge_task_id := "t1"; TaskService.merge_strategy := None |}
           Scenario.env Scenario.review_fan
           (Scenario.started "t1" 1 "schema" in_review 100) ["src/db/schema.ts"]);
    try reflexivity.
  simpl. tauto.
Defined.

(** What the two best-effort steps of [cleanupTask] report. *)
Definition worktree_cleaned (git : GitService) (task : Task.t) : bool :=
  truthy_string (Task.worktree_path task)
  && worktreeExists git (nullish (Task.worktree_path task) EmptyString)
  && match removeWorktree git (nullish (Task.worktree_path task) EmptyString) with
     | Ok _ => true
     | Throw _ => false
     end.

Definition branch_cleaned (git : GitService) (task : Task.t) : bool :=
  truthy_string (Task.branch_name task)
  && match deleteBranch git (nullish (Task.branch_name task) EmptyString) with
     | Ok _ => true
     | Throw _ => false
     end.

Lemma cleanup_metadata_reads (reason : option string) (a b : bool) :
  Queries.read_metadata
    (Json.stringify
       (JObj [("reason", match reason with Some r => JStr r | None => JUndefined end);
              ("worktree_removed", JBool a); ("branch_removed", JBool b)]))
  = Ok (JObj (match reason with Some r => [("reason", JStr r)] | None => [] end
              ++ [("worktree_removed", JBool a); ("branch_removed", JBool b)])).
Proof.
  destruct reason as [r|].
  - apply (read_metadata_stringify
             (JObj [("reason", JStr r); ("worktree_removed", JBool a);
                    ("branch_removed", JBool b)])); reflexivity.
  - destruct a, b; vm_compute; reflexivity.
Qed.

Lemma addProgressLog_row db log now :
  ~ In (NewProgressLog.id log) (map ProgressLogRow.id (progress_logs db)) ->
  In (NewProgressLog.task_id log) (map Task.id (tasks db)) ->
  Queries.addProgressLog db log now
  = (Queries.read_row (log_row log now), append_log db (log_row log now)).
Proof.
  intros Hfresh Hfk. unfold Queries.addProgressLog.
  destruct (existsb _ (progress_logs db)) eqn:E1.
  { apply existsb_id_In in E1. contradiction. }
  destruct (existsb _ (tasks db)) eqn:E2; [reflexivity|].
  exfalso. apply (existsb_id_In Task.id) in Hfk. congruence.
Qed.

Lemma worktree_flag (git : GitService) (task : Task.t) :
  (if truthy_string (Task.worktree_path task)
   then if worktreeExists git (nullish (Task.worktree_path task) EmptyString)
        then try_catch
               (match removeWorktree git (nullish (Task.worktree_path task) EmptyString) with
                | Ok _ => Ok true
                | Throw e => Throw e
                end) false
        else false
   else false)
  = worktree_cleaned git task.
Proof.
  unfold worktree_cleaned, try_catch.
  destruct (truthy_string _); [|reflexivity].
  destruct (worktreeExists git _); [|reflexivity].
  destruct (removeWorktree git _); reflexivity.
Qed.

Lemma branch_flag (git : GitService) (task : Task.t) :
  (if truthy_string (Task.branch_name task)
   then try_catch
          (match deleteBranch git (nullish (Task.branch_name task) EmptyString) with
           | Ok _ => Ok true
           | Throw e => Throw e
           end) false
   else false)
  = branch_cleaned git task.
Proof.
  unfold branch_cleaned, try_catch.
  destruct (truthy_string _); [|reflexivity].
  destruct (deleteBranch git _); reflexivity.
Qed.

(** X17.  [cleanupTask] on a task that exists never fails on account of
    git: whatever the driver answers, it returns [success = true], sets
    the status to [failed] and leaves every other column, [branch_name]
    and [worktree_path] included, and every other task as they were.  Its
    two flags say whether the worktree was found and removed and whether
    the branch was deleted.  The log it writes has no [reason] property
    when no reason was given. *)
Theorem cleanupTask_best_effort (git : GitService)
    (input : TaskService.CleanupTaskInput) (env : Env) (db : DB) (task : Task.t) :
  Queries.getTask db (TaskService.cleanup_task_id input) = Some task ->
  ~ In (uuid_log env) (map ProgressLogRow.id (progress_logs db)) ->
  exists out db' row,
    TaskService.cleanupTask git input env db = (Ok out, db')
    /\ TaskService.cleanup_success out = true
    /\ TaskService.worktree_removed out = worktree_cleaned git task
    /\ TaskService.branch_removed out = branch_cleaned git task
    /\ Queries.getTask db' (TaskService.cleanup_task_id input)
       = Some (Queries.apply_updates
                 (TaskUpdates.mk (Some failed) None None None None None None None None)
                 task)
    /\ (forall other, other <> TaskService.cleanup_task_id input ->
                      Queries.getTask db' other = Queries.getTask db other)
    /\ progress_logs db' = progress_logs db ++ [row]
    /\ ProgressLogRow.event row = Failed
    /\ Queries.read_metadata (ProgressLogRow.metadata row)
       = Ok (JObj (match TaskService.cleanup_reason input with
                   | Some r => [("reason", JStr r)]
                   | None => []
                   end
                   ++ [("worktree_removed", JBool (worktree_cleaned git task));
                       ("branch_removed", JBool (branch_cleaned git task))])).
Proof.
  intros Hget Hfresh. destruct (getTask_Some _ _ _ Hget) as [Hid Hin].
  unfold TaskService.cleanupTask. rewrite bind_query, Hget. cbv zeta.
  rewrite worktree_flag, branch_flag.
  rewrite bind_updateTask, bind_addProgressLog.
  set (u := TaskUpdates.mk (Some failed) None None None None None None None None).
  rewrite addProgressLog_row; cycle 1.
  { destruct (updateTask_other_tables db (Task.id task) u) as (_ & _ & _ & ->).
    assumption. }
  { cbn [NewProgressLog.task_id]. rewrite ids_after_update. apply in_map. assumption. }
  match goal with
  | |- context [Queries.read_row (log_row ?l ?n)] => set (row := log_row l n)
  end.
  assert (Hread : Queries.read_metadata (ProgressLogRow.metadata row)
                  = Ok (JObj (match TaskService.cleanup_reason input with
                              | Some r => [("reason", JStr r)]
                              | None => []
                              end
                              ++ [("worktree_removed", JBool (worktree_cleaned git task));
                                  ("branch_removed", JBool (branch_cleaned git task))]))).
  { apply cleanup_metadata_reads. }
  unfold Queries.read_row. rewrite Hread. cbv iota beta. unfold ret.
  eexists. eexists. exists row.
  split; [reflexivity|]. split; [reflexivity|]. split; [reflexivity|].
  split; [reflexivity|]. rewrite !getTask_append_log. split.
  { rewrite <- Hid. rewrite (row_after_update db (Task.id task) u (Task.id task) task)
      by (rewrite Hid; exact Hget).
    rewrite String.eqb_refl. reflexivity. }
  split.
  { intros other Hne. rewrite getTask_append_log, updateTask_getTask.
    destruct (Queries.getTask db other) as [t|] eqn:E; [|reflexivity].
    apply getTask_Some in E. destruct E as [E _]. cbn [option_map].
    rewrite E, Hid. apply String.eqb_neq in Hne. rewrite Hne. reflexivity. }
  split.
  { cbn [append_log progress_logs].
    destruct (updateTask_other_tables db (Task.id task) u) as (_ & _ & _ & ->).
    reflexivity. }
  split; [reflexivity|exact Hread].
Qed.

Lemma cleanupTask_best_effort_witness :
  exists out db' row,
    TaskService.cleanupTask Scenario.git_broken
      {| TaskService.cleanup_task_id := "t4"; TaskService.cleanup_reason := None |}
      Scenario.env Scenario.review_fan = (Ok out, db')
    /\ TaskService.cleanup_success out = true
    /\ TaskService.worktree_removed out = false
    /\ TaskService.branch_removed out = false
    /\ option_map Task.status (Queries.getTask db' "t4") = Some failed
    /\ option_map Task.branch_name (Queries.getTask db' "t4")
       = Some (Some "task/task-4-auth")
    /\ Queries.read_metadata (ProgressLogRow.metadata row)
       = Ok (JObj [("worktree_removed", JBool false); ("branch_removed", JBool false)]).
Proof.
  destruct (cleanupTask_best_effort Scenario.git_broken
              {| TaskService.cleanup_task_id := "t4"; TaskService.cleanup_reason := None |}
              Scenario.env Scenario.review_fan
              (Scenario.started "t4" 4 "auth" in_progress 30) eq_refl)
    as (out & db' & row & Hrun & Hok & Hw & Hb & Hrow & _ & _ & _ & Hmeta).
  { simpl. tauto. }
  exists out, db', row. split; [exact Hrun|]. split; [exact Hok|].
  split; [exact Hw|]. split; [exact Hb|].
  change (TaskService.cleanup_task_id _) with "t4" in Hrow. rewrite Hrow.
  split; [reflexivity|]. split; [reflexivity|exact Hmeta].
Defined.

Lemma listTasks_touch_status (db db' : DB) (f : Task.t -> Task.t) g st :
  keeps_keys f -> (forall t, Task.status (f t) = Task.status t) ->
  tasks db' = map f (tasks db) ->
  Queries.listTasks db' g st = map f (Queries.listTasks db g st).
Proof.
  intros Hf Hs Htasks. unfold Queries.listTasks. rewrite Htasks.
  rewrite <- sort_by_map by (apply by_sequence_keeps; assumption). f_equal.
  apply filter_map_comm. intros t. destruct (Hf t) as (_ & -> & _). rewrite Hs.
  reflexivity.
Qed.

Lemma filter_others_touch id (f : Task.t -> Task.t) (l : list Task.t) :
  (forall t, Task.id (f t) = Task.id t) ->
  List.filter (fun t => negb (String.eqb (Task.id t) id)) (map (touch id f) l)
  = List.filter (fun t => negb (String.eqb (Task.id t) id)) l.
Proof.
  intros Hf. induction l as [|t l IH]; [reflexivity|].
  cbn [map List.filter]. unfold touch at 1 2.
  destruct (String.eqb (Task.id t) id) eqn:E.
  - rewrite Hf, E. cbn [negb]. exact IH.
  - rewrite E. cbn [negb]. rewrite IH. reflexivity.
Qed.

(** The in-progress tasks of the group of [task], [task] itself left out,
    each with its file ownerships: what [updateProgress] checks the changed
    files against. *)
Definition other_tasks_in_progress (db : DB) (task : Task.t)
    : list (Task.t * list TaskFileOwnership.t) :=
  map (fun t => (t, Queries.getFileOwnership db (Task.id t)))
    (List.filter (fun t => negb (String.eqb (Task.id t) (Task.id task)))
       (Queries.listTasks db (Some (Task.group_id task)) (Some [in_progress]))).

(** X18.  [updateProgress] on a task that exists returns [success = true]
    whatever its status and whatever git answers; it writes [progress] and
    [progress_note] of that row and nothing else in the task table.  Its
    warnings are those of [checkFileConflicts] for the changed files
    against the other in-progress tasks of the group, none when no file is
    given; a rebase is recommended only for a task that has a branch, when
    git reports new commits, and never when git fails. *)
Theorem updateProgress_spec (git : GitService)
    (input : TaskService.UpdateProgressInput) (env : Env) (db : DB) (task : Task.t) :
  Queries.getTask db (TaskService.up_task_id input) = Some task ->
  ~ In (uuid_log env) (map ProgressLogRow.id (progress_logs db)) ->
  exists out db',
    TaskService.updateProgress git input env db = (Ok out, db')
    /\ TaskService.up_success out = true
    /\ Queries.getTask db' (TaskService.up_task_id input)
       = Some (Queries.apply_updates
                 (TaskUpdates.mk None None None None
                    (Some (TaskService.up_progress input))
                    (Some (Some (TaskService.up_note input))) None None None)
                 task)
    /\ (forall other, other <> TaskService.up_task_id input ->
                      Queries.getTask db' other = Queries.getTask db other)
    /\ TaskService.conflict_warnings out
       = Conflict.checkFileConflicts
           (nullish (TaskService.up_files_changed input) [])
           (other_tasks_in_progress db task)
    /\ (nullish (TaskService.up_files_changed input) [] = [] ->
        TaskService.conflict_warnings out = [])
    /\ TaskService.rebase_recommended out
       = (truthy_string (Task.branch_name task)
          && match getLatestCommit git "HEAD" with
             | Ok mainCommit => hasNewCommitsSince git mainCommit
             | Throw _ => false
             end).
Proof.
  intros Hget Hfresh. destruct (getTask_Some _ _ _ Hget) as [Hid Hin].
  unfold TaskService.updateProgress. rewrite bind_query, Hget.
  rewrite bind_updateTask, bind_query.
  set (u := TaskUpdates.mk None None None None (Some (TaskService.up_progress input))
              (Some (Some (TaskService.up_note input))) None None None).
  set (db1 := fst (Queries.updateTask db (Task.id task) u)).
  assert (Hwarn :
    match TaskService.up_files_changed input with
    | Some (f :: fs) =>
        Conflict.checkFileConflicts (f :: fs)
          (map (fun t => (t, Queries.getFileOwnership db1 (Task.id t)))
             (List.filter (fun t => negb (String.eqb (Task.id t) (Task.id task)))
                (Queries.listTasks db1 (Some (Task.group_id task)) (Some [in_progress]))))
    | _ => []
    end
    = Conflict.checkFileConflicts (nullish (TaskService.up_files_changed input) [])
        (other_tasks_in_progress db task)).
  { destruct (TaskService.up_files_changed input) as [[|f fs]|]; try reflexivity.
    cbn [nullish]. unfold other_tasks_in_progress. f_equal.
    rewrite (listTasks_touch_status db db1 (touch (Task.id task) (Queries.apply_updates u))).
    - rewrite filter_others_touch by (intros t; reflexivity).
      apply map_ext. intros t. unfold Queries.getFileOwnership, db1.
      destruct (updateTask_other_tables db (Task.id task) u) as (_ & _ & -> & _).
      reflexivity.
    - apply touch_keeps, apply_updates_keeps.
    - intros t. unfold touch. destruct (String.eqb _ _); reflexivity.
    - apply updateTask_tasks. }
  rewrite Hwarn. cbv zeta.
  rewrite bind_addProgressLog, addProgressLog_json; cycle 1.
  { unfold db1. destruct (updateTask_other_tables db (Task.id task) u) as (_ & _ & _ & ->).
    assumption. }
  { cbn [NewProgressLog.task_id]. unfold db1. rewrite ids_after_update.
    apply in_map. assumption. }
  { reflexivity. }
  { cbn [NewProgressLog.metadata json_data forallb snd andb]. rewrite !andb_true_r.
    apply andb_true_iff. split; apply json_data_map; reflexivity. }
  cbv iota beta. unfold ret. eexists. eexists.
  split; [reflexivity|]. split; [reflexivity|].
  rewrite getTask_append_log. split.
  { unfold db1. rewrite <- Hid.
    rewrite (row_after_update db (Task.id task) u (Task.id task) task)
      by (rewrite Hid; exact Hget).
    rewrite String.eqb_refl. reflexivity. }
  split.
  { intros other Hne. rewrite getTask_append_log. unfold db1.
    rewrite updateTask_getTask.
    destruct (Queries.getTask db other) as [t|] eqn:E; [|reflexivity].
    apply getTask_Some in E. destruct E as [E _]. cbn [option_map].
    rewrite E, Hid. apply String.eqb_neq in Hne. rewrite Hne. reflexivity. }
  split; [reflexivity|]. split.
  { cbn [TaskService.conflict_warnings]. intros ->. reflexivity. }
  cbn [TaskService.rebase_recommended]. unfold try_catch.
  destruct (truthy_string (Task.branch_name task)); [|reflexivity].
  destruct (getLatestCommit git "HEAD"); reflexivity.
Qed.

Lemma updateProgress_spec_witness :
  exists out db',
    TaskService.updateProgress Scenario.git_broken
      {| TaskService.up_task_id := "t1"; TaskService.up_progress := 60;
         TaskService.up_note := "login form";
         TaskService.up_files_changed := Some ["src/auth/login.ts"] |}
      Scenario.env Scenario.review_fan = (Ok out, db')
    /\ TaskService.up_success out = true
    /\ option_map Task.progress (Queries.getTask db' "t1") = Some 60
    /\ option_map Task.status (Queries.getTask db' "t1") = Some in_review
    /\ length (TaskService.conflict_warnings out) = 1%nat
    /\ TaskService.rebase_recommended out = false.
Proof.
  destruct (updateProgress_spec Scenario.git_broken
              {| TaskService.up_task_id := "t1"; TaskService.up_progress := 60;
                 TaskService.up_note := "login form";
                 TaskService.up_files_changed := Some ["src/auth/login.ts"] |}
              Scenario.env Scenario.review_fan
              (Scenario.started "t1" 1 "schema" in_review 100) eq_refl)
    as (out & db' & Hrun & Hok & Hrow & _ & Hwarn & _ & Hrebase).
  { simpl. tauto. }
  exists out, db'. split; [exact Hrun|]. split; [exact Hok|].
  change (TaskService.up_task_id _) with "t1" in Hrow. rewrite Hrow.
  split; [reflexivity|]. split; [reflexivity|].
  rewrite Hwarn, Hrebase. split; reflexivity.
Defined.

Lemma length_substring (n : nat) (s : string) :
  (String.length (String.substring 0 n s) <= n)%nat.
Proof.
  revert s. induction n as [|n IH]; intros [|a s]; cbn [String.substring String.length];
    try lia.
  specialize (IH s). lia.
Qed.

(** X19.  [startTask] on an [assigned] task, when git creates the
    worktree, returns [success = true] and moves the task to
    [in_progress] with [branch_name] "task/task-N-slug", [worktree_path]
    the resolved ".worktrees/task-N-slug" and [started_at] the current
    time, where N is the sequence number and slug at most the first 30
    characters of the slugified title; every other task is untouched, and
    a second [startTask] on the same task is refused. *)
Theorem startTask_success (git : GitService) (slugify : string -> string)
    (resolve : string -> string -> string -> string)
    (task_id : string) (env env2 : Env) (db : DB) (task : Task.t) :
  let slug := String.substring 0 30 (slugify (Task.title task)) in
  let branch := "task/task-" +:+ show_Z (Task.sequence task) +:+ "-" +:+ slug in
  let path := resolve (repoRoot git) ".worktrees"
                ("task-" +:+ show_Z (Task.sequence task) +:+ "-" +:+ slug) in
  Queries.getTask db task_id = Some task ->
  Task.status task = assigned ->
  createWorktree git path branch = Ok tt ->
  ~ In (uuid_log env) (map ProgressLogRow.id (progress_logs db)) ->
  exists out db',
    TaskService.startTask git slugify resolve task_id env db = (Ok out, db')
    /\ TaskService.start_success out = true
    /\ TaskService.start_branch_name out = branch
    /\ TaskService.start_worktree_path out = path
    /\ (String.length slug <= 30)%nat
    /\ Queries.getTask db' task_id
       = Some (Queries.apply_updates
                 (TaskUpdates.mk (Some in_progress) None (Some (Some branch))
                    (Some (Some path)) None None (Some (Some (date_now env)))
                    None None)
                 task)
    /\ TaskService.start_task out = Queries.getTask db' task_id
    /\ (forall other, other <> task_id ->
                      Queries.getTask db' other = Queries.getTask db other)
    /\ exists e,
         TaskService.startTask git slugify resolve task_id env2 db' = (Throw e, db').
Proof.
  cbv zeta. intros Hget Hst Hgit Hfresh. destruct (getTask_Some _ _ _ Hget) as [Hid Hin].
  unfold TaskService.startTask at 1. rewrite bind_query, Hget.
  rewrite (bool_decide_eq_true_2 _ Hst). cbn [negb]. cbv zeta.
  rewrite bind_call, Hgit, bind_updateTask.
  match goal with
  | |- context [Queries.updateTask db (Task.id task) ?x] => set (u := x)
  end.
  rewrite bind_addProgressLog, addProgressLog_json; cycle 1.
  { destruct (updateTask_other_tables db (Task.id task) u) as (_ & _ & _ & ->).
    assumption. }
  { cbn [NewProgressLog.task_id]. rewrite ids_after_update. apply in_map. assumption. }
  { reflexivity. }
  { reflexivity. }
  cbv iota beta. rewrite !bind_query. unfold ret.
  assert (Hrow : Queries.getTask
                   (append_log (fst (Queries.updateTask db (Task.id task) u))
                      (log_row
                         {| NewProgressLog.id := uuid_log env;
                            NewProgressLog.task_id := Task.id task;
                            NewProgressLog.event := Started;
                            NewProgressLog.message :=
                              "Task started with branch "
                              +:+ ("task/task-" +:+ show_Z (Task.sequence task) +:+ "-"
                                   +:+ String.substring 0 30 (slugify (Task.title task)));
                            NewProgressLog.metadata :=
                              JObj [("branch_name",
                                     JStr ("task/task-" +:+ show_Z (Task.sequence task)
                                           +:+ "-"
                                           +:+ String.substring 0 30
                                                 (slugify (Task.title task))));
                                    ("worktree_path",
                                     JStr (resolve (repoRoot git) ".worktrees"
                                             ("task-" +:+ show_Z (Task.sequence task)
                                              +:+ "-"
                                              +:+ String.substring 0 30
                                                    (slugify (Task.title task)))))] |}
                         (sql_now env))) task_id
                 = Some (Queries.apply_updates u task)).
  { rewrite getTask_append_log, <- Hid.
    rewrite (row_after_update db (Task.id task) u (Task.id task) task)
      by (rewrite Hid; exact Hget).
    rewrite String.eqb_refl. reflexivity. }
  eexists. eexists. split; [reflexivity|]. split; [reflexivity|].
  split; [reflexivity|]. split; [reflexivity|]. split; [apply length_substring|].
  split; [exact Hrow|]. split.
  { cbn [TaskService.start_task]. rewrite Hrow, updateTask_result.
    rewrite (row_after_update db (Task.id task) u (Task.id task) task)
      by (rewrite Hid; exact Hget).
    rewrite String.eqb_refl. reflexivity. }
  split.
  { intros other Hne. rewrite getTask_append_log, updateTask_getTask.
    destruct (Queries.getTask db other) as [t|] eqn:E; [|reflexivity].
    apply getTask_Some in E. destruct E as [E _]. cbn [option_map].
    rewrite E, Hid. apply String.eqb_neq in Hne. rewrite Hne. reflexivity. }
  unfold TaskService.startTask. rewrite bind_query, Hrow.
  cbn [Queries.apply_updates Task.status u TaskUpdates.status nullish].
  rewrite bool_decide_eq_false_2 by discriminate. cbn [negb].
  eexists. reflexivity.
Qed.

Lemma startTask_success_witness :
  exists out db',
    TaskService.startTask Scenario.git_quiet Scenario.slugify Scenario.resolve "t1"
      Scenario.env Scenario.claimed = (Ok out, db')
    /\ TaskService.start_branch_name out = "task/task-1-schema"
    /\ TaskService.start_worktree_path out = "/tmp/test-repo/.worktrees/task-1-schema"
    /\ option_map Task.status (Queries.getTask db' "t1") = Some in_progress
    /\ exists e,
         TaskService.startTask Scenario.git_quiet Scenario.slugify Scenario.resolve "t1"
           Scenario.env db' = (Throw e, db').
Proof.
  destruct (startTask_success Scenario.git_quiet Scenario.slugify Scenario.resolve "t1"
              Scenario.env Scenario.env Scenario.claimed
              (Scenario.task "t1" 1 "schema" assigned 0) eq_refl eq_refl eq_refl)
    as (out & db' & Hrun & _ & Hb & Hp & _ & Hrow & _ & _ & Hagain).
  { simpl. tauto. }
  exists out, db'. split; [exact Hrun|]. split; [exact Hb|]. split; [exact Hp|].
  rewrite Hrow. split; [reflexivity|exact Hagain].
Defined.

(* ===================================================================== *)
(** * merge_task *)
(* ===================================================================== *)

(** The completed set of [merge_task]: the merged task, and every task of
    its group that is [completed]. *)
Definition counts_as_merged (db : DB) (task : Task.t) (p : string) : Prop :=
  p = Task.id task
  \/ exists t, In t (tasks db) /\ Task.id t = p
               /\ Task.group_id t = Task.group_id task
               /\ Task.status t = completed.

(** [u] is unlocked by the merge of [task]. *)
Definition unlocked_by_merge (db : DB) (task u : Task.t) : Prop :=
  Task.group_id u = Task.group_id task
  /\ In (Task.id task) (prerequisites db u)
  /\ ~ counts_as_merged db task (Task.id u)
  /\ (forall p, In p (prerequisites db u) -> counts_as_merged db task p).

Lemma In_get {V} (m : JsMap.t V) k v :
  List.NoDup (JsMap.keys m) -> In (k, v) m -> JsMap.get m k = Some v.
Proof.
  unfold JsMap.keys. induction m as [|[k' v'] m IH]; [intros _ []|].
  cbn [map fst JsMap.get]. intros Hnd [[= -> ->]|Hin].
  - rewrite String.eqb_refl. reflexivity.
  - inversion Hnd as [|? ? Hn Hnd']; subst.
    destruct (String.eqb_spec k' k) as [->|_]; [|auto].
    exfalso. apply Hn. apply in_map_iff. exists (k, v). auto.
Qed.

Section MergeTask.
Variables (db : DB) (task : Task.t) (u : TaskUpdates.t).
Hypothesis Hpk : List.NoDup (map Task.id (tasks db)).
Hypothesis Hin : In task (tasks db).
Hypothesis Hgroup : Task.group_id task <> EmptyString.
Hypothesis Hu : TaskUpdates.status u = Some completed.

Let id := Task.id task.
Let g := Task.group_id task.
Let db1 := fst (Queries.updateTask db id u).
Let allGroupTasks := Queries.listTasks db1 (Some g) None.
Let f := touch id (Queries.apply_updates u).

Definition mergedTasks : gset string :=
  TaskService.ids_where (fun t => bool_decide (Task.status t = completed)) allGroupTasks.

Lemma mergedTasks_spec p : p ∈ mergedTasks <-> counts_as_merged db task p.
Proof.
  unfold mergedTasks, TaskService.ids_where, counts_as_merged. fold id g.
  rewrite elem_of_list_to_set, list_elem_of_In, in_map_iff. split.
  - intros (t & <- & Ht). apply filter_In in Ht. destruct Ht as [Ht Hst].
    apply (all_In db task u Hgroup) in Ht. destruct Ht as (t0 & H0 & -> & Hg).
    destruct (String.eqb_spec (Task.id t0) id) as [E|Hne].
    + left. rewrite <- E. apply (f_keeps task u t0).
    + right. rewrite (f_other task u _ Hne) in *. exists t0.
      apply bool_decide_eq_true in Hst. tauto.
  - intros [->|(t & Ht & <- & Hg & Hst)].
    + exists (f task). split; [apply (f_keeps task u task)|]. apply filter_In. split.
      * apply (all_In db task u Hgroup). exists task. auto.
      * apply bool_decide_eq_true. unfold f, touch. fold id. rewrite String.eqb_refl.
        cbn [Queries.apply_updates Task.status]. rewrite Hu. reflexivity.
    + destruct (String.eqb_spec (Task.id t) id) as [E|Hne].
      * exists (f t). split; [apply (f_keeps task u t)|]. apply filter_In. split.
        -- apply (all_In db task u Hgroup). exists t. auto.
        -- apply bool_decide_eq_true. unfold f, touch. rewrite E, String.eqb_refl.
           cbn [Queries.apply_updates Task.status]. rewrite Hu. reflexivity.
      * exists t. split; [reflexivity|]. apply filter_In. split.
        -- apply (all_In db task u Hgroup). exists t. unfold f in *.
           rewrite (f_other task u _ Hne). auto.
        -- apply bool_decide_eq_true. assumption.
Qed.

Lemma mergedTasks_self : mergedTasks ∪ {[id]} = mergedTasks.
Proof.
  apply set_eq. intros y. rewrite elem_of_union, elem_of_singleton. split; [|auto].
  intros [H| ->]; [assumption|]. apply mergedTasks_spec. left. reflexivity.
Qed.

Definition mergeUnlockedIds : list string :=
  Dag.getUnlockedTasks id (TaskService.build_dependency_map db1 allGroupTasks)
    mergedTasks.

Lemma mergeUnlockedIds_spec x :
  In x mergeUnlockedIds
  <-> exists r, In r (tasks db) /\ Task.id r = x /\ x <> id
                /\ unlocked_by_merge db task r.
Proof.
  unfold mergeUnlockedIds. rewrite getUnlockedTasks_In.
  change (TaskService.build_dependency_map db1 allGroupTasks)
    with (JsMap.entries (TaskService.build_dependency_map db1 allGroupTasks)).
  rewrite build_dependency_map_entries by apply (all_NoDup db task u Hpk).
  rewrite mergedTasks_self. split.
  - intros (deps & Hentry & Hc & Hnot & Hall).
    apply in_map_iff in Hentry. destruct Hentry as (t & [= <- <-] & Ht).
    apply (all_In db task u Hgroup) in Ht. destruct Ht as (t0 & H0 & -> & Hg).
    destruct (f_keeps task u t0) as (Eid & _). rewrite Eid in *.
    unfold db1, id in *. rewrite prerequisites_db1 in *.
    assert (Hne : Task.id t0 <> Task.id task).
    { intros E. apply Hnot. apply mergedTasks_spec. left. assumption. }
    exists t0. split; [assumption|]. split; [reflexivity|]. split; [assumption|].
    split; [assumption|]. split; [assumption|]. split.
    + intros Hcc. apply Hnot. apply mergedTasks_spec. assumption.
    + intros p Hp. apply mergedTasks_spec. apply Hall. assumption.
  - intros (r & Hr & <- & Hne & Hg & Hc & Hnot & Hall).
    exists (prerequisites db r). split; [|split; [assumption|split]].
    + apply in_map_iff. exists r. split.
      * unfold db1, id. rewrite prerequisites_db1. reflexivity.
      * apply (all_In db task u Hgroup). exists r. rewrite (f_other task u _ Hne). auto.
    + intros Hcc. apply Hnot. apply mergedTasks_spec. assumption.
    + intros p Hp. apply mergedTasks_spec. apply Hall. assumption.
Qed.

(** The store after the write and the unblocking loop of [mergeTask]. *)
Lemma tasks_after_merge :
  let db2 := snd (TaskService.unblock allGroupTasks mergeUnlockedIds db1) in
  Queries.getTask db2 id = Some (Queries.apply_updates u task)
  /\ forall r, In r (tasks db) -> Task.id r <> id ->
       (Task.status r = blocked /\ unlocked_by_merge db task r ->
        Queries.getTask db2 (Task.id r) = Some (Queries.apply_updates to_pending r))
       /\ (~ (Task.status r = blocked /\ unlocked_by_merge db task r) ->
           Queries.getTask db2 (Task.id r) = Some r).
Proof.
  cbv zeta. destruct (unblock_spec allGroupTasks mergeUnlockedIds db1) as (_ & Hget & _).
  assert (Hrow : forall r, In r (tasks db) ->
             Queries.getTask db1 (Task.id r) = Some (f r)).
  { intros r Hr. unfold db1. rewrite updateTask_getTask.
    unfold Queries.getTask. rewrite (find_unique _ _ Hpk Hr). reflexivity. }
  split.
  - rewrite Hget.
    replace (Queries.getTask db1 id) with (Some (f task))
      by (symmetry; apply (Hrow task Hin)).
    cbn [option_map].
    assert (Hno : existsb (String.eqb id) mergeUnlockedIds = false).
    { destruct (existsb (String.eqb id) mergeUnlockedIds) eqn:E; [|reflexivity].
      apply existsb_eqb_In, mergeUnlockedIds_spec in E.
      destruct E as (r & _ & _ & Hne & _). congruence. }
    rewrite Hno. cbn [andb]. unfold f, touch. fold id.
    rewrite String.eqb_refl. reflexivity.
  - intros r Hr Hne. rewrite Hget, (Hrow r Hr). unfold f, id.
    rewrite (f_other task u _ Hne). cbn [option_map].
    split.
    + intros [Hb Hun].
      assert (E1 : existsb (String.eqb (Task.id r)) mergeUnlockedIds = true).
      { apply existsb_eqb_In, mergeUnlockedIds_spec. exists r. auto. }
      unfold allGroupTasks, db1, id, g.
      rewrite E1, (snapshot_of db task u Hpk Hgroup r Hr Hne (proj1 Hun)),
        (bool_decide_eq_true_2 _ Hb).
      reflexivity.
    + intros Hnot.
      destruct (existsb (String.eqb (Task.id r)) mergeUnlockedIds) eqn:E1; [|reflexivity].
      apply existsb_eqb_In, mergeUnlockedIds_spec in E1.
      destruct E1 as (r' & Hr' & Eid & _ & Hun).
      assert (r' = r) by (apply (same_id_same_row db Hpk); assumption). subst r'.
      unfold allGroupTasks, db1, id, g.
      rewrite (snapshot_of db task u Hpk Hgroup r Hr Hne (proj1 Hun)).
      destruct (bool_decide (Task.status r = blocked)) eqn:Hb; [|reflexivity].
      apply bool_decide_eq_true in Hb. tauto.
Qed.

(** Every task the merge reports as unlocked can start. *)
Lemma merge_unlocked_can_start x :
  In x mergeUnlockedIds ->
  Dag.canStart x (TaskService.build_dependency_map db1 allGroupTasks) mergedTasks = true.
Proof.
  unfold mergeUnlockedIds. rewrite getUnlockedTasks_In, mergedTasks_self.
  intros (deps & Hentry & _ & _ & Hall). unfold Dag.canStart.
  rewrite (In_get _ x deps); [|
    |exact Hentry].
  - cbn [nullish]. apply every_forall. intros dep Hdep. apply set_has_true. auto.
  - unfold JsMap.keys.
    change (TaskService.build_dependency_map db1 allGroupTasks)
      with (JsMap.entries (TaskService.build_dependency_map db1 allGroupTasks)).
    rewrite build_dependency_map_entries by apply (all_NoDup db task u Hpk).
    rewrite map_map. cbn [fst]. apply (all_NoDup db task u Hpk).
Qed.

End MergeTask.

(** X20.  A clean merge of a task that is [in_review] and has a branch,
    requested on main or master (store with distinct task ids, non-empty
    group id, fresh log id): [mergeTask] returns [success = true] with
    [merge_result = clean]; the task becomes [completed] with [merged_at]
    the current time and nothing else changed in its row, whatever happens
    to the removal of the worktree and of the branch; every other task that
    is [blocked] and unlocked by the merge (it waits for the task and all
    its prerequisites are [completed] tasks of the group) becomes
    [pending], every other task keeps its row; and every unlocked task
    reported is reported with [can_start = true]. *)
Theorem mergeTask_success (git : GitService) (input : TaskService.MergeTaskInput)
    (env : Env) (db : DB) (task : Task.t) (mergeResult : MergeResult) :
  List.NoDup (map Task.id (tasks db)) ->
  isOnMainBranch git = Ok true ->
  Queries.getTask db (TaskService.merge_task_id input) = Some task ->
  Task.status task = in_review ->
  truthy_string (Task.branch_name task) = true ->
  Task.group_id task <> EmptyString ->
  mergeBranch git (nullish (Task.branch_name task) EmptyString)
    (nullish (TaskService.merge_strategy input) strategy_squash) = Ok mergeResult ->
  merge_success mergeResult = true ->
  ~ In (uuid_log env) (map ProgressLogRow.id (progress_logs db)) ->
  exists out db' row,
    TaskService.mergeTask git input env db = (Ok out, db')
    /\ TaskService.merge_ok out = true
    /\ TaskService.merge_result out = "clean"
    /\ Queries.getTask db' (TaskService.merge_task_id input) = Some row
    /\ row = Queries.apply_updates
               (TaskUpdates.mk (Some completed) None None None None None None None
                  (Some (Some (date_now env)))) task
    /\ Task.status row = completed
    /\ Task.merged_at row = Some (date_now env)
    /\ Task.progress row = Task.progress task
    /\ (forall r, In r (tasks db) -> Task.id r <> TaskService.merge_task_id input ->
         (Task.status r = blocked /\ unlocked_by_merge db task r ->
          Queries.getTask db' (Task.id r) = Some (Queries.apply_updates to_pending r)
          /\ Task.status (Queries.apply_updates to_pending r) = pending)
         /\ (~ (Task.status r = blocked /\ unlocked_by_merge db task r) ->
             Queries.getTask db' (Task.id r) = Some r))
    /\ (forall entry, In entry (TaskService.merge_unlocked_tasks out) ->
                      snd entry = true).
Proof.
  intros Hpk Hmain Hget Hst Hbranch Hgroup Hmerge Hclean Hfresh.
  destruct (getTask_Some _ _ _ Hget) as [Hid Hin].
  set (u := TaskUpdates.mk (Some completed) None None None None None None None
              (Some (Some (date_now env)))).
  pose proof (tasks_after_merge db task u Hpk Hin Hgroup eq_refl) as Hafter.
  pose proof (merge_unlocked_can_start db task u Hpk Hin Hgroup eq_refl) as Hcan.
  cbv zeta in Hafter. unfold mergeUnlockedIds, mergedTasks in Hafter, Hcan.
  unfold TaskService.mergeTask. rewrite bind_call, Hmain. cbn [negb].
  rewrite bind_ret, bind_query, Hget, (bool_decide_eq_true_2 _ Hst), Hbranch.
  cbn [negb]. rewrite bind_call, Hmerge, Hclean.
  rewrite bind_updateTask. fold u.
  set (db1 := fst (Queries.updateTask db (Task.id task) u)) in *.
  rewrite !bind_query.
  set (allGroupTasks := Queries.listTasks db1 (Some (Task.group_id task)) None) in *.
  set (depMap := TaskService.build_dependency_map db1 allGroupTasks) in *.
  set (done := TaskService.ids_where _ allGroupTasks) in *.
  set (ids := Dag.getUnlockedTasks _ _ _) in *.
  destruct (unblock_spec allGroupTasks ids db1) as (Hok & _ & Hids & Hlogs).
  unfold bind at 1.
  destruct (TaskService.unblock allGroupTasks ids db1) as [r0 db2] eqn:Hunblock.
  cbn [fst snd] in *. subst r0. cbv iota beta.
  rewrite bind_addProgressLog, addProgressLog_json; cycle 1.
  { cbn [NewProgressLog.id]. rewrite Hlogs. unfold db1.
    destruct (updateTask_other_tables db (Task.id task) u) as (_ & _ & _ & ->).
    assumption. }
  { cbn [NewProgressLog.task_id]. rewrite Hids. unfold db1.
    rewrite ids_after_update. apply in_map. assumption. }
  { reflexivity. }
  { cbn [NewProgressLog.metadata json_data forallb snd andb]. rewrite !andb_true_r.
    apply json_data_map. reflexivity. }
  cbv iota beta. unfold ret.
  destruct Hafter as [Hmainrow Hothers]. rewrite Hid in *.
  eexists. eexists. exists (Queries.apply_updates u task).
  split; [reflexivity|]. split; [reflexivity|]. split; [reflexivity|].
  split; [exact Hmainrow|]. split; [reflexivity|]. split; [reflexivity|].
  split; [reflexivity|]. split; [reflexivity|]. split.
  - intros r Hr Hne. destruct (Hothers r Hr Hne) as [Hyes Hno]. split.
    + intros Hcond. split; [exact (Hyes Hcond)|reflexivity].
    + exact Hno.
  - cbn [TaskService.merge_unlocked_tasks]. intros entry Hentry.
    apply in_map_iff in Hentry. destruct Hentry as (t & <- & Ht). cbn [snd].
    unfold TaskService.found_tasks in Ht. apply in_flat_map in Ht.
    destruct Ht as (x & Hx & Ht).
    destruct (TaskService.find_task allGroupTasks x) as [t'|] eqn:Hfind; [|destruct Ht].
    destruct Ht as [<-|[]]. apply find_some_id in Hfind. destruct Hfind as [-> _].
    apply Hcan. exact Hx.
Qed.

Lemma mergeTask_success_witness :
  exists out db',
    TaskService.mergeTask Scenario.git_quiet
      {| TaskService.merge_task_id := "t1"; TaskService.merge_strategy := None |}
      Scenario.env Scenario.review_fan = (Ok out, db')
    /\ TaskService.merge_ok out = true
    /\ option_map Task.status (Queries.getTask db' "t1") = Some completed
    /\ option_map Task.status (Queries.getTask db' "t2") = Some pending
    /\ option_map Task.status (Queries.getTask db' "t3") = Some blocked.
Proof.
  pose (input := {| TaskService.merge_task_id := "t1";
                    TaskService.merge_strategy := None |}).
  pose (t1 := Scenario.started "t1" 1 "schema" in_review 100).
  pose (t2 := Scenario.task "t2" 2 "api" blocked 0).
  pose (t3 := Scenario.task "t3" 3 "ui" blocked 0).
  assert (Hpk : List.NoDup (map Task.id (tasks Scenario.review_fan))).
  { simpl. repeat constructor; simpl; intuition discriminate. }
  assert (Hfresh : ~ In (uuid_log Scenario.env)
                     (map ProgressLogRow.id (progress_logs Scenario.review_fan))).
  { simpl. tauto. }
  assert (Hgroup : Task.group_id t1 <> EmptyString) by discriminate.
  destruct (mergeTask_success Scenario.git_quiet input Scenario.env Scenario.review_fan t1
              {| merge_success := true; merge_conflicts := [] |}
              Hpk eq_refl eq_refl eq_refl eq_refl Hgroup eq_refl eq_refl Hfresh)
    as (out & db' & row & Hrun & Hok & _ & Hrow & _ & Hst & _ & _ & Hothers & _).
  exists out, db'. split; [exact Hrun|]. split; [exact Hok|].
  change (TaskService.merge_task_id input) with "t1" in *.
  rewrite Hrow. cbn [option_map]. rewrite Hst. split; [reflexivity|].
  assert (Hcounts : forall p, counts_as_merged Scenario.review_fan t1 p -> p = "t1").
  { intros p [->|(t & Ht & _ & _ & Hs)]; [reflexivity|]. exfalso.
    simpl in Ht. destruct Ht as [<-|[<-|[<-|[<-|[]]]]]; discriminate Hs. }
  split.
  - destruct (Hothers t2) as [Hyes _]; [simpl; tauto|discriminate|].
    destruct Hyes as [Hget _].
    + split; [reflexivity|]. split; [reflexivity|]. split; [left; reflexivity|].
      split.
      * intros Hc. apply Hcounts in Hc. discriminate Hc.
      * intros p [<-|[]]. left. reflexivity.
    + change (Task.id t2) with "t2" in Hget. rewrite Hget. reflexivity.
  - destruct (Hothers t3) as [_ Hno]; [simpl; tauto|discriminate|].
    change (Task.id t3) with "t3" in Hno. rewrite Hno; [reflexivity|].
    intros [_ (_ & _ & _ & Hall)].
    specialize (Hall "t4"). apply Hcounts in Hall; [discriminate Hall|].
    vm_compute. tauto.
Defined.

(* ===================================================================== *)
(** * The DAG engine: what can start *)
(* ===================================================================== *)

(** X21.  In a dependency map (keys distinct, as in a JS [Map]) every
    task returned by [getUnlockedTasks] can start once the completed task
    is counted as completed, and could not start before if that task was
    not yet in the completed set; a task without an entry in the map can
    always start. *)
Theorem unlocked_tasks_can_start (completedTaskId : string)
    (allDependencies : JsMap.t (list string)) (completedTasks : gset string) :
  List.NoDup (JsMap.keys allDependencies) ->
  (forall taskId,
     In taskId (Dag.getUnlockedTasks completedTaskId allDependencies completedTasks) ->
     Dag.canStart taskId allDependencies (completedTasks ∪ {[completedTaskId]}) = true
     /\ (completedTaskId ∉ completedTasks ->
         Dag.canStart taskId allDependencies completedTasks = false))
  /\ (forall taskId, JsMap.get allDependencies taskId = None ->
                     Dag.canStart taskId allDependencies completedTasks = true).
Proof.
  intros Hnd. split.
  - intros taskId Hin. apply getUnlockedTasks_In in Hin.
    destruct Hin as (deps & Hentry & Hc & _ & Hall).
    unfold Dag.canStart. rewrite (In_get _ _ _ Hnd Hentry). cbn [nullish]. split.
    + apply every_forall. intros dep Hdep. apply set_has_true. auto.
    + intros Hnot. destruct (every _ deps) eqn:E; [|reflexivity].
      exfalso. apply Hnot. apply set_has_true.
      exact (proj1 (every_forall _ _) E _ Hc).
  - intros taskId Hnone. unfold Dag.canStart. rewrite Hnone. reflexivity.
Qed.

Lemma unlocked_tasks_can_start_witness :
  (forall taskId,
     In taskId (Dag.getUnlockedTasks "B"
                  [("B", ["A"]); ("C", ["A"]); ("D", ["B"; "C"])] {["A"; "C"]}) ->
     Dag.canStart taskId [("B", ["A"]); ("C", ["A"]); ("D", ["B"; "C"])]
       ({["A"; "C"]} ∪ {["B"]}) = true
     /\ ("B" ∉ ({["A"; "C"]} : gset string) ->
         Dag.canStart taskId [("B", ["A"]); ("C", ["A"]); ("D", ["B"; "C"])]
           {["A"; "C"]} = false))
  /\ (forall taskId,
        JsMap.get [("B", ["A"]); ("C", ["A"]); ("D", ["B"; "C"])] taskId = None ->
        Dag.canStart taskId [("B", ["A"]); ("C", ["A"]); ("D", ["B"; "C"])]
          {["A"; "C"]} = true).
Proof.
  apply (unlocked_tasks_can_start "B"
           [("B", ["A"]); ("C", ["A"]); ("D", ["B"; "C"])] {["A"; "C"]}).
  simpl. repeat constructor; simpl; intuition discriminate.
Defined.

(* ===================================================================== *)
(** * The DAG engine: topological order *)
(* ===================================================================== *)

Lemma has_keys {V} (m : JsMap.t V) k : JsMap.has m k = true <-> In k (JsMap.keys m).
Proof.
  unfold JsMap.has. split.
  - destruct (JsMap.get m k) eqn:E; [|discriminate]. intros _.
    eapply get_Some_keys; eassumption.
  - intros H. apply keys_get in H. destruct H as [v ->]. reflexivity.
Qed.

Lemma has_false_keys {V} (m : JsMap.t V) k : JsMap.has m k = false <-> ~ In k (JsMap.keys m).
Proof.
  rewrite <- has_keys. destruct (JsMap.has m k); split; intros H; try reflexivity;
    try discriminate; try (intros [=]). exfalso. apply H. reflexivity.
Qed.

Lemma keys_set_fresh {V} (m : JsMap.t V) k v :
  ~ In k (JsMap.keys m) -> JsMap.keys (JsMap.set m k v) = JsMap.keys m ++ [k].
Proof.
  intros H. rewrite (keys_set_absent m k v H). unfold JsMap.keys. rewrite map_app.
  reflexivity.
Qed.

Lemma NoDup_snoc {A} (l : list A) (x : A) :
  List.NoDup l -> ~ In x l -> List.NoDup (l ++ [x]).
Proof.
  intros Hl Hx. apply List.NoDup_app; [assumption|repeat constructor; intros []|].
  intros a Ha [<-|[]]. contradiction.
Qed.

Section TopologicalSort.
Import Dag.
Variable dependencies : JsMap.t (list string).
Hypothesis Hkeys : List.NoDup (JsMap.keys dependencies).

(** The prerequisites listed for [n]. *)
Definition deps_of (n : string) : list string :=
  nullish (JsMap.get dependencies n) [].

(** ** The first loop: every node gets degree 0 and no neighbour *)

Record collected (st : sort_maps) : Prop := {
  collected_keys : JsMap.keys (adjacency st) = JsMap.keys (inDegree st);
  collected_nodup : List.NoDup (JsMap.keys (inDegree st));
  collected_degree : forall n, In n (JsMap.keys (inDegree st)) ->
                               JsMap.get (inDegree st) n = Some 0;
  collected_adjacency : forall n, In n (JsMap.keys (inDegree st)) ->
                                  JsMap.get (adjacency st) n = Some []
}.

Lemma collect_node_spec st x :
  collected st ->
  collected (collect_node st x)
  /\ (forall n, In n (JsMap.keys (inDegree (collect_node st x)))
                <-> In n (JsMap.keys (inDegree st)) \/ n = x).
Proof.
  intros [Hk Hnd Hdeg Hadj]. unfold collect_node. cbn [inDegree adjacency].
  destruct (JsMap.has (inDegree st) x) eqn:E.
  - assert (E' : JsMap.has (adjacency st) x = true).
    { apply has_keys. rewrite Hk. apply has_keys. assumption. }
    rewrite E'. cbn [negb]. apply has_keys in E. split.
    + split; assumption.
    + intros n. split; [auto|]. intros [H| ->]; assumption.
  - assert (E' : JsMap.has (adjacency st) x = false).
    { apply has_false_keys. rewrite Hk. apply has_false_keys. assumption. }
    rewrite E'. cbn [negb]. apply has_false_keys in E.
    assert (Ea : ~ In x (JsMap.keys (adjacency st))) by (rewrite Hk; assumption).
    assert (Hin : forall n, In n (JsMap.keys (JsMap.set (inDegree st) x 0))
                            <-> In n (JsMap.keys (inDegree st)) \/ n = x).
    { intros n. rewrite keys_set_fresh by assumption. rewrite in_app_iff. simpl.
      intuition. }
    split; [|exact Hin]. split; cbn [inDegree adjacency].
    + rewrite !keys_set_fresh by assumption. rewrite Hk. reflexivity.
    + rewrite keys_set_fresh by assumption. apply NoDup_snoc; assumption.
    + intros n Hn. rewrite get_set. destruct (String.eqb_spec x n); [reflexivity|].
      apply Hdeg. apply Hin in Hn. destruct Hn; [assumption|congruence].
    + intros n Hn. rewrite get_set. destruct (String.eqb_spec x n); [reflexivity|].
      apply Hadj. apply Hin in Hn. destruct Hn; [assumption|congruence].
Qed.

Lemma collect_deps_spec ds :
  forall st, collected st ->
    collected (fold_left collect_node ds st)
    /\ (forall n, In n (JsMap.keys (inDegree (fold_left collect_node ds st)))
                  <-> In n (JsMap.keys (inDegree st)) \/ In n ds).
Proof.
  induction ds as [|d ds IH]; intros st Hst; cbn [fold_left].
  - split; [assumption|]. intros n. simpl. tauto.
  - destruct (collect_node_spec st d Hst) as [H1 H2].
    destruct (IH _ H1) as [H3 H4]. split; [assumption|].
    intros n. rewrite H4, H2. simpl. intuition.
Qed.

Lemma collect_entries_spec (es : list (string * list string)) :
  forall st, collected st ->
    let st' := fold_left
                 (fun st '(node, deps) => fold_left collect_node deps (collect_node st node))
                 es st in
    collected st'
    /\ (forall n, In n (JsMap.keys (inDegree st'))
                  <-> In n (JsMap.keys (inDegree st))
                      \/ In n (map fst es)
                      \/ exists k ds, In (k, ds) es /\ In n ds).
Proof.
  induction es as [|[k ds] es IH]; intros st Hst; cbn [fold_left].
  - split; [assumption|]. intros n. simpl. split; [auto|].
    intros [H|[[]|(? & ? & [] & _)]]. assumption.
  - destruct (collect_node_spec st k Hst) as [H1 H2].
    destruct (collect_deps_spec ds _ H1) as [H3 H4].
    destruct (IH _ H3) as [H5 H6]. split; [assumption|].
    intros n. rewrite H6, H4, H2. cbn [map fst In]. split.
    + intros [[[H|H]|H]|[H|(k' & ds' & H & H')]]; eauto 8.
    + intros [H|[[H|H]|(k' & ds' & [[= <- <-]|H] & H')]]; eauto 8.
Qed.

(** The nodes, in the order the first loop meets them. *)
Definition nodes : list string := JsMap.keys (inDegree (collect_nodes dependencies)).

Lemma collected_nodes : collected (collect_nodes dependencies).
Proof.
  unfold collect_nodes, JsMap.entries. apply collect_entries_spec.
  split; cbn; try reflexivity; try constructor; intros n [].
Qed.

Lemma nodes_spec n :
  In n nodes
  <-> In n (JsMap.keys dependencies)
      \/ exists k ds, In (k, ds) dependencies /\ In n ds.
Proof.
  unfold nodes, collect_nodes, JsMap.entries.
  destruct (collect_entries_spec dependencies
              {| inDegree := JsMap.empty; adjacency := JsMap.empty |}) as [_ H].
  { split; cbn; try reflexivity; try constructor; intros ? []. }
  cbv zeta in H. rewrite H. cbn. unfold JsMap.keys. tauto.
Qed.

Lemma deps_of_entry n ds : In (n, ds) dependencies -> deps_of n = ds.
Proof. intros H. unfold deps_of. rewrite (In_get _ _ _ Hkeys H). reflexivity. Qed.

Lemma edge_nodes n d : In d (deps_of n) -> In n nodes /\ In d nodes.
Proof.
  unfold deps_of. destruct (JsMap.get dependencies n) as [ds|] eqn:E; [|intros []].
  cbn [nullish]. intros Hd. rewrite !nodes_spec. split.
  - left. eapply get_Some_keys; eassumption.
  - right. exists n, ds. split; [apply get_Some_In; assumption|assumption].
Qed.


(** ** The second loop: degrees and neighbours *)

(** The prerequisites the entries [es] list for [n]. *)
Definition listed (es : list (string * list string)) (n : string) : list string :=
  flat_map (fun e => if String.eqb (fst e) n then snd e else []) es.

Lemma listed_snoc es k ds n :
  listed (es ++ [(k, ds)]) n = listed es n ++ (if String.eqb k n then ds else []).
Proof. unfold listed. rewrite flat_map_app. cbn. rewrite app_nil_r. reflexivity. Qed.

Lemma listed_absent es n : ~ In n (map fst es) -> listed es n = [].
Proof.
  induction es as [|[k ds] es IH]; [reflexivity|]. cbn. intros H.
  destruct (String.eqb_spec k n) as [->|_]; [exfalso; auto|]. apply IH. auto.
Qed.

Lemma listed_get (m : JsMap.t (list string)) n :
  List.NoDup (JsMap.keys m) -> listed m n = nullish (JsMap.get m n) [].
Proof.
  unfold JsMap.keys. induction m as [|[k ds] es IH]; [reflexivity|].
  change (listed ((k, ds) :: es) n)
    with ((if String.eqb k n then ds else []) ++ listed es n).
  cbn [map fst JsMap.get]. intros Hnd. inversion Hnd as [|? ? Hn Hnd']; subst.
  destruct (String.eqb_spec k n) as [->|_].
  - rewrite (listed_absent es n Hn), app_nil_r. reflexivity.
  - apply IH. assumption.
Qed.

Lemma listed_all n : listed dependencies n = deps_of n.
Proof. apply listed_get. exact Hkeys. Qed.

Abbreviation count := (count_occ String.string_dec).

Record built (es : list (string * list string)) (st : sort_maps) : Prop := {
  built_degree_keys : JsMap.keys (inDegree st) = nodes;
  built_adjacency_keys : JsMap.keys (adjacency st) = nodes;
  built_degree : forall n, In n nodes ->
                   JsMap.get (inDegree st) n = Some (Z.of_nat (length (listed es n)));
  built_adjacency : forall d, In d nodes ->
                      exists l, JsMap.get (adjacency st) d = Some l
                                /\ forall n, count l n = count (listed es n) d
}.

Lemma count_repeat k c n :
  count (repeat k c) n = if String.eqb k n then c else 0%nat.
Proof.
  destruct (String.eqb_spec k n) as [->|Hne].
  - apply count_occ_repeat_eq. reflexivity.
  - apply count_occ_repeat_neq. congruence.
Qed.

Lemma add_edges_spec k ds :
  forall adj,
    JsMap.keys adj = nodes -> (forall d, In d ds -> In d nodes) ->
    JsMap.keys (fold_left (add_edge k) ds adj) = nodes
    /\ forall d l, JsMap.get adj d = Some l ->
         JsMap.get (fold_left (add_edge k) ds adj) d = Some (l ++ repeat k (count ds d)).
Proof.
  induction ds as [|x ds IH]; intros adj Hk Hds; cbn [fold_left].
  - split; [assumption|]. intros d l H. cbn. rewrite app_nil_r. assumption.
  - assert (Hx : In x (JsMap.keys adj)) by (rewrite Hk; apply Hds; left; reflexivity).
    destruct (IH (add_edge k adj x)) as [H1 H2].
    { unfold add_edge. rewrite keys_set_present by assumption. assumption. }
    { intros d Hd. apply Hds. right. assumption. }
    split; [assumption|]. intros d l Hl.
    destruct (String.eqb_spec x d) as [->|Hne].
    + rewrite (H2 d (l ++ [k])).
      * cbn [count_occ]. destruct (String.string_dec d d); [|contradiction].
        rewrite <- app_assoc. reflexivity.
      * unfold add_edge. rewrite get_set_eq, Hl. reflexivity.
    + rewrite (H2 d l).
      * cbn [count_occ]. destruct (String.string_dec x d); [contradiction|reflexivity].
      * unfold add_edge. rewrite get_set_ne by assumption. assumption.
Qed.

Lemma build_step es st k ds :
  built es st -> In k nodes -> (forall d, In d ds -> In d nodes) ->
  built (es ++ [(k, ds)])
    {| inDegree :=
         JsMap.set (inDegree st) k
           (nullish (JsMap.get (inDegree st) k) 0 + Z.of_nat (length ds));
       adjacency := fold_left (add_edge k) ds (adjacency st) |}.
Proof.
  intros [Hdk Hak Hdeg Hadj] Hk Hds.
  destruct (add_edges_spec k ds (adjacency st) Hak Hds) as [H1 H2].
  split; cbn [inDegree adjacency].
  - rewrite keys_set_present by (rewrite Hdk; assumption). assumption.
  - assumption.
  - intros n Hn. rewrite get_set, listed_snoc, length_app.
    destruct (String.eqb_spec k n) as [->|Hne].
    + rewrite (Hdeg n Hn). cbn [nullish]. f_equal. lia.
    + rewrite (Hdeg n Hn). cbn [length]. f_equal. lia.
  - intros d Hd. destruct (Hadj d Hd) as (l & Hl & Hc).
    exists (l ++ repeat k (count ds d)). split; [apply H2; assumption|].
    intros n. rewrite listed_snoc, !count_occ_app, Hc, count_repeat.
    destruct (String.eqb k n); [reflexivity|]. cbn. reflexivity.
Qed.

Lemma build_entries_spec es2 :
  forall es1 st,
    built es1 st ->
    (forall k ds, In (k, ds) es2 -> In k nodes /\ forall d, In d ds -> In d nodes) ->
    built (es1 ++ es2)
      (fold_left
         (fun st '(node, deps) =>
            {| inDegree :=
                 JsMap.set (inDegree st) node
                   (nullish (JsMap.get (inDegree st) node) 0 + Z.of_nat (length deps));
               adjacency := fold_left (add_edge node) deps (adjacency st) |})
         es2 st).
Proof.
  induction es2 as [|[k ds] es2 IH]; intros es1 st Hst Hes; cbn [fold_left].
  - rewrite app_nil_r. assumption.
  - replace (es1 ++ (k, ds) :: es2) with ((es1 ++ [(k, ds)]) ++ es2)
      by (rewrite <- app_assoc; reflexivity).
    apply IH.
    + destruct (Hes k ds (or_introl eq_refl)) as [Hk Hds]. apply build_step; assumption.
    + intros k' ds' H. apply Hes. right. assumption.
Qed.

(** The maps the [while] loop starts from. *)
Definition start : sort_maps := build_adjacency dependencies (collect_nodes dependencies).

Lemma built_start : built dependencies start.
Proof.
  unfold start, build_adjacency, JsMap.entries.
  apply (build_entries_spec dependencies [] (collect_nodes dependencies)).
  - destruct collected_nodes as [Hk Hnd Hdeg Hadj]. split.
    + reflexivity.
    + exact Hk.
    + intros n Hn. cbn. apply Hdeg. exact Hn.
    + intros d Hd. exists []. split; [apply Hadj; exact Hd|]. intros n. reflexivity.
  - intros k ds H. split.
    + apply nodes_spec. left. unfold JsMap.keys. apply in_map_iff. exists (k, ds). auto.
    + intros d Hd. apply nodes_spec. right. eauto.
Qed.

Lemma nodes_NoDup : List.NoDup nodes.
Proof. apply collected_nodes. Qed.

Lemma start_degree n :
  In n nodes -> JsMap.get (inDegree start) n = Some (Z.of_nat (length (deps_of n))).
Proof. intros H. rewrite (built_degree _ _ built_start n H), listed_all. reflexivity. Qed.

Lemma start_adjacency d :
  In d nodes ->
  exists l, JsMap.get (adjacency start) d = Some l
            /\ forall n, count l n = count (deps_of n) d.
Proof.
  intros H. destruct (built_adjacency _ _ built_start d H) as (l & Hl & Hc).
  exists l. split; [assumption|]. intros n. rewrite Hc, listed_all. reflexivity.
Qed.


(** ** The queue loop *)

(** The prerequisites of [n] that are not in [result] yet. *)
Definition waiting (result : list string) (n : string) : list string :=
  List.filter (fun d => negb (includes result d)) (deps_of n).

Lemma includes_snoc l v d : includes (l ++ [v]) d = includes l d || String.eqb d v.
Proof. unfold includes. rewrite existsb_app. cbn. rewrite orb_false_r. reflexivity. Qed.

Lemma waiting_snoc result v n :
  ~ In v result ->
  length (waiting result n)
  = (length (waiting (result ++ [v]) n) + count (deps_of n) v)%nat.
Proof.
  intros Hv. unfold waiting. induction (deps_of n) as [|d l IH]; [reflexivity|].
  cbn [List.filter count_occ]. rewrite includes_snoc.
  destruct (String.string_dec d v) as [->|Hne].
  - rewrite String.eqb_refl, orb_true_r. cbn [negb].
    replace (includes result v) with false
      by (symmetry; apply not_true_is_false; rewrite includes_In; assumption).
    cbn [negb length]. lia.
  - apply String.eqb_neq in Hne. rewrite Hne, orb_false_r.
    destruct (includes result d); cbn [negb length]; lia.
Qed.

Lemma waiting_nil : forall n, waiting [] n = deps_of n.
Proof.
  intros n. unfold waiting. induction (deps_of n) as [|d ds IH]; [reflexivity|].
  cbn [List.filter]. change (includes [] d) with false. cbn [negb].
  rewrite IH. reflexivity.
Qed.

Lemma waiting_empty result n :
  waiting result n = [] <-> forall d, In d (deps_of n) -> In d result.
Proof.
  unfold waiting. induction (deps_of n) as [|d l IH]; cbn [List.filter].
  - split; [intros _ d []|reflexivity].
  - destruct (includes result d) eqn:E; cbn [negb].
    + apply includes_In in E. rewrite IH. split.
      * intros H x [<-|Hx]; auto.
      * intros H x Hx. apply H. right. assumption.
    + split; [discriminate|]. intros H. exfalso.
      assert (Hd : includes result d = true) by (apply includes_In, H; left; reflexivity).
      congruence.
Qed.

Lemma release_spec ns :
  forall deg q (a : string -> nat),
    JsMap.keys deg = nodes ->
    (forall n, In n nodes -> JsMap.get deg n = Some (Z.of_nat (a n))) ->
    (forall n, In n ns -> In n nodes) ->
    (forall n, (count ns n <= a n)%nat) ->
    exists pushed,
      JsMap.keys (fst (fold_left release ns (deg, q))) = nodes
      /\ (forall n, In n nodes ->
            JsMap.get (fst (fold_left release ns (deg, q))) n
            = Some (Z.of_nat (a n - count ns n)))
      /\ snd (fold_left release ns (deg, q)) = q ++ pushed
      /\ List.NoDup pushed
      /\ (forall n, In n pushed <-> (0 < count ns n)%nat /\ a n = count ns n).
Proof.
  induction ns as [|x ns IH]; intros deg q a Hk Hdeg Hns Hle; cbn [fold_left].
  - exists []. cbn [fst snd]. split; [assumption|]. split.
    + intros n Hn. rewrite (Hdeg n Hn). cbn. f_equal. lia.
    + split; [rewrite app_nil_r; reflexivity|]. split; [constructor|].
      intros n. cbn. split; [intros []|lia].
  - assert (Hx : In x nodes) by (apply Hns; left; reflexivity).
    assert (Hax : (1 <= a x)%nat).
    { specialize (Hle x). cbn [count_occ] in Hle.
      destruct (String.string_dec x x); [lia|contradiction]. }
    assert (Hrel : release (deg, q) x
                   = (JsMap.set deg x (Z.of_nat (a x) - 1),
                      if Z.eqb (Z.of_nat (a x) - 1) 0 then q ++ [x] else q)).
    { unfold release. cbn [fst snd]. rewrite (Hdeg x Hx). reflexivity. }
    rewrite Hrel.
    set (a1 := fun n => if String.eqb x n then (a x - 1)%nat else a n).
    destruct (IH (JsMap.set deg x (Z.of_nat (a x) - 1))
                (if Z.eqb (Z.of_nat (a x) - 1) 0 then q ++ [x] else q) a1)
      as (pushed & H1 & H2 & H3 & H4 & H5).
    { rewrite keys_set_present by (rewrite Hk; assumption). assumption. }
    { intros n Hn. rewrite get_set. unfold a1.
      destruct (String.eqb x n); [f_equal; lia|apply Hdeg; assumption]. }
    { intros n Hn. apply Hns. right. assumption. }
    { intros n. unfold a1. specialize (Hle n). cbn [count_occ] in Hle.
      destruct (String.string_dec x n) as [->|Hne].
      - rewrite String.eqb_refl. lia.
      - apply String.eqb_neq in Hne. rewrite Hne. assumption. }
    assert (Hcnt : forall n, count (x :: ns) n
                             = ((if String.eqb x n then 1 else 0) + count ns n)%nat).
    { intros n. cbn [count_occ]. destruct (String.string_dec x n) as [->|Hne].
      - rewrite String.eqb_refl. reflexivity.
      - apply String.eqb_neq in Hne. rewrite Hne. reflexivity. }
    exists ((if Z.eqb (Z.of_nat (a x) - 1) 0 then [x] else []) ++ pushed).
    split; [assumption|]. split.
    { intros n Hn. rewrite (H2 n Hn), Hcnt. unfold a1. f_equal. f_equal.
      specialize (Hle n). rewrite Hcnt in Hle.
      destruct (String.eqb_spec x n) as [->|_]; lia. }
    split.
    { rewrite H3. destruct (Z.eqb _ 0); [rewrite <- app_assoc|]; reflexivity. }
    split.
    { destruct (Z.eqb_spec (Z.of_nat (a x) - 1) 0) as [E|E]; [|assumption].
      cbn [app]. constructor; [|assumption]. intros Hin. apply H5 in Hin.
      unfold a1 in Hin. rewrite String.eqb_refl in Hin. lia. }
    intros n. rewrite in_app_iff, H5, Hcnt. unfold a1.
    specialize (Hle n). rewrite Hcnt in Hle.
    destruct (String.eqb_spec x n) as [->|Hne].
    + destruct (Z.eqb_spec (Z.of_nat (a n) - 1) 0) as [E|E]; cbn [In]; split.
      * intros _. lia.
      * intros _. left. left. reflexivity.
      * intros [[]|H]. lia.
      * intros H. right. lia.
    + destruct (Z.eqb (Z.of_nat (a x) - 1) 0); cbn [In]; split.
      * intros [[H|[]]|H]; [contradiction|lia].
      * intros H. right. lia.
      * intros [[]|H]. lia.
      * intros H. right. lia.
Qed.

Record draining (deg : JsMap.t Z) (queue result : list string) : Prop := {
  draining_keys : JsMap.keys deg = nodes;
  draining_degree : forall n, In n nodes ->
                      JsMap.get deg n = Some (Z.of_nat (length (waiting result n)));
  draining_nodup : List.NoDup (result ++ queue);
  draining_ready : forall n, In n (result ++ queue)
                             <-> In n nodes /\ waiting result n = [];
  draining_order : forall l1 n l2, result = l1 ++ n :: l2 ->
                     forall d, In d (deps_of n) -> In d l1
}.

Lemma snoc_split {A} (l1 : list A) n l2 R v :
  l1 ++ n :: l2 = R ++ [v] ->
  (l2 = [] /\ n = v /\ l1 = R) \/ (exists l2', l2 = l2' ++ [v] /\ R = l1 ++ n :: l2').
Proof.
  intros H. destruct l2 as [|y l2] using rev_ind.
  - left. apply app_inj_tail in H. destruct H. auto.
  - clear IHl2. right. exists l2.
    change (l1 ++ n :: l2 ++ [y]) with (l1 ++ (n :: l2) ++ [y]) in H.
    rewrite app_assoc in H. apply app_inj_tail in H. destruct H as [H1 H2].
    subst. split; reflexivity.
Qed.

Lemma drain_step deg v q result :
  draining deg (v :: q) result ->
  draining
    (fst (fold_left release (nullish (JsMap.get (adjacency start) v) []) (deg, q)))
    (snd (fold_left release (nullish (JsMap.get (adjacency start) v) []) (deg, q)))
    (result ++ [v]).
Proof.
  intros [Hk Hdeg Hnd Hready Horder].
  assert (Hv : In v nodes /\ waiting result v = []).
  { apply Hready. apply in_app_iff. right. left. reflexivity. }
  destruct Hv as [Hv Hvw].
  assert (Hvr : ~ In v result).
  { intros Hin. apply NoDup_remove_2 in Hnd. apply Hnd. apply in_app_iff. auto. }
  destruct (start_adjacency v Hv) as (ns & Hns & Hc). rewrite Hns. cbn [nullish].
  destruct (release_spec ns deg q (fun n => length (waiting result n)) Hk Hdeg)
    as (pushed & H1 & H2 & H3 & H4 & H5).
  { intros n Hn. assert (Hpos : (0 < count ns n)%nat).
    { apply (count_occ_In String.string_dec). assumption. }
    rewrite Hc in Hpos. apply (count_occ_In String.string_dec) in Hpos.
    apply (edge_nodes n v Hpos). }
  { intros n. rewrite Hc, (waiting_snoc result v n Hvr). lia. }
  assert (Hold : forall n, In n (result ++ v :: q) ->
                           In n nodes /\ waiting (result ++ [v]) n = []).
  { intros n Hn. apply Hready in Hn. destruct Hn as [Hn Hw]. split; [assumption|].
    pose proof (waiting_snoc result v n Hvr) as E. rewrite Hw in E. cbn in E.
    apply length_zero_iff_nil. lia. }
  split.
  - assumption.
  - intros n Hn. rewrite (H2 n Hn), Hc. f_equal. f_equal.
    pose proof (waiting_snoc result v n Hvr). lia.
  - rewrite H3.
    replace ((result ++ [v]) ++ q ++ pushed) with ((result ++ v :: q) ++ pushed)
      by (rewrite <- !app_assoc; reflexivity).
    apply List.NoDup_app; [assumption|assumption|].
    intros n Hn Hp. apply Hready in Hn. destruct Hn as [_ Hw]. apply H5 in Hp.
    rewrite Hw in Hp. cbn in Hp. lia.
  - intros n. rewrite H3. split.
    + intros Hn. replace ((result ++ [v]) ++ q ++ pushed)
        with ((result ++ v :: q) ++ pushed) in Hn
        by (rewrite <- !app_assoc; reflexivity).
      apply in_app_iff in Hn. destruct Hn as [Hn|Hn]; [apply Hold; assumption|].
      apply H5 in Hn. destruct Hn as [Hpos Heq].
      rewrite Hc in Hpos. apply (count_occ_In String.string_dec) in Hpos.
      split; [apply (edge_nodes n v Hpos)|].
      pose proof (waiting_snoc result v n Hvr) as E. rewrite Hc in Heq.
      apply length_zero_iff_nil. lia.
    + intros [Hn Hw].
      replace ((result ++ [v]) ++ q ++ pushed) with ((result ++ v :: q) ++ pushed)
        by (rewrite <- !app_assoc; reflexivity).
      apply in_app_iff.
      destruct (waiting result n) as [|d ds] eqn:E.
      * left. apply Hready. auto.
      * right. apply H5. pose proof (waiting_snoc result v n Hvr) as E'.
        rewrite Hw, E in E'. rewrite E, Hc. cbn [length] in *. lia.
  - intros l1 n l2 Hsplit d Hd. symmetry in Hsplit. apply snoc_split in Hsplit.
    destruct Hsplit as [(_ & -> & ->)|(l2' & _ & ->)].
    + apply (proj1 (waiting_empty result v) Hvw). assumption.
    + eapply Horder; [reflexivity|eassumption].
Qed.

Lemma draining_result_nodes deg queue result :
  draining deg queue result -> (length result + length queue <= length nodes)%nat.
Proof.
  intros H. rewrite <- length_app. apply NoDup_incl_length; [apply H|].
  intros n Hn. apply (draining_ready _ _ _ H) in Hn. tauto.
Qed.

Lemma drain_spec fuel :
  forall deg queue result,
    draining deg queue result ->
    (length nodes < fuel + length result)%nat ->
    exists final deg',
      drain fuel (adjacency start) deg queue result = Some final
      /\ draining deg' [] final.
Proof.
  induction fuel as [|fuel IH]; intros deg queue result Hdr Hfuel.
  - pose proof (draining_result_nodes _ _ _ Hdr). cbn in Hfuel. lia.
  - destruct queue as [|v q]; cbn [drain].
    + exists result, deg. auto.
    + apply IH; [apply drain_step; assumption|].
      rewrite length_app. cbn [length]. lia.
Qed.

Lemma draining_start :
  draining (inDegree start) (initial_queue (inDegree start)) [].
Proof.
  pose proof built_start as [Hdk _ _ _].
  assert (Hq : forall n, In n (initial_queue (inDegree start))
                         <-> In n nodes /\ deps_of n = []).
  { intros n. unfold initial_queue, JsMap.entries. rewrite in_map_iff. split.
    - intros ([k z] & <- & Hin). apply filter_In in Hin. destruct Hin as [Hin Hz].
      cbn [fst snd] in *. apply Z.eqb_eq in Hz. subst z.
      assert (Hk : In k nodes).
      { rewrite <- Hdk. unfold JsMap.keys. apply in_map_iff. exists (k, 0). auto. }
      split; [assumption|].
      apply In_get in Hin; [|rewrite Hdk; apply nodes_NoDup].
      rewrite (start_degree k Hk) in Hin. injection Hin as Hin.
      apply length_zero_iff_nil. lia.
    - intros [Hn Hd]. exists (n, 0). split; [reflexivity|]. apply filter_In.
      split; [|reflexivity]. apply get_Some_In. rewrite (start_degree n Hn), Hd.
      reflexivity. }
  split.
  - assumption.
  - intros n Hn. rewrite (start_degree n Hn), waiting_nil. reflexivity.
  - cbn [app]. unfold initial_queue, JsMap.entries. apply NoDup_map_filter.
    fold (JsMap.keys (inDegree start)). rewrite Hdk. apply nodes_NoDup.
  - intros n. cbn [app]. rewrite Hq, waiting_nil. reflexivity.
  - intros l1 n l2 H. destruct l1; discriminate H.
Qed.


(** ** Walks along prerequisite edges *)

Fixpoint walk (u : string) (p : list string) : Prop :=
  match p with
  | [] => True
  | v :: rest => In v (deps_of u) /\ walk v rest
  end.

Lemma walk_tc p : forall u w, walk u (p ++ [w]) -> tc (edge dependencies) u w.
Proof.
  induction p as [|v p IH]; intros u w; cbn [app walk].
  - intros [H _]. apply tc_once. exact H.
  - intros [H Hw]. eapply tc_l; [exact H|apply IH; assumption].
Qed.

Lemma walk_prefix p1 p2 : forall u, walk u (p1 ++ p2) -> walk u p1.
Proof.
  induction p1 as [|v p1 IH]; intros u; cbn [app walk]; [auto|].
  intros [H Hw]. split; [assumption|]. apply IH. assumption.
Qed.

Lemma walk_suffix p1 x p2 : forall u, walk u (p1 ++ x :: p2) -> walk x p2.
Proof.
  induction p1 as [|v p1 IH]; intros u; cbn [app walk].
  - tauto.
  - intros [_ Hw]. eapply IH. eassumption.
Qed.

Lemma walk_repeats u p : walk u p -> ~ List.NoDup (u :: p) -> cyclic dependencies.
Proof.
  intros Hw Hnd.
  assert (Hdec : ListDec.decidable_eq string).
  { intros x y. destruct (String.string_dec x y); [left|right]; assumption. }
  apply (ListDec.not_NoDup Hdec) in Hnd.
  destruct Hnd as (a & l1 & l2 & l3 & E).
  assert (Ha : walk a (l2 ++ [a])).
  { destruct l1 as [|u' l1]; cbn [app] in E; injection E as -> ->.
    - apply (walk_prefix (l2 ++ [a]) l3). rewrite <- app_assoc. exact Hw.
    - apply walk_suffix in Hw. apply (walk_prefix (l2 ++ [a]) l3).
      rewrite <- app_assoc. exact Hw. }
  exists a. apply (walk_tc l2). exact Ha.
Qed.

Lemma long_walk (U : list string) :
  (forall n, In n U -> exists d, In d (deps_of n) /\ In d U) ->
  forall k u, In u U ->
    exists p, length p = k /\ walk u p /\ forall x, In x p -> In x U.
Proof.
  intros Hnext. induction k as [|k IH]; intros u Hu.
  - exists []. split; [reflexivity|]. split; [exact I|intros x []].
  - destruct (Hnext u Hu) as (d & Hd & HdU).
    destruct (IH d HdU) as (p & Hlen & Hw & Hin).
    exists (d :: p). cbn [length walk]. split; [lia|]. split; [auto|].
    intros x [<-|Hx]; auto.
Qed.

Lemma stuck_cyclic (U : list string) u :
  In u U ->
  (forall n, In n U -> exists d, In d (deps_of n) /\ In d U) ->
  cyclic dependencies.
Proof.
  intros Hu Hnext.
  destruct (long_walk U Hnext (length U) u Hu) as (p & Hlen & Hw & Hin).
  apply (walk_repeats u p Hw). intros Hnd.
  assert (Hle : (length (u :: p) <= length U)%nat).
  { apply NoDup_incl_length; [assumption|]. intros x [<-|Hx]; auto. }
  cbn [length] in Hle. lia.
Qed.

Lemma ordered_acyclic (order : list string) :
  List.NoDup order ->
  (forall n, In n nodes -> In n order) ->
  (forall l1 n l2, order = l1 ++ n :: l2 -> forall d, In d (deps_of n) -> In d l1) ->
  ~ cyclic dependencies.
Proof.
  intros Hnd Hall Hord [u Hu].
  assert (Hgen : forall a b, tc (edge dependencies) a b ->
            forall l1 l2, order = l1 ++ a :: l2 -> In b l1).
  { intros a b Htc. induction Htc as [x y Hxy|x y z Hxy _ IH]; intros l1 l2 E.
    - eapply Hord; eassumption.
    - assert (Hy : In y l1) by (eapply Hord; eassumption).
      apply in_split in Hy. destruct Hy as (la & lb & ->).
      apply in_app_iff. left. apply (IH la (lb ++ x :: l2)).
      rewrite E, <- app_assoc. reflexivity. }
  assert (Hin : In u order).
  { apply Hall. inversion Hu as [x y Hxy|x y z Hxy _]; subst;
      apply (edge_nodes u _ Hxy). }
  apply in_split in Hin. destruct Hin as (l1 & l2 & E).
  pose proof (Hgen u u Hu l1 l2 E) as Hbad.
  rewrite E in Hnd. apply NoDup_remove_2 in Hnd. apply Hnd. apply in_app_iff. auto.
Qed.

(** [topologicalSort] returns, with an order of all the nodes in which
    prerequisites come first, or with the error when there is a cycle. *)
Lemma topologicalSort_sound :
  exists r,
    topologicalSort dependencies = Some r
    /\ match r with
       | Some order =>
           ~ cyclic dependencies
           /\ List.NoDup order
           /\ (forall n, In n order <-> In n nodes)
           /\ (forall l1 n l2, order = l1 ++ n :: l2 ->
                 forall d, In d (deps_of n) -> In d l1)
       | None => cyclic dependencies
       end.
Proof.
  unfold topologicalSort. cbv zeta. fold start.
  pose proof built_start as [Hdk _ _ _].
  assert (Hsize : JsMap.size (inDegree start) = length nodes).
  { unfold JsMap.size. rewrite <- Hdk. unfold JsMap.keys. rewrite length_map.
    reflexivity. }
  rewrite Hsize.
  destruct (drain_spec (S (length nodes)) _ _ _ draining_start) as (final & deg' & Hrun & Hdr).
  { cbn [length]. lia. }
  rewrite Hrun. destruct Hdr as [_ _ Hnd Hready Hord]. rewrite app_nil_r in Hnd.
  assert (Hsub : forall n, In n final -> In n nodes).
  { intros n Hn. apply (Hready n). rewrite app_nil_r. assumption. }
  destruct (Nat.eqb_spec (length final) (length nodes)) as [E|E]; cbn [negb].
  - assert (Hall : forall n, In n nodes -> In n final).
    { apply (NoDup_length_incl Hnd); [lia|exact Hsub]. }
    eexists. split; [reflexivity|]. split; [|split; [assumption|split; [|assumption]]].
    + apply (ordered_acyclic final); assumption.
    + intros n. split; auto.
  - eexists. split; [reflexivity|]. cbv iota.
    set (U := List.filter (fun n => negb (includes final n)) nodes).
    assert (HU : forall n, In n U <-> In n nodes /\ ~ In n final).
    { intros n. unfold U. rewrite filter_In, negb_true_iff, <- not_true_iff_false,
        includes_In. reflexivity. }
    assert (Hne : exists u, In u U).
    { destruct U as [|u U'] eqn:EU; [|exists u; left; reflexivity]. exfalso. apply E.
      apply Nat.le_antisymm.
      - apply NoDup_incl_length; assumption.
      - apply NoDup_incl_length; [apply nodes_NoDup|]. intros n Hn.
        destruct (in_dec String.string_dec n final) as [|Hnot]; [assumption|].
        exfalso. assert (Hin : In n []) by (apply HU; auto). destruct Hin. }
    destruct Hne as [u Hu]. apply (stuck_cyclic U u Hu).
    intros n Hn. apply HU in Hn. destruct Hn as [Hn Hnot].
    destruct (waiting final n) as [|d ds] eqn:Ew.
    + exfalso. apply Hnot. rewrite <- (app_nil_r final). apply Hready. auto.
    + assert (Hd : In d (waiting final n)) by (rewrite Ew; left; reflexivity).
      unfold waiting in Hd. apply filter_In in Hd. destruct Hd as [Hd Hnin].
      exists d. split; [assumption|]. apply HU. split; [apply (edge_nodes n d Hd)|].
      apply negb_true_iff in Hnin. rewrite <- includes_In. congruence.
Qed.

End TopologicalSort.

(** X22.  For a dependency map (keys distinct, as in a JS [Map])
    [topologicalSort] always returns: it throws exactly when some task
    reaches itself along prerequisite edges; otherwise its result lists
    every node (every key and every prerequisite mentioned) exactly once,
    and every prerequisite of a task stands before that task. *)
Theorem topologicalSort_spec (dependencies : JsMap.t (list string)) :
  List.NoDup (JsMap.keys dependencies) ->
  exists r,
    Dag.topologicalSort dependencies = Some r
    /\ match r with
       | Some order =>
           ~ cyclic dependencies
           /\ List.NoDup order
           /\ (forall n, In n order
                         <-> In n (JsMap.keys dependencies)
                             \/ exists k, edge dependencies k n)
           /\ (forall before n after,
                 order = before ++ n :: after ->
                 forall d, edge dependencies n d -> In d before)
       | None => cyclic dependencies
       end.
Proof.
  intros Hkeys. destruct (topologicalSort_sound dependencies Hkeys) as (r & Hrun & Hr).
  exists r. split; [assumption|]. destruct r as [order|]; [|assumption].
  destruct Hr as (Hacyc & Hnd & Hin & Hord).
  split; [assumption|]. split; [assumption|]. split; [|exact Hord].
  intros n. rewrite Hin, nodes_spec. split.
  - intros [H|(k & ds & Hk & Hn)]; [auto|]. right. exists k. unfold edge.
    rewrite (In_get _ _ _ Hkeys Hk). assumption.
  - intros [H|(k & Hk)]; [auto|]. right. unfold edge in Hk.
    destruct (JsMap.get dependencies k) as [ds|] eqn:E; [|destruct Hk].
    exists k, ds. split; [apply get_Some_In; assumption|assumption].
Qed.

Lemma topologicalSort_spec_witness :
  exists r,
    Dag.topologicalSort [("D", ["B"; "C"]); ("B", ["A"]); ("C", ["A"])] = Some r
    /\ match r with
       | Some order =>
           ~ cyclic [("D", ["B"; "C"]); ("B", ["A"]); ("C", ["A"])]
           /\ List.NoDup order
           /\ (forall n, In n order
                         <-> In n (JsMap.keys
                                     [("D", ["B"; "C"]); ("B", ["A"]); ("C", ["A"])])
                             \/ exists k,
                                  edge [("D", ["B"; "C"]); ("B", ["A"]); ("C", ["A"])] k n)
           /\ (forall before n after,
                 order = before ++ n :: after ->
                 forall d, edge [("D", ["B"; "C"]); ("B", ["A"]); ("C", ["A"])] n d ->
                           In d before)
       | None => cyclic [("D", ["B"; "C"]); ("B", ["A"]); ("C", ["A"])]
       end.
Proof.
  apply (topologicalSort_spec [("D", ["B"; "C"]); ("B", ["A"]); ("C", ["A"])]).
  simpl. repeat constructor; simpl; intuition discriminate.
Defined.

(** X23.  The two cycle tests of the DAG engine agree: on every
    dependency map with distinct keys, [validateNoCycles] answers
    [valid = true] exactly when [topologicalSort] returns an order, and
    [valid = false] exactly when it throws. *)
Theorem topologicalSort_agrees_with_validateNoCycles
    (dependencies : JsMap.t (list string)) :
  List.NoDup (JsMap.keys dependencies) ->
  exists v r,
    Dag.validateNoCycles dependencies = Some v
    /\ Dag.topologicalSort dependencies = Some r
    /\ (Dag.valid v = true <-> exists order, r = Some order)
    /\ (Dag.valid v = false <-> r = None).
Proof.
  intros Hkeys.
  destruct (validateNoCycles_sound dependencies) as (v & Hv & Hvalid).
  destruct (topologicalSort_sound dependencies Hkeys) as (r & Hr & Hsort).
  exists v, r. split; [assumption|]. split; [assumption|].
  destruct (Dag.valid v); destruct r as [order|].
  - split; [split; [eauto|reflexivity]|split; discriminate].
  - exfalso. apply (proj2 Hvalid). assumption.
  - exfalso. apply (proj1 Hsort). apply Hvalid.
  - split; [split; [discriminate|intros [? [=]]]|split; reflexivity].
Qed.

Lemma topologicalSort_agrees_with_validateNoCycles_witness :
  exists v r,
    Dag.validateNoCycles [("A", ["B"]); ("B", ["C"]); ("C", ["A"]); ("D", [])] = Some v
    /\ Dag.topologicalSort [("A", ["B"]); ("B", ["C"]); ("C", ["A"]); ("D", [])] = Some r
    /\ (Dag.valid v = true <-> exists order, r = Some order)
    /\ (Dag.valid v = false <-> r = None).
Proof.
  apply (topologicalSort_agrees_with_validateNoCycles
           [("A", ["B"]); ("B", ["C"]); ("C", ["A"]); ("D", [])]).
  simpl. repeat constructor; simpl; intuition discriminate.
Defined.

(* ===================================================================== *)
(** * The DAG engine: the path reported for a cycle *)
(* ===================================================================== *)

Section CyclePath.
Import Dag.
Variable dependencies : JsMap.t (list string).

(** Each entry lists the next one as a prerequisite. *)
Fixpoint is_walk (l : list string) : Prop :=
  match l with
  | a :: (b :: _) as rest => edge dependencies a b /\ is_walk rest
  | _ => True
  end.

Lemma is_walk_app_r l1 l2 : is_walk (l1 ++ l2) -> is_walk l2.
Proof.
  induction l1 as [|a l1 IH]; [auto|]. cbn [app].
  destruct l1 as [|b l1]; cbn [app is_walk] in *.
  - destruct l2; [auto|]. tauto.
  - intros [_ H]. apply IH. exact H.
Qed.

Lemma is_walk_snoc l a b : is_walk (l ++ [a]) -> edge dependencies a b -> is_walk (l ++ [a; b]).
Proof.
  induction l as [|x l IH]; cbn [app].
  - intros _ H. cbn. auto.
  - destruct l as [|y l]; cbn [app is_walk] in *.
    + intros [H _] Hab. auto.
    + intros [H Hw] Hab. split; [assumption|]. apply IH; assumption.
Qed.

Lemma is_walk_mid l1 a b l2 : is_walk (l1 ++ a :: b :: l2) -> edge dependencies a b.
Proof. intros H. apply is_walk_app_r in H. cbn in H. tauto. Qed.

(** What is claimed of a reported path: it is a walk of at least two
    entries that ends where a cycle closes, back to its first entry or on
    a self-loop. *)
Definition reported (cyc : list string) : Prop :=
  is_walk cyc
  /\ (2 <= length cyc)%nat
  /\ (edge dependencies (List.last cyc EmptyString) (List.hd EmptyString cyc)
      \/ exists body z, cyc = body ++ [z; z]).

Lemma walk_parents_shape p v stk :
  forall current acc fuel out,
    chain p (current :: stk) ->
    walk_parents fuel p v current acc = Some out ->
    exists ext rest,
      out = acc ++ ext /\ stk = ext ++ rest /\ ~ In v ext
      /\ (rest = [] \/ exists rest', rest = v :: rest').
Proof.
  induction stk as [|b r IH]; intros current acc fuel out Hch Hrun.
  - destruct fuel as [|fuel]; [discriminate|]. cbn in Hch, Hrun. rewrite Hch in Hrun.
    injection Hrun as <-. exists [], []. rewrite app_nil_r. auto.
  - destruct fuel as [|fuel]; [discriminate|]. destruct Hch as [Hget Hch].
    cbn [walk_parents] in Hrun. rewrite Hget in Hrun.
    destruct (String.eqb_spec b v) as [->|Hne].
    + injection Hrun as <-. exists [], (v :: r). rewrite app_nil_r.
      split; [reflexivity|]. split; [reflexivity|]. split; [intros []|eauto].
    + destruct (IH b (acc ++ [b]) fuel out Hch Hrun) as (ext & rest & -> & -> & Hn & Hr).
      exists (b :: ext), rest. rewrite <- app_assoc. split; [reflexivity|].
      split; [reflexivity|]. split; [|assumption].
      intros [E|Hin]; [congruence|contradiction].
Qed.

Lemma gray_reported p v node stk fuel out :
  chain p (node :: stk) ->
  List.NoDup (node :: stk) ->
  is_walk (rev (node :: stk)) ->
  In v (node :: stk) ->
  edge dependencies node v ->
  walk_parents fuel p v node [v; node] = Some out ->
  reported (rev out).
Proof.
  intros Hch Hnd Hw Hv Hedge Hrun.
  destruct (walk_parents_shape p v stk node [v; node] fuel out Hch Hrun)
    as (ext & rest & -> & -> & Hnin & Hrest).
  assert (E : rev ([v; node] ++ ext) = rev (node :: ext) ++ [v]).
  { cbn [app rev]. rewrite <- !app_assoc. reflexivity. }
  rewrite E.
  assert (Hwe : is_walk (rev (node :: ext))).
  { change (node :: ext ++ rest) with ((node :: ext) ++ rest) in Hw.
    rewrite rev_app_distr in Hw. apply is_walk_app_r in Hw. exact Hw. }
  assert (Hwalk : is_walk (rev (node :: ext) ++ [v])).
  { cbn [rev] in *. rewrite <- app_assoc. apply is_walk_snoc; assumption. }
  split; [exact Hwalk|]. split.
  { rewrite length_app, length_rev. cbn [length]. lia. }
  rewrite last_last.
  destruct Hv as [<-|Hv].
  - right. exists (rev ext), node. cbn [rev]. rewrite <- app_assoc. reflexivity.
  - left. destruct Hrest as [->|(rest' & ->)].
    + exfalso. rewrite app_nil_r in Hv. contradiction.
    + change (node :: ext ++ v :: rest') with ((node :: ext) ++ v :: rest') in Hw.
      rewrite rev_app_distr in Hw. cbn [rev] in Hw. cbn [rev].
      destruct (rev ext ++ [node]) as [|w t] eqn:Et.
      { destruct (rev ext); discriminate Et. }
      cbn [app hd]. rewrite <- app_assoc in Hw. cbn [app] in Hw.
      eapply is_walk_mid. exact Hw.
Qed.

Definition shape_contract (n : nat)
    (rec : string -> dfs_state -> option (option (list string) * dfs_state))
    (stk : list string) : Prop :=
  forall node c p cyc st',
    dfs_pre dependencies node stk c p -> length (JsMap.keys c) = n ->
    is_walk (rev (node :: stk)) ->
    rec node {| color := c; parent := p |} = Some (Some cyc, st') ->
    reported cyc.

Lemma dfs_loop_shape n bound rec node stk :
  dfs_contract dependencies n rec (node :: stk) ->
  shape_contract n rec (node :: stk) ->
  List.NoDup (node :: stk) ->
  (forall g, In g stk -> tc (edge dependencies) g node) ->
  is_walk (rev (node :: stk)) ->
  forall rest c p,
    (forall u, col c u = GRAY <-> In u (node :: stk)) ->
    chain p (node :: stk) ->
    inv dependencies c -> covers dependencies c -> List.NoDup (JsMap.keys c) ->
    length (JsMap.keys c) = n ->
    (forall v, In v rest -> edge dependencies node v) ->
    forall cyc st',
      dfs_loop rec bound node rest {| color := c; parent := p |} = Some (Some cyc, st') ->
      reported cyc.
Proof.
  intros Hrec Hshape Hnd Hpath Hwalk rest. unfold shape_contract in Hshape.
  induction rest as [|v rest IH]; intros c p Hgray Hch Hinv Hcov Hkeys Hbound Hrest cyc st' Hrun.
  - rewrite dfs_loop_nil in Hrun. discriminate Hrun.
  - rewrite dfs_loop_cons in Hrun.
    assert (Hedge : edge dependencies node v) by (apply Hrest; left; reflexivity).
    destruct (Nat.eqb_spec (col c v) GRAY) as [Hg|Hng].
    { destruct (walk_parents bound p v node [v; node]) as [out|] eqn:Hout;
        [|discriminate Hrun].
      injection Hrun as <- _.
      eapply gray_reported; try eassumption. apply Hgray. assumption. }
    destruct (Nat.eqb_spec (col c v) WHITE) as [Hw|Hnw].
    { assert (Hvnot : ~ In v (node :: stk)).
      { intros Hv. apply Hgray in Hv. congruence. }
      assert (Hpre : dfs_pre dependencies v (node :: stk) c (JsMap.set p v (Some node))).
      { unfold dfs_pre.
        split; [assumption|]. split; [eapply Hcov; eassumption|].
        split; [exact Hgray|]. split; [assumption|].
        split.
        { change (chain (JsMap.set p v (Some node)) (v :: node :: stk)).
          cbn [chain]. split; [apply get_set_eq|].
          change (chain (JsMap.set p v (Some node)) (node :: stk)).
          apply chain_ext with (p := p); [|assumption].
          intros u Hu. apply get_set_ne. intros ->. contradiction. }
        split.
        { intros g [<-|Hg]; [apply tc_once; assumption|].
          eapply tc_r; [apply Hpath; assumption|assumption]. }
        split; [assumption|]. split; assumption. }
      destruct (Hrec v c (JsMap.set p v (Some node)) Hpre Hbound)
        as [[res st''] [Hcall Hpost]].
      rewrite Hcall in Hrun. destruct res as [found|].
      { injection Hrun as E _. subst found.
        apply (Hshape v c (JsMap.set p v (Some node)) cyc st'' Hpre Hbound);
          [|exact Hcall].
        change (rev (v :: node :: stk)) with (rev (node :: stk) ++ [v]).
        cbn [rev] in *. rewrite <- app_assoc. apply is_walk_snoc; assumption. }
      unfold dfs_post in Hpost. cbn [fst snd] in Hpost.
      destruct st'' as [c' p'']. cbn [color parent] in Hpost.
      destruct Hpost as (Hk & Hgray' & Hvb & Hcol & Hpar & Hinv').
      apply (IH c' p'') with (st' := st'); try assumption.
      + apply chain_ext with (p := p); [|assumption].
        intros u Hu. rewrite Hpar.
        * apply get_set_ne. intros ->. contradiction.
        * apply Hgray in Hu. rewrite Hu. discriminate.
      + unfold covers. rewrite Hk. assumption.
      + rewrite Hk. assumption.
      + rewrite Hk. assumption.
      + intros w Hwin. apply Hrest. right. assumption. }
    apply (IH c p) with (st' := st'); try assumption.
    intros w Hwin. apply Hrest. right. assumption.
Qed.

Lemma dfs_shape bound :
  forall fuel stk node c p,
    dfs_pre dependencies node stk c p ->
    (length (JsMap.keys c) < bound)%nat ->
    (length (JsMap.keys c) < fuel + length stk)%nat ->
    is_walk (rev (node :: stk)) ->
    forall cyc st',
      dfs bound fuel dependencies node {| color := c; parent := p |} = Some (Some cyc, st') ->
      reported cyc.
Proof.
  induction fuel as [|fuel IH]; intros stk node c p Hpre Hbound Hfuel Hwalk cyc st' Hrun;
    [discriminate Hrun|].
  destruct Hpre as (Hw & Hin & Hgray & Hnd & Hch & Hpath & Hinv & Hcov & Hkeys).
  cbn [dfs] in Hrun. cbn [color parent] in Hrun.
  set (c1 := JsMap.set c node GRAY) in *.
  assert (Hne : forall u, col c u <> WHITE -> node <> u).
  { intros u Hu ->. contradiction. }
  assert (Hk1 : JsMap.keys c1 = JsMap.keys c) by (apply keys_set_present; assumption).
  assert (Hnd1 : List.NoDup (node :: stk)).
  { constructor; [|assumption]. intros Hn. apply Hgray in Hn.
    rewrite Hw in Hn. discriminate. }
  eapply (dfs_loop_shape (length (JsMap.keys c)) bound (dfs bound fuel dependencies)
            node stk); [| | | | | | | | | | | |exact Hrun].
  - intros node' c' p' Hpre' Hlen'. apply dfs_spec; [assumption|lia|].
    rewrite Hlen'. cbn [length]. lia.
  - intros node' c' p' cyc' st'' Hpre' Hlen' Hwalk' Hrun'.
    eapply (IH (node :: stk) node' c' p'); try eassumption; [lia|].
    rewrite Hlen'. cbn [length]. lia.
  - assumption.
  - assumption.
  - assumption.
  - intros u. unfold c1. rewrite col_set.
    destruct (String.eqb_spec node u) as [->|Hneq].
    + split; [left; reflexivity|reflexivity].
    + rewrite Hgray. simpl. tauto.
  - assumption.
  - split.
    + intros u. unfold c1. rewrite col_set. destruct (String.eqb node u).
      * unfold GRAY. lia.
      * apply (inv_range _ _ Hinv).
    + intros u v Hu Huv. unfold c1 in *. rewrite col_set in Hu.
      destruct (String.eqb_spec node u) as [->|Hneq]; [discriminate|].
      assert (Hv : col c v = BLACK) by (eapply inv_closed; eassumption).
      rewrite col_set_ne; [assumption|]. apply Hne. rewrite Hv. discriminate.
    + intros u Hu. unfold c1 in Hu. rewrite col_set in Hu.
      destruct (String.eqb_spec node u) as [->|Hneq]; [discriminate|].
      eapply inv_acyclic; eassumption.
  - unfold covers. rewrite Hk1. assumption.
  - rewrite Hk1. assumption.
  - rewrite Hk1. reflexivity.
  - intros v Hv. exact Hv.
Qed.

Lemma visit_all_shape bound :
  forall todo c p,
    (forall u, col c u <> GRAY) ->
    inv dependencies c -> covers dependencies c -> List.NoDup (JsMap.keys c) ->
    (forall u, In u todo -> In u (JsMap.keys c)) ->
    (length (JsMap.keys c) < bound)%nat ->
    forall r cyc,
      visit_all bound dependencies todo {| color := c; parent := p |} = Some r ->
      cycle r = Some cyc ->
      reported cyc.
Proof.
  induction todo as [|node rest IH];
    intros c p Hnogray Hinv Hcov Hkeys Hnodes Hbound r cyc Hrun Hcyc.
  - injection Hrun as <-. discriminate Hcyc.
  - cbn [visit_all color parent] in Hrun. fold (col c node) in Hrun.
    destruct (Nat.eqb_spec (col c node) WHITE) as [Hw|Hnw].
    + assert (Hpre : dfs_pre dependencies node [] c (JsMap.set p node None)).
      { unfold dfs_pre. split; [assumption|]. split; [apply Hnodes; left; reflexivity|].
        split; [intros u; split; [intros Hu; elim (Hnogray u Hu)|intros []]|].
        split; [constructor|]. split; [apply get_set_eq|].
        split; [intros g []|]. split; [assumption|]. split; assumption. }
      destruct (dfs_spec dependencies bound bound [] node c (JsMap.set p node None))
        as [[res [c'' p'']] [Hcall Hpost]]; [assumption|assumption|cbn [length]; lia|].
      rewrite Hcall in Hrun. destruct res as [found|].
      { injection Hrun as <-. cbn [cycle] in Hcyc. injection Hcyc as ->.
        apply (dfs_shape bound bound [] node c (JsMap.set p node None) Hpre Hbound)
          with (st' := {| color := c''; parent := p'' |});
          [cbn [length]; lia|exact I|exact Hcall]. }
      unfold dfs_post in Hpost. cbn [fst snd color parent] in Hpost.
      destruct Hpost as (Hk & Hgray' & Hb & Hcol & Hpar & Hinv').
      apply (IH c'' p'') with (r := r); try assumption.
      * intros u Hu. apply Hgray' in Hu. destruct Hu.
      * unfold covers. rewrite Hk. assumption.
      * rewrite Hk. assumption.
      * intros u Hu. rewrite Hk. apply Hnodes. right. assumption.
      * rewrite Hk. assumption.
    + apply (IH c p) with (r := r); try assumption.
      intros u Hu. apply Hnodes. right. assumption.
Qed.

Lemma validateNoCycles_reported r cyc :
  validateNoCycles dependencies = Some r -> cycle r = Some cyc -> reported cyc.
Proof.
  unfold validateNoCycles, init_colors, JsMap.entries, JsMap.size.
  destruct (init_fold_spec dependencies JsMap.empty) as (_ & Hent & Hnd & Hwh).
  cbv zeta in *.
  set (c0 := fold_left _ dependencies JsMap.empty) in *.
  assert (Hwhite : all_white c0) by (apply Hwh; intros u; reflexivity).
  assert (Hcov : covers dependencies c0).
  { intros u v Huv. destruct (edge_entry dependencies u v Huv) as (ds & Hin & Hv).
    exact (proj2 (Hent u ds Hin) v Hv). }
  apply (visit_all_shape (S (length c0)) (JsMap.keys c0) c0 JsMap.empty).
  - intros u. rewrite Hwhite. discriminate.
  - split.
    + intros u. rewrite Hwhite. unfold WHITE. lia.
    + intros u v Hu. rewrite Hwhite in Hu. discriminate.
    + intros u Hu. rewrite Hwhite in Hu. discriminate.
  - assumption.
  - apply Hnd. constructor.
  - auto.
  - unfold JsMap.keys. rewrite length_map. lia.
Qed.

End CyclePath.

(** X24.  The path [validateNoCycles] reports with [valid = false] is a
    chain of at least two tasks in which each lists the next one as a
    prerequisite, and it ends where a cycle closes: either its last task
    lists its first task as a prerequisite, or its last two entries are the
    same task, which lists itself (the path then leads from the root of
    the search to that task). *)
Theorem validateNoCycles_cycle_path (dependencies : JsMap.t (list string))
    (r : Dag.validation) (cyc : list string) :
  Dag.validateNoCycles dependencies = Some r ->
  Dag.cycle r = Some cyc ->
  is_walk dependencies cyc
  /\ (2 <= length cyc)%nat
  /\ (edge dependencies (List.last cyc EmptyString) (List.hd EmptyString cyc)
      \/ exists body z, cyc = body ++ [z; z] /\ edge dependencies z z).
Proof.
  intros Hrun Hcyc.
  destruct (validateNoCycles_reported dependencies r cyc Hrun Hcyc) as (Hw & Hlen & Hclose).
  split; [assumption|]. split; [assumption|].
  destruct Hclose as [H|(body & z & ->)]; [left; assumption|].
  right. exists body, z. split; [reflexivity|].
  apply (is_walk_mid dependencies body z z []). exact Hw.
Qed.

Lemma validateNoCycles_cycle_path_witness :
  is_walk [("A", ["B"]); ("B", ["C"]); ("C", ["D"]); ("D", ["B"]); ("E", ["A"])]
    ["C"; "D"; "B"]
  /\ (2 <= length ["C"; "D"; "B"])%nat
  /\ (edge [("A", ["B"]); ("B", ["C"]); ("C", ["D"]); ("D", ["B"]); ("E", ["A"])]
        (List.last ["C"; "D"; "B"] EmptyString) (List.hd EmptyString ["C"; "D"; "B"])
      \/ exists body z,
           ["C"; "D"; "B"] = body ++ [z; z]
           /\ edge [("A", ["B"]); ("B", ["C"]); ("C", ["D"]); ("D", ["B"]); ("E", ["A"])]
                z z).
Proof.
  apply (validateNoCycles_cycle_path
           [("A", ["B"]); ("B", ["C"]); ("C", ["D"]); ("D", ["B"]); ("E", ["A"])]
           {| Dag.valid := false; Dag.cycle := Some ["C"; "D"; "B"] |}).
  - vm_compute. reflexivity.
  - reflexivity.
Defined.

(* ===================================================================== *)
(** * create_tasks *)
(* ===================================================================== *)

Section CreateTasks.
Import TaskService.
Variables (env : CreateEnv) (groupId : string).

(** The row step 2 writes for the task at index [i]. *)
Definition new_row (i : nat) (taskInput : TaskInput) : Task.t :=
  {| Task.id := uuid_task env i;
     Task.group_id := groupId;
     Task.sequence := Z.of_nat i + 1;
     Task.title := ti_title taskInput;
     Task.description := ti_description taskInput;
     Task.status := pending;
     Task.priority := nullish (ti_priority taskInput) medium;
     Task.assigned_to := None;
     Task.branch_name := None;
     Task.worktree_path := None;
     Task.progress := 0;
     Task.progress_note := None;
     Task.created_at := created_now env;
     Task.started_at := None;
     Task.completed_at := None;
     Task.merged_at := None |}.

Fixpoint new_rows (i : nat) (inputs : list TaskInput) : list Task.t :=
  match inputs with
  | [] => []
  | taskInput :: rest => new_row i taskInput :: new_rows (S i) rest
  end.

Fixpoint sequences_after (i : nat) (inputs : list TaskInput) (m : SequenceMap)
    : SequenceMap :=
  match inputs with
  | [] => m
  | _ :: rest =>
      sequences_after (S i) rest (sequence_set m (Z.of_nat i + 1) (uuid_task env i))
  end.

Lemma sequence_get_set m k v k' :
  sequence_get (sequence_set m k v) k' = if Z.eqb k k' then Some v else sequence_get m k'.
Proof.
  induction m as [|[k0 v0] m IH]; cbn [sequence_set sequence_get].
  - destruct (Z.eqb k k'); reflexivity.
  - destruct (Z.eqb_spec k0 k) as [->|Hne]; cbn [sequence_get].
    + destruct (Z.eqb k k'); reflexivity.
    + rewrite IH. destruct (Z.eqb_spec k0 k') as [->|Hne'].
      * destruct (Z.eqb_spec k k'); [congruence|reflexivity].
      * reflexivity.
Qed.

Lemma sequences_after_get inputs :
  forall i m s,
    sequence_get (sequences_after i inputs m) s
    = if (Z.of_nat i + 1 <=? s) && (s <=? Z.of_nat i + Z.of_nat (length inputs))
      then Some (uuid_task env (Z.to_nat (s - 1)))
      else sequence_get m s.
Proof.
  induction inputs as [|t rest IH]; intros i m s; cbn [sequences_after length].
  - destruct (Z.leb_spec (Z.of_nat i + 1) s); destruct (Z.leb_spec s (Z.of_nat i + Z.of_nat 0));
      cbn [andb]; try reflexivity. lia.
  - rewrite IH, sequence_get_set.
    destruct (Z.leb_spec (Z.of_nat (S i) + 1) s);
      destruct (Z.leb_spec s (Z.of_nat (S i) + Z.of_nat (length rest)));
      destruct (Z.leb_spec (Z.of_nat i + 1) s);
      destruct (Z.leb_spec s (Z.of_nat i + Z.of_nat (S (length rest))));
      destruct (Z.eqb_spec (Z.of_nat i + 1) s);
      cbn [andb]; try reflexivity; try lia.
    subst s. f_equal. f_equal. lia.
Qed.

Lemma new_rows_length i inputs : length (new_rows i inputs) = length inputs.
Proof. revert i. induction inputs as [|t r IH]; intros i; cbn; [reflexivity|]. rewrite IH. reflexivity. Qed.

Lemma new_rows_nth inputs :
  forall i k, nth_error (new_rows i inputs) k
              = option_map (new_row (i + k)) (nth_error inputs k).
Proof.
  induction inputs as [|t r IH]; intros i k; cbn [new_rows].
  - destruct k; reflexivity.
  - destruct k as [|k]; cbn [nth_error option_map].
    + rewrite Nat.add_0_r. reflexivity.
    + rewrite IH. replace (S i + k)%nat with (i + S k)%nat by lia. reflexivity.
Qed.

Lemma new_rows_ids inputs :
  forall i x, In x (map Task.id (new_rows i inputs))
              <-> exists k, (k < length inputs)%nat /\ x = uuid_task env (i + k).
Proof.
  induction inputs as [|t r IH]; intros i x; cbn [new_rows map In length].
  - split; [intros []|intros (k & Hk & _); lia].
  - rewrite IH. split.
    + intros [<-|(k & Hk & ->)].
      * exists 0%nat. rewrite Nat.add_0_r. split; [lia|reflexivity].
      * exists (S k). split; [lia|]. f_equal. lia.
    + intros ([|k] & Hk & ->).
      * left. rewrite Nat.add_0_r. reflexivity.
      * right. exists k. split; [lia|]. f_equal. lia.
Qed.

Lemma set_tasks_twice db l l' :
  Queries.set_tasks (Queries.set_tasks db l) l' = Queries.set_tasks db l'.
Proof. reflexivity. Qed.

(** Step 2 writes the rows and fills the sequence map. *)
Lemma create_rows_spec inputs :
  forall i m created db,
    In groupId (map TaskGroup.id (task_groups db)) ->
    (forall k, (k < length inputs)%nat ->
               ~ In (uuid_task env (i + k)) (map Task.id (tasks db))) ->
    (forall k k', (k < length inputs)%nat -> (k' < length inputs)%nat ->
                  uuid_task env (i + k) = uuid_task env (i + k') -> k = k') ->
    create_rows env groupId i inputs m created db
    = (Ok (sequences_after i inputs m, created ++ new_rows i inputs),
       Queries.set_tasks db (tasks db ++ new_rows i inputs)).
Proof.
  induction inputs as [|t rest IH]; intros i m created db Hgroup Hfresh Hdistinct;
    cbn [create_rows sequences_after new_rows].
  - unfold ret. rewrite !app_nil_r. destruct db; reflexivity.
  - cbv zeta. unfold bind at 1. unfold Queries.createTask.
    cbn [Queries.new_id Queries.new_group].
    replace (existsb (fun t0 => String.eqb (Task.id t0) (uuid_task env i)) (tasks db))
      with false.
    2:{ symmetry. apply not_true_is_false. rewrite existsb_id_In.
        specialize (Hfresh 0%nat). rewrite Nat.add_0_r in Hfresh. apply Hfresh.
        cbn [length]. lia. }
    replace (existsb (fun g => String.eqb (TaskGroup.id g) groupId) (task_groups db))
      with true
      by (symmetry; apply existsb_id_In; assumption).
    cbn [negb]. fold (new_row i t).
    rewrite IH.
    + cbn [Queries.set_tasks tasks]. rewrite <- !app_assoc. reflexivity.
    + assumption.
    + intros k Hk. cbn [Queries.set_tasks tasks]. rewrite map_app, in_app_iff.
      intros [Hin|[E|[]]].
      * apply (Hfresh (S k)); [cbn [length]; lia|].
        replace (i + S k)%nat with (S i + k)%nat by lia. assumption.
      * cbn [new_row Task.id] in E.
        assert (0 = S k)%nat; [|discriminate].
        apply Hdistinct; try (cbn [length]; lia).
        rewrite Nat.add_0_r, E. f_equal. lia.
    + intros k k' Hk Hk' E. assert (S k = S k'); [|lia].
      apply Hdistinct; try (cbn [length]; lia).
      replace (i + S k)%nat with (S i + k)%nat by lia.
      replace (i + S k')%nat with (S i + k')%nat by lia. assumption.
Qed.


(** ** Steps 3 and 4: dependencies and file ownership *)

Variable n : nat.
Hypothesis Hnonempty : forall k, (k < n)%nat -> uuid_task env k <> EmptyString.
Hypothesis Hdistinct :
  forall k k', (k < n)%nat -> (k' < n)%nat -> uuid_task env k = uuid_task env k' -> k = k'.

(** The task a dependency number names, when there is one. *)
Definition resolve (s : Z) : option string :=
  if (1 <=? s) && (s <=? Z.of_nat n)
  then Some (uuid_task env (Z.to_nat (s - 1)))
  else None.

Definition resolved (depends_on : list Z) : list string :=
  flat_map (fun s => match resolve s with Some id => [id] | None => [] end) depends_on.

Definition invalid_references (sequence : Z) (title : string) (depends_on : list Z)
    : list string :=
  flat_map
    (fun s =>
       match resolve s with
       | Some _ => []
       | None =>
           ["Task #" +:+ show_Z sequence +:+ " " +:+ String Json.dquote title
            +:+ String Json.dquote " references invalid dependency sequence #"
            +:+ show_Z s]
       end)
    depends_on.

Lemma resolve_Some s id :
  resolve s = Some id ->
  exists k, (k < n)%nat /\ s = Z.of_nat k + 1 /\ id = uuid_task env k.
Proof.
  unfold resolve.
  destruct (Z.leb_spec 1 s); destruct (Z.leb_spec s (Z.of_nat n)); cbn [andb];
    try discriminate.
  intros [= <-]. exists (Z.to_nat (s - 1)). split; [lia|]. split; [lia|reflexivity].
Qed.

Lemma resolve_index k : (k < n)%nat -> resolve (Z.of_nat k + 1) = Some (uuid_task env k).
Proof.
  intros Hk. unfold resolve.
  destruct (Z.leb_spec 1 (Z.of_nat k + 1)); [|lia].
  destruct (Z.leb_spec (Z.of_nat k + 1) (Z.of_nat n)); [|lia].
  cbn [andb]. do 2 f_equal. lia.
Qed.

Lemma resolve_truthy s : truthy_string (resolve s) = match resolve s with Some _ => true | None => false end.
Proof.
  destruct (resolve s) as [id|] eqn:E; [|reflexivity].
  destruct (resolve_Some _ _ E) as (k & Hk & _ & ->). cbn [truthy_string].
  apply negb_true_iff, String.eqb_neq, Hnonempty. assumption.
Qed.

(** Steps 3 and 4 write to [task_dependencies] and [task_file_ownership]
    only, and never delete a dependency. *)
Record links_only (db db' : DB) : Prop := {
  links_tasks : tasks db' = tasks db;
  links_groups : task_groups db' = task_groups db;
  links_kept : forall a b, depends db a b -> depends db' a b
}.

Lemma links_refl db : links_only db db.
Proof. split; auto. Qed.

Lemma links_trans db1 db2 db3 :
  links_only db1 db2 -> links_only db2 db3 -> links_only db1 db3.
Proof.
  intros [T1 G1 K1] [T2 G2 K2]. split; [congruence|congruence|auto].
Qed.

Lemma addDependency_links db a b :
  In a (map Task.id (tasks db)) -> In b (map Task.id (tasks db)) ->
  exists db', Queries.addDependency db a b = (Ok tt, db')
              /\ links_only db db' /\ depends db' a b.
Proof.
  intros Ha Hb. unfold Queries.addDependency.
  destruct (existsb _ (task_dependencies db)) eqn:E.
  - exists db. split; [reflexivity|]. split; [apply links_refl|].
    apply existsb_dependency. assumption.
  - apply (existsb_id_In Task.id) in Ha, Hb. rewrite Ha, Hb. cbn [negb orb].
    eexists. split; [reflexivity|]. split.
    + split; [reflexivity|reflexivity|].
      intros x y H. unfold depends in *. cbn [task_dependencies].
      apply in_or_app. left. assumption.
    + unfold depends. cbn [task_dependencies]. apply in_or_app. right. left. reflexivity.
Qed.

Section Linking.
Variable sequenceToIdMap : SequenceMap.
Hypothesis Hmap : forall s, sequence_get sequenceToIdMap s = resolve s.

Lemma link_dependencies_spec taskId sequence title depends_on :
  forall deps warnings db,
    In taskId (map Task.id (tasks db)) ->
    (forall k, (k < n)%nat -> In (uuid_task env k) (map Task.id (tasks db))) ->
    exists db',
      link_dependencies sequenceToIdMap taskId sequence title depends_on deps warnings db
      = (Ok (deps ++ resolved depends_on,
             warnings ++ invalid_references sequence title depends_on), db')
      /\ links_only db db'
      /\ (forall d, In d (resolved depends_on) -> depends db' taskId d).
Proof.
  induction depends_on as [|s rest IH]; intros deps warnings db Htask Hall;
    cbn [link_dependencies resolved invalid_references flat_map].
  - exists db. unfold ret. rewrite !app_nil_r.
    split; [reflexivity|]. split; [apply links_refl|]. intros d [].
  - cbv zeta. rewrite Hmap, resolve_truthy.
    destruct (resolve s) as [id|] eqn:E.
    + destruct (resolve_Some _ _ E) as (k & Hk & _ & ->).
      cbn [nullish]. unfold bind at 1.
      destruct (addDependency_links db taskId (uuid_task env k) Htask (Hall k Hk))
        as (db1 & -> & Hl1 & Hd1).
      destruct (IH (deps ++ [uuid_task env k]) warnings db1) as (db' & -> & Hl & Hd).
      { rewrite (links_tasks _ _ Hl1). assumption. }
      { intros j Hj. rewrite (links_tasks _ _ Hl1). auto. }
      exists db'. fold (resolved rest). fold (invalid_references sequence title rest).
      rewrite <- app_assoc. cbn [app]. split; [reflexivity|].
      split; [eapply links_trans; eassumption|].
      intros d [<-|Hin]; [apply (links_kept _ _ Hl); assumption|auto].
    + destruct (IH deps
                  (warnings
                   ++ ["Task #" +:+ show_Z sequence +:+ " " +:+ String Json.dquote title
                       +:+ String Json.dquote " references invalid dependency sequence #"
                       +:+ show_Z s]) db Htask Hall) as (db' & -> & Hl & Hd).
      exists db'. fold (resolved rest). fold (invalid_references sequence title rest).
      rewrite <- app_assoc. cbn [app]. split; [reflexivity|]. split; assumption.
Qed.

(** The entries of [dependencyMap] and the warnings of step 3, from index
    [i] on. *)
Fixpoint dependency_entries (i : nat) (inputs : list TaskInput)
    : list (string * list string) :=
  match inputs with
  | [] => []
  | taskInput :: rest =>
      (uuid_task env i, resolved (nullish (ti_depends_on taskInput) []))
      :: dependency_entries (S i) rest
  end.

Fixpoint reference_warnings (i : nat) (inputs : list TaskInput) : list string :=
  match inputs with
  | [] => []
  | taskInput :: rest =>
      invalid_references (Z.of_nat i + 1) (ti_title taskInput)
        (nullish (ti_depends_on taskInput) [])
      ++ reference_warnings (S i) rest
  end.

Definition set_entries (m : JsMap.t (list string)) (es : list (string * list string))
    : JsMap.t (list string) :=
  fold_left (fun m e => JsMap.set m (fst e) (snd e)) es m.

Lemma add_dependencies_spec inputs :
  forall i dependencyMap warnings db,
    (i + length inputs <= n)%nat ->
    (forall k, (k < n)%nat -> In (uuid_task env k) (map Task.id (tasks db))) ->
    exists db',
      add_dependencies sequenceToIdMap i inputs dependencyMap warnings db
      = (Ok (set_entries dependencyMap (dependency_entries i inputs),
             warnings ++ reference_warnings i inputs), db')
      /\ links_only db db'
      /\ (forall k taskInput d,
            nth_error inputs k = Some taskInput ->
            In d (resolved (nullish (ti_depends_on taskInput) [])) ->
            depends db' (uuid_task env (i + k)) d).
Proof.
  induction inputs as [|t rest IH]; intros i dependencyMap warnings db Hlen Hall;
    cbn [add_dependencies dependency_entries reference_warnings set_entries fold_left].
  - exists db. unfold ret. rewrite app_nil_r. split; [reflexivity|].
    split; [apply links_refl|]. intros [|k] ? ? H; discriminate H.
  - cbn [length] in Hlen. cbv zeta. rewrite Hmap, resolve_index by lia. cbn [nullish fst snd].
    unfold bind at 1.
    assert (Hstep : exists db1,
               match ti_depends_on t with
               | Some (d :: ds) =>
                   link_dependencies sequenceToIdMap (uuid_task env i) (Z.of_nat i + 1)
                     (ti_title t) (d :: ds) [] warnings
               | _ => ret ([], warnings)
               end db
               = (Ok (resolved (nullish (ti_depends_on t) []),
                      warnings
                      ++ invalid_references (Z.of_nat i + 1) (ti_title t)
                           (nullish (ti_depends_on t) [])), db1)
               /\ links_only db db1
               /\ (forall d, In d (resolved (nullish (ti_depends_on t) [])) ->
                             depends db1 (uuid_task env i) d)).
    { destruct (ti_depends_on t) as [[|d ds]|]; cbn [nullish].
      - exists db. unfold ret. cbn. rewrite app_nil_r. split; [reflexivity|].
        split; [apply links_refl|]. intros ? [].
      - destruct (link_dependencies_spec (uuid_task env i) (Z.of_nat i + 1) (ti_title t)
                    (d :: ds) [] warnings db) as (db1 & E & Hl & Hd).
        { apply Hall. lia. }
        { assumption. }
        exists db1. rewrite E. cbn [app]. split; [reflexivity|]. split; assumption.
      - exists db. unfold ret. cbn. rewrite app_nil_r. split; [reflexivity|].
        split; [apply links_refl|]. intros ? []. }
    destruct Hstep as (db1 & -> & Hl1 & Hd1). cbn [fst snd].
    destruct (IH (S i)
                (JsMap.set dependencyMap (uuid_task env i)
                   (resolved (nullish (ti_depends_on t) [])))
                (warnings
                 ++ invalid_references (Z.of_nat i + 1) (ti_title t)
                      (nullish (ti_depends_on t) [])) db1) as (db' & -> & Hl & Hd).
    { lia. }
    { intros k Hk. rewrite (links_tasks _ _ Hl1). auto. }
    exists db'. rewrite <- app_assoc. split; [reflexivity|].
    split; [eapply links_trans; eassumption|].
    intros [|k] taskInput d Hnth Hin; cbn [nth_error] in Hnth.
    + injection Hnth as <-. rewrite Nat.add_0_r. apply (links_kept _ _ Hl). auto.
    + replace (i + S k)%nat with (S i + k)%nat by lia. eauto.
Qed.

Lemma addFileOwnership_links db ownership :
  In (TaskFileOwnership.task_id ownership) (map Task.id (tasks db)) ->
  exists db', Queries.addFileOwnership db ownership = (Ok tt, db') /\ links_only db db'.
Proof.
  intros Ht. unfold Queries.addFileOwnership.
  apply (existsb_id_In Task.id) in Ht. rewrite Ht. cbn [negb].
  eexists. split; [reflexivity|]. split; [reflexivity|reflexivity|auto].
Qed.

Lemma add_patterns_spec taskId patterns :
  forall db,
    In taskId (map Task.id (tasks db)) ->
    exists db', add_patterns taskId patterns db = (Ok tt, db') /\ links_only db db'.
Proof.
  induction patterns as [|fp rest IH]; intros db Ht; cbn [add_patterns].
  - exists db. split; [reflexivity|apply links_refl].
  - unfold bind at 1.
    destruct (addFileOwnership_links db
                (TaskFileOwnership.mk taskId (fp_pattern fp) (fp_ownership_type fp)) Ht)
      as (db1 & -> & Hl1).
    destruct (IH db1) as (db' & -> & Hl).
    { rewrite (links_tasks _ _ Hl1). assumption. }
    exists db'. split; [reflexivity|eapply links_trans; eassumption].
Qed.

Lemma add_ownerships_spec inputs :
  forall i db,
    (i + length inputs <= n)%nat ->
    (forall k, (k < n)%nat -> In (uuid_task env k) (map Task.id (tasks db))) ->
    exists db', add_ownerships sequenceToIdMap i inputs db = (Ok tt, db')
                /\ links_only db db'.
Proof.
  induction inputs as [|t rest IH]; intros i db Hlen Hall; cbn [add_ownerships].
  - exists db. split; [reflexivity|apply links_refl].
  - cbn [length] in Hlen. cbv zeta. rewrite Hmap, resolve_index by lia. cbn [nullish].
    unfold bind at 1.
    assert (Hstep : exists db1,
               match ti_file_patterns t with
               | Some patterns => add_patterns (uuid_task env i) patterns
               | None => ret tt
               end db = (Ok tt, db1) /\ links_only db db1).
    { destruct (ti_file_patterns t) as [patterns|].
      - apply add_patterns_spec. apply Hall. lia.
      - exists db. split; [reflexivity|apply links_refl]. }
    destruct Hstep as (db1 & -> & Hl1).
    destruct (IH (S i) db1) as (db' & -> & Hl).
    { lia. }
    { intros k Hk. rewrite (links_tasks _ _ Hl1). auto. }
    exists db'. split; [reflexivity|eapply links_trans; eassumption].
Qed.


(** ** Step 7: the initial status *)


Lemma dependency_entries_keys inputs :
  forall i x, In x (JsMap.keys (dependency_entries i inputs))
              <-> exists k, (k < length inputs)%nat /\ x = uuid_task env (i + k).
Proof.
  unfold JsMap.keys.
  induction inputs as [|t r IH]; intros i x; cbn [dependency_entries map fst In length].
  - split; [intros []|intros (k & Hk & _); lia].
  - rewrite IH. split.
    + intros [<-|(k & Hk & ->)].
      * exists 0%nat. rewrite Nat.add_0_r. split; [lia|reflexivity].
      * exists (S k). split; [lia|]. f_equal. lia.
    + intros ([|k] & Hk & ->).
      * left. rewrite Nat.add_0_r. reflexivity.
      * right. exists k. split; [lia|]. f_equal. lia.
Qed.

Lemma dependency_entries_get inputs :
  forall i k taskInput,
    (i + length inputs <= n)%nat ->
    nth_error inputs k = Some taskInput ->
    JsMap.get (dependency_entries i inputs) (uuid_task env (i + k))
    = Some (resolved (nullish (ti_depends_on taskInput) [])).
Proof.
  induction inputs as [|t r IH]; intros i k taskInput Hlen Hnth; [destruct k; discriminate|].
  cbn [length] in Hlen. cbn [dependency_entries JsMap.get].
  destruct k as [|k]; cbn [nth_error] in Hnth.
  - injection Hnth as <-. rewrite Nat.add_0_r, String.eqb_refl. reflexivity.
  - assert (Hk : (k < length r)%nat) by (apply nth_error_Some; congruence).
    destruct (String.eqb_spec (uuid_task env i) (uuid_task env (i + S k))) as [E|_].
    + apply Hdistinct in E; lia.
    + replace (i + S k)%nat with (S i + k)%nat by lia. apply IH; [lia|assumption].
Qed.

Lemma dependency_entries_set inputs :
  forall i m,
    (i + length inputs <= n)%nat ->
    (forall k, (k < length inputs)%nat -> ~ In (uuid_task env (i + k)) (JsMap.keys m)) ->
    set_entries m (dependency_entries i inputs) = m ++ dependency_entries i inputs.
Proof.
  unfold set_entries.
  induction inputs as [|t r IH]; intros i m Hlen Hfresh;
    cbn [dependency_entries fold_left fst snd].
  - rewrite app_nil_r. reflexivity.
  - cbn [length] in Hlen. rewrite keys_set_absent.
    2:{ specialize (Hfresh 0%nat). rewrite Nat.add_0_r in Hfresh. apply Hfresh.
        cbn [length]. lia. }
    rewrite IH.
    + rewrite <- app_assoc. reflexivity.
    + lia.
    + intros k Hk. unfold JsMap.keys. rewrite map_app, in_app_iff. cbn [map fst In].
      intros [Hin|[E|[]]].
      * apply (Hfresh (S k)); [cbn [length]; lia|].
        replace (i + S k)%nat with (S i + k)%nat by lia. assumption.
      * apply Hdistinct in E; lia.
Qed.

(** Whether a task lists the number of a task of the plan. *)
Definition names_task (s : Z) : bool := (1 <=? s) && (s <=? Z.of_nat n).

Definition has_prerequisite (taskInput : TaskInput) : bool :=
  existsb names_task (nullish (ti_depends_on taskInput) []).

Definition initial_status (taskInput : TaskInput) : TaskStatus :=
  if has_prerequisite taskInput then blocked else pending.

Lemma resolved_length depends_on :
  (0 <? length (resolved depends_on))%nat = existsb names_task depends_on.
Proof.
  induction depends_on as [|s rest IH]; [reflexivity|].
  cbn [resolved flat_map existsb]. fold (resolved rest).
  unfold resolve at 1, names_task at 1.
  destruct ((1 <=? s) && (s <=? Z.of_nat n)); cbn [orb]; [reflexivity|exact IH].
Qed.

Lemma resolved_In depends_on d :
  In d (resolved depends_on)
  <-> exists s, In s depends_on /\ names_task s = true
                /\ d = uuid_task env (Z.to_nat (s - 1)).
Proof.
  unfold resolved. rewrite in_flat_map. split.
  - intros (s & Hs & Hd). exists s. split; [assumption|].
    unfold resolve in Hd. unfold names_task.
    destruct ((1 <=? s) && (s <=? Z.of_nat n)); [|destruct Hd].
    destruct Hd as [<-|[]]. split; reflexivity.
  - intros (s & Hs & Hn & ->). exists s. split; [assumption|].
    unfold resolve. unfold names_task in Hn. rewrite Hn. left. reflexivity.
Qed.

Lemma canStart_nothing_completed dependencyMap taskId :
  Dag.canStart taskId dependencyMap ∅
  = negb (0 <? length (nullish (JsMap.get dependencyMap taskId) []))%nat.
Proof.
  unfold Dag.canStart. cbv zeta.
  destruct (nullish (JsMap.get dependencyMap taskId) []) as [|d ds]; reflexivity.
Qed.

Definition created_entry (i : nat) (taskInput : TaskInput) : CreatedTask :=
  {| created_id := uuid_task env i;
     created_sequence := Z.of_nat i + 1;
     created_title := ti_title taskInput;
     created_status := initial_status taskInput;
     created_can_start := negb (has_prerequisite taskInput) |}.

Fixpoint created_entries (i : nat) (inputs : list TaskInput) : list CreatedTask :=
  match inputs with
  | [] => []
  | taskInput :: rest => created_entry i taskInput :: created_entries (S i) rest
  end.

Lemma created_entries_length i inputs : length (created_entries i inputs) = length inputs.
Proof. revert i. induction inputs as [|t r IH]; intros i; cbn; [reflexivity|]. rewrite IH. reflexivity. Qed.

Lemma created_entries_nth inputs :
  forall i k, nth_error (created_entries i inputs) k
              = option_map (created_entry (i + k)) (nth_error inputs k).
Proof.
  induction inputs as [|t r IH]; intros i k; cbn [created_entries].
  - destruct k; reflexivity.
  - destruct k as [|k]; cbn [nth_error option_map].
    + rewrite Nat.add_0_r. reflexivity.
    + rewrite IH. replace (S i + k)%nat with (i + S k)%nat by lia. reflexivity.
Qed.

Definition to_blocked : TaskUpdates.t :=
  TaskUpdates.mk (Some blocked) None None None None None None None None.

(** Whether step 7 blocks the row [x], from index [i] on. *)
Fixpoint marks_blocked (i : nat) (inputs : list TaskInput) (x : string) : bool :=
  match inputs with
  | [] => false
  | taskInput :: rest =>
      (String.eqb x (uuid_task env i) && has_prerequisite taskInput)
      || marks_blocked (S i) rest x
  end.

Lemma marks_blocked_other inputs :
  forall i x,
    (forall k, (k < length inputs)%nat -> x <> uuid_task env (i + k)) ->
    marks_blocked i inputs x = false.
Proof.
  induction inputs as [|t r IH]; intros i x Hx; [reflexivity|]. cbn [marks_blocked].
  destruct (String.eqb_spec x (uuid_task env i)) as [E|_].
  { exfalso. apply (Hx 0%nat); [cbn [length]; lia|]. rewrite Nat.add_0_r. assumption. }
  cbn [andb orb]. apply IH. intros k Hk.
  replace (S i + k)%nat with (i + S k)%nat by lia. apply Hx. cbn [length]. lia.
Qed.

Lemma marks_blocked_index inputs :
  forall i k taskInput,
    (i + length inputs <= n)%nat ->
    nth_error inputs k = Some taskInput ->
    marks_blocked i inputs (uuid_task env (i + k)) = has_prerequisite taskInput.
Proof.
  induction inputs as [|t r IH]; intros i k taskInput Hlen Hnth; [destruct k; discriminate|].
  cbn [length] in Hlen. cbn [marks_blocked].
  destruct k as [|k]; cbn [nth_error] in Hnth.
  - injection Hnth as <-. rewrite Nat.add_0_r, String.eqb_refl. cbn [andb].
    destruct (has_prerequisite t); [reflexivity|]. cbn [orb].
    apply marks_blocked_other. intros k Hk E. apply Hdistinct in E; lia.
  - assert (Hk : (k < length r)%nat) by (apply nth_error_Some; congruence).
    destruct (String.eqb_spec (uuid_task env (i + S k)) (uuid_task env i)) as [E|_].
    { apply Hdistinct in E; lia. }
    cbn [andb orb]. replace (i + S k)%nat with (S i + k)%nat by lia.
    apply IH; [lia|assumption].
Qed.

Lemma set_initial_status_spec dependencyMap inputs :
  forall i outputTasks db,
    (i + length inputs <= n)%nat ->
    (forall k taskInput,
        nth_error inputs k = Some taskInput ->
        JsMap.get dependencyMap (uuid_task env (i + k))
        = Some (resolved (nullish (ti_depends_on taskInput) []))) ->
    exists db',
      set_initial_status sequenceToIdMap dependencyMap i (new_rows i inputs) outputTasks db
      = (Ok (outputTasks ++ created_entries i inputs), db')
      /\ task_groups db' = task_groups db
      /\ task_dependencies db' = task_dependencies db
      /\ (forall x,
            Queries.getTask db' x
            = option_map
                (fun r => if marks_blocked i inputs x
                          then Queries.apply_updates to_blocked r else r)
                (Queries.getTask db x)).
Proof.
  induction inputs as [|t rest IH]; intros i outputTasks db Hlen Hget;
    cbn [set_initial_status new_rows created_entries marks_blocked].
  - exists db. unfold ret. rewrite app_nil_r. split; [reflexivity|].
    split; [reflexivity|]. split; [reflexivity|].
    intros x. destruct (Queries.getTask db x); reflexivity.
  - cbn [length] in Hlen. cbv zeta.
    rewrite Hmap, resolve_index by lia. cbn [nullish].
    rewrite canStart_nothing_completed.
    specialize (Hget 0%nat t eq_refl) as Hget0. rewrite Nat.add_0_r in Hget0.
    rewrite Hget0. cbn [nullish]. rewrite resolved_length.
    fold (has_prerequisite t). cbn [new_row Task.title].
    unfold bind at 1.
    set (db1 := if has_prerequisite t
                then fst (Queries.updateTask db (uuid_task env i) to_blocked) else db).
    assert (Hstep :
              (if has_prerequisite t
               then updateTask (uuid_task env i)
                      (TaskUpdates.mk (Some blocked) None None None None None None None None)
                    ;;; ret tt
               else ret tt) db = (Ok tt, db1)).
    { unfold db1. destruct (has_prerequisite t); [|reflexivity].
      unfold bind, updateTask, ret, to_blocked.
      destruct (Queries.updateTask db (uuid_task env i) _); reflexivity. }
    rewrite Hstep.
    destruct (IH (S i)
                (outputTasks
                 ++ [{| created_id := uuid_task env i;
                        created_sequence := Z.of_nat i + 1;
                        created_title := ti_title t;
                        created_status := if has_prerequisite t then blocked else pending;
                        created_can_start := negb (has_prerequisite t) |}]) db1)
      as (db' & -> & Hg & Hd & Hrows).
    { lia. }
    { intros k taskInput Hnth. replace (S i + k)%nat with (i + S k)%nat by lia.
      apply Hget. assumption. }
    exists db'. rewrite <- app_assoc. split; [reflexivity|].
    assert (Hother : task_groups db1 = task_groups db
                     /\ task_dependencies db1 = task_dependencies db).
    { unfold db1. destruct (has_prerequisite t); [|split; reflexivity].
      destruct (updateTask_other_tables db (uuid_task env i) to_blocked) as (? & ? & _).
      split; assumption. }
    split; [rewrite Hg; apply Hother|]. split; [rewrite Hd; apply Hother|].
    intros x. rewrite Hrows. unfold db1.
    destruct (has_prerequisite t).
    + rewrite updateTask_getTask.
      destruct (Queries.getTask db x) as [r|] eqn:Er; [|reflexivity].
      cbn [option_map]. destruct (getTask_Some _ _ _ Er) as [-> _].
      rewrite andb_true_r.
      destruct (String.eqb x (uuid_task env i)); cbn [orb];
        destruct (marks_blocked (S i) rest x); reflexivity.
    + rewrite andb_false_r. reflexivity.
Qed.

End Linking.

Lemma set_initial_status_quiet sequenceToIdMap dependencyMap createdTasks :
  forall i outputTasks,
    quiet (set_initial_status sequenceToIdMap dependencyMap i createdTasks outputTasks).
Proof.
  induction createdTasks as [|created rest IH]; intros i outputTasks;
    cbn [set_initial_status]; [apply quiet_ret|].
  cbv zeta. apply quiet_bind; [|intros _; apply IH].
  destruct (0 <? length _)%nat; quiet_tac.
Qed.

Lemma new_rows_groups inputs :
  forall i t, In t (new_rows i inputs) -> Task.group_id t = groupId.
Proof.
  induction inputs as [|t0 r IH]; intros i t; cbn [new_rows In]; [intros []|].
  intros [<-|Hin]; [reflexivity|eauto].
Qed.

Lemma new_rows_NoDup inputs :
  forall i, (i + length inputs <= n)%nat ->
            List.NoDup (map Task.id (new_rows i inputs)).
Proof.
  induction inputs as [|t r IH]; intros i Hlen; cbn [new_rows map]; [constructor|].
  cbn [length] in Hlen. constructor; [|apply IH; lia].
  rewrite new_rows_ids. intros (k & Hk & E). cbn [new_row Task.id] in E.
  apply Hdistinct in E; lia.
Qed.

Lemma new_rows_find inputs :
  forall i k taskInput,
    (i + length inputs <= n)%nat ->
    nth_error inputs k = Some taskInput ->
    List.find (fun t => String.eqb (Task.id t) (uuid_task env (i + k))) (new_rows i inputs)
    = Some (new_row (i + k) taskInput).
Proof.
  induction inputs as [|t r IH]; intros i k taskInput Hlen Hnth; [destruct k; discriminate|].
  cbn [length] in Hlen. cbn [new_rows List.find new_row Task.id].
  destruct k as [|k]; cbn [nth_error] in Hnth.
  - injection Hnth as <-. rewrite Nat.add_0_r, String.eqb_refl. reflexivity.
  - assert (Hk : (k < length r)%nat) by (apply nth_error_Some; congruence).
    destruct (String.eqb_spec (uuid_task env i) (uuid_task env (i + S k))) as [E|_].
    + apply Hdistinct in E; lia.
    + replace (i + S k)%nat with (S i + k)%nat by lia. apply IH; [lia|assumption].
Qed.

End CreateTasks.

Lemma find_app_first {A} (p : A -> bool) (l1 l2 : list A) :
  List.find p (l1 ++ l2)
  = match List.find p l1 with Some x => Some x | None => List.find p l2 end.
Proof. induction l1 as [|a l1 IH]; [reflexivity|]. cbn. destruct (p a); [reflexivity|exact IH]. Qed.

Lemma find_id_absent (ts : list Task.t) x :
  ~ In x (map Task.id ts) -> List.find (fun t => String.eqb (Task.id t) x) ts = None.
Proof.
  intros H. destruct (List.find _ ts) as [t|] eqn:E; [|reflexivity].
  exfalso. apply H. apply find_some in E. destruct E as [Hin E].
  apply String.eqb_eq in E. subst x. apply in_map. assumption.
Qed.

Section CreateTasksRun.
Import TaskService.
Variables (input : CreateTasksInput) (env : CreateEnv) (db : DB).

Let inputs := input_tasks input.
Let n := length (input_tasks input).

Hypothesis Hgroup : ~ In (uuid_group env) (map TaskGroup.id (task_groups db)).
Hypothesis Hfresh :
  forall i, (i < n)%nat ->
            uuid_task env i <> EmptyString
            /\ ~ In (uuid_task env i) (map Task.id (tasks db)).
Hypothesis Hdistinct :
  forall i j, (i < n)%nat -> (j < n)%nat -> uuid_task env i = uuid_task env j -> i = j.

(** The row of the group. *)
Definition plan_group : TaskGroup.t :=
  {| TaskGroup.id := uuid_group env;
     TaskGroup.title := group_title input;
     TaskGroup.description := group_description input;
     TaskGroup.created_at := created_now env;
     TaskGroup.status := "active" |}.

(** [dependencyMap] after step 3. *)
Definition plan_dependencies : JsMap.t (list string) :=
  dependency_entries env n 0 inputs.

(** What step 5 adds to the warnings. *)
Definition cycle_warning : list string :=
  let validation :=
    nullish (Dag.validateNoCycles plan_dependencies)
      {| Dag.valid := true; Dag.cycle := None |} in
  if negb (Dag.valid validation)
  then ["Dependency cycle detected: "
        +:+ match Dag.cycle validation with
            | Some cycle => join " -> " cycle
            | None => "undefined"
            end]
  else [].

Lemma createTasks_run :
  exists db',
    createTasks input env db
    = (Ok {| created_group_id := uuid_group env;
             created_tasks := created_entries env n 0 inputs;
             created_warnings :=
               (reference_warnings env n 0 inputs ++ cycle_warning)
               ++ overlap_warnings 0 inputs |}, db')
    /\ task_groups db' = task_groups db ++ [plan_group]
    /\ (forall x,
          Queries.getTask db' x
          = option_map
              (fun r => if marks_blocked env n 0 inputs x
                        then Queries.apply_updates to_blocked r else r)
              (List.find (fun t => String.eqb (Task.id t) x)
                 (tasks db ++ new_rows env (uuid_group env) 0 inputs)))
    /\ (forall a b, depends db a b -> depends db' a b)
    /\ (forall k taskInput d,
          nth_error inputs k = Some taskInput ->
          In d (resolved env n (nullish (ti_depends_on taskInput) [])) ->
          depends db' (uuid_task env k) d)
    /\ map fixed_columns (tasks db')
       = map fixed_columns (tasks db ++ new_rows env (uuid_group env) 0 inputs).
Proof.
  unfold createTasks. cbv zeta. fold inputs.
  unfold bind at 1. unfold Queries.createGroup. cbn [Queries.new_group_id
    Queries.new_group_title Queries.new_group_description Queries.new_group_status].
  replace (existsb (fun g => String.eqb (TaskGroup.id g) (uuid_group env)) (task_groups db))
    with false.
  2:{ symmetry. apply not_true_is_false. rewrite existsb_id_In. assumption. }
  fold plan_group.
  set (db1 := {| task_groups := task_groups db ++ [plan_group];
                 tasks := tasks db;
                 task_dependencies := task_dependencies db;
                 task_file_ownership := task_file_ownership db;
                 progress_logs := progress_logs db |}).
  unfold bind at 1.
  rewrite (create_rows_spec env (uuid_group env) inputs 0 [] [] db1).
  2:{ cbn [db1 task_groups]. rewrite map_app. apply in_or_app. right. left. reflexivity. }
  2:{ intros k Hk. apply Hfresh. assumption. }
  2:{ intros k k' Hk Hk'. apply Hdistinct; assumption. }
  cbn [fst snd app].
  set (sequenceToIdMap := sequences_after env 0 inputs []).
  set (db2 := Queries.set_tasks db1 _).
  assert (Hne : forall k, (k < n)%nat -> uuid_task env k <> EmptyString)
    by (intros k Hk; apply Hfresh; assumption).
  assert (Hmap : forall s, sequence_get sequenceToIdMap s = resolve env n s).
  { intros s. unfold sequenceToIdMap. rewrite sequences_after_get. unfold resolve.
    change (Z.of_nat 0) with 0. rewrite !Z.add_0_l.
    change (length inputs) with n.
    destruct ((1 <=? s) && (s <=? Z.of_nat n)); reflexivity. }
  assert (Hall : forall k, (k < n)%nat -> In (uuid_task env k) (map Task.id (tasks db2))).
  { intros k Hk. cbn [db2 Queries.set_tasks tasks db1]. rewrite map_app. apply in_or_app.
    right. apply new_rows_ids. exists k. split; [assumption|reflexivity]. }
  destruct (add_dependencies_spec env n Hne sequenceToIdMap Hmap inputs 0 JsMap.empty []
              db2 (Nat.le_refl _) Hall) as (db3 & E3 & Hl3 & Hd3).
  unfold bind at 1. rewrite E3. cbn [fst snd app].
  rewrite (dependency_entries_set env n Hdistinct inputs 0 JsMap.empty (Nat.le_refl _))
    by (intros k _ []).
  change (JsMap.empty ++ dependency_entries env n 0 inputs) with plan_dependencies.
  destruct (add_ownerships_spec env n sequenceToIdMap Hmap inputs 0 db3 (Nat.le_refl _))
    as (db4 & E4 & Hl4).
  { intros k Hk. rewrite (links_tasks _ _ Hl3). auto. }
  unfold bind at 1. rewrite E4.
  destruct (set_initial_status_spec env (uuid_group env) n sequenceToIdMap Hmap
              plan_dependencies inputs 0 [] db4 (Nat.le_refl _))
    as (db5 & E5 & Hg5 & Hdep5 & Hrows5).
  { intros k taskInput Hnth.
    apply (dependency_entries_get env n Hdistinct inputs 0 k taskInput (Nat.le_refl _) Hnth). }
  pose proof (set_initial_status_quiet sequenceToIdMap plan_dependencies
                (new_rows env (uuid_group env) 0 inputs) 0%nat [] db4) as Hquiet.
  rewrite E5 in Hquiet. cbn [snd] in Hquiet.
  unfold bind at 1. rewrite E5. unfold ret. cbn [app].
  exists db5. split.
  { f_equal. f_equal. unfold cycle_warning. cbv zeta.
    destruct (negb _); [reflexivity|]. rewrite app_nil_r. reflexivity. }
  split.
  { rewrite Hg5, (links_groups _ _ Hl4), (links_groups _ _ Hl3). reflexivity. }
  split.
  { intros x. rewrite Hrows5. unfold Queries.getTask.
    rewrite (links_tasks _ _ Hl4), (links_tasks _ _ Hl3). reflexivity. }
  assert (Hkeep : forall a b, depends db3 a b -> depends db5 a b).
  { intros a b H. unfold depends. rewrite Hdep5. apply (links_kept _ _ Hl4). assumption. }
  split.
  { intros a b H. apply Hkeep, (links_kept _ _ Hl3). exact H. }
  split.
  { intros k taskInput d Hnth Hin. apply Hkeep. apply (Hd3 k taskInput d Hnth Hin). }
  rewrite (keeps_rows _ _ _ Hquiet), (links_tasks _ _ Hl4), (links_tasks _ _ Hl3).
  reflexivity.
Qed.

End CreateTasksRun.

(** Task [i] of the plan lists the number of task [j] of the plan
    (indices from 0, numbers from 1). *)
Definition refers (inputs : list TaskService.TaskInput) (i j : nat) : Prop :=
  exists taskInput,
    nth_error inputs i = Some taskInput
    /\ (j < length inputs)%nat
    /\ In (Z.of_nat j + 1) (nullish (TaskService.ti_depends_on taskInput) []).

Section PlanCycles.
Import TaskService.
Variables (input : CreateTasksInput) (env : CreateEnv).

Let inputs := input_tasks input.
Let n := length (input_tasks input).

Hypothesis Hdistinct :
  forall i j, (i < n)%nat -> (j < n)%nat -> uuid_task env i = uuid_task env j -> i = j.

Lemma plan_dependencies_get i taskInput :
  nth_error inputs i = Some taskInput ->
  JsMap.get (plan_dependencies input env) (uuid_task env i)
  = Some (resolved env n (nullish (ti_depends_on taskInput) [])).
Proof.
  intros Hnth.
  exact (dependency_entries_get env n Hdistinct inputs 0 i taskInput (Nat.le_refl _) Hnth).
Qed.

Lemma refers_edge i j :
  refers inputs i j ->
  edge (plan_dependencies input env) (uuid_task env i) (uuid_task env j).
Proof.
  intros (t & Hnth & Hj & Hin). unfold edge.
  rewrite (plan_dependencies_get i t Hnth).
  cbn [nullish]. apply resolved_In. exists (Z.of_nat j + 1).
  split; [assumption|]. split.
  - unfold names_task. change (length inputs) with n in Hj.
    destruct (Z.leb_spec 1 (Z.of_nat j + 1)); [|lia].
    destruct (Z.leb_spec (Z.of_nat j + 1) (Z.of_nat n)); [reflexivity|lia].
  - f_equal. lia.
Qed.

Lemma edge_refers u v :
  edge (plan_dependencies input env) u v ->
  exists i j, u = uuid_task env i /\ v = uuid_task env j /\ refers inputs i j.
Proof.
  unfold edge.
  destruct (JsMap.get (plan_dependencies input env) u) as [ds|] eqn:E;
    cbn [nullish]; [|intros []].
  intros Hv. pose proof (get_Some_keys _ _ _ E) as Hk.
  apply dependency_entries_keys in Hk. destruct Hk as (i & Hi & ->). cbn [Nat.add] in *.
  destruct (nth_error inputs i) as [t|] eqn:Hnth.
  2:{ apply nth_error_None in Hnth. unfold inputs in *. lia. }
  rewrite (plan_dependencies_get i t Hnth) in E.
  injection E as <-. apply resolved_In in Hv. destruct Hv as (s & Hs & Hn & ->).
  unfold names_task in Hn. apply andb_true_iff in Hn. destruct Hn as [H1 H2].
  apply Z.leb_le in H1, H2.
  exists i, (Z.to_nat (s - 1)). split; [reflexivity|]. split; [reflexivity|].
  exists t. split; [assumption|]. split; [change (length inputs) with n; lia|].
  replace (Z.of_nat (Z.to_nat (s - 1)) + 1) with s by lia. assumption.
Qed.

Lemma refers_bounds i j : refers inputs i j -> (i < n)%nat /\ (j < n)%nat.
Proof.
  intros (t & Hnth & Hj & _). split; [|exact Hj].
  apply nth_error_Some. change (input_tasks input) with inputs. congruence.
Qed.

Lemma tc_refers_bounds i j : tc (refers inputs) i j -> (i < n)%nat /\ (j < n)%nat.
Proof.
  induction 1 as [i j H|i k j H _ [_ IH]].
  - apply refers_bounds. assumption.
  - split; [apply (refers_bounds _ _ H)|exact IH].
Qed.

Lemma tc_refers_edge i j :
  tc (refers inputs) i j ->
  tc (edge (plan_dependencies input env)) (uuid_task env i) (uuid_task env j).
Proof.
  induction 1 as [i j H|i k j H _ IH].
  - apply tc_once, refers_edge. assumption.
  - eapply tc_l; [apply refers_edge; eassumption|exact IH].
Qed.

Lemma tc_edge_refers u v :
  tc (edge (plan_dependencies input env)) u v ->
  exists i j, u = uuid_task env i /\ v = uuid_task env j /\ tc (refers inputs) i j.
Proof.
  induction 1 as [u v H|u w v H _ IH].
  - destruct (edge_refers _ _ H) as (i & j & -> & -> & Hr).
    exists i, j. split; [reflexivity|]. split; [reflexivity|]. apply tc_once. assumption.
  - destruct (edge_refers _ _ H) as (i & k & -> & -> & Hr).
    destruct IH as (k' & j & E & -> & Htc).
    assert (k = k') as <-.
    { apply Hdistinct; [apply (refers_bounds _ _ Hr)|apply (tc_refers_bounds _ _ Htc)|exact E]. }
    exists i, j. split; [reflexivity|]. split; [reflexivity|].
    eapply tc_l; eassumption.
Qed.

Lemma plan_cyclic :
  cyclic (plan_dependencies input env) <-> exists i, tc (refers inputs) i i.
Proof.
  unfold cyclic. split.
  - intros [u Hu]. destruct (tc_edge_refers _ _ Hu) as (i & j & -> & E & Htc).
    assert (i = j) as <-.
    { apply Hdistinct; [apply (tc_refers_bounds _ _ Htc)..|exact E]. }
    exists i. assumption.
  - intros [i Hi]. exists (uuid_task env i). apply tc_refers_edge. assumption.
Qed.

Lemma cycle_warning_spec :
  ((exists i, tc (refers inputs) i i) ->
   exists cyc, cyc <> []
               /\ cycle_warning input env
                  = ["Dependency cycle detected: " +:+ join " -> " cyc])
  /\ (~ (exists i, tc (refers inputs) i i) -> cycle_warning input env = []).
Proof.
  unfold cycle_warning. cbv zeta.
  destruct (validateNoCycles_sound (plan_dependencies input env)) as (r & -> & Hr).
  cbn [nullish]. destruct (Dag.valid r); cbn [negb].
  - destruct Hr as [_ Hacyclic]. split; [|reflexivity].
    intros Hc. exfalso. apply Hacyclic, plan_cyclic. assumption.
  - destruct Hr as [Hc (cyc & -> & Hne)]. split.
    + intros _. exists cyc. split; [assumption|reflexivity].
    + intros Hn. exfalso. apply Hn, plan_cyclic. assumption.
Qed.

End PlanCycles.

(** X25.  [createTasks] on a store that holds neither the new group id nor
    any of the new task ids (which are distinct and not empty) never
    throws, whatever the dependency numbers and file patterns of the plan.
    The group table gains the one row of the group, with status [active].
    The answer lists the tasks in input order: task [i] (from 0) has the
    [i]-th generated id, sequence [i + 1] and the input title; it is
    [blocked] when it lists at least one number between 1 and the number
    of tasks, [pending] otherwise, and [can_start] is true exactly for the
    pending ones.  The row stored for it carries that status, priority
    [medium] unless one was given, progress 0 and no agent, branch or
    worktree; for every listed number in range the dependency on that
    task is stored.  The rows and the dependencies that were there before
    are as they were. *)
Theorem createTasks_spec (input : TaskService.CreateTasksInput)
    (env : TaskService.CreateEnv) (db : DB) :
  let inputs := TaskService.input_tasks input in
  let n := length inputs in
  ~ In (TaskService.uuid_group env) (map TaskGroup.id (task_groups db)) ->
  (forall i, (i < n)%nat ->
             TaskService.uuid_task env i <> EmptyString
             /\ ~ In (TaskService.uuid_task env i) (map Task.id (tasks db))) ->
  (forall i j, (i < n)%nat -> (j < n)%nat ->
               TaskService.uuid_task env i = TaskService.uuid_task env j -> i = j) ->
  exists out db',
    TaskService.createTasks input env db = (Ok out, db')
    /\ TaskService.created_group_id out = TaskService.uuid_group env
    /\ task_groups db' = task_groups db ++ [plan_group input env]
    /\ length (TaskService.created_tasks out) = n
    /\ (forall i taskInput,
          nth_error inputs i = Some taskInput ->
          nth_error (TaskService.created_tasks out) i
          = Some {| TaskService.created_id := TaskService.uuid_task env i;
                    TaskService.created_sequence := Z.of_nat i + 1;
                    TaskService.created_title := TaskService.ti_title taskInput;
                    TaskService.created_status := initial_status n taskInput;
                    TaskService.created_can_start :=
                      bool_decide (initial_status n taskInput = pending) |}
          /\ Queries.getTask db' (TaskService.uuid_task env i)
             = Some {| Task.id := TaskService.uuid_task env i;
                       Task.group_id := TaskService.uuid_group env;
                       Task.sequence := Z.of_nat i + 1;
                       Task.title := TaskService.ti_title taskInput;
                       Task.description := TaskService.ti_description taskInput;
                       Task.status := initial_status n taskInput;
                       Task.priority :=
                         nullish (TaskService.ti_priority taskInput) medium;
                       Task.assigned_to := None;
                       Task.branch_name := None;
                       Task.worktree_path := None;
                       Task.progress := 0;
                       Task.progress_note := None;
                       Task.created_at := TaskService.created_now env;
                       Task.started_at := None;
                       Task.completed_at := None;
                       Task.merged_at := None |}
          /\ (forall j, refers inputs i j ->
                        depends db' (TaskService.uuid_task env i)
                          (TaskService.uuid_task env j)))
    /\ (forall id, In id (map Task.id (tasks db)) ->
                   Queries.getTask db' id = Queries.getTask db id)
    /\ (forall a b, depends db a b -> depends db' a b).
Proof.
  intros inputs n Hgroup Hfresh Hdistinct.
  destruct (createTasks_run input env db Hgroup Hfresh Hdistinct)
    as (db' & Hrun & Hgroups & Hrows & Hkept & Hdeps & _).
  fold inputs n in Hrun, Hrows, Hdeps.
  eexists. exists db'. split; [exact Hrun|].
  cbn [TaskService.created_group_id TaskService.created_tasks].
  split; [reflexivity|]. split; [exact Hgroups|].
  split; [apply created_entries_length|]. split; [|split; [|exact Hkept]].
  - intros i t Hnth.
    assert (Hi : (i < n)%nat) by (apply nth_error_Some; fold inputs; congruence).
    split; [|split].
    + rewrite created_entries_nth, Hnth. cbn [option_map Nat.add].
      unfold created_entry, initial_status.
      destruct (has_prerequisite n t); reflexivity.
    + rewrite Hrows, find_app_first, find_id_absent by (apply Hfresh; assumption).
      pose proof (new_rows_find env (TaskService.uuid_group env) n Hdistinct inputs 0 i t
                    (Nat.le_refl _) Hnth) as Hfind.
      pose proof (marks_blocked_index env n Hdistinct inputs 0 i t (Nat.le_refl _) Hnth)
        as Hmark.
      cbn [Nat.add] in Hfind, Hmark. rewrite Hfind, Hmark. cbn [option_map].
      unfold initial_status. destruct (has_prerequisite n t); reflexivity.
    + intros j (t' & Hnth' & Hj & Hin).
      assert (t' = t) as -> by congruence.
      apply (Hdeps i t _ Hnth). apply resolved_In. exists (Z.of_nat j + 1).
      split; [assumption|]. split.
      * unfold names_task. fold n in Hj.
        destruct (Z.leb_spec 1 (Z.of_nat j + 1)); [|lia].
        destruct (Z.leb_spec (Z.of_nat j + 1) (Z.of_nat n)); [reflexivity|lia].
      * f_equal. lia.
  - intros id Hid. rewrite Hrows, find_app_first.
    unfold Queries.getTask.
    destruct (List.find (fun t => String.eqb (Task.id t) id) (tasks db)) as [r|] eqn:E.
    + cbn [option_map]. rewrite marks_blocked_other; [reflexivity|].
      intros k Hk ->. apply (Hfresh k Hk). assumption.
    + exfalso. apply (existsb_id_In Task.id) in Hid.
      rewrite existsb_find, E in Hid. discriminate.
Qed.

Lemma createTasks_spec_witness :
  exists out db',
    TaskService.createTasks Scenario.plan Scenario.plan_env Scenario.fan = (Ok out, db')
    /\ nth_error (TaskService.created_tasks out) 0%nat
       = Some {| TaskService.created_id := "n1";
                 TaskService.created_sequence := 1;
                 TaskService.created_title := "schema";
                 TaskService.created_status := pending;
                 TaskService.created_can_start := true |}
    /\ nth_error (TaskService.created_tasks out) 1%nat
       = Some {| TaskService.created_id := "n2";
                 TaskService.created_sequence := 2;
                 TaskService.created_title := "api";
                 TaskService.created_status := blocked;
                 TaskService.created_can_start := false |}
    /\ option_map Task.status (Queries.getTask db' "n2") = Some blocked
    /\ depends db' "n2" "n1"
    /\ Queries.getTask db' "t1" = Queries.getTask Scenario.fan "t1".
Proof.
  destruct (createTasks_spec Scenario.plan Scenario.plan_env Scenario.fan)
    as (out & db' & Hrun & _ & _ & _ & Htasks & Hold & _).
  { simpl. intros [H|[]]. discriminate H. }
  { intros [|[|[|i]]] Hi; try (simpl in Hi; lia); (split; [vm_compute; discriminate|]);
      vm_compute; intuition discriminate. }
  { intros [|[|[|i]]] [|[|[|j]]] Hi Hj E; try reflexivity; try (simpl in Hi, Hj; lia);
      vm_compute in E; discriminate E. }
  exists out, db'. split; [exact Hrun|].
  destruct (Htasks 0%nat _ eq_refl) as (Hout0 & _ & _).
  destruct (Htasks 1%nat _ eq_refl) as (Hout1 & Hrow1 & Hdep1).
  split; [exact Hout0|]. split; [exact Hout1|].
  split; [change "n2" with (TaskService.uuid_task Scenario.plan_env 1); rewrite Hrow1; reflexivity|].
  split.
  - apply (Hdep1 0%nat). eexists. split; [reflexivity|]. split; [simpl; lia|].
    simpl. left. reflexivity.
  - apply Hold. simpl. left. reflexivity.
Defined.

(** X26.  Under the same conditions on the generated ids, no plan is
    rejected for what its dependency numbers say.  The warnings of
    [createTasks] are, in this order: one for every listed number that
    names no task of the plan; then one [Dependency cycle detected]
    warning with a non-empty path, present exactly when some task reaches
    itself along the listed numbers that name a task; then the warnings
    for overlapping file patterns.  A plan with such a cycle is stored all
    the same, and every task on a cycle is answered as [blocked] with
    [can_start] false. *)
Theorem createTasks_warnings (input : TaskService.CreateTasksInput)
    (env : TaskService.CreateEnv) (db : DB) :
  let inputs := TaskService.input_tasks input in
  let n := length inputs in
  ~ In (TaskService.uuid_group env) (map TaskGroup.id (task_groups db)) ->
  (forall i, (i < n)%nat ->
             TaskService.uuid_task env i <> EmptyString
             /\ ~ In (TaskService.uuid_task env i) (map Task.id (tasks db))) ->
  (forall i j, (i < n)%nat -> (j < n)%nat ->
               TaskService.uuid_task env i = TaskService.uuid_task env j -> i = j) ->
  exists out db' cycles,
    TaskService.createTasks input env db = (Ok out, db')
    /\ TaskService.created_warnings out
       = reference_warnings env n 0 inputs
         ++ cycles ++ TaskService.overlap_warnings 0 inputs
    /\ ((exists i, tc (refers inputs) i i) ->
        exists cyc,
          cyc <> [] /\ cycles = ["Dependency cycle detected: " +:+ join " -> " cyc])
    /\ (~ (exists i, tc (refers inputs) i i) -> cycles = [])
    /\ (forall i, tc (refers inputs) i i ->
                  exists created,
                    nth_error (TaskService.created_tasks out) i = Some created
                    /\ TaskService.created_status created = blocked
                    /\ TaskService.created_can_start created = false).
Proof.
  intros inputs n Hgroup Hfresh Hdistinct.
  destruct (createTasks_run input env db Hgroup Hfresh Hdistinct) as (db' & Hrun & _).
  fold inputs n in Hrun.
  eexists. exists db', (cycle_warning input env). split; [exact Hrun|].
  cbn [TaskService.created_warnings TaskService.created_tasks].
  split; [rewrite app_assoc; reflexivity|].
  destruct (cycle_warning_spec input env Hdistinct) as [Hcyc Hnone].
  split; [exact Hcyc|]. split; [exact Hnone|].
  intros i Hi.
  assert (exists j, refers inputs i j) as (j & t & Hnth & Hj & Hin).
  { inversion Hi; subst; eauto. }
  assert (Hpre : has_prerequisite n t = true).
  { unfold has_prerequisite. apply existsb_exists. exists (Z.of_nat j + 1).
    split; [assumption|]. unfold names_task. fold n in Hj.
    destruct (Z.leb_spec 1 (Z.of_nat j + 1)); [|lia].
    destruct (Z.leb_spec (Z.of_nat j + 1) (Z.of_nat n)); [reflexivity|lia]. }
  eexists. rewrite created_entries_nth, Hnth. cbn [option_map].
  split; [reflexivity|].
  unfold created_entry, initial_status. rewrite Hpre. split; reflexivity.
Qed.

Lemma createTasks_warnings_witness :
  exists out db' cyc,
    TaskService.createTasks Scenario.plan Scenario.plan_env Scenario.fan = (Ok out, db')
    /\ TaskService.created_warnings out
       = [ "Task #2 " +:+ String Json.dquote "api"
           +:+ String Json.dquote " references invalid dependency sequence #7";
           "Dependency cycle detected: " +:+ join " -> " cyc;
           "File pattern overlap: task #1 " +:+ String Json.dquote "schema"
           +:+ String Json.dquote " (src/db/**) and task #2 "
           +:+ String Json.dquote "api" +:+ String Json.dquote " (src/db/queries/**)" ]
    /\ cyc <> []
    /\ option_map TaskService.created_status
         (nth_error (TaskService.created_tasks out) 2%nat) = Some blocked.
Proof.
  destruct (createTasks_warnings Scenario.plan Scenario.plan_env Scenario.fan)
    as (out & db' & cycles & Hrun & Hwarn & Hcyc & _ & Hblocked).
  { simpl. intros [H|[]]. discriminate H. }
  { intros [|[|[|i]]] Hi; try (simpl in Hi; lia); (split; [vm_compute; discriminate|]);
      vm_compute; intuition discriminate. }
  { intros [|[|[|j]]] [|[|[|k]]] Hj Hk E; try reflexivity; try (simpl in Hj, Hk; lia);
      vm_compute in E; discriminate E. }
  assert (Hloop : tc (refers (TaskService.input_tasks Scenario.plan)) 2%nat 2%nat).
  { apply tc_once. eexists. split; [reflexivity|]. split; [simpl; lia|].
    simpl. left. reflexivity. }
  destruct Hcyc as (cyc & Hne & ->); [exists 2%nat; exact Hloop|].
  destruct (Hblocked 2%nat Hloop) as (created & Hnth & Hstatus & _).
  exists out, db', cyc. split; [exact Hrun|]. split; [rewrite Hwarn; reflexivity|].
  split; [exact Hne|]. rewrite Hnth. cbn [option_map]. rewrite Hstatus. reflexivity.
Defined.

(* ===================================================================== *)
(** * Tasks that wait for each other *)
(* ===================================================================== *)

(** A sequence of requests to the service, each with the git it finds and
    the values it draws. *)
Fixpoint run_all (slugify : string -> string)
    (resolve : string -> string -> string -> string)
    (requests : list (GitService * Operation * Env)) (db : DB) : DB :=
  match requests with
  | [] => db
  | (git, op, env) :: rest =>
      run_all slugify resolve rest (run git slugify resolve op env db)
  end.

(** A row no agent works on: [blocked] or [failed]. *)
Definition halted (r : Task.t) : Prop :=
  Task.status r = blocked \/ Task.status r = failed.

(** Every task of [waiting] is halted and has a prerequisite that is
    itself in [waiting]. *)
Definition deadlocked (db : DB) (waiting : string -> Prop) : Prop :=
  forall c, waiting c ->
    exists r d,
      Queries.getTask db c = Some r /\ halted r /\ waiting d /\ depends db c d.

(** What the schema gives: distinct task ids; and no empty group id. *)
Record keyed (db : DB) : Prop := {
  keyed_ids : List.NoDup (map Task.id (tasks db));
  keyed_groups : forall t, In t (tasks db) -> Task.group_id t <> EmptyString
}.

Lemma run_keeps_store git slugify resolve op env db :
  keeps_store 1 db (run git slugify resolve op env db).
Proof.
  revert db. destruct op as [input|task_id|input|input|input|input]; cbn [run].
  - change (logs_once (TaskService.claimTask input env)).
    unfold TaskService.claimTask. once_tac.
  - change (logs_once (TaskService.startTask git slugify resolve task_id env)).
    unfold TaskService.startTask. once_tac.
  - change (logs_once (TaskService.updateProgress git input env)).
    unfold TaskService.updateProgress. once_tac.
  - change (logs_once (TaskService.completeTask input env)).
    unfold TaskService.completeTask. once_tac.
  - change (logs_once (TaskService.mergeTask git input env)).
    unfold TaskService.mergeTask. once_tac.
  - change (logs_once (TaskService.cleanupTask git input env)).
    unfold TaskService.cleanupTask. once_tac.
Qed.

Lemma fixed_columns_keyed (ts ts' : list Task.t) :
  map fixed_columns ts' = map fixed_columns ts ->
  map Task.id ts' = map Task.id ts
  /\ ((forall t, In t ts -> Task.group_id t <> EmptyString) ->
      forall t, In t ts' -> Task.group_id t <> EmptyString).
Proof.
  intros H. split.
  - assert (E : forall l, map Task.id l
                          = map (fun c => fst (fst (fst (fst (fst (fst c))))))
                              (map fixed_columns l)).
    { intros l. rewrite map_map. reflexivity. }
    rewrite (E ts'), (E ts), H. reflexivity.
  - intros Hg t Hin. apply (in_map fixed_columns) in Hin. rewrite H in Hin.
    apply in_map_iff in Hin. destruct Hin as (t0 & E & H0).
    injection E as _ Eg _ _ _ _ _. rewrite <- Eg. apply Hg. assumption.
Qed.

Lemma keeps_keyed k db db' : keeps_store k db db' -> keyed db -> keyed db'.
Proof.
  intros [Hrows _ _ _ _] [Hpk Hg].
  destruct (fixed_columns_keyed _ _ Hrows) as [Hids Hgroups].
  split; [rewrite Hids; assumption|auto].
Qed.

Section Halted.
Variables (db : DB) (x d : string) (r rd : Task.t).
Hypothesis Hkeyed : keyed db.
Hypothesis Hr : Queries.getTask db x = Some r.
Hypothesis Hhalted : halted r.
Hypothesis Hdep : depends db x d.
Hypothesis Hrd : Queries.getTask db d = Some rd.
Hypothesis Hwaits : halted rd.

Lemma halted_prerequisite : In d (prerequisites db r).
Proof.
  destruct (getTask_Some _ _ _ Hr) as [Hid _].
  destruct (getTask_Some _ _ _ Hrd) as [Hidd Hind].
  unfold prerequisites. rewrite Hid. apply in_map_iff. exists rd.
  split; [assumption|]. apply getDependencies_In. split; [assumption|].
  rewrite Hidd. assumption.
Qed.

Lemma halted_is_not task s :
  Queries.getTask db (Task.id task) = Some task -> Task.status task = s ->
  s <> blocked -> s <> failed ->
  forall c rc, Queries.getTask db c = Some rc -> halted rc -> c <> Task.id task.
Proof.
  intros Hget Hs Hb Hf c rc Hc Hh ->. rewrite Hget in Hc. injection Hc as <-.
  destruct Hh; congruence.
Qed.

Lemma complete_keeps_halted input env :
  Queries.getTask (snd (TaskService.completeTask input env db)) x = Some r.
Proof.
  destruct Hkeyed as [Hpk Hg].
  unfold TaskService.completeTask. rewrite bind_query.
  destruct (Queries.getTask db (TaskService.complete_task_id input)) as [task|] eqn:Hget;
    [|exact Hr].
  destruct (getTask_Some _ _ _ Hget) as [Hid Hin].
  destruct (bool_decide (Task.status task = in_progress)) eqn:Hst; cbn [negb];
    [|exact Hr].
  apply bool_decide_eq_true in Hst. rewrite <- Hid in Hget.
  rewrite bind_updateTask, !bind_query, bind_unblock, snd_log_ret, row_after_log.
  destruct (getTask_Some _ _ _ Hr) as [Hidr Hinr].
  match goal with
  | |- context [Queries.updateTask db _ ?u] =>
      pose proof (tasks_after_unblock db task u Hpk Hin (Hg task Hin)) as Hafter
  end.
  cbv zeta in Hafter. unfold unlockedIds, completedTasks in Hafter.
  destruct Hafter as [_ Hothers].
  destruct (Hothers r Hinr) as [_ Hno].
  { rewrite Hidr.
    apply (halted_is_not task in_progress Hget Hst) with (rc := r);
      [discriminate|discriminate|assumption|assumption]. }
  rewrite <- Hidr. apply Hno.
  intros [_ (_ & _ & _ & Hall)].
  destruct (Hall d halted_prerequisite) as [E|(t & Ht & Eid & _ & Hs)].
  - apply (halted_is_not task in_progress Hget Hst) with (c := d) (rc := rd);
      [discriminate|discriminate|assumption|assumption|assumption].
  - destruct (getTask_Some _ _ _ Hrd) as [Hidd Hind].
    assert (t = rd) as -> by (apply (same_id_same_row db Hpk); congruence).
    destruct Hwaits, Hs; congruence.
Qed.

Lemma merge_keeps_halted git input env :
  Queries.getTask (snd (TaskService.mergeTask git input env db)) x = Some r.
Proof.
  destruct Hkeyed as [Hpk Hg].
  unfold TaskService.mergeTask. rewrite bind_call.
  destruct (isOnMainBranch git) as [onMain|e]; [|exact Hr].
  destruct onMain; cbn [negb].
  2:{ unfold bind at 1 2. unfold call, throw. destruct (getCurrentBranch git); exact Hr. }
  rewrite bind_ret, bind_query.
  destruct (Queries.getTask db (TaskService.merge_task_id input)) as [task|] eqn:Hget;
    [|exact Hr].
  destruct (getTask_Some _ _ _ Hget) as [Hid Hin].
  destruct (bool_decide (Task.status task = in_review)) eqn:Hst; cbn [negb];
    [|exact Hr].
  apply bool_decide_eq_true in Hst. rewrite <- Hid in Hget.
  destruct (truthy_string (Task.branch_name task)); cbn [negb]; [|exact Hr].
  cbv zeta. rewrite bind_call. destruct (mergeBranch git _ _) as [mergeResult|e]; [|exact Hr].
  destruct (merge_success mergeResult).
  2:{ rewrite snd_log_ret, row_after_log. exact Hr. }
  rewrite bind_updateTask, !bind_query, bind_unblock, snd_log_ret, row_after_log.
  destruct (getTask_Some _ _ _ Hr) as [Hidr Hinr].
  match goal with
  | |- context [Queries.updateTask db _ ?u] =>
      pose proof (tasks_after_merge db task u Hpk Hin (Hg task Hin) eq_refl) as Hafter
  end.
  cbv zeta in Hafter. unfold mergeUnlockedIds, mergedTasks in Hafter.
  destruct Hafter as [_ Hothers].
  destruct (Hothers r Hinr) as [_ Hno].
  { rewrite Hidr.
    apply (halted_is_not task in_review Hget Hst) with (rc := r);
      [discriminate|discriminate|assumption|assumption]. }
  rewrite <- Hidr. apply Hno.
  intros [_ (_ & _ & _ & Hall)].
  destruct (Hall d halted_prerequisite) as [E|(t & Ht & Eid & _ & Hs)].
  - apply (halted_is_not task in_review Hget Hst) with (c := d) (rc := rd);
      [discriminate|discriminate|assumption|assumption|assumption].
  - destruct (getTask_Some _ _ _ Hrd) as [Hidd Hind].
    assert (t = rd) as -> by (apply (same_id_same_row db Hpk); congruence).
    destruct Hwaits; congruence.
Qed.

(** One request leaves the row halted. *)
Lemma run_keeps_halted git slugify resolve op env :
  exists r', Queries.getTask (run git slugify resolve op env db) x = Some r'
             /\ halted r'.
Proof.
  destruct op as [input|task_id|input|input|input|input];
    try (exists r; split; [|assumption]; cbn [run];
           first [apply complete_keeps_halted|apply merge_keeps_halted]).
  all: match goal with
       | |- context [run _ _ _ ?op _ _] =>
           destruct (service_transition git slugify resolve env db x r Hr
                       (keyed_ids _ Hkeyed) op) as (r' & Hr' & Htr)
       end;
    exists r'; (split; [exact Hr'|]);
    (destruct Htr as [->|(u & -> & Hal)]; [assumption|]);
    cbn [allowed] in Hal; unfold halted in *;
    cbn [Queries.apply_updates Task.status];
    repeat match goal with H : _ /\ _ |- _ => destruct H end.
  - destruct Hhalted; congruence.
  - destruct Hhalted; congruence.
  - match goal with H : TaskUpdates.status _ = None |- _ => rewrite H end.
    cbn [nullish]. assumption.
  - match goal with H : TaskUpdates.status _ = Some _ |- _ => rewrite H end.
    cbn [nullish]. right. reflexivity.
Qed.

End Halted.

Lemma deadlocked_run git slugify resolve op env db waiting :
  keyed db -> deadlocked db waiting ->
  keyed (run git slugify resolve op env db)
  /\ deadlocked (run git slugify resolve op env db) waiting.
Proof.
  intros Hk Hd. pose proof (run_keeps_store git slugify resolve op env db) as Hkeeps.
  split; [eapply keeps_keyed; eassumption|].
  intros c Hc. destruct (Hd c Hc) as (r & d & Hr & Hh & Hwd & Hdep).
  destruct (Hd d Hwd) as (rd & _ & Hrd & Hhd & _).
  destruct (run_keeps_halted db c d r rd Hk Hr Hh Hdep Hrd Hhd git slugify resolve op env)
    as (r' & Hr' & Hh').
  exists r', d. split; [assumption|]. split; [assumption|]. split; [assumption|].
  unfold depends. rewrite (keeps_dependencies _ _ _ Hkeeps). assumption.
Qed.

Lemma deadlocked_run_all slugify resolve requests :
  forall db waiting,
    keyed db -> deadlocked db waiting ->
    deadlocked (run_all slugify resolve requests db) waiting.
Proof.
  induction requests as [|[[git op] env] rest IH]; intros db waiting Hk Hd;
    cbn [run_all]; [assumption|].
  destruct (deadlocked_run git slugify resolve op env db waiting Hk Hd) as [Hk' Hd'].
  apply IH; assumption.
Qed.

Lemma halted_not_claimable db c r :
  Queries.getTask db c = Some r -> halted r ->
  forall agent env,
    exists out,
      TaskService.claimTask
        {| TaskService.claim_task_id := c; TaskService.claim_agent_id := agent |} env db
      = (Ok out, db)
      /\ TaskService.claim_success out = false.
Proof.
  intros Hr Hh agent env.
  destruct (claimTask_outcome db
              {| TaskService.claim_task_id := c; TaskService.claim_agent_id := agent |} env)
    as [(_ & out & message & Hrun & Hs & _)|((t & Ht & Hp & _) & _)].
  - exists out. split; assumption.
  - exfalso. cbn [TaskService.claim_task_id] in Ht. rewrite Hr in Ht. injection Ht as <-.
    destruct Hh; congruence.
Qed.

(** X27.  Tasks that wait for each other never get going.  In a store
    with distinct task ids and no empty group id, take any set of tasks
    each of which is [blocked] or [failed] and has a stored prerequisite in
    the set.  After any sequence of [claim_task], [start_task],
    [update_progress], [complete_task], [merge_task] and [cleanup_task]
    requests, with whatever git and arguments, every task of the set is
    still there and still [blocked] or [failed], and [claim_task] on it is
    declined and leaves the store as it is. *)
Theorem deadlocked_tasks_stay_halted (slugify : string -> string)
    (resolve : string -> string -> string -> string)
    (requests : list (GitService * Operation * Env)) (db : DB)
    (waiting : string -> Prop) :
  keyed db -> deadlocked db waiting ->
  forall c, waiting c ->
    let db' := run_all slugify resolve requests db in
    (exists r, Queries.getTask db' c = Some r /\ halted r)
    /\ (forall agent env,
          exists out,
            TaskService.claimTask
              {| TaskService.claim_task_id := c; TaskService.claim_agent_id := agent |}
              env db'
            = (Ok out, db')
            /\ TaskService.claim_success out = false).
Proof.
  intros Hk Hd c Hc. cbv zeta.
  destruct (deadlocked_run_all slugify resolve requests db waiting Hk Hd c Hc)
    as (r & d & Hr & Hh & _).
  split; [exists r; split; assumption|].
  apply (halted_not_claimable _ c r Hr Hh).
Qed.

Lemma deadlocked_tasks_stay_halted_witness :
  exists r,
    Queries.getTask
      (run_all Scenario.slugify Scenario.resolve
         [ (Scenario.git_quiet,
            ClaimTask {| TaskService.claim_task_id := "t1";
                         TaskService.claim_agent_id := None |},
            Scenario.env);
           (Scenario.git_quiet,
            CompleteTask {| TaskService.complete_task_id := "t2";
                            TaskService.complete_summary := "done";
                            TaskService.complete_files_changed := [] |},
            Scenario.env);
           (Scenario.git_quiet,
            CleanupTask {| TaskService.cleanup_task_id := "t1";
                           TaskService.cleanup_reason := None |},
            Scenario.env) ]
         Scenario.knot) "t2" = Some r
    /\ halted r.
Proof.
  refine (proj1 (deadlocked_tasks_stay_halted Scenario.slugify Scenario.resolve _
                   Scenario.knot (fun c => c = "t1" \/ c = "t2") _ _ "t2" _)).
  - split.
    + simpl. repeat constructor; simpl; intuition discriminate.
    + simpl. intros t [<-|[<-|[]]]; discriminate.
  - intros c [-> | ->].
    + exists (Scenario.task "t1" 1 "schema" blocked 0), "t2".
      split; [reflexivity|]. split; [left; reflexivity|]. split; [right; reflexivity|].
      simpl. left. reflexivity.
    + exists (Scenario.task "t2" 2 "api" blocked 0), "t1".
      split; [reflexivity|]. split; [left; reflexivity|]. split; [left; reflexivity|].
      simpl. right. left. reflexivity.
  - right. reflexivity.
Defined.

(** Task [i] of the plan leads, along the listed numbers that name a
    task, to a task that reaches itself. *)
Definition reaches_cycle (inputs : list TaskService.TaskInput) (i : nat) : Prop :=
  exists j, rtc (refers inputs) i j /\ tc (refers inputs) j j.

Lemma reaches_cycle_step inputs i :
  reaches_cycle inputs i -> exists k, refers inputs i k /\ reaches_cycle inputs k.
Proof.
  intros (j & Hij & Hj). destruct Hij as [i|i k j Hik Hkj].
  - inversion Hj as [? ? H|? k ? H Hk]; subst.
    + exists i. split; [assumption|]. exists i. split; [apply rtc_refl|assumption].
    + exists k. split; [assumption|]. exists k. split; [apply rtc_refl|].
      eapply tc_r; eassumption.
  - exists k. split; [assumption|]. exists j. split; assumption.
Qed.

(** X28.  [createTasks] stores a plan with a dependency cycle, and the
    tasks concerned are then out of reach for good.  On a store with
    distinct task ids and no empty group id, with generated ids that are
    new, distinct and not empty: after [createTasks], and then after any
    sequence of [claim_task], [start_task], [update_progress],
    [complete_task], [merge_task] and [cleanup_task] requests, every task
    of the plan that lies on a cycle of listed numbers, or leads to one, is
    still [blocked] or [failed], and [claim_task] on it is declined. *)
Theorem createTasks_cycle_never_starts (input : TaskService.CreateTasksInput)
    (env : TaskService.CreateEnv) (db : DB) (slugify : string -> string)
    (resolve : string -> string -> string -> string) :
  let inputs := TaskService.input_tasks input in
  let n := length inputs in
  keyed db ->
  TaskService.uuid_group env <> EmptyString ->
  ~ In (TaskService.uuid_group env) (map TaskGroup.id (task_groups db)) ->
  (forall i, (i < n)%nat ->
             TaskService.uuid_task env i <> EmptyString
             /\ ~ In (TaskService.uuid_task env i) (map Task.id (tasks db))) ->
  (forall i j, (i < n)%nat -> (j < n)%nat ->
               TaskService.uuid_task env i = TaskService.uuid_task env j -> i = j) ->
  exists out db',
    TaskService.createTasks input env db = (Ok out, db')
    /\ forall i requests,
         reaches_cycle inputs i ->
         let later := run_all slugify resolve requests db' in
         (exists r, Queries.getTask later (TaskService.uuid_task env i) = Some r
                    /\ halted r)
         /\ (forall agent env',
               exists declined,
                 TaskService.claimTask
                   {| TaskService.claim_task_id := TaskService.uuid_task env i;
                      TaskService.claim_agent_id := agent |} env' later
                 = (Ok declined, later)
                 /\ TaskService.claim_success declined = false).
Proof.
  intros inputs n Hkeyed Hgid Hgroup Hfresh Hdistinct.
  destruct (createTasks_run input env db Hgroup Hfresh Hdistinct)
    as (db' & Hrun & _ & Hrows & _ & Hdeps & Hcols).
  fold inputs n in Hrun, Hrows, Hdeps, Hcols.
  eexists. exists db'. split; [exact Hrun|].
  assert (Hkeyed' : keyed db').
  { destruct Hkeyed as [Hpk Hg].
    destruct (fixed_columns_keyed _ _ Hcols) as [Hids Hgroups]. split.
    - rewrite Hids, map_app. apply List.NoDup_app.
      + assumption.
      + apply (new_rows_NoDup env (TaskService.uuid_group env) n Hdistinct inputs 0).
        apply Nat.le_refl.
      + intros x Hx Hnew. apply new_rows_ids in Hnew. destruct Hnew as (k & Hk & ->).
        apply (Hfresh k Hk) in Hx. exact Hx.
    - apply Hgroups. intros t Hin. apply in_app_or in Hin. destruct Hin as [Hin|Hin].
      + apply Hg. assumption.
      + rewrite (new_rows_groups env _ inputs 0 t Hin). assumption. }
  set (waiting := fun c => exists i, c = TaskService.uuid_task env i
                                     /\ reaches_cycle inputs i).
  assert (Hdead : deadlocked db' waiting).
  { intros c (i & -> & Hi).
    destruct (reaches_cycle_step inputs i Hi) as (k & (t & Hnth & Hk & Hin) & Hkc).
    assert (Hpre : has_prerequisite n t = true).
    { unfold has_prerequisite. apply existsb_exists. exists (Z.of_nat k + 1).
      split; [assumption|]. unfold names_task. fold n in Hk.
      destruct (Z.leb_spec 1 (Z.of_nat k + 1)); [|lia].
      destruct (Z.leb_spec (Z.of_nat k + 1) (Z.of_nat n)); [reflexivity|lia]. }
    assert (Hi' : (i < n)%nat) by (apply nth_error_Some; fold inputs; congruence).
    pose proof (new_rows_find env (TaskService.uuid_group env) n Hdistinct inputs 0 i t
                  (Nat.le_refl _) Hnth) as Hfind.
    pose proof (marks_blocked_index env n Hdistinct inputs 0 i t (Nat.le_refl _) Hnth)
      as Hmark.
    cbn [Nat.add] in Hfind, Hmark.
    eexists. exists (TaskService.uuid_task env k). split.
    { rewrite Hrows, find_app_first, find_id_absent by (apply Hfresh; assumption).
      rewrite Hfind, Hmark, Hpre. reflexivity. }
    split; [left; reflexivity|]. split; [exists k; split; [reflexivity|assumption]|].
    apply (Hdeps i t _ Hnth). apply resolved_In. exists (Z.of_nat k + 1).
    split; [assumption|]. split.
    - unfold names_task. fold n in Hk.
      destruct (Z.leb_spec 1 (Z.of_nat k + 1)); [|lia].
      destruct (Z.leb_spec (Z.of_nat k + 1) (Z.of_nat n)); [reflexivity|lia].
    - f_equal. lia. }
  intros i requests Hi. cbv zeta.
  destruct (deadlocked_run_all slugify resolve requests db' waiting Hkeyed' Hdead
              (TaskService.uuid_task env i)) as (r & d & Hr & Hh & _).
  { exists i. split; [reflexivity|assumption]. }
  split; [exists r; split; assumption|].
  apply (halted_not_claimable _ _ r Hr Hh).
Qed.

Lemma createTasks_cycle_never_starts_witness :
  exists out db' r,
    TaskService.createTasks Scenario.plan Scenario.plan_env Scenario.fan = (Ok out, db')
    /\ Queries.getTask
         (run_all Scenario.slugify Scenario.resolve
            [ (Scenario.git_quiet,
               CompleteTask {| TaskService.complete_task_id := "t1";
                               TaskService.complete_summary := "done";
                               TaskService.complete_files_changed := [] |},
               Scenario.env);
              (Scenario.git_quiet,
               ClaimTask {| TaskService.claim_task_id := "n3";
                            TaskService.claim_agent_id := None |},
               Scenario.env) ]
            db') "n3" = Some r
    /\ halted r.
Proof.
  destruct (createTasks_cycle_never_starts Scenario.plan Scenario.plan_env Scenario.fan
              Scenario.slugify Scenario.resolve)
    as (out & db' & Hrun & Hlater).
  { split.
    - simpl. repeat constructor; simpl; intuition discriminate.
    - simpl. intros t [<-|[<-|[<-|[<-|[]]]]]; discriminate. }
  { discriminate. }
  { simpl. intros [H|[]]. discriminate H. }
  { intros [|[|[|i]]] Hi; try (simpl in Hi; lia); (split; [vm_compute; discriminate|]);
      vm_compute; intuition discriminate. }
  { intros [|[|[|i]]] [|[|[|j]]] Hi Hj E; try reflexivity; try (simpl in Hi, Hj; lia);
      vm_compute in E; discriminate E. }
  edestruct (Hlater 2%nat) as [(r & Hr & Hh) _].
  { exists 2%nat. split; [apply rtc_refl|]. apply tc_once.
    eexists. split; [reflexivity|]. split; [simpl; lia|]. simpl. left. reflexivity. }
  exists out, db', r. split; [exact Hrun|]. split; [exact Hr|exact Hh].
Defined.
